(* ===== verification/_CoqProject ===== *)
-Q . S2P
Prelude.v
GoStrings.v
Api.v
Ebpf.v
EbpfFacts.v
World.v
Resources.v
Util.v
Cgroup.v
CgroupV2.v
DeviceAccess.v
Interleaving.v
ConcurrentRules.v
ConcurrentAccess.v
Framework.v
MounterUtil.v
Server.v
ServerFacts.v
ErrorCodes.v
NodeEffect.v
Controller.v
Watchdog.v
MounterCommon.v
VgpuCache.v
VgpuFacts.v
Vgpu.v
Gpu.v
GpuFacts.v
Npu.v
Mounters.v
MounterErrors.v
ServerBusy.v
MounterSymmetry.v
AuthConfig.v
FakeReader.v
ApiServer.v
ApiServerFacts.v
ApiRoutes.v
TlsConfig.v
FileWatch.v
PodResources.v
Versions.v
KubeClient.v
ApiMain.v
Process.v
Startup.v
