(* ===== verification/Prelude.v ===== *)
(** * device-mounter: a verification library

    device-mounter adds devices to the containers of running pods and takes them
    away again. An HTTP service (cmd/apiserver) authenticates a request and
    forwards it to the mounter on the node of the pod (cmd/mounter). The mounter
    lets Kubernetes allocate the device to a _slave pod_, opens the device cgroup
    of the container for it, and makes its file in the container; unmounting goes
    the same way back. Around it, a controller protects the metadata of slave
    pods and a labeller tells the scheduler which kinds of device a node has.

    ** How the sources are modelled

    A function without effects is a function here, under its name in the source
    ([Ebpf.AppendRule] is [AppendRule] of pkg/util/ebpf/device.go); the doc
    comments name the parts that a long function is split into. An effect is a
    call of the environment ([World.cmd], with its answer in [World.reply]), and
    code with effects a program over these calls ([World.M]); a theorem about a
    program holds for every environment, that is for all answers in any order,
    and speaks of the result and of the trace of calls ([wp] below). An error is
    a value ([goerr], [result]), a panic an [outcome], an early return of a
    handler an exit of the monad [Server.att], a deferred function a step after
    it. Integers have their width where they can wrap ([wrapU], [wrapS]). A
    [range] over a map is any enumeration of it ([Util.RangeLib]).

    Third-party code is a class: cilium/ebpf's assembler ([Ebpf.AsmLib]), runc's
    device emulator ([Cgroup.EmulatorLib]), client-go's retry and poll
    ([World.ClientLib]), JSON, quantities, crypto, the Ascend device plugin
    ([Npu.AscendLib]). Where a theorem needs it, its documented behaviour is a
    class of laws, with an instance that satisfies them.

    ** Files, in order

    - Prelude: errors, panics, programs and their weakest preconditions, machine
      integers, notations, the hint database [go]. GoStrings: Go's [strings],
      [strconv] and [path]. Api: the data (pkg/api, pkg/config).
    - Ebpf, EbpfFacts: the editor of device filters (pkg/util/ebpf/device.go).
    - World, Resources: the environment; acquiring and releasing ([balanced]).
    - Util (pkg/util/util.go), Cgroup (cgroup.go: nsenter, device files, cgroup
      paths, rules of cgroup v1), CgroupV2 (cgroupv2.go); DeviceAccess: the
      editor and cgroup v2 together, down to the kernel's answers.
    - Interleaving: pools of programs that arrive and interleave over a state;
      ConcurrentRules: the rule changes of one cgroup in such a pool, over a
      kernel that holds the programs; ConcurrentAccess: what is granted after.
    - Framework (pkg/framework): the interface [DeviceMounter] and its registry.
    - MounterUtil, Server (pkg/server/mounter): the steps and the two handlers;
      ServerFacts, ServerBusy: theorems about them, against interfaces of the
      mounters ([ServerFacts.benign_mounter], [ServerBusy.looking_mounter],
      [ErrorCodes.honest_mounter]); ErrorCodes: a failure is never answered with
      the code of success; NodeEffect: what a request leaves behind on the node.
    - Controller (pkg/controller), Watchdog (pkg/watchdog).
    - MounterCommon, VgpuCache, VgpuFacts, Vgpu (pkg/devices/volcano/vgpu), Gpu,
      GpuFacts (pkg/devices/nvidia/gpu), Npu (pkg/devices/ascend/npu): the three
      implementations; Mounters (pkg/devices/factory.go), MounterErrors: they
      meet the interfaces; MounterSymmetry: mounting against unmounting.
    - AuthConfig (pkg/authConfig) with the interface [ReaderOps], FakeReader
      (its test double); ApiServer, ApiServerFacts (pkg/server/apiserver);
      ApiRoutes (the routes of cmd/apiserver/main.go and the documents of
      pkg/api/v1alpha1); TlsConfig (pkg/tlsconfig); FileWatch (pkg/filewatch);
      ApiMain (cmd/apiserver/main.go: the connections).
    - PodResources (pkg/client/pod_resources.go), Versions (pkg/versions),
      KubeClient (pkg/client/kube_client.go and kube_exec.go), Process
      (cmd/mounter/main.go: the goroutines as a transition system); Startup:
      both [main] functions as programs, the mounter's up to its [select].

    ** What is shown

    - Device filters: [AppendRule] implements an overwrite-or-append update of a
      list of device entries; the finalized program decides by the first entry;
      mounting then unmounting gives the program of unmounting alone; and the
      programs on which editing fails or panics.
    - Rule changes: a change without an error has installed exactly the edited
      rules (v1: written and read back; v2: attached), exchanging a filter never
      leaves a cgroup without one, and what the rollbacks restore. Under v2 the
      kernel then grants the devices of the rules as the rules say, and decides
      all others as before (on a table of device entries without duplicates and
      shadowing; [EbpfFacts] shows what goes wrong otherwise).
    - Concurrency: rule changes of one container with BPF_F_REPLACE serialise.
      However the bpf(2) calls of any number of requests interleave and fail,
      the attached program is the initial one edited once by each request that
      succeeded, in an order that agrees with real time, and devices are decided
      accordingly. The instructions that a program is built of carry metadata
      that those read back from the kernel lack ([Ebpf.as_read], [Ebpf.shown]), so
      the comparison of a request with what is attached is made on what the
      kernel shows. Rollbacks are outside of this order.
    - The mounter server: an unsuccessful mount deletes the pods it created, all
      descriptors are closed; a mount (unmount) that reports success has its rule change in
      force, down to the kernel, before it makes (removes) the files of exactly
      its devices; without force nothing is changed before the mounter has found
      the devices idle. Slave pods are what the server wants whatever the
      patches of a request say, and the controller restores their metadata.
    - The mounters: every registered mounter releases all it acquires on every
      path, panics included, and fails with codes of failures only; an unmount
      denies what the mount allowed; the loops over the shared vGPU region
      terminate, an expansion can be rolled back, an unmount leaves holes; the
      GPU collector implements the replacement of its allocations.
    - The labeller converges to exactly the labels of the registered types.
    - The HTTP service: only authenticated requests get past it, a success is the
      answer of a ready mounter on the pod's node, the authentication cache is
      one revision, and connections get the configuration of the last reloads,
      with verified client certificates, from the start of the process on. A
      handler is reached exactly by the PUTs of its action, with the pod of the
      path, and the discovery documents agree with the routes.
    - The client: the shared configuration is built once and never changed
      through its copies, and each client gets it with its own options; if that
      fails, every later use panics.
    - The processes: the calls of the mounter's start are those of a run of the
      transition system ([Startup.performs], [Startup.boots]); that ends with a
      failed start, an orderly shutdown, which never gets stuck, or the panic of
      a request's handler; the
      apiserver listens only when its client and authentication are ready.

    Theorems that state a defect (the rollback of a filter without BPF_F_REPLACE,
    the metadata cache that keeps the first entry, the holes in the vGPU region,
    the redial that is final) say what the code does.

    ** Bounds

    Structural recursion and Z carry most of the code. Fuel appears in three
    places. The loops over a vGPU region take seventeen turns: the seventeenth
    leaves the sixteen slots and panics, so that no count needs more
    (VgpuFacts). Loops that end with the process
    ([Watchdog.Start], [Controller.worker], [PodResources.monitorConnection],
    [FileWatch.processEvents]) are unrolled for any number [n] of turns, and the
    theorems hold for all [n]. Retries and polls are not unrolled: the laws of
    [World.ClientLib] relate a run to the attempts it is made of, and
    [World.bounded] is an instance that gives up after a number of attempts.

    ** Not modelled

    Generated code (the pb.go files of pkg/api). Of both [main] functions the
    parsing of flags, the construction of informers and the event recorder, and
    the registration of routes with the global container; logging (but for the
    output of commands); sleeps and resync periods. go-restful chooses a route as
    a class ([ApiRoutes.RestfulLib]) whose laws say that the choice fits method
    and path. Unicode beyond ASCII is left out of the string functions. Data
    races are not modelled: a mutex makes the section it guards atomic, and what
    other goroutines do in between shows in the answers of the environment.

    ** Plan

    Next: concurrent rule changes without BPF_F_REPLACE, where the exchange is
    not atomic, and two requests for one pod interleaved on slave pods and
    informers. *)
From stdpp Require Import base gmap strings list fin_maps.
From Stdlib Require Import ZArith Lia.

Declare Scope go_scope.
Delimit Scope go_scope with go.
Open Scope go_scope.

#[global] Arguments String.append !s1 s2 : simpl nomatch.

(** ** Hint database of the development *)

Create HintDb go discriminated.
Create Rewrite HintDb go.

(** ** Result codes and error values

    [ResultCode] is the enumeration of [api.proto]; [goerr] is what a Go [error]
    can be as far as the code under verification distinguishes errors: it tests
    for [*api.MounterError] by type assertion and for the API server's NotFound
    status with [apierror.IsNotFound]; every other error is only printed. *)

Inductive ResultCode :=
  | ResultCode_Success
  | ResultCode_Fail
  | ResultCode_Insufficient
  | ResultCode_NotFound
  | ResultCode_DeviceBusy
  | ResultCode_Invalid
  | ResultCode_Unknown.

#[export] Instance ResultCode_eq_dec : EqDecision ResultCode.
Proof. solve_decision. Defined.

Inductive goerr :=
  | MounterError (Code : ResultCode) (Message : string)
  | NotFoundError (msg : string)
  | PlainError (msg : string).

#[export] Instance goerr_eq_dec : EqDecision goerr.
Proof. solve_decision. Defined.

(** [err.Error()]. *)
Definition Error (e : goerr) : string :=
  match e with
  | MounterError _ m => m
  | NotFoundError m => m
  | PlainError m => m
  end.

(** [apierror.IsNotFound(err)], false on a nil error. *)
Definition IsNotFound (e : goerr) : bool :=
  match e with NotFoundError _ => true | _ => false end.

(** [_, ok := err.( *api.MounterError)]. *)
Definition is_MounterError (e : goerr) : bool :=
  match e with MounterError _ _ => true | _ => false end.

(** [fmt.Errorf("prefix%v", err)]: the text is kept, the kind of error is not. *)
Definition wrap_err (prefix : string) (e : goerr) : goerr :=
  PlainError (String.append prefix (Error e)).

Inductive result (A : Type) :=
  | Ok (a : A)
  | Err (e : goerr).
Arguments Ok {A} a.
Arguments Err {A} e.

#[export] Instance result_eq_dec {A} `{!EqDecision A} : EqDecision (result A).
Proof. solve_decision. Defined.

#[export] Instance result_ret : MRet result := λ A a, Ok a.
#[export] Instance result_bind : MBind result :=
  λ A B f m, match m with Ok a => f a | Err e => Err e end.

Definition is_Ok {A} (r : result A) : bool :=
  match r with Ok _ => true | Err _ => false end.

Definition err_of {A} (r : result A) : option goerr :=
  match r with Ok _ => None | Err e => Some e end.

Lemma result_bind_Ok {A B} (f : A → result B) m b :
  (m ≫= f) = Ok b ↔ ∃ a, m = Ok a ∧ f a = Ok b.
Proof. destruct m; naive_solver. Qed.

(** A Go function that indexes a slice out of range, writes to a nil map or
    calls [panic] does not return: [outcome] separates that from an error. *)
Inductive outcome (A : Type) :=
  | Returns (a : A)
  | Panics (why : string).
Arguments Returns {A} a.
Arguments Panics {A} why.

#[export] Instance outcome_eq_dec {A} `{!EqDecision A} : EqDecision (outcome A).
Proof. solve_decision. Defined.

#[export] Instance outcome_ret : MRet outcome := λ A a, Returns a.
#[export] Instance outcome_bind : MBind outcome :=
  λ A B f m, match m with Returns a => f a | Panics w => Panics w end.

Definition is_panic {A} (o : outcome A) : bool :=
  match o with Returns _ => false | Panics _ => true end.

Lemma outcome_bind_Returns {A B} (f : A → outcome B) m b :
  (m ≫= f) = Returns b ↔ ∃ a, m = Returns a ∧ f a = Returns b.
Proof. destruct m; naive_solver. Qed.

(** [x[i]] on a Go slice. *)
Definition slice_get {A} (l : list A) (i : nat) : outcome A :=
  match l !! i with
  | Some x => Returns x
  | None => Panics "index out of range"
  end.

(** [x[i] = v] on a Go slice or array. *)
Definition slice_set {A} (l : list A) (i : nat) (v : A) : outcome (list A) :=
  if decide (i < length l) then Returns (<[i := v]> l)
  else Panics "index out of range".

Lemma slice_get_lt {A} (l : list A) i :
  i < length l → ∃ x, slice_get l i = Returns x ∧ l !! i = Some x.
Proof.
  intros Hi. destruct (lookup_lt_is_Some_2 l i Hi) as [x Hx].
  exists x. unfold slice_get. by rewrite Hx.
Qed.

Lemma slice_set_lt {A} (l : list A) i v :
  i < length l → slice_set l i v = Returns (<[i := v]> l).
Proof. intros Hi. unfold slice_set. by rewrite decide_True. Qed.

(** ** Programs that talk to their environment

    The server calls the API server, the kernel, the container runtime and so
    on. [prog] is a program over a type [cmd] of such calls with answers
    [reply c]; [run] executes one against an environment that may choose every
    answer from everything that happened before, and returns the calls made
    with their answers. Theorems quantify over the environment, so they hold
    for every failure at every call. *)

Section Prog.
Context {cmd : Type} {reply : cmd → Type}.

Inductive prog (A : Type) : Type :=
  | Done (a : A)
  | Vis (c : cmd) (k : reply c → prog A).
Arguments Done {A} a.
Arguments Vis {A} c k.

Fixpoint prog_bind_fix {A B} (f : A → prog B) (p : prog A) : prog B :=
  match p with
  | Done a => f a
  | Vis c k => Vis c (λ r, prog_bind_fix f (k r))
  end.

Record event := Ev { ev_cmd : cmd; ev_reply : reply ev_cmd }.

Definition environment := list event → ∀ c, reply c.

Fixpoint run {A} (e : environment) (h : list event) (p : prog A) : A * list event :=
  match p with
  | Done a => (a, [])
  | Vis c k =>
      let ev := Ev c (e h c) in
      let '(a, t) := run e (h ++ [ev]) (k (e h c)) in
      (a, ev :: t)
  end.

(** [wp e h p Q]: running [p] after [h] ends in a value and a list of calls
    that satisfy [Q]. Programs are finite trees, so this is total correctness. *)
Definition wp {A} (e : environment) (h : list event) (p : prog A)
    (Q : A → list event → Prop) : Prop :=
  let '(a, t) := run e h p in Q a t.

Lemma run_bind {A B} e h (f : A → prog B) p :
  run e h (prog_bind_fix f p) =
    (let '(a, t) := run e h p in
     let '(b, t') := run e (h ++ t) (f a) in (b, t ++ t')).
Proof.
  revert h. induction p as [a | c k IH]; intros h; simpl.
  - rewrite app_nil_r. by destruct (run e h (f a)).
  - rewrite IH. destruct (run e (h ++ [_]) (k _)) as [a t].
    rewrite <- app_assoc. simpl. by destruct (run e _ (f a)).
Qed.

Lemma wp_done {A} e h (a : A) (Q : A → list event → Prop) :
  Q a [] → wp e h (Done a) Q.
Proof. done. Qed.

Lemma wp_vis {A} e h c (k : reply c → prog A) (Q : A → list event → Prop) :
  (∀ r, wp e (h ++ [Ev c r]) (k r) (λ a t, Q a (Ev c r :: t))) →
  wp e h (Vis c k) Q.
Proof.
  unfold wp. simpl. intros H. specialize (H (e h c)).
  by destruct (run e (h ++ [_]) (k (e h c))).
Qed.

(** The same with the answer that [e] gives. *)
Lemma wp_vis_at {A} e h c (k : reply c → prog A) (Q : A → list event → Prop) :
  wp e (h ++ [Ev c (e h c)]) (k (e h c)) (λ a t, Q a (Ev c (e h c) :: t)) →
  wp e h (Vis c k) Q.
Proof. unfold wp. simpl. by destruct (run e (h ++ [_]) (k (e h c))). Qed.

Lemma wp_bind {A B} e h (f : A → prog B) p (Q : B → list event → Prop) :
  wp e h p (λ a t, wp e (h ++ t) (f a) (λ b t', Q b (t ++ t'))) →
  wp e h (prog_bind_fix f p) Q.
Proof.
  unfold wp. rewrite run_bind. destruct (run e h p) as [a t].
  by destruct (run e (h ++ t) (f a)).
Qed.

Lemma wp_mono {A} e h (p : prog A) (Q R : A → list event → Prop) :
  (∀ a t, Q a t → R a t) → wp e h p Q → wp e h p R.
Proof. unfold wp. destruct (run e h p). auto. Qed.

Lemma wp_and {A} e h (p : prog A) (Q R : A → list event → Prop) :
  wp e h p Q → wp e h p R → wp e h p (λ a t, Q a t ∧ R a t).
Proof. unfold wp. destruct (run e h p). auto. Qed.

Lemma wp_true {A} e h (p : prog A) : wp e h p (λ _ _, True).
Proof. unfold wp. by destruct (run e h p). Qed.

(** Every call a program can make satisfies [P], whatever the answers. *)
Inductive only (P : cmd → Prop) {A} : prog A → Prop :=
  | only_done a : only P (Done a)
  | only_vis c k : P c → (∀ r, only P (k r)) → only P (Vis c k).

Lemma only_bind {A B} P (f : A → prog B) p :
  only P p → (∀ a, only P (f a)) → only P (prog_bind_fix f p).
Proof. induction 1; simpl; [auto | constructor; auto]. Qed.

Lemma only_mono {A} (P Q : cmd → Prop) (p : prog A) :
  (∀ c, P c → Q c) → only P p → only Q p.
Proof. intros HPQ. induction 1; constructor; auto. Qed.

Lemma only_wp {A} P (p : prog A) e h :
  only P p → wp e h p (λ _ t, Forall (λ ev, P (ev_cmd ev)) t).
Proof.
  intros H. revert h. induction H as [a | c k Hc _ IH]; intros h.
  - apply wp_done. constructor.
  - apply wp_vis. intros r. eapply wp_mono; [| apply IH]. simpl.
    intros _ t Ht. by constructor.
Qed.

End Prog.

Arguments prog {cmd} reply A.
Arguments event {cmd} reply.
Arguments environment {cmd} reply.
Arguments Done {cmd reply A} a.
Arguments Vis {cmd reply A} c k.
Arguments Ev {cmd reply} ev_cmd ev_reply.

#[export] Instance prog_ret {cmd} {reply : cmd → Type} : MRet (prog reply) :=
  λ A a, Done a.
#[export] Instance prog_bind {cmd} {reply : cmd → Type} : MBind (prog reply) :=
  λ A B f p, prog_bind_fix f p.

(** One call. *)
Definition call {cmd} {reply : cmd → Type} (c : cmd) : prog reply (reply c) :=
  Vis c Done.

(** Early return on an error: Go's [if err != nil { return }]. *)
Definition try_bind {cmd} {reply : cmd → Type} {A B}
    (m : prog reply (result A)) (f : A → prog reply (result B)) :
    prog reply (result B) :=
  prog_bind_fix (λ r, match r with Ok a => f a | Err e => Done (Err e) end) m.

(** A panic unwinds past the rest of the function. *)
Definition panic_bind {cmd} {reply : cmd → Type} {A B}
    (m : prog reply (outcome A)) (f : A → prog reply (outcome B)) :
    prog reply (outcome B) :=
  prog_bind_fix (λ o, match o with Returns a => f a | Panics w => Done (Panics w) end) m.

(** Both: the error is returned, the panic unwinds. *)
Definition panic_try_bind {cmd} {reply : cmd → Type} {A B}
    (m : prog reply (outcome (result A))) (f : A → prog reply (outcome (result B))) :
    prog reply (outcome (result B)) :=
  panic_bind m (λ r, match r with Ok a => f a | Err e => Done (Returns (Err e)) end).

(** A program that does not panic, and a computation without calls. *)
Definition total {cmd} {reply : cmd → Type} {A} (m : prog reply A) : prog reply (outcome A) :=
  prog_bind_fix (λ a, Done (Returns a)) m.
Definition pure {cmd} {reply : cmd → Type} {A} (o : outcome A) : prog reply (outcome A) :=
  Done o.

Notation "x <-? m ;; k" := (panic_bind m (λ x, k))
  (at level 100, m at next level, k at level 200, right associativity) : go_scope.
Notation "x <-?! m ;; k" := (panic_try_bind m (λ x, k))
  (at level 100, m at next level, k at level 200, right associativity) : go_scope.
Notation "x <-! m ;; k" := (try_bind m (λ x, k))
  (at level 100, m at next level, k at level 200, right associativity) : go_scope.
Notation "x <-- m ;; k" := (prog_bind_fix (λ x, k) m)
  (at level 100, m at next level, k at level 200, right associativity) : go_scope.

#[export] Hint Constructors only : go.
#[export] Hint Resolve wp_done wp_true only_bind : go.

(** Splits a [bind] or a call off the goal's program. *)
Ltac wp_step :=
  lazymatch goal with
  | |- wp _ _ (prog_bind_fix _ _) _ => apply wp_bind
  | |- wp _ _ (mbind _ _) _ => apply wp_bind
  | |- wp _ _ (try_bind _ _) _ => apply wp_bind
  | |- wp _ _ (panic_bind _ _) _ => apply wp_bind
  | |- wp _ _ (panic_try_bind _ _) _ => apply wp_bind
  | |- wp _ _ (total _) _ => apply wp_bind
  | |- wp _ _ (pure _) _ => apply wp_done
  | |- wp _ _ (call _) _ => apply wp_vis; intros ?; apply wp_done
  | |- wp _ _ (Vis _ _) _ => apply wp_vis; intros ?
  | |- wp _ _ (Done _) _ => apply wp_done
  | |- wp _ _ (mret _) _ => apply wp_done
  end.

(** Case analysis on the scrutinee the goal is stuck on. *)
Ltac case_goal :=
  match goal with
  | |- context [match ?x with _ => _ end] =>
      lazymatch x with
      | context [match _ with _ => _ end] => fail
      | _ => destruct x eqn:?
      end
  end.

(** ** Lists *)

Lemma existsb_elem {A} `{!EqDecision A} (x : A) l :
  existsb (λ y, bool_decide (x = y)) l = bool_decide (x ∈ l).
Proof.
  induction l as [|y l IH]; simpl; [done|]. rewrite IH.
  repeat case_bool_decide; set_solver.
Qed.

(** [slices.Contains]. *)
Definition slices_Contains {A} `{!EqDecision A} (l : list A) (x : A) : bool :=
  bool_decide (x ∈ l).

Lemma slices_Contains_true {A} `{!EqDecision A} (l : list A) x :
  slices_Contains l x = true ↔ x ∈ l.
Proof. unfold slices_Contains. by rewrite bool_decide_eq_true. Qed.

Lemma slices_Contains_false {A} `{!EqDecision A} (l : list A) x :
  slices_Contains l x = false ↔ x ∉ l.
Proof. unfold slices_Contains. by rewrite bool_decide_eq_false. Qed.

Lemma list_insert_middle {A} (l1 : list A) x y l2 i :
  i = length l1 → <[i := y]> (l1 ++ x :: l2) = l1 ++ y :: l2.
Proof. intros ->. rewrite insert_app_r_alt by done. by rewrite Nat.sub_diag. Qed.

(** ** Machine integers *)

Lemma bool_decide_Zeqb (a b : Z) : bool_decide (a = b) = (a =? b)%Z.
Proof. destruct (Z.eqb_spec a b); case_bool_decide; congruence. Qed.

(** The value of a [w]-bit unsigned integer after wrap-around. *)
Definition wrapU (w : Z) (z : Z) : Z := z `mod` 2 ^ w.
(** The value of a [w]-bit two's complement integer after wrap-around. *)
Definition wrapS (w : Z) (z : Z) : Z := (z + 2 ^ (w - 1)) `mod` 2 ^ w - 2 ^ (w - 1).

Lemma wrapU_range w z : (0 ≤ w)%Z → (0 ≤ wrapU w z < 2 ^ w)%Z.
Proof. intros. unfold wrapU. apply Z.mod_pos_bound. by apply Z.pow_pos_nonneg. Qed.

Lemma wrapU_small w z : (0 ≤ z < 2 ^ w)%Z → wrapU w z = z.
Proof. intros. unfold wrapU. by apply Z.mod_small. Qed.

Lemma wrapS_small w z :
  (0 < w)%Z → (- 2 ^ (w - 1) ≤ z < 2 ^ (w - 1))%Z → wrapS w z = z.
Proof.
  intros Hw Hz. unfold wrapS.
  assert (2 ^ w = 2 * 2 ^ (w - 1))%Z.
  { rewrite <- Z.pow_succ_r by lia. f_equal. lia. }
  rewrite Z.mod_small; lia.
Qed.

(** Adding and then subtracting the same amount is the identity on a [w]-bit
    register, whatever overflowed in between. *)
Lemma wrapU_add_sub w z d :
  (0 ≤ w)%Z → (0 ≤ z < 2 ^ w)%Z → wrapU w (wrapU w (z + d) - d) = z.
Proof.
  intros Hw Hz. unfold wrapU.
  rewrite Zminus_mod_idemp_l. replace (z + d - d)%Z with z by lia.
  by apply Z.mod_small.
Qed.
