(* ===== verification/GoStrings.v ===== *)
(** * Go's [strings], [strconv] and [path] functions

    The part of Go's standard library that the sources call on strings. A Go
    string is a sequence of bytes, here [String.string]; the functions that Go
    defines on Unicode (TrimSpace, ToUpper, ToLower, EqualFold) are modelled on
    ASCII, which is what Kubernetes names, label keys and annotation keys are
    made of. Nothing here models a line under src/: these are the definitions
    the components are written with. *)
From stdpp Require Import base strings list pretty.
From Stdlib Require Import ZArith Lia Ascii.
From S2P Require Import Prelude.


(** ** Searching, splitting, joining *)

(** [len(s) == 0]. *)
Definition str_empty (s : string) : bool := bool_decide (s = "").

(** [strings.HasPrefix(s, p)]. *)
Definition HasPrefix (s p : string) : bool := String.prefix p s.

(** [strings.TrimPrefix(s, p)]. *)
Definition TrimPrefix (s p : string) : string :=
  if HasPrefix s p then String.substring (String.length p) (String.length s - String.length p) s
  else s.

(** [strings.Contains(s, sub)]. *)
Fixpoint Contains (s sub : string) : bool :=
  HasPrefix s sub ||
  match s with
  | EmptyString => false
  | String _ s' => Contains s' sub
  end.

(** [strings.Split(s, sep)] for a non-empty [sep]: scan from the left, cut at
    every non-overlapping occurrence. [skip] counts the bytes of a separator
    still to be dropped and [cur] is the piece being read. *)
Fixpoint split_from (sep : string) (skip : nat) (cur s : string) : list string :=
  match s with
  | EmptyString => [cur]
  | String c s' =>
      match skip with
      | S k => split_from sep k cur s'
      | O =>
          if HasPrefix s sep then cur :: split_from sep (String.length sep - 1) "" s'
          else split_from sep 0 (cur +:+ String c "") s'
      end
  end.

Definition Split (s sep : string) : list string := split_from sep 0 "" s.

(** [strings.Join(l, sep)]. *)
Definition Join (l : list string) (sep : string) : string := String.concat sep l.

(** [strings.ReplaceAll(s, old, new)] for a non-empty [old]. *)
Definition ReplaceAll (s old new : string) : string := Join (Split s old) new.

(** ** ASCII case and white space *)

Definition is_space (c : ascii) : bool :=
  let n := nat_of_ascii c in ((9 <=? n) && (n <=? 13) || (n =? 32))%nat.

Fixpoint TrimLeft (s : string) : string :=
  match s with
  | EmptyString => EmptyString
  | String c s' => if is_space c then TrimLeft s' else s
  end.

Fixpoint TrimRight (s : string) : string :=
  match s with
  | EmptyString => EmptyString
  | String c s' =>
      match TrimRight s' with
      | EmptyString => if is_space c then EmptyString else String c EmptyString
      | t => String c t
      end
  end.

(** [strings.TrimSpace]. *)
Definition TrimSpace (s : string) : string := TrimRight (TrimLeft s).

Definition upper_ascii (c : ascii) : ascii :=
  let n := nat_of_ascii c in
  if ((97 <=? n) && (n <=? 122))%nat then ascii_of_nat (n - 32) else c.

Definition lower_ascii (c : ascii) : ascii :=
  let n := nat_of_ascii c in
  if ((65 <=? n) && (n <=? 90))%nat then ascii_of_nat (n + 32) else c.

Fixpoint map_string (f : ascii → ascii) (s : string) : string :=
  match s with
  | EmptyString => EmptyString
  | String c s' => String (f c) (map_string f s')
  end.

(** [strings.ToUpper], [strings.ToLower], [strings.EqualFold]. *)
Definition ToUpper : string → string := map_string upper_ascii.
Definition ToLower : string → string := map_string lower_ascii.
Definition EqualFold (s t : string) : bool := String.eqb (ToLower s) (ToLower t).

(** ** Numbers *)

(** [strconv.Itoa] and the verbs [%d], [%v] of integers. *)
Definition Itoa (z : Z) : string := pretty z.

(** [fmt.Errorf(s)] without arguments: [s] is taken for a format, so that every
    verb in it is reported as missing its argument. Flags, width and precision
    are skipped. *)
Fixpoint sprintf0 (inverb : bool) (s : string) : string :=
  match s with
  | EmptyString => if inverb then "%!(NOVERB)" else ""
  | String c t =>
      if inverb then
        if Ascii.eqb c "%" then "%" +:+ sprintf0 false t
        else if existsb (Ascii.eqb c)
                  ["0"; "1"; "2"; "3"; "4"; "5"; "6"; "7"; "8"; "9"; "."; "+"; "-"; "#"; " "]%char
        then sprintf0 true t
        else "%!" +:+ String c "" +:+ "(MISSING)" +:+ sprintf0 false t
      else if Ascii.eqb c "%" then sprintf0 true t
      else String c (sprintf0 false t)
  end.
Definition Errorf (s : string) : string := sprintf0 false s.

Inductive NumError := ErrSyntax | ErrRange.

#[export] Instance NumError_eq_dec : EqDecision NumError.
Proof. solve_decision. Defined.

Definition digit_of (c : ascii) : option Z :=
  let n := nat_of_ascii c in
  if ((48 <=? n) && (n <=? 57))%nat then Some (Z.of_nat n - 48)%Z else None.

(** The loop of [strconv.ParseUint] in base 10: it stops at the first digit that
    takes the value past [maxVal], before it looks at the bytes after it. *)
Fixpoint parse_digits (maxVal n : Z) (s : string) : Z * option NumError :=
  match s with
  | EmptyString => (n, None)
  | String c s' =>
      match digit_of c with
      | None => (0%Z, Some ErrSyntax)
      | Some d =>
          let n1 := (n * 10 + d)%Z in
          if (maxVal <? n1)%Z then (maxVal, Some ErrRange)
          else parse_digits maxVal n1 s'
      end
  end.

Definition ParseUint (s : string) (bits : Z) : Z * option NumError :=
  match s with
  | EmptyString => (0%Z, Some ErrSyntax)
  | _ => parse_digits (2 ^ bits - 1) 0 s
  end.

(** [strconv.ParseInt(s, 10, bits)]: the value comes back with the error, and
    the callers that drop the error use it. *)
Definition ParseInt (s : string) (bits : Z) : Z * option NumError :=
  let '(neg, body) :=
    match s with
    | String "+" s' => (false, s')
    | String "-" s' => (true, s')
    | _ => (false, s)
    end in
  let cutoff := (2 ^ (bits - 1))%Z in
  match ParseUint body bits with
  | (_, Some ErrSyntax) => (0%Z, Some ErrSyntax)
  | (un, _) =>
      if negb neg && (cutoff <=? un)%Z then ((cutoff - 1)%Z, Some ErrRange)
      else if neg && (cutoff <? un)%Z then ((- cutoff)%Z, Some ErrRange)
      else (if neg then (- un)%Z else un, None)
  end.

(** ** Slash-separated paths *)

(** One component of the path on the stack [out] (last component first). *)
Definition clean_step (rooted : bool) (out : list string) (comp : string) : list string :=
  if decide (comp = "") then out
  else if decide (comp = ".") then out
  else if decide (comp = "..") then
    match out with
    | [] => if rooted then [] else [".."]
    | top :: rest => if decide (top = "..") then ".." :: out else rest
    end
  else comp :: out.

(** [path.Clean] and, on Unix, [filepath.Clean]. *)
Definition Clean (p : string) : string :=
  if decide (p = "") then "." else
  let rooted := HasPrefix p "/" in
  let body := Join (reverse (foldl (clean_step rooted) [] (Split p "/"))) "/" in
  if rooted then "/" +:+ body
  else if decide (body = "") then "." else body.

(** [path.Join] and [filepath.Join]: empty elements are ignored, and the rest
    joined with slashes and cleaned. *)
Definition PathJoin (elems : list string) : string :=
  match filter (λ e, e ≠ "") elems with
  | [] => ""
  | l => Clean (Join l "/")
  end.

(** ** Lemmas *)

Lemma string_app_nil_r s : s +:+ "" = s.
Proof. induction s as [|c s IH]; simpl; [done|]. by f_equal. Qed.

Lemma string_app_assoc s t u : s +:+ (t +:+ u) = (s +:+ t) +:+ u.
Proof. induction s as [|c s IH]; simpl; [done|]. by f_equal. Qed.

Lemma string_app_length s t :
  String.length (s +:+ t) = String.length s + String.length t.
Proof. induction s as [|c s IH]; simpl; [done|]. by rewrite IH. Qed.

Lemma string_app_inj_r s t u : s +:+ t = s +:+ u → t = u.
Proof. induction s as [|c s IH]; simpl; [done|]. intros [=]. auto. Qed.

Lemma HasPrefix_spec s p : HasPrefix s p = true ↔ ∃ t, s = p +:+ t.
Proof.
  revert s. unfold HasPrefix.
  induction p as [|c p IH]; intros s.
  - split; [intros _; by exists s | intros _; by destruct s].
  - destruct s as [|d s].
    + split; [done | by intros [t [=]]].
    + cbn [String.prefix]. destruct (ascii_dec c d) as [->|Hne].
      * rewrite IH. split; intros [t Ht]; exists t; simpl in *; congruence.
      * split; [done | intros [t [=]]; congruence].
Qed.

Lemma HasPrefix_app p t : HasPrefix (p +:+ t) p = true.
Proof. apply HasPrefix_spec. by exists t. Qed.

Fixpoint string_drop (n : nat) (s : string) : string :=
  match n, s with
  | O, _ => s
  | S _, EmptyString => EmptyString
  | S n', String _ s' => string_drop n' s'
  end.

Lemma string_drop_app p t : string_drop (String.length p) (p +:+ t) = t.
Proof. by induction p. Qed.

Lemma split_from_cons sep skip cur s :
  ∃ x l, split_from sep skip cur s = x :: l.
Proof.
  revert skip cur. induction s as [|c s IH]; intros skip cur; simpl; [eauto|].
  destruct skip; [|eauto]. case_match; eauto.
Qed.

Lemma Join_cons x y l sep : Join (x :: y :: l) sep = x +:+ sep +:+ Join (y :: l) sep.
Proof. done. Qed.

Lemma split_from_join sep skip cur s :
  sep ≠ "" →
  Join (split_from sep skip cur s) sep = cur +:+ string_drop skip s.
Proof.
  intros Hsep. revert skip cur. induction s as [|c s IH]; intros skip cur.
  - destruct skip; simpl; by rewrite string_app_nil_r.
  - destruct skip as [|k]; cbn [split_from string_drop]; [|by rewrite IH].
    destruct (HasPrefix (String c s) sep) eqn:Hp.
    + destruct (split_from_cons sep (String.length sep - 1) EmptyString s) as (x & l & Hx).
      rewrite Hx, Join_cons, <- Hx, IH.
      apply HasPrefix_spec in Hp as [t Ht]. rewrite Ht. do 2 f_equal.
      destruct sep as [|d sep]; [done|]. injection Ht as -> ->. simpl.
      rewrite Nat.sub_0_r. by rewrite string_drop_app.
    + rewrite IH. simpl. by rewrite <- string_app_assoc.
Qed.

(** Joining what was split gives the string back. *)
Lemma Join_Split s sep : sep ≠ "" → Join (Split s sep) sep = s.
Proof. intros H. unfold Split. by rewrite split_from_join. Qed.

(** [c] does not occur in [s]. *)
Fixpoint char_free (c : ascii) (s : string) : bool :=
  match s with
  | EmptyString => true
  | String d s' => negb (Ascii.eqb d c) && char_free c s'
  end.

Lemma prefix_char c d s :
  HasPrefix (String d s) (String c "") = Ascii.eqb d c.
Proof.
  unfold HasPrefix. simpl. destruct (ascii_dec c d) as [->|Hne].
  - rewrite Ascii.eqb_refl. by destruct s.
  - symmetry. apply Ascii.eqb_neq. congruence.
Qed.

Lemma split_from_free c cur s t :
  char_free c s = true →
  split_from (String c "") 0 cur (s +:+ t) = split_from (String c "") 0 (cur +:+ s) t.
Proof.
  revert cur. induction s as [|d s IH]; intros cur; cbn [String.append].
  - by rewrite string_app_nil_r.
  - cbn [char_free]. rewrite andb_true_iff, negb_true_iff. intros [Hd Hs].
    cbn [split_from]. rewrite prefix_char, Hd, IH by done.
    by rewrite <- string_app_assoc.
Qed.

Lemma split_from_char c cur t :
  split_from (String c "") 0 cur (String c t) = cur :: split_from (String c "") 0 "" t.
Proof. cbn [split_from]. rewrite prefix_char, Ascii.eqb_refl. done. Qed.

(** Splitting what was joined gives the pieces back, when no piece contains the
    (one byte) separator. *)
Lemma Split_Join c l :
  l ≠ [] → Forall (λ s, char_free c s = true) l →
  Split (Join l (String c "")) (String c "") = l.
Proof.
  unfold Split. intros Hl HF.
  induction HF as [|x l Hx HF IH]; [done|]. destruct l as [|y l].
  - simpl. rewrite <- (string_app_nil_r x) at 1.
    rewrite split_from_free by done. done.
  - rewrite Join_cons, split_from_free by done. cbn [String.append].
    rewrite split_from_char. f_equal. by apply IH.
Qed.

Lemma Split_free c s : char_free c s = true → Split s (String c "") = [s].
Proof. intros H. change s with (Join [s] (String c "")) at 1. by apply Split_Join; [|constructor]. Qed.

Lemma char_free_app c s t : char_free c (s +:+ t) = char_free c s && char_free c t.
Proof.
  induction s as [|d s IH]; simpl; [done|]. rewrite IH. by rewrite andb_assoc.
Qed.

Lemma map_string_length f s : String.length (map_string f s) = String.length s.
Proof. induction s; simpl; congruence. Qed.

Lemma map_string_idem f s : (∀ c, f (f c) = f c) → map_string f (map_string f s) = map_string f s.
Proof. intros Hf. induction s; simpl; congruence. Qed.

Lemma upper_ascii_idem c : upper_ascii (upper_ascii c) = upper_ascii c.
Proof. destruct c as [[] [] [] [] [] [] [] []]; reflexivity. Qed.

Lemma lower_ascii_idem c : lower_ascii (lower_ascii c) = lower_ascii c.
Proof. destruct c as [[] [] [] [] [] [] [] []]; reflexivity. Qed.

Lemma ToUpper_idem s : ToUpper (ToUpper s) = ToUpper s.
Proof. apply map_string_idem, upper_ascii_idem. Qed.

Lemma ToLower_idem s : ToLower (ToLower s) = ToLower s.
Proof. apply map_string_idem, lower_ascii_idem. Qed.

(** *** [ParseInt] *)

Lemma digit_of_range c d : digit_of c = Some d → (0 ≤ d ≤ 9)%Z.
Proof.
  unfold digit_of. case_match eqn:E; [|done]. intros [= <-].
  apply andb_true_iff in E as [H1%Nat.leb_le H2%Nat.leb_le]. lia.
Qed.

Lemma parse_digits_range m n s :
  (0 ≤ n ≤ m)%Z → (0 ≤ fst (parse_digits m n s) ≤ m)%Z.
Proof.
  revert n. induction s as [|c s IH]; intros n Hn; simpl; [done|].
  destruct (digit_of c) as [d|] eqn:Hd; simpl; [|lia].
  apply digit_of_range in Hd.
  destruct (Z.ltb_spec m (n * 10 + d)); simpl; [lia|]. apply IH. lia.
Qed.

Lemma ParseUint_range s bits :
  (0 ≤ bits)%Z → (0 ≤ fst (ParseUint s bits) ≤ 2 ^ bits - 1)%Z.
Proof.
  intros Hb. assert (0 < 2 ^ bits)%Z by (by apply Z.pow_pos_nonneg).
  unfold ParseUint. destruct s; [simpl; lia|]. apply parse_digits_range. lia.
Qed.

(** [ParseInt] always answers a value of the requested width, also with an
    error: the conversions [int32(v)] and [uint32(v)] after it are exact. *)
Lemma ParseInt_range s bits :
  (1 ≤ bits)%Z → (- 2 ^ (bits - 1) ≤ fst (ParseInt s bits) < 2 ^ (bits - 1))%Z.
Proof.
  intros Hb. unfold ParseInt.
  assert (0 < 2 ^ (bits - 1))%Z by (apply Z.pow_pos_nonneg; lia).
  set (p := match s with
            | String "+" s' => (false, s') | String "-" s' => (true, s') | _ => (false, s)
            end).
  destruct p as [neg body].
  pose proof (ParseUint_range body bits ltac:(lia)) as Hr.
  destruct (ParseUint body bits) as [un [[]|]]; simpl in *; try lia;
    destruct neg; simpl; repeat case_match; simpl; try lia.
Qed.

(** ** Numbers printed and read back *)

Lemma digit_of_pretty x : (x < 10)%N → digit_of (pretty_N_char x) = Some (Z.of_N x).
Proof.
  intros Hx. assert (x = 0 ∨ x = 1 ∨ x = 2 ∨ x = 3 ∨ x = 4 ∨ x = 5 ∨ x = 6 ∨ x = 7 ∨ x = 8 ∨ x = 9)%N
    as Hc by lia. by repeat destruct Hc as [->|Hc]; subst.
Qed.

Lemma parse_pretty_go m x s :
  (Z.of_N x ≤ m)%Z → parse_digits m 0 (pretty_N_go x s) = parse_digits m (Z.of_N x) s.
Proof.
  revert s. induction (N.lt_wf_0 x) as [x _ IH]; intros s Hx.
  destruct (decide (0 < x)%N) as [Hpos|Hz].
  - rewrite pretty_N_go_step by done.
    pose proof (N.div_lt x 10 Hpos eq_refl). pose proof (N.mod_lt x 10 ltac:(done)).
    pose proof (N.div_mod x 10 ltac:(done)).
    rewrite IH by lia. cbn [parse_digits]. rewrite digit_of_pretty by done.
    replace (Z.of_N (x `div` 10) * 10 + Z.of_N (x `mod` 10))%Z with (Z.of_N x) by lia.
    by destruct (Z.ltb_spec m (Z.of_N x)); [lia|].
  - assert (x = 0)%N as -> by lia. by rewrite pretty_N_go_0.
Qed.

Lemma ParseUint_pretty bits x :
  (Z.of_N x < 2 ^ bits)%Z → ParseUint (pretty x) bits = (Z.of_N x, None).
Proof.
  intros Hx. unfold ParseUint, pretty, pretty_N. case_decide as Hz.
  - subst x. change (parse_digits (2 ^ bits - 1) 0 "0") with
      (if (2 ^ bits - 1 <? 0)%Z then ((2 ^ bits - 1)%Z, Some ErrRange) else (0%Z, None)).
    by destruct (Z.ltb_spec (2 ^ bits - 1) 0); [lia|].
  - pose proof (parse_pretty_go (2 ^ bits - 1) x "" ltac:(lia)) as Hp. simpl in Hp.
    destruct (pretty_N_go x "") eqn:Hs; [|done]. simpl in Hp. injection Hp. lia.
Qed.

(** What [pretty_N_go] adds in front are digits. *)
Lemma pretty_go_digits (P : string → Prop) x s :
  P s → (∀ c t, digit_of c ≠ None → P t → P (String c t)) → P (pretty_N_go x s).
Proof.
  intros Hs HP. revert s Hs. induction (N.lt_wf_0 x) as [y _ IH]; intros s Hs.
  destruct (decide (0 < y)%N) as [Hpos|Hz].
  - rewrite pretty_N_go_step by done. apply IH; [by apply N.div_lt|].
    apply HP; [|done]. by rewrite digit_of_pretty by (by apply N.mod_lt).
  - assert (y = 0)%N as -> by lia. by rewrite pretty_N_go_0.
Qed.

Lemma pretty_N_head (x : N) : ∃ c t, pretty x = String c t ∧ digit_of c ≠ None.
Proof.
  unfold pretty, pretty_N. case_decide as Hz; [by eexists _, _|].
  rewrite pretty_N_go_step by lia. apply pretty_go_digits; [|by eauto].
  eexists _, _. split; [done|]. by rewrite digit_of_pretty by (by apply N.mod_lt).
Qed.

Lemma char_free_pretty c z : digit_of c = None → c ≠ "-"%char → char_free c (Itoa z) = true.
Proof.
  intros Hc Hm. assert (∀ x : N, char_free c (pretty x) = true) as HN.
  { intros x. unfold pretty, pretty_N. case_decide.
    - cbn [char_free]. rewrite andb_true_r. apply negb_true_iff, Ascii.eqb_neq. by intros <-.
    - apply pretty_go_digits; [done|]. intros d t Hd Ht. cbn [char_free]. rewrite Ht, andb_true_r.
      apply negb_true_iff, Ascii.eqb_neq. by intros ->. }
  destruct z as [|p|p].
  - apply (HN 0%N).
  - apply (HN (Npos p)).
  - change (Itoa (Z.neg p)) with ("-" +:+ pretty (Npos p)). rewrite char_free_app. rewrite (HN (Npos p)). cbn [char_free]. rewrite !andb_true_r.
    apply negb_true_iff, Ascii.eqb_neq. congruence.
Qed.

(** A number in range is read back. *)
Lemma ParseInt_Itoa bits z :
  (0 < bits)%Z → (- 2 ^ (bits - 1) ≤ z < 2 ^ (bits - 1))%Z → ParseInt (Itoa z) bits = (z, None).
Proof.
  intros Hb Hz. assert (2 ^ bits = 2 * 2 ^ (bits - 1))%Z as Hp.
  { rewrite <- Z.pow_succ_r by lia. f_equal. lia. }
  assert (∀ x : N, (Z.of_N x < 2 ^ (bits - 1))%Z → ParseInt (pretty x) bits = (Z.of_N x, None)) as HN.
  { intros x Hx. destruct (pretty_N_head x) as (c & t & Hs & Hc).
    pose proof (ParseUint_pretty bits x ltac:(lia)) as Hu. unfold ParseInt. rewrite Hs in *.
    assert (c ≠ "+"%char ∧ c ≠ "-"%char) as [Hplus Hminus] by (split; intros ->; done).
    assert (match String c t with String "+" s' => (false, s') | String "-" s' => (true, s')
            | _ => (false, String c t) end = (false, String c t)) as ->.
    { by destruct c as [[] [] [] [] [] [] [] []]. }
    rewrite Hu. simpl. destruct (Z.leb_spec (2 ^ (bits - 1)) (Z.of_N x)); [lia | done]. }
  destruct z as [|p|p].
  - apply (HN 0%N). lia.
  - apply (HN (Npos p)). lia.
  - pose proof (ParseUint_pretty bits (Npos p) ltac:(lia)) as Hu.
    change (Itoa (Z.neg p)) with (String "-" (pretty (Npos p))). unfold ParseInt. rewrite Hu. simpl.
    destruct (Z.ltb_spec (2 ^ (bits - 1)) (Z.pos p)); [lia | done].
Qed.
