(* ===== verification/Api.v ===== *)
(** * The objects the components exchange

    [pkg/api/types.go] (status codes, device information, object keys), the
    messages of [pkg/api/api.proto], the label and annotation keys of
    [pkg/config], and the fields of the Kubernetes objects that the sources read
    or write. The Kubernetes types are third-party data: a record has exactly
    the fields the sources use, and a Go map that the sources compare with nil
    or write to is an [option] of a finite map ([None] is the nil map). *)
From stdpp Require Import base gmap strings list.
From Stdlib Require Import ZArith.
From S2P Require Import Prelude GoStrings.

(** ** Go maps with string keys *)

Abbreviation gomap V := (option (gmap string V)) (only parsing).

(** [m[k]] with the [ok] result; reading a nil map is allowed. *)
Definition map_get {V} (m : gomap V) (k : string) : option V :=
  match m with Some m => m !! k | None => None end.

(** [m[k]] on a [map[string]string]: the zero value is the empty string. *)
Definition map_str (m : gomap string) (k : string) : string :=
  default EmptyString (map_get m k).

(** [m[k] = v]: a write to a nil map panics. *)
Definition map_put {V} (m : gomap V) (k : string) (v : V) : outcome (gomap V) :=
  match m with
  | Some m => Returns (Some (<[k := v]> m))
  | None => Panics "assignment to entry in nil map"
  end.

(** [len(m)]. *)
Definition map_len {V} (m : gomap V) : nat :=
  match m with Some m => size m | None => 0 end.

(** [if m == nil { m = make(map[string]V) }]. *)
Definition map_make {V} (m : gomap V) : gomap V := Some (default ∅ m).

(** ** Labels, annotations ([pkg/config/constants.go], [pkg/api/v1alpha1]) *)

Definition Group : string := "device-mounter.io".
Definition Version : string := "v1alpha1".

Definition DeviceTypeAnnotationKey : string := Group +:+ "/device-type".
Definition ContainerIdAnnotationKey : string := Group +:+ "/containerId".
Definition ExpansionAnnotationKey : string := Group +:+ "/expansion".
Definition CreatedByLabelKey : string := Group +:+ "/created-by".
Definition OwnerNameLabelKey : string := Group +:+ "/owner-name".
Definition OwnerUidLabelKey : string := Group +:+ "/owner-uid".
Definition MountContainerLabelKey : string := Group +:+ "/mounted-container".
Definition AppComponentLabelKey : string := "app.kubernetes.io/component".
Definition AppManagedByLabelKey : string := "app.kubernetes.io/managed-by".
Definition AppCreatedByLabelKey : string := "app.kubernetes.io/created-by".
Definition AppInstanceLabelKey : string := "app.kubernetes.io/instance".
Definition CreateManagerBy : string := "device-mounter".

(** [v1.LabelHostname] of k8s.io/api. *)
Definition LabelHostname : string := "kubernetes.io/hostname".

Definition AnnoIsExpansion (annos : gomap string) : bool :=
  match annos with
  | None => false
  | Some _ => EqualFold (TrimSpace (map_str annos ExpansionAnnotationKey)) "true"
  end.

(** ** [pkg/api/types.go] *)

(** [type StatusCode uint32] with its named constants. *)
Definition StatusCode : Type := Z.
Definition Success : StatusCode := 0%Z.
Definition Wait : StatusCode := 1%Z.
Definition Skip : StatusCode := 2%Z.
Definition Unschedulable : StatusCode := 3%Z.
Definition Fail : StatusCode := 4%Z.

(** runc's [devices.Rule]: the type is a rune, major and minor are int64
    ([-1] is the wildcard), the permissions a string over r, w, m. *)
Record Rule := mkRule {
  Type_ : Z;
  Major : Z;
  Minor : Z;
  Permissions : string;
  Allow : bool }.

#[export] Instance Rule_eq_dec : EqDecision Rule.
Proof. solve_decision. Defined.

(** [devices.CharDevice], [devices.BlockDevice], [devices.Wildcard]. *)
Definition CharDevice : Z := 99%Z.
Definition BlockDevice : Z := 98%Z.
Definition Wildcard : Z := (-1)%Z.

Record DeviceInfo := mkDeviceInfo {
  di_Rule : Rule;
  DeviceID : string;
  DeviceFilePath : string }.

#[export] Instance DeviceInfo_eq_dec : EqDecision DeviceInfo.
Proof. solve_decision. Defined.

Definition set_Allow (b : bool) (d : DeviceInfo) : DeviceInfo :=
  mkDeviceInfo (mkRule (Type_ (di_Rule d)) (Major (di_Rule d)) (Minor (di_Rule d))
                  (Permissions (di_Rule d)) b)
    (DeviceID d) (DeviceFilePath d).

(** [api.ObjectKey]: a namespaced name and an optional UID. *)
Record ObjectKey := mkObjectKey {
  ok_Namespace : string;
  ok_Name : string;
  ok_UID : option string }.

#[export] Instance ObjectKey_eq_dec : EqDecision ObjectKey.
Proof. solve_decision. Defined.

(** ** Messages of [api.proto] *)

(** [api.Container]; [Index] is a uint32. *)
Record Container := mkContainer { Index : Z; Name : string }.

#[export] Instance Container_eq_dec : EqDecision Container.
Proof. solve_decision. Defined.

Record MountDeviceRequest := mkMountDeviceRequest {
  mr_PodName : string;
  mr_PodNamespace : string;
  mr_Container : option Container;
  mr_Resources : gomap string;
  mr_Annotations : gomap string;
  mr_Labels : gomap string;
  mr_DeviceType : string;
  mr_Patches : list string }.

Record UnMountDeviceRequest := mkUnMountDeviceRequest {
  ur_PodName : string;
  ur_PodNamespace : string;
  ur_Container : option Container;
  ur_DeviceType : string;
  ur_Force : bool }.

Record DeviceResponse := mkDeviceResponse {
  Result : ResultCode;
  resp_Message : string }.

#[export] Instance DeviceResponse_eq_dec : EqDecision DeviceResponse.
Proof. solve_decision. Defined.

(** ** Kubernetes objects *)

(** [resource.Quantity] as the sources observe it: [Value()] (the amount rounded
    up to an int64) and [IsZero()]. *)
Record Quantity := mkQuantity { Value : Z; IsZero : bool }.

#[export] Instance Quantity_eq_dec : EqDecision Quantity.
Proof. solve_decision. Defined.

(** The zero value of the Go struct, which a missing map entry reads as. *)
Definition zeroQuantity : Quantity := mkQuantity 0 true.

(** [map[v1.ResourceName]resource.Quantity]. *)
Definition qty_get (m : gmap string Quantity) (k : string) : Quantity :=
  default zeroQuantity (m !! k).

Record EnvVar := mkEnvVar { env_Name : string; env_Value : string }.

(** [v1.Container]: [ctr_RestartPolicy] is set on sidecar init containers. *)
Record PodContainer := mkPodContainer {
  ctr_Name : string;
  ctr_Image : string;
  ctr_ImagePullPolicy : string;
  ctr_Command : list string;
  ctr_Args : list string;
  ctr_Env : list EnvVar;
  ctr_Limits : gmap string Quantity;
  ctr_RestartPolicy : option string }.

Record ContainerStatus := mkContainerStatus {
  cs_Name : string;
  cs_Ready : bool;
  cs_ContainerID : string }.

Record PodCondition := mkPodCondition { cond_Reason : string; cond_Message : string }.

Record OwnerReference := mkOwnerReference {
  or_APIVersion : string;
  or_Kind : string;
  or_Name : string;
  or_UID : string;
  or_BlockOwnerDeletion : bool;
  or_Controller : bool }.

#[export] Instance OwnerReference_eq_dec : EqDecision OwnerReference.
Proof. solve_decision. Defined.

Record ObjectMeta := mkObjectMeta {
  meta_Name : string;
  meta_GenerateName : string;
  meta_Namespace : string;
  meta_UID : string;
  meta_ResourceVersion : string;
  meta_Labels : gomap string;
  meta_Annotations : gomap string;
  meta_OwnerReferences : list OwnerReference;
  meta_Deleting : bool }.

#[export] Instance ObjectMeta_eq_dec : EqDecision ObjectMeta.
Proof. solve_decision. Defined.

(** The fields that the sources set or read, and [InitContainers], which they
    never touch but the patches of a request may add. *)
Record PodSpec := mkPodSpec {
  spec_NodeName : string;
  spec_InitContainers : list PodContainer;
  spec_Containers : list PodContainer;
  spec_NodeSelector : gomap string;
  spec_SchedulerName : string;
  spec_PriorityClassName : string;
  spec_Priority : option Z;
  spec_RestartPolicy : string;
  spec_TerminationGracePeriodSeconds : option Z }.

Record PodStatus := mkPodStatus {
  status_Phase : string;
  status_Message : string;
  status_Conditions : list PodCondition;
  status_ContainerStatuses : list ContainerStatus;
  status_QOSClass : string;
  status_PodIP : string }.

Record Pod := mkPod {
  pod_Meta : ObjectMeta;
  pod_Spec : PodSpec;
  pod_Status : PodStatus }.

#[export] Instance EnvVar_eq_dec : EqDecision EnvVar.
Proof. solve_decision. Defined.
#[export] Instance PodContainer_eq_dec : EqDecision PodContainer.
Proof. solve_decision. Defined.
#[export] Instance ContainerStatus_eq_dec : EqDecision ContainerStatus.
Proof. solve_decision. Defined.
#[export] Instance PodCondition_eq_dec : EqDecision PodCondition.
Proof. solve_decision. Defined.
#[export] Instance PodSpec_eq_dec : EqDecision PodSpec.
Proof. solve_decision. Defined.
#[export] Instance PodStatus_eq_dec : EqDecision PodStatus.
Proof. solve_decision. Defined.
#[export] Instance Pod_eq_dec : EqDecision Pod.
Proof. solve_decision. Defined.

Definition pod_Name (p : Pod) : string := meta_Name (pod_Meta p).
Definition pod_Namespace (p : Pod) : string := meta_Namespace (pod_Meta p).
Definition pod_UID (p : Pod) : string := meta_UID (pod_Meta p).
Definition pod_Labels (p : Pod) : gomap string := meta_Labels (pod_Meta p).
Definition pod_Annotations (p : Pod) : gomap string := meta_Annotations (pod_Meta p).

Record Node := mkNode {
  node_Name : string;
  node_Labels : gomap string;
  node_Allocatable : gmap string Quantity }.

(** [v1.PodRunning], [v1.PodFailed] and the reasons of an unscheduled pod. *)
Definition PodRunning : string := "Running".
Definition PodFailed : string := "Failed".
Definition PodReasonUnschedulable : string := "Unschedulable".
Definition PodReasonSchedulerError : string := "SchedulerError".

(** ** Empty objects, for building examples *)

Definition emptyMeta : ObjectMeta :=
  mkObjectMeta EmptyString EmptyString EmptyString EmptyString EmptyString
    None None [] false.
Definition emptySpec : PodSpec :=
  mkPodSpec EmptyString [] [] None EmptyString EmptyString None EmptyString None.
Definition emptyStatus : PodStatus :=
  mkPodStatus EmptyString EmptyString [] [] EmptyString EmptyString.
Definition emptyPod : Pod := mkPod emptyMeta emptySpec emptyStatus.

(** ** Object keys *)

Definition ObjectKeyFromObject (m : ObjectMeta) : ObjectKey :=
  mkObjectKey (meta_Namespace m) (meta_Name m)
    (if decide (meta_UID m = EmptyString) then None else Some (meta_UID m)).

(** [NamespacedName.String()]. *)
Definition key_String (k : ObjectKey) : string :=
  ok_Namespace k +:+ "/" +:+ ok_Name k.

(** ** Data of single components that crosses the environment *)

(** [Metadata] of [pkg/controller/types.go]. *)
Record Metadata := mkMetadata {
  md_Labels : gomap string;
  md_Annotations : gomap string;
  md_OwnerReferences : list OwnerReference }.

#[export] Instance Metadata_eq_dec : EqDecision Metadata.
Proof. solve_decision. Defined.

(** [jsonpatch.Operation]; a [None] value is JSON null. *)
Record Operation := mkOperation {
  op_Operation : string;
  op_Path : string;
  op_Value : option string }.

#[export] Instance Operation_eq_dec : EqDecision Operation.
Proof. solve_decision. Defined.

(** The kubelet's pod resources: [ContainerDevices], [ContainerResources] and
    [PodResources] of k8s.io/kubelet. *)
Record ContainerDevices := mkContainerDevices {
  ResourceName : string;
  DeviceIds : list string }.
Record ContainerResources := mkContainerResources {
  cr_Name : string;
  cr_Devices : list ContainerDevices }.
Record PodResources := mkPodResources {
  pr_Name : string;
  pr_Namespace : string;
  pr_Containers : list ContainerResources }.

(** [NvidiaGPU] of [pkg/devices/nvidia/gpu/collector.go]; [GPUState] is a string
    with two named values. *)
Definition GPUState : Type := string.
Definition GPU_FREE_STATE : GPUState := "GPU_FREE_STATE".
Definition GPU_ALLOCATED_STATE : GPUState := "GPU_ALLOCATED_STATE".

Record NvidiaGPU := mkNvidiaGPU {
  MinorNumber : Z;
  gpu_DeviceFilePath : string;
  gpu_UUID : string;
  State : GPUState;
  PodName : string;
  PodNamespace : string;
  ContainerName : string }.

(** [sharedRegionT] of [pkg/devices/volcano/vgpu/util.go]: the fields the program
    writes. [uuids] are rows of 96 bytes, [limit] and [smLimit] hold uint64; each
    of the three has sixteen entries in memory. *)
Record sharedRegionT := mkSharedRegion {
  num : Z;
  uuids : list (list Z);
  limit : list Z;
  smLimit : list Z }.

#[export] Instance sharedRegionT_eq_dec : EqDecision sharedRegionT.
Proof. solve_decision. Defined.

(** ** Lemmas *)

Lemma map_get_make {V} (m : gomap V) k : map_get (map_make m) k = map_get m k.
Proof. by destruct m. Qed.

Lemma map_put_get {V} (m m' : gomap V) k v :
  map_put m k v = Returns m' →
  ∀ j, map_get m' j = if decide (k = j) then Some v else map_get m j.
Proof.
  destruct m as [m|]; simpl; [|done]. intros [= <-] j. simpl.
  by rewrite lookup_insert.
Qed.

Lemma map_put_make {V} (m : gomap V) k v :
  map_put (map_make m) k v = Returns (Some (<[k := v]> (default ∅ m))).
Proof. done. Qed.

Lemma ObjectKeyFromObject_uid m u :
  ok_UID (ObjectKeyFromObject m) = Some u ↔ meta_UID m = u ∧ u ≠ EmptyString.
Proof. unfold ObjectKeyFromObject. simpl. case_decide; naive_solver. Qed.

#[export] Hint Rewrite @map_get_make : go.
