(* ===== verification/Ebpf.v ===== *)
(** * The device filter editor ([pkg/util/ebpf/device.go])

    Under cgroup v2 the devices a container may open are decided by one eBPF
    program of type CGROUP_DEVICE. device-mounter does not regenerate it: it
    loads the instructions of the attached program, drops the final default
    verdict, replaces or appends the block of one device ([AppendRule]), puts a
    default verdict back ([Finalize]) and attaches the result.

    [cilium/ebpf/asm] is third-party: its opcodes, registers and instruction
    constructors are the class [AsmLib], and what the source relies on is
    [AsmLaws]. [rfc9669] is the instance with the numbers of the eBPF standard.
    The meaning of a program ([exec]) is the standard's too; it states what an
    edited program decides, and models no line of the source. *)
From stdpp Require Import base strings list.
From Stdlib Require Import ZArith Lia Ascii.
From S2P Require Import Prelude GoStrings Api.

(** ** Instructions *)

(** [asm.Instruction]. Of its metadata the reference to a label is kept, which
    the constructors of jumps record even when the label is the empty string, and
    which [reflect.DeepEqual] compares. (The symbol of a program's first
    instruction, the other entry that occurs, stays with that instruction.) *)
Record Instruction := mkInstruction {
  OpCode : Z;
  Dst : Z;
  Src : Z;
  Offset : Z;
  Constant : Z;
  InsMetadata : option string }.

#[export] Instance Instruction_eq_dec : EqDecision Instruction.
Proof. solve_decision. Defined.

Abbreviation Instructions := (list Instruction).

Definition set_Offset (o : Z) (i : Instruction) : Instruction :=
  mkInstruction (OpCode i) (Dst i) (Src i) o (Constant i) (InsMetadata i).

(** What the kernel is given of an instruction, and what is read back from it. *)
Definition as_read (i : Instruction) : Instruction :=
  mkInstruction (OpCode i) (Dst i) (Src i) (Offset i) (Constant i) None.

Definition shown (ins : Instructions) : Instructions := map as_read ins.

Class AsmLib := {
  R0 : Z; R2 : Z; R3 : Z; R4 : Z; R5 : Z; R6 : Z;
  OpExit : Z;       (* asm.OpCode(asm.JumpClass).SetJumpOp(asm.Exit) *)
  OpJNEImm : Z;     (* asm.JNE.Op(asm.ImmSource) *)
  OpJNEReg : Z;     (* asm.JNE.Op(asm.RegSource) *)
  OpMovReg32 : Z; OpMovImm32 : Z; OpAndImm32 : Z;
  JNE_Imm : Z → Z → Instruction;
  JNE_Reg : Z → Z → Instruction;
  Mov_Reg32 : Z → Z → Instruction;
  Mov_Imm32 : Z → Z → Instruction;
  Mov_Imm : Z → Z → Instruction;
  And_Imm32 : Z → Z → Instruction;
  Return_ : Instruction }.

(** What the constructors build, and that opcodes and registers are distinct. The
    editor's labels are empty; [asm.JNE] records them as references all the same. *)
Class AsmLaws `{AsmLib} : Prop := {
  JNE_Imm_law d v : ∃ s o, JNE_Imm d v = mkInstruction OpJNEImm d s o v (Some EmptyString);
  JNE_Reg_law d s : ∃ o c, JNE_Reg d s = mkInstruction OpJNEReg d s o c (Some EmptyString);
  Mov_Reg32_law d s : ∃ o c, Mov_Reg32 d s = mkInstruction OpMovReg32 d s o c None;
  Mov_Imm32_law d v : ∃ s o, Mov_Imm32 d v = mkInstruction OpMovImm32 d s o v None;
  And_Imm32_law d v : ∃ s o, And_Imm32 d v = mkInstruction OpAndImm32 d s o v None;
  Return_law : OpCode Return_ = OpExit;
  Return_read : as_read Return_ = Return_;
  opcodes_distinct :
    NoDup [OpExit; OpJNEImm; OpJNEReg; OpMovReg32; OpMovImm32; OpAndImm32];
  registers_distinct : NoDup [R0; R2; R3; R4; R5; R6] }.

(** The encoding of RFC 9669. *)
#[export] Instance rfc9669 : AsmLib := {|
  R0 := 0; R2 := 2; R3 := 3; R4 := 4; R5 := 5; R6 := 6;
  OpExit := 149; OpJNEImm := 85; OpJNEReg := 93;
  OpMovReg32 := 188; OpMovImm32 := 180; OpAndImm32 := 84;
  JNE_Imm d v := mkInstruction 85 d 0 (-1) v (Some EmptyString);
  JNE_Reg d s := mkInstruction 93 d s (-1) 0 (Some EmptyString);
  Mov_Reg32 d s := mkInstruction 188 d s 0 0 None;
  Mov_Imm32 d v := mkInstruction 180 d 0 0 v None;
  Mov_Imm d v := mkInstruction 183 d 0 0 v None;
  And_Imm32 d v := mkInstruction 84 d 0 0 v None;
  Return_ := mkInstruction 149 0 0 0 0 None |}%Z.

#[export] Instance rfc9669_laws : AsmLaws.
Proof.
  split; try (intros; do 2 eexists; reflexivity); try reflexivity;
    apply (bool_decide_unpack _); reflexivity.
Qed.

(** Constants of linux/bpf.h. *)
Definition BPF_DEVCG_DEV_BLOCK : Z := 1%Z.
Definition BPF_DEVCG_DEV_CHAR : Z := 2%Z.
Definition BPF_DEVCG_ACC_MKNOD : Z := 1%Z.
Definition BPF_DEVCG_ACC_READ : Z := 2%Z.
Definition BPF_DEVCG_ACC_WRITE : Z := 4%Z.
Definition MaxUint32 : Z := (2 ^ 32 - 1)%Z.

Section Editor.
Context `{AsmLib}.

(** ** The editor *)

Definition is_exit (i : Instruction) : bool := bool_decide (OpCode i = OpExit).

(** [ins[len(ins)-k]]: indexing before the start of the slice panics. *)
Definition from_end (ins : Instructions) (k : nat) : outcome Instruction :=
  if decide (k ≤ length ins) then slice_get ins (length ins - k)
  else Panics "index out of range".

Definition hasEndExit (ins : Instructions) : outcome bool :=
  last ← from_end ins 1;
  if negb (is_exit last) then Returns false else
  prev ← from_end ins 2;
  if bool_decide (Dst prev ≠ R0) && bool_decide (Constant prev ≠ 0%Z)
  then Returns false else
  third ← from_end ins 3;
  if negb (is_exit third) then Returns false else Returns true.

(** The argument is a Go slice, so it may be nil. *)
Definition LoadInstructions (inst : option Instructions) : outcome (result Instructions) :=
  match inst with
  | None => Returns (Err (PlainError "asm.Instructions cannot be empty"))
  | Some insts =>
      b ← hasEndExit insts;
      Returns (Ok (if b : bool then take (length insts - 2) insts else insts))
  end.

Fixpoint groups_from (tmp : Instructions) (insts : Instructions) : list Instructions :=
  match insts with
  | [] => match tmp with [] => [] | _ => [tmp] end
  | inst :: rest =>
      if is_exit inst then (tmp ++ [inst]) :: groups_from [] rest
      else groups_from (tmp ++ [inst]) rest
  end.

Definition groups (insts : Instructions) : list Instructions := groups_from [] insts.

Definition acceptBlock (accept : bool) : Instructions :=
  [Mov_Imm32 R0 (if accept then 1 else 0)%Z; Return_].

(** The text of a one-rune string between quotes. *)
Definition quoted_rune (r : Z) : string :=
  String "034" (String (ascii_of_nat (Z.to_nat r)) (String "034" EmptyString)).

Definition rule_bpfType (rule : Rule) : result Z :=
  if decide (Type_ rule = CharDevice) then Ok BPF_DEVCG_DEV_CHAR
  else if decide (Type_ rule = BlockDevice) then Ok BPF_DEVCG_DEV_BLOCK
  else Err (PlainError ("invalid type " +:+ quoted_rune (Type_ rule))).

Fixpoint bpfAccess_from (acc : Z) (perms : string) : result Z :=
  match perms with
  | EmptyString => Ok acc
  | String r rest =>
      if Ascii.eqb r "r" then bpfAccess_from (Z.lor acc BPF_DEVCG_ACC_READ) rest
      else if Ascii.eqb r "w" then bpfAccess_from (Z.lor acc BPF_DEVCG_ACC_WRITE) rest
      else if Ascii.eqb r "m" then bpfAccess_from (Z.lor acc BPF_DEVCG_ACC_MKNOD) rest
      else Err (PlainError ("unknown device access " +:+ Itoa (Z.of_nat (nat_of_ascii r))))
  end.

(** The checks of [AppendRule] before it touches the program: the device type
    and the access mask of the rule. The minor's message prints the major. *)
Definition rule_params (rule : Rule) : result (Z * Z) :=
  bpfType ← rule_bpfType rule;
  if (MaxUint32 <? Major rule)%Z
  then Err (PlainError ("invalid major " +:+ Itoa (Major rule))) else
  if (MaxUint32 <? Minor rule)%Z
  then Err (PlainError ("invalid minor " +:+ Itoa (Major rule))) else
  bpfAccess ← bpfAccess_from 0 (Permissions rule);
  Ok (bpfType, bpfAccess).

(** One step of the search loop over the instructions of a group. *)
Definition found_step (bpfType : Z) (rule : Rule) (found : bool * bool * bool)
    (i : Instruction) : bool * bool * bool :=
  let '(foundType, foundMajor, foundMinor) := found in
  if negb foundType && bool_decide (OpCode i = OpJNEImm) &&
     bool_decide (Dst i = R2) && bool_decide (Constant i = bpfType)
  then (true, foundMajor, foundMinor)
  else if negb foundMajor && bool_decide (OpCode i = OpJNEImm) &&
     bool_decide (Dst i = R4) && bool_decide (Constant i = Major rule)
  then (foundType, true, foundMinor)
  else if negb foundMinor && bool_decide (OpCode i = OpJNEImm) &&
     bool_decide (Dst i = R5) && bool_decide (Constant i = Minor rule)
  then (foundType, foundMajor, true)
  else found.

Definition group_found (bpfType : Z) (rule : Rule) (group : Instructions) : bool :=
  let '(t, ma, mi) := foldl (found_step bpfType rule) (false, false, false) group in
  t && ma && mi.

(** [for i := n - 1; i >= 0; i--]: the last group that is found. *)
Fixpoint search_groups (bpfType : Z) (rule : Rule) (gs : list Instructions) (n : nat)
    : option nat :=
  match n with
  | O => None
  | S i =>
      if match gs !! i with Some g => group_found bpfType rule g | None => false end
      then Some i else search_groups bpfType rule gs i
  end.

(** The last loop of [AppendRule] over [insert]: every conditional jump goes to
    the instruction after the block. *)
Definition fix_offset (len i : nat) (instruction : Instruction) : Instruction :=
  let offset := wrapS 16 (Z.of_nat len - 1 - Z.of_nat i) in
  if decide (OpCode instruction = OpJNEImm) then set_Offset offset instruction
  else if decide (OpCode instruction = OpJNEReg) then set_Offset offset instruction
  else instruction.

Definition hasAccess (bpfAccess : Z) : bool :=
  negb (bpfAccess =?
    Z.lor (Z.lor BPF_DEVCG_ACC_READ BPF_DEVCG_ACC_WRITE) BPF_DEVCG_ACC_MKNOD)%Z.

Definition rule_block (bpfType bpfAccess : Z) (rule : Rule) : Instructions :=
  let hasMajor := (0 <=? Major rule)%Z in
  let hasMinor := (0 <=? Minor rule)%Z in
  let insert :=
    [JNE_Imm R2 bpfType] ++
    (if hasAccess bpfAccess
     then [Mov_Reg32 R6 R3; And_Imm32 R6 bpfAccess; JNE_Reg R6 R3] else []) ++
    (if hasMajor then [JNE_Imm R4 (wrapS 32 (Major rule))] else []) ++
    (if hasMinor then [JNE_Imm R5 (wrapS 32 (Minor rule))] else []) ++
    acceptBlock (Allow rule) in
  imap (fix_offset (length insert)) insert.

(** Where the block goes: over the group found, unless that group is longer. *)
Definition place_block (gs : list Instructions) (index : option nat)
    (insert : Instructions) : list Instructions :=
  match index with
  | None => gs ++ [insert]
  | Some i =>
      if (length insert <? length (default [] (gs !! i)))%nat
      then gs ++ [insert] else <[i := insert]> gs
  end.

Definition AppendRule (insts : Instructions) (rule : Rule) : result Instructions :=
  '(bpfType, bpfAccess) ← rule_params rule;
  let gs := groups insts in
  let index := search_groups bpfType rule gs (length gs) in
  let insert := rule_block bpfType bpfAccess rule in
  Ok (concat (place_block gs index insert)).

Definition Finalize (insts : Instructions) : outcome Instructions :=
  b ← hasEndExit insts;
  Returns (if b : bool then insts else insts ++ [Mov_Imm32 R0 0%Z; Return_]).

(** The sequence of [loadAttachCgroupDeviceFilter]: a nil rule is skipped and
    the first error stops. *)
Fixpoint AppendRules (insts : Instructions) (rules : list (option Rule))
    : result Instructions :=
  match rules with
  | [] => Ok insts
  | None :: rest => AppendRules insts rest
  | Some rule :: rest => insts' ← AppendRule insts rule; AppendRules insts' rest
  end.

(** ** What a program decides *)

(** A request of the kernel: the device's type, the access bits asked for and
    the device number. *)
Record Request := mkRequest {
  rq_type : Z; rq_access : Z; rq_major : Z; rq_minor : Z }.

Definition regs : Type := Z → Z.
Definition set_reg (r : regs) (d v : Z) : regs := λ x, if decide (x = d) then v else r x.

(** Executing forward-jumping code: [skip] instructions are jumped over. [other]
    is the effect of the instructions outside the editor's vocabulary (the
    loads in the prologue of the attached program), as the kernel has them. No value means that the
    kernel's verifier would have rejected the program. *)
Fixpoint exec (other : Instruction → regs → option regs) (ins : Instructions)
    (skip : nat) (r : regs) : option Z :=
  match ins with
  | [] => None
  | i :: rest =>
      match skip with
      | S k => exec other rest k r
      | O =>
          let jump (b : bool) :=
            if b then (if (Offset i <? 0)%Z then None
                       else exec other rest (Z.to_nat (Offset i)) r)
            else exec other rest 0 r in
          if decide (OpCode i = OpExit) then Some (r R0)
          else if decide (OpCode i = OpJNEImm) then jump (negb (r (Dst i) =? Constant i)%Z)
          else if decide (OpCode i = OpJNEReg) then jump (negb (r (Dst i) =? r (Src i))%Z)
          else if decide (OpCode i = OpMovReg32) then
            exec other rest 0 (set_reg r (Dst i) (wrapU 32 (r (Src i))))
          else if decide (OpCode i = OpMovImm32) then
            exec other rest 0 (set_reg r (Dst i) (wrapU 32 (Constant i)))
          else if decide (OpCode i = OpAndImm32) then
            exec other rest 0 (set_reg r (Dst i) (wrapU 32 (Z.land (r (Dst i)) (Constant i))))
          else match other (as_read i) r with
               | Some r' => exec other rest 0 r'
               | None => None
               end
      end
  end.

(** The kernel asks for a combination of mknod, read and write. *)
Definition valid_request (q : Request) : Prop := (0 ≤ rq_access q ≤ 7)%Z.

(** The registers hold the request, as the prologue leaves them. *)
Definition holds (q : Request) (r : regs) : Prop :=
  r R2 = rq_type q ∧ r R3 = rq_access q ∧ r R4 = rq_major q ∧ r R5 = rq_minor q.

(** The rule covers the request: same type, no access beyond the rule's, and
    the rule's device number (a negative number is a wildcard). *)
Definition covers (bpfType bpfAccess : Z) (rule : Rule) (q : Request) : bool :=
  (rq_type q =? bpfType)%Z && (Z.land (rq_access q) bpfAccess =? rq_access q)%Z &&
  ((Major rule <? 0)%Z || (rq_major q =? Major rule)%Z) &&
  ((Minor rule <? 0)%Z || (rq_minor q =? Minor rule)%Z).

(** A block decides requests on its own: entered with registers that satisfy
    [pre q], it answers [Some v], or hands the request over to the code after it
    in the registers the blocks share. *)
Definition decides (other : Instruction → regs → option regs)
    (pre : Request → regs → Prop) (g : Instructions) (f : Request → option Z) : Prop :=
  ∀ q r, valid_request q → pre q r → ∀ rest,
    match f q with
    | Some v => exec other (g ++ rest) 0 r = Some v
    | None => ∃ r', holds q r' ∧ exec other (g ++ rest) 0 r = exec other rest 0 r'
    end.

(** The first block with an answer wins; the default is the last word. *)
Fixpoint first_verdict (fs : list (Request → option Z)) (dflt : Z) (q : Request) : Z :=
  match fs with
  | [] => dflt
  | f :: fs' => match f q with Some v => v | None => first_verdict fs' dflt q end
  end.

Definition rule_decision (bpfType bpfAccess : Z) (rule : Rule) (q : Request) : option Z :=
  if covers bpfType bpfAccess rule q then Some (if Allow rule then 1%Z else 0%Z) else None.

End Editor.
