(* ===== verification/EbpfFacts.v ===== *)
(** * Theorems about the device filter editor

    Programs made of device blocks against lists of device entries,
    the meaning of a finalized program, loading and editing again, and the rules
    and programs on which the editor fails. *)
From stdpp Require Import base strings list sets.
From Stdlib Require Import ZArith Lia Ascii.
From S2P Require Import Prelude GoStrings Api Ebpf.

Section Facts.
Context `{AsmLaws}.

(** ** Groups *)

(** A group as [groups] cuts it: its last instruction, and no other, exits. *)
Definition closed_group (g : Instructions) : Prop :=
  ∃ body i, g = body ++ [i] ∧ is_exit i = true ∧ Forall (λ j, is_exit j = false) body.

Lemma groups_from_concat tmp insts : concat (groups_from tmp insts) = tmp ++ insts.
Proof.
  revert tmp. induction insts as [|i rest IH]; intros tmp; simpl.
  - destruct tmp; simpl; [done|]. by rewrite !app_nil_r.
  - case_match; simpl; rewrite IH; simpl; by rewrite <- app_assoc.
Qed.

(** Cutting a program into groups loses nothing. *)
Lemma groups_concat insts : concat (groups insts) = insts.
Proof. apply groups_from_concat. Qed.

Lemma groups_from_closed tmp body i rest :
  Forall (λ j, is_exit j = false) body → is_exit i = true →
  groups_from tmp (body ++ [i] ++ rest) = (tmp ++ body ++ [i]) :: groups rest.
Proof.
  intros Hb Hi. revert tmp. induction Hb as [|j body Hj Hb IH]; intros tmp; simpl.
  - by rewrite Hi.
  - rewrite Hj. rewrite IH. by rewrite <- !app_assoc.
Qed.

(** Groups survive being put together and cut again. *)
Lemma groups_of_concat gs : Forall closed_group gs → groups (concat gs) = gs.
Proof.
  induction 1 as [|g gs (body & i & -> & Hi & Hb) _ IH]; simpl; [done|].
  rewrite <- app_assoc. unfold groups at 1.
  rewrite groups_from_closed by done. by rewrite IH.
Qed.

Lemma groups_closed_snoc insts i :
  is_exit i = true → Forall closed_group (groups (insts ++ [i])).
Proof.
  intros Hi. unfold groups.
  cut (∀ tmp, Forall (λ j, is_exit j = false) tmp →
              Forall closed_group (groups_from tmp (insts ++ [i]))).
  { intros Hc. apply Hc. constructor. }
  induction insts as [|j insts IH]; intros tmp Ht; simpl.
  - rewrite Hi. repeat constructor. by exists tmp, i.
  - destruct (is_exit j) eqn:Hj.
    + constructor; [by exists tmp, j | apply IH; constructor].
    + apply IH. apply Forall_app; split; [done | by repeat constructor].
Qed.

(** ** Instructions *)

Lemma shown_app i1 i2 : shown (i1 ++ i2) = shown i1 ++ shown i2.
Proof. apply map_app. Qed.

Lemma length_shown ins : length (shown ins) = length ins.
Proof. apply length_map. Qed.

Lemma shown_idemp ins : shown (shown ins) = shown ins.
Proof. unfold shown. rewrite map_map. by apply map_ext. Qed.

Lemma shown_concat gs : shown (concat gs) = concat (map shown gs).
Proof. apply concat_map. Qed.

Lemma is_exit_read i : is_exit (as_read i) = is_exit i.
Proof. done. Qed.

Lemma groups_from_shown tmp ins :
  groups_from (shown tmp) (shown ins) = map shown (groups_from tmp ins).
Proof.
  revert tmp. induction ins as [|i ins IH]; intros tmp; simpl; [by destruct tmp|].
  rewrite is_exit_read. change (shown tmp ++ [as_read i]) with (shown tmp ++ shown [i]).
  rewrite <- shown_app. case_match; simpl; rewrite <- IH; done.
Qed.

(** Grouping does not look at metadata. *)
Lemma groups_shown ins : groups (shown ins) = map shown (groups ins).
Proof. apply (groups_from_shown []). Qed.

Lemma closed_group_shown g : closed_group (shown g) ↔ closed_group g.
Proof.
  unfold closed_group. split.
  - intros (body & i & Hg & Hi & Hb).
    destruct g as [|j g' _] using rev_ind; [by destruct body|].
    rewrite shown_app in Hg. apply app_inj_tail in Hg as [<- <-].
    exists g', j. split; [done|]. split; [done|]. by apply Forall_fmap in Hb.
  - intros (body & i & -> & Hi & Hb). exists (shown body), (as_read i).
    split; [by rewrite shown_app|]. split; [done|]. by apply Forall_fmap.
Qed.

Lemma from_end_shown ins k :
  from_end (shown ins) k = (i ← from_end ins k; Returns (as_read i)).
Proof.
  unfold from_end, slice_get. rewrite length_shown. case_decide; [|done].
  unfold shown. rewrite list_lookup_fmap. by destruct (ins !! _).
Qed.

Lemma hasEndExit_shown ins : hasEndExit (shown ins) = hasEndExit ins.
Proof.
  unfold hasEndExit. rewrite !from_end_shown.
  destruct (from_end ins 1) as [i|]; [|done]. cbn. rewrite is_exit_read.
  destruct (negb (is_exit i)); [done|].
  destruct (from_end ins 2) as [j|]; [|done]. cbn. destruct (_ && _); [done|].
  by destruct (from_end ins 3).
Qed.

Lemma opcodes_ne :
  OpExit ≠ OpJNEImm ∧ OpExit ≠ OpJNEReg ∧ OpExit ≠ OpMovReg32 ∧ OpExit ≠ OpMovImm32 ∧
  OpExit ≠ OpAndImm32 ∧ OpJNEImm ≠ OpJNEReg ∧ OpJNEImm ≠ OpMovReg32 ∧
  OpJNEImm ≠ OpMovImm32 ∧ OpJNEImm ≠ OpAndImm32 ∧ OpJNEReg ≠ OpMovReg32 ∧
  OpJNEReg ≠ OpMovImm32 ∧ OpJNEReg ≠ OpAndImm32 ∧ OpMovReg32 ≠ OpMovImm32 ∧
  OpMovReg32 ≠ OpAndImm32 ∧ OpMovImm32 ≠ OpAndImm32.
Proof.
  pose proof opcodes_distinct as Hd.
  repeat (apply NoDup_cons in Hd as [? Hd]). set_solver.
Qed.

Lemma registers_ne :
  R6 ≠ R0 ∧ R2 ≠ R0 ∧ R3 ≠ R0 ∧ R4 ≠ R0 ∧ R5 ≠ R0 ∧ R2 ≠ R6 ∧ R3 ≠ R6 ∧ R4 ≠ R6 ∧
  R5 ≠ R6 ∧ R2 ≠ R4 ∧ R2 ≠ R5 ∧ R4 ≠ R5.
Proof.
  pose proof registers_distinct as Hd.
  repeat (apply NoDup_cons in Hd as [? Hd]). set_solver.
Qed.

Ltac opcodes := pose proof opcodes_ne; destruct_and?.

Lemma fix_offset_JNE_Imm len i d v :
  fix_offset len i (JNE_Imm d v) =
    set_Offset (wrapS 16 (Z.of_nat len - 1 - Z.of_nat i)) (JNE_Imm d v).
Proof.
  unfold fix_offset. destruct (JNE_Imm_law d v) as (s & o & ->). by rewrite decide_True.
Qed.

Lemma fix_offset_JNE_Reg len i d s :
  fix_offset len i (JNE_Reg d s) =
    set_Offset (wrapS 16 (Z.of_nat len - 1 - Z.of_nat i)) (JNE_Reg d s).
Proof.
  opcodes. unfold fix_offset. destruct (JNE_Reg_law d s) as (o & c & ->).
  rewrite decide_False by (simpl; congruence). by rewrite decide_True.
Qed.

Lemma fix_offset_other len i ins :
  OpCode ins ≠ OpJNEImm → OpCode ins ≠ OpJNEReg → fix_offset len i ins = ins.
Proof. intros H1 H2. unfold fix_offset. by rewrite !decide_False. Qed.

Lemma fix_offset_Mov_Reg32 len i d s : fix_offset len i (Mov_Reg32 d s) = Mov_Reg32 d s.
Proof.
  opcodes. destruct (Mov_Reg32_law d s) as (o & c & ->).
  apply fix_offset_other; simpl; congruence.
Qed.

Lemma fix_offset_Mov_Imm32 len i d v : fix_offset len i (Mov_Imm32 d v) = Mov_Imm32 d v.
Proof.
  opcodes. destruct (Mov_Imm32_law d v) as (o & c & ->).
  apply fix_offset_other; simpl; congruence.
Qed.

Lemma fix_offset_And_Imm32 len i d v : fix_offset len i (And_Imm32 d v) = And_Imm32 d v.
Proof.
  opcodes. destruct (And_Imm32_law d v) as (o & c & ->).
  apply fix_offset_other; simpl; congruence.
Qed.

Lemma fix_offset_Return len i : fix_offset len i Return_ = Return_.
Proof. opcodes. pose proof Return_law. apply fix_offset_other; congruence. Qed.

Lemma is_exit_Return : is_exit Return_ = true.
Proof. unfold is_exit. rewrite Return_law. by rewrite bool_decide_eq_true. Qed.

Lemma not_exit_JNE_Imm o d v : is_exit (set_Offset o (JNE_Imm d v)) = false.
Proof.
  opcodes. unfold is_exit. destruct (JNE_Imm_law d v) as (? & ? & ->).
  apply bool_decide_eq_false. simpl. congruence.
Qed.

Lemma not_exit_JNE_Reg o d v : is_exit (set_Offset o (JNE_Reg d v)) = false.
Proof.
  opcodes. unfold is_exit. destruct (JNE_Reg_law d v) as (? & ? & ->).
  apply bool_decide_eq_false. simpl. congruence.
Qed.

Lemma not_exit_Mov_Reg32 d v : is_exit (Mov_Reg32 d v) = false.
Proof.
  opcodes. unfold is_exit. destruct (Mov_Reg32_law d v) as (? & ? & ->).
  apply bool_decide_eq_false. simpl. congruence.
Qed.

Lemma not_exit_Mov_Imm32 d v : is_exit (Mov_Imm32 d v) = false.
Proof.
  opcodes. unfold is_exit. destruct (Mov_Imm32_law d v) as (? & ? & ->).
  apply bool_decide_eq_false. simpl. congruence.
Qed.

Lemma not_exit_And_Imm32 d v : is_exit (And_Imm32 d v) = false.
Proof.
  opcodes. unfold is_exit. destruct (And_Imm32_law d v) as (? & ? & ->).
  apply bool_decide_eq_false. simpl. congruence.
Qed.

Hint Rewrite fix_offset_JNE_Imm fix_offset_JNE_Reg fix_offset_Mov_Reg32
  fix_offset_Mov_Imm32 fix_offset_And_Imm32 fix_offset_Return : go.
Hint Resolve is_exit_Return not_exit_JNE_Imm not_exit_JNE_Reg not_exit_Mov_Reg32
  not_exit_Mov_Imm32 not_exit_And_Imm32 : go.

(** ** Executing single instructions *)

Section Exec.
Context (other : Instruction → regs → option regs).

Lemma exec_Return rest r : exec other (Return_ :: rest) 0 r = Some (r R0).
Proof. simpl. by rewrite decide_True by apply Return_law. Qed.

Lemma exec_JNE_Imm o d v rest r :
  (0 ≤ o)%Z →
  exec other (set_Offset o (JNE_Imm d v) :: rest) 0 r =
    if (r d =? v)%Z then exec other rest 0 r else exec other rest (Z.to_nat o) r.
Proof.
  intros Ho. opcodes. destruct (JNE_Imm_law d v) as (? & ? & ->). simpl.
  rewrite decide_False, decide_True by congruence.
  destruct (r d =? v)%Z; simpl; [done|]. destruct (Z.ltb_spec o 0); [lia | done].
Qed.

Lemma exec_JNE_Reg o d s rest r :
  (0 ≤ o)%Z →
  exec other (set_Offset o (JNE_Reg d s) :: rest) 0 r =
    if (r d =? r s)%Z then exec other rest 0 r else exec other rest (Z.to_nat o) r.
Proof.
  intros Ho. opcodes. destruct (JNE_Reg_law d s) as (? & ? & ->). simpl.
  rewrite decide_False, decide_False, decide_True by congruence.
  destruct (r d =? r s)%Z; simpl; [done|]. destruct (Z.ltb_spec o 0); [lia | done].
Qed.

Lemma exec_Mov_Reg32 d s rest r :
  exec other (Mov_Reg32 d s :: rest) 0 r =
    exec other rest 0 (set_reg r d (wrapU 32 (r s))).
Proof.
  opcodes. destruct (Mov_Reg32_law d s) as (? & ? & ->). simpl.
  rewrite !decide_False by congruence. by rewrite decide_True.
Qed.

Lemma exec_Mov_Imm32 d v rest r :
  exec other (Mov_Imm32 d v :: rest) 0 r =
    exec other rest 0 (set_reg r d (wrapU 32 v)).
Proof.
  opcodes. destruct (Mov_Imm32_law d v) as (? & ? & ->). simpl.
  do 4 rewrite decide_False by congruence. by rewrite decide_True.
Qed.

Lemma exec_And_Imm32 d v rest r :
  exec other (And_Imm32 d v :: rest) 0 r =
    exec other rest 0 (set_reg r d (wrapU 32 (Z.land (r d) v))).
Proof.
  opcodes. destruct (And_Imm32_law d v) as (? & ? & ->). simpl.
  do 5 rewrite decide_False by congruence. by rewrite decide_True.
Qed.

Lemma exec_default v rest r :
  exec other (Mov_Imm32 R0 v :: Return_ :: rest) 0 r = Some (wrapU 32 v).
Proof. rewrite exec_Mov_Imm32, exec_Return. unfold set_reg. by rewrite decide_True. Qed.

(** The kernel runs what it is given. *)
Lemma exec_shown i1 i2 k r :
  shown i1 = shown i2 → exec other i1 k r = exec other i2 k r.
Proof.
  revert i2 k r. induction i1 as [|i i1 IH]; intros [|j i2] k r Hs; try done.
  injection Hs as Hop Hd Hsrc Ho Hc Hs. pose proof (IH i2) as Hi.
  assert (as_read i = as_read j) as Hr by (unfold as_read; congruence).
  destruct k as [|k]; simpl; [|by apply Hi].
  rewrite Hr, Hop, Hd, Hsrc, Ho, Hc. repeat case_decide; try by apply Hi.
  - done.
  - destruct (negb _); [case_match; [done|]|]; by apply Hi.
  - destruct (negb _); [case_match; [done|]|]; by apply Hi.
  - destruct (other _ r); [by apply Hi|done].
Qed.

Lemma set_reg_eq r d v : set_reg r d v d = v.
Proof. unfold set_reg. by rewrite decide_True. Qed.

Lemma set_reg_ne r d v x : x ≠ d → set_reg r d v x = r x.
Proof. intros. unfold set_reg. by rewrite decide_False. Qed.

Lemma holds_set_reg q r d v :
  d ≠ R2 → d ≠ R3 → d ≠ R4 → d ≠ R5 → holds q r → holds q (set_reg r d v).
Proof. intros ???? (?&?&?&?). unfold holds, set_reg. by rewrite !decide_False. Qed.

(** ** The block of a rule *)

Lemma bpfAccess_from_range acc perms a :
  (0 ≤ acc ≤ 7)%Z → bpfAccess_from acc perms = Ok a → (0 ≤ a ≤ 7)%Z.
Proof.
  revert acc. induction perms as [|c perms IH]; intros acc Hacc; simpl.
  - by intros [= <-].
  - assert (acc = 0 ∨ acc = 1 ∨ acc = 2 ∨ acc = 3 ∨ acc = 4 ∨ acc = 5 ∨ acc = 6 ∨ acc = 7)%Z
      as Hc by lia.
    repeat case_match; try done; intros Ha; eapply IH; try exact Ha;
      destruct_or! Hc; subst; vm_compute; done.
Qed.

Lemma rule_params_inv rule bt acc :
  rule_params rule = Ok (bt, acc) →
  rule_bpfType rule = Ok bt ∧ bpfAccess_from 0 (Permissions rule) = Ok acc ∧
  (Major rule ≤ MaxUint32)%Z ∧ (Minor rule ≤ MaxUint32)%Z ∧ (0 ≤ acc ≤ 7)%Z.
Proof.
  unfold rule_params. destruct (rule_bpfType rule) as [t|]; simpl; [|done].
  destruct (Z.ltb_spec MaxUint32 (Major rule)); [done|].
  destruct (Z.ltb_spec MaxUint32 (Minor rule)); [done|].
  destruct (bpfAccess_from 0 (Permissions rule)) as [a|] eqn:Ha; simpl; [|done].
  intros [= <- <-]. repeat split; try done; apply bpfAccess_from_range in Ha; lia.
Qed.

Lemma land7 a : Z.land a 7 = (a `mod` 8)%Z.
Proof. change 7%Z with (Z.ones 3). by rewrite Z.land_ones. Qed.

Lemma land_full a : (0 ≤ a ≤ 7)%Z → Z.land a 7 = a.
Proof. intros Ha. rewrite land7. apply Z.mod_small. lia. Qed.

Lemma wrapU_land a b :
  (0 ≤ a ≤ 7)%Z → wrapU 32 (Z.land (wrapU 32 a) b) = Z.land a b.
Proof.
  intros Ha. rewrite (wrapU_small 32 a) by lia. apply wrapU_small.
  assert (Z.land a b = (Z.land a b) `mod` 8)%Z as ->.
  { by rewrite <- land7, <- Z.land_assoc, (Z.land_comm b 7), Z.land_assoc, land_full. }
  pose proof (Z.mod_pos_bound (Z.land a b) 8). lia.
Qed.

(** [if (R3 & bpfAccess != R3) goto next], where [n] is the way to the end. *)
Lemma exec_access_check q r acc o n rest tail :
  (0 ≤ o)%Z → valid_request q → holds q r →
  length rest = n → Z.to_nat o = n →
  ∃ r', holds q r' ∧
    exec other (Mov_Reg32 R6 R3 :: And_Imm32 R6 acc ::
                set_Offset o (JNE_Reg R6 R3) :: rest ++ tail) 0 r =
      if (Z.land (rq_access q) acc =? rq_access q)%Z
      then exec other (rest ++ tail) 0 r' else exec other (rest ++ tail) n r'.
Proof.
  intros Ho Hv Hq Hn Hn'. pose proof registers_ne as Hr. destruct_and? Hr.
  rewrite exec_Mov_Reg32, exec_And_Imm32, exec_JNE_Reg by done.
  eexists. split; cycle 1.
  - rewrite !set_reg_eq, !set_reg_ne by congruence.
    destruct Hq as (? & -> & ? & ?). by rewrite wrapU_land, Hn'.
  - repeat (apply holds_set_reg; [congruence..|]). done.
Qed.

Lemma exec_skip i rest k r : exec other (i :: rest) (S k) r = exec other rest k r.
Proof. done. Qed.

Lemma exec_past g rest r : exec other (g ++ rest) (length g) r = exec other rest 0 r.
Proof. induction g as [|i g IH]; simpl; [done|]. apply IH. Qed.

(** The part of a block after the type and access checks. *)
Definition numbers_block (rule : Rule) : Instructions :=
  let minor := if (0 <=? Minor rule)%Z
    then [set_Offset 2 (JNE_Imm R5 (Minor rule))] else [] in
  let major := if (0 <=? Major rule)%Z
    then [set_Offset (Z.of_nat (length minor) + 2) (JNE_Imm R4 (Major rule))] else [] in
  major ++ minor ++ acceptBlock (Allow rule).

Definition numbers_match (rule : Rule) (q : Request) : bool :=
  ((Major rule <? 0)%Z || (rq_major q =? Major rule)%Z) &&
  ((Minor rule <? 0)%Z || (rq_minor q =? Minor rule)%Z).

Lemma exec_numbers q r rule rest :
  holds q r →
  exec other (numbers_block rule ++ rest) 0 r =
    if numbers_match rule q then Some (if Allow rule then 1%Z else 0%Z)
    else exec other rest 0 r.
Proof.
  intros (_ & _ & Hma & Hmi). unfold numbers_block, numbers_match, acceptBlock.
  assert (∀ b : bool, wrapU 32 (if b then 1 else 0) = if b then 1 else 0)%Z as Hb
    by (by intros []).
  destruct (Z.leb_spec 0 (Major rule)); destruct (Z.leb_spec 0 (Minor rule));
    rewrite ?(proj2 (Z.ltb_lt (Major rule) 0)), ?(proj2 (Z.ltb_lt (Minor rule) 0)),
      ?(proj2 (Z.ltb_ge (Major rule) 0)), ?(proj2 (Z.ltb_ge (Minor rule) 0)) by lia;
    cbn [app length orb andb]; rewrite ?exec_JNE_Imm, ?Hma by lia;
    rewrite ?exec_default, ?Hb; [| | |done];
    repeat (case_match; cbn [andb]; rewrite ?exec_JNE_Imm, ?Hmi, ?exec_default, ?Hb by lia);
    done || congruence.
Qed.

(** The same block with its offsets read off the part they jump over. *)
Lemma rule_block_shape bt acc rule :
  (Major rule < 2 ^ 31)%Z → (Minor rule < 2 ^ 31)%Z →
  let nb := numbers_block rule in
  let check := if hasAccess acc then
      [Mov_Reg32 R6 R3; And_Imm32 R6 acc; set_Offset (Z.of_nat (length nb)) (JNE_Reg R6 R3)]
    else [] in
  rule_block bt acc rule =
    set_Offset (Z.of_nat (length check + length nb)) (JNE_Imm R2 bt) :: check ++ nb.
Proof.
  intros Hma Hmi. unfold rule_block, numbers_block, acceptBlock.
  assert (∀ z, (0 <=? z)%Z = true → (z < 2 ^ 31)%Z → wrapS 32 z = z) as Hw
    by (intros z ?%Z.leb_le ?; apply wrapS_small; lia).
  destruct (0 <=? Major rule)%Z eqn:E1; destruct (0 <=? Minor rule)%Z eqn:E2;
    rewrite ?(Hw (Major rule)), ?(Hw (Minor rule)) by done;
    destruct (hasAccess acc); cbn [app length imap compose];
    autorewrite with go; reflexivity.
Qed.

Lemma hasAccess_false acc : hasAccess acc = false ↔ acc = 7%Z.
Proof. unfold hasAccess. rewrite negb_false_iff, Z.eqb_eq. done. Qed.

(** A block decides exactly the requests its rule covers. *)
Lemma rule_block_decides bt acc rule :
  (0 ≤ acc ≤ 7)%Z → (Major rule < 2 ^ 31)%Z → (Minor rule < 2 ^ 31)%Z →
  decides other holds (rule_block bt acc rule) (rule_decision bt acc rule).
Proof.
  intros Hacc Hma Hmi q r Hv Hq rest. rewrite rule_block_shape by done.
  set (nb := numbers_block rule).
  assert (rule_decision bt acc rule q =
    if (rq_type q =? bt)%Z then
      if (Z.land (rq_access q) acc =? rq_access q)%Z then
        if numbers_match rule q then Some (if Allow rule then 1%Z else 0%Z) else None
      else None else None) as ->.
  { unfold rule_decision, covers, numbers_match.
    by destruct (rq_type q =? bt)%Z, (Z.land (rq_access q) acc =? rq_access q)%Z. }
  cbn [app]. rewrite exec_JNE_Imm by lia. pose proof Hq as (-> & _).
  assert (∀ r', holds q r' →
    match (if numbers_match rule q then Some (if Allow rule then 1%Z else 0%Z) else None) with
    | Some v => exec other (nb ++ rest) 0 r' = Some v
    | None => ∃ r'', holds q r'' ∧ exec other (nb ++ rest) 0 r' = exec other rest 0 r''
    end) as Hnb.
  { intros r' Hr'. unfold nb. rewrite (exec_numbers q) by done. destruct (numbers_match rule q); eauto. }
  destruct (hasAccess acc) eqn:Ha; cbn [app length].
  - destruct (exec_access_check q r acc (Z.of_nat (length nb)) (length nb) nb rest)
      as (r' & Hr' & Hx); [lia | done | done | done | lia |].
    destruct (rq_type q =? bt)%Z.
    + rewrite Hx. destruct (_ =? rq_access q)%Z; [by apply Hnb|].
      exists r'. split; [done|]. apply exec_past.
    + exists r. split; [done|]. rewrite Nat2Z.id. apply (exec_past (_ :: _ :: _ :: nb)).
  - apply hasAccess_false in Ha as ->. rewrite land_full, Z.eqb_refl by done.
    destruct (rq_type q =? bt)%Z; [by apply Hnb|].
    exists r. split; [done|]. rewrite Nat2Z.id. apply exec_past.
Qed.

(** ** Whole programs *)

Context (entry : Request → regs → Prop).

(** The program consists of closed groups that decide like [fs]; the first one
    starts with the prologue, in the state [entry] in which the kernel calls. *)
Definition program_decides (insts : Instructions) (fs : list (Request → option Z)) : Prop :=
  ∃ g0 gs f0 fs', groups insts = g0 :: gs ∧ fs = f0 :: fs' ∧
    Forall closed_group (g0 :: gs) ∧ decides other entry g0 f0 ∧
    Forall2 (decides other holds) gs fs'.

Lemma exec_groups gs fs d q r :
  Forall2 (decides other holds) gs fs → valid_request q → holds q r →
  exec other (concat gs ++ [Mov_Imm32 R0 d; Return_]) 0 r =
    Some (first_verdict fs (wrapU 32 d) q).
Proof.
  intros HF Hv. revert r. induction HF as [|g f gs fs Hg _ IH]; intros r Hr;
    cbn [concat app first_verdict].
  - apply exec_default.
  - rewrite <- app_assoc. specialize (Hg q r Hv Hr (concat gs ++ [Mov_Imm32 R0 d; Return_])).
    destruct (f q) as [v|]; [done|]. destruct Hg as (r' & Hr' & ->). by apply IH.
Qed.

Lemma exec_program insts fs d q r :
  program_decides insts fs → valid_request q → entry q r →
  exec other (insts ++ [Mov_Imm32 R0 d; Return_]) 0 r =
    Some (first_verdict fs (wrapU 32 d) q).
Proof.
  intros (g0 & gs & f0 & fs' & Hgs & -> & _ & Hg0 & HF) Hv Hr.
  rewrite <- (groups_concat insts), Hgs. cbn [concat app first_verdict].
  rewrite <- app_assoc.
  specialize (Hg0 q r Hv Hr (concat gs ++ [Mov_Imm32 R0 d; Return_])).
  destruct (f0 q) as [v|]; [done|]. destruct Hg0 as (r' & Hr' & ->). by apply exec_groups.
Qed.

End Exec.

Lemma rule_block_closed bt acc rule :
  (Major rule < 2 ^ 31)%Z → (Minor rule < 2 ^ 31)%Z → closed_group (rule_block bt acc rule).
Proof.
  intros. rewrite rule_block_shape by done. unfold numbers_block, acceptBlock.
  destruct (hasAccess acc), (0 <=? Major rule)%Z, (0 <=? Minor rule)%Z; cbn [app];
    match goal with |- closed_group ?l => exists (removelast l), Return_ end;
    (split; [reflexivity | split; [auto with go | repeat constructor; auto with go]]).
Qed.

Lemma rule_block_length bt acc rule :
  (Major rule < 2 ^ 31)%Z → (Minor rule < 2 ^ 31)%Z →
  (3 ≤ length (rule_block bt acc rule) ≤ 8)%nat.
Proof.
  intros. rewrite rule_block_shape by done. unfold numbers_block, acceptBlock.
  destruct (hasAccess acc), (0 <=? Major rule)%Z, (0 <=? Minor rule)%Z; simpl; lia.
Qed.

(** ** The search *)

Lemma search_groups_Some bt rule gs n i :
  search_groups bt rule gs n = Some i →
  (i < n)%nat ∧ (∃ g, gs !! i = Some g ∧ group_found bt rule g = true) ∧
  ∀ j g, (i < j < n)%nat → gs !! j = Some g → group_found bt rule g = false.
Proof.
  induction n as [|n IH]; simpl; [done|].
  destruct (gs !! n) as [g|] eqn:Hg; [destruct (group_found bt rule g) eqn:Hf|].
  - intros [= ->]. repeat split; [lia | eauto | intros; lia].
  - intros Hs. destruct (IH Hs) as (? & ? & Hlast). split; [lia|]. split; [done|].
    intros j g' Hj Hg'. destruct (decide (j = n)) as [->|]; [congruence|].
    apply (Hlast j); [lia | done].
  - intros Hs. destruct (IH Hs) as (? & ? & Hlast). split; [lia|]. split; [done|].
    intros j g' Hj Hg'. destruct (decide (j = n)) as [->|]; [congruence|].
    apply (Hlast j); [lia | done].
Qed.

Lemma search_groups_None bt rule gs n :
  search_groups bt rule gs n = None →
  ∀ j g, (j < n)%nat → gs !! j = Some g → group_found bt rule g = false.
Proof.
  induction n as [|n IH]; simpl; intros Hs j g Hj Hg; [lia|].
  destruct (gs !! n) as [g'|] eqn:Hg'; [destruct (group_found bt rule g') eqn:Hf; [done|]|];
    (destruct (decide (j = n)) as [->|]; [congruence|]; apply (IH Hs j); [lia | done]).
Qed.

Lemma search_groups_last bt rule gs n i g :
  (i < n)%nat → gs !! i = Some g → group_found bt rule g = true →
  (∀ j g', (i < j < n)%nat → gs !! j = Some g' → group_found bt rule g' = false) →
  search_groups bt rule gs n = Some i.
Proof.
  intros Hi Hg Hf Hlast. induction n as [|n IH]; [lia|]. simpl.
  destruct (decide (i = n)) as [->|]; [by rewrite Hg, Hf|].
  destruct (gs !! n) as [g'|] eqn:Hg'; [rewrite (Hlast n g') by (done || lia)|];
    (apply IH; [lia | intros j g'' ?; apply Hlast; lia]).
Qed.

Lemma group_found_ext bt r1 r2 g :
  Major r1 = Major r2 → Minor r1 = Minor r2 → group_found bt r1 g = group_found bt r2 g.
Proof.
  intros Hma Hmi. unfold group_found.
  replace (found_step bt r1) with (found_step bt r2); [done|].
  unfold found_step. by rewrite Hma, Hmi.
Qed.

Lemma search_groups_ext bt r1 r2 gs n :
  Major r1 = Major r2 → Minor r1 = Minor r2 →
  search_groups bt r1 gs n = search_groups bt r2 gs n.
Proof.
  intros Hma Hmi. induction n as [|n IH]; simpl; [done|]. rewrite IH.
  destruct (gs !! n); [|done]. by rewrite (group_found_ext bt r1 r2).
Qed.

Lemma group_found_shown bt rule g : group_found bt rule (shown g) = group_found bt rule g.
Proof.
  unfold group_found. generalize (false, false, false). induction g as [|i g IH]; intros f; [done|].
  apply IH.
Qed.

Lemma search_groups_shown bt rule gs n :
  search_groups bt rule (map shown gs) n = search_groups bt rule gs n.
Proof.
  induction n as [|n IH]; simpl; [done|]. rewrite IH, list_lookup_fmap.
  destruct (gs !! n); simpl; [|done]. by rewrite group_found_shown.
Qed.

Lemma place_block_shown gs index insert :
  map shown (place_block gs index insert) = place_block (map shown gs) index (shown insert).
Proof.
  destruct index as [i|]; simpl; [|by rewrite map_app].
  assert (length (default [] (map shown gs !! i)) = length (default [] (gs !! i))) as ->.
  { rewrite list_lookup_fmap. destruct (gs !! i); simpl; [apply length_shown|done]. }
  rewrite length_shown. case_match; [by rewrite map_app|]. apply list_fmap_insert.
Qed.

(** A longer first group stays where it is. *)
Lemma place_block_first g0 gs index insert :
  length insert < length g0 → ∃ gs', place_block (g0 :: gs) index insert = g0 :: gs'.
Proof.
  intros Hl. destruct index as [[|i]|]; simpl; [|case_match; by eexists|by eexists].
  apply Nat.ltb_lt in Hl as ->. by eexists.
Qed.

Lemma found_step_other bt rule f i : OpCode i ≠ OpJNEImm → found_step bt rule f i = f.
Proof.
  intros Hi. unfold found_step. destruct f as [[t ma] mi].
  rewrite (bool_decide_eq_false_2 (OpCode i = OpJNEImm)) by done.
  by destruct t, ma, mi.
Qed.

(** The three comparisons of a block are told apart by their registers. *)
Lemma found_step_JNE bt rule t ma mi o d v :
  found_step bt rule (t, ma, mi) (set_Offset o (JNE_Imm d v)) =
    if decide (d = R2) then (t || bool_decide (v = bt), ma, mi)
    else if decide (d = R4) then (t, ma || bool_decide (v = Major rule), mi)
    else if decide (d = R5) then (t, ma, mi || bool_decide (v = Minor rule))
    else (t, ma, mi).
Proof.
  pose proof registers_ne. destruct_and?. unfold found_step.
  destruct (JNE_Imm_law d v) as (s & o' & ->). cbn [set_Offset OpCode Dst Constant].
  rewrite (bool_decide_eq_true_2 (OpJNEImm = OpJNEImm)) by done.
  repeat case_decide; subst;
    repeat (rewrite bool_decide_eq_true_2 by done);
    repeat (rewrite (bool_decide_eq_false_2 (_ = _ :> Z)) by congruence);
    repeat case_bool_decide; destruct t, ma, mi; simpl; congruence.
Qed.

Lemma found_step_Mov bt rule f v : found_step bt rule f (Mov_Imm32 R0 v) = f.
Proof.
  opcodes. apply found_step_other. destruct (Mov_Imm32_law R0 v) as (? & ? & ->). simpl. congruence.
Qed.

Lemma found_step_Return bt rule f : found_step bt rule f Return_ = f.
Proof. opcodes. apply found_step_other. rewrite Return_law. congruence. Qed.

Lemma found_step_Mov_Reg32 bt rule f d v : found_step bt rule f (Mov_Reg32 d v) = f.
Proof.
  opcodes. apply found_step_other. destruct (Mov_Reg32_law d v) as (? & ? & ->). simpl. congruence.
Qed.

Lemma found_step_And_Imm32 bt rule f d v : found_step bt rule f (And_Imm32 d v) = f.
Proof.
  opcodes. apply found_step_other. destruct (And_Imm32_law d v) as (? & ? & ->). simpl. congruence.
Qed.

Lemma found_step_JNE_Reg bt rule f o d v :
  found_step bt rule f (set_Offset o (JNE_Reg d v)) = f.
Proof.
  opcodes. apply found_step_other. destruct (JNE_Reg_law d v) as (? & ? & ->). simpl. congruence.
Qed.

Lemma found_step_R2 bt rule t ma mi o v :
  found_step bt rule (t, ma, mi) (set_Offset o (JNE_Imm R2 v)) = (t || (v =? bt)%Z, ma, mi).
Proof. rewrite found_step_JNE, decide_True, bool_decide_Zeqb by done. done. Qed.

Lemma found_step_R4 bt rule t ma mi o v :
  found_step bt rule (t, ma, mi) (set_Offset o (JNE_Imm R4 v)) =
    (t, ma || (v =? Major rule)%Z, mi).
Proof.
  pose proof registers_ne. destruct_and?.
  rewrite found_step_JNE, decide_False, decide_True, bool_decide_Zeqb by congruence. done.
Qed.

Lemma found_step_R5 bt rule t ma mi o v :
  found_step bt rule (t, ma, mi) (set_Offset o (JNE_Imm R5 v)) =
    (t, ma, mi || (v =? Minor rule)%Z).
Proof.
  pose proof registers_ne. destruct_and?.
  rewrite found_step_JNE, decide_False, decide_False, decide_True, bool_decide_Zeqb
    by congruence. done.
Qed.

Hint Rewrite found_step_Mov found_step_Return found_step_Mov_Reg32 found_step_And_Imm32
  found_step_JNE_Reg found_step_R2 found_step_R4 found_step_R5 : go.

(** ** Programs as lists of rules *)

(** A device entry of a program: the type and access operands and the rule. *)
Record entry := mkEntry { en_type : Z; en_access : Z; en_rule : Rule }.

Definition entry_wf (en : entry) : Prop :=
  (0 ≤ en_access en ≤ 7)%Z ∧ (Major (en_rule en) < 2 ^ 31)%Z ∧ (Minor (en_rule en) < 2 ^ 31)%Z.

Definition entry_block (en : entry) : Instructions :=
  rule_block (en_type en) (en_access en) (en_rule en).

Arguments entry_block : simpl never.

Definition entry_decision (en : entry) : Request → option Z :=
  rule_decision (en_type en) (en_access en) (en_rule en).

(** Two entries are about one device, with both its numbers given. *)
Definition same_device (e1 e2 : entry) : bool :=
  (en_type e1 =? en_type e2)%Z && (Major (en_rule e1) =? Major (en_rule e2))%Z &&
  (Minor (en_rule e1) =? Minor (en_rule e2))%Z &&
  (0 <=? Major (en_rule e1))%Z && (0 <=? Minor (en_rule e1))%Z.

(** What [AppendRule] does to the list of entries: the last entry of the device
    is overwritten, unless it has an access check that the new one has not. *)
Fixpoint upsert (new : entry) (es : list entry) : option (list entry) :=
  match es with
  | [] => None
  | old :: rest =>
      match upsert new rest with
      | Some rest' => Some (old :: rest')
      | None =>
          if same_device old new then
            if hasAccess (en_access old) && negb (hasAccess (en_access new))
            then Some (old :: rest ++ [new]) else Some (new :: rest)
          else None
      end
  end.

Definition append_entry (new : entry) (es : list entry) : list entry :=
  default (es ++ [new]) (upsert new es).

Lemma group_found_block bt rule en :
  entry_wf en →
  group_found bt rule (entry_block en) =
    same_device en (mkEntry bt 0 rule).
Proof.
  intros (_ & Hma & Hmi). unfold group_found, entry_block. rewrite rule_block_shape by done.
  unfold numbers_block, acceptBlock, same_device. cbn [en_type en_rule].
  destruct (hasAccess _), (0 <=? Major (en_rule en))%Z, (0 <=? Minor (en_rule en))%Z;
    cbn [app foldl length]; autorewrite with go; cbn [orb];
    by rewrite ?andb_false_r, ?andb_true_r.
Qed.

Lemma upsert_None new es :
  upsert new es = None → Forall (λ old, same_device old new = false) es.
Proof.
  induction es as [|old rest IH]; simpl; [done|].
  destruct (upsert new rest) eqn:Hu; [done|].
  destruct (same_device old new) eqn:Hs; [by case_match|]. auto.
Qed.

Lemma upsert_Some new es es' :
  upsert new es = Some es' →
  ∃ l1 old l2, es = l1 ++ old :: l2 ∧ same_device old new = true ∧
    Forall (λ e, same_device e new = false) l2 ∧
    es' = if hasAccess (en_access old) && negb (hasAccess (en_access new))
          then es ++ [new] else l1 ++ new :: l2.
Proof.
  revert es'. induction es as [|old rest IH]; intros es'; simpl; [done|].
  destruct (upsert new rest) as [rest'|] eqn:Hu.
  - intros [= <-]. destruct (IH _ eq_refl) as (l1 & o & l2 & -> & ? & ? & ->).
    exists (old :: l1), o, l2. repeat split; try done. by case_match.
  - apply upsert_None in Hu. destruct (same_device old new) eqn:Hs; [|done].
    intros He. exists [], old, rest. repeat split; try done.
    destruct (_ && _); by injection He.
Qed.

Lemma entry_block_length en :
  entry_wf en → (0 ≤ Major (en_rule en))%Z → (0 ≤ Minor (en_rule en))%Z →
  length (entry_block en) = if hasAccess (en_access en) then 8 else 5.
Proof.
  intros (_ & Hma & Hmi) H1%Z.leb_le H2%Z.leb_le. unfold entry_block.
  rewrite rule_block_shape by done. unfold numbers_block. rewrite H1, H2.
  by destruct (hasAccess _).
Qed.

Lemma same_device_inv e1 e2 :
  same_device e1 e2 = true →
  en_type e1 = en_type e2 ∧ Major (en_rule e1) = Major (en_rule e2) ∧
  Minor (en_rule e1) = Minor (en_rule e2) ∧
  (0 ≤ Major (en_rule e1))%Z ∧ (0 ≤ Minor (en_rule e1))%Z.
Proof.
  unfold same_device. rewrite !andb_true_iff, !Z.eqb_eq, !Z.leb_le. tauto.
Qed.

(** The search for the device's block and the comparison of lengths implement
    the update of the list of entries, whatever the first group is as long as
    it is too long to be overwritten. *)
Lemma place_block_upsert g0 es new :
  Forall entry_wf es → entry_wf new → (8 < length g0)%nat →
  let gs := g0 :: map entry_block es in
  place_block gs (search_groups (en_type new) (en_rule new) gs (length gs)) (entry_block new) =
    g0 :: map entry_block (append_entry new es).
Proof.
  intros Hes Hnew Hg0 gs. unfold default.
  assert (∀ j e, es !! j = Some e →
    group_found (en_type new) (en_rule new) (entry_block e) = same_device e new) as Hfound.
  { intros j e He. rewrite group_found_block by (by eapply Forall_lookup_1). done. }
  assert (length (entry_block new) < length g0)%nat as Hlen.
  { destruct Hnew as (_ & ? & ?). pose proof (rule_block_length (en_type new)
      (en_access new) (en_rule new)). unfold entry_block. lia. }
  unfold append_entry. destruct (upsert new es) as [es'|] eqn:Hu;
    cbn [default from_option id].
  - apply upsert_Some in Hu as (l1 & old & l2 & -> & Hs & Hl2 & ->).
    assert (gs !! S (length l1) = Some (entry_block old)) as Hlook.
    { unfold gs. simpl. rewrite map_app. simpl.
      by rewrite list_lookup_middle by (by rewrite length_map). }
    assert (<[S (length l1) := entry_block new]> gs =
      g0 :: map entry_block (l1 ++ new :: l2)) as Hinsert.
    { unfold gs. rewrite !map_app. cbn [map]. simpl. f_equal.
      rewrite insert_app_r_alt by (rewrite length_map; lia).
      by rewrite length_map, Nat.sub_diag. }
    rewrite (search_groups_last _ _ _ _ (S (length l1)) (entry_block old)).
    + unfold place_block. rewrite Hlook. cbn [default from_option id].
      apply same_device_inv in Hs as (_ & Hma & Hmi & ? & ?).
      apply Forall_app in Hes as [_ [Hold _]%Forall_cons].
      rewrite !entry_block_length by (done || lia).
      destruct (hasAccess (en_access old)), (hasAccess (en_access new));
        cbn [Nat.ltb Nat.leb andb negb]; try apply Hinsert.
      unfold gs. by rewrite (map_app _ _ [new]).
    + unfold gs. simpl. rewrite length_map, length_app. simpl. lia.
    + done.
    + rewrite (Hfound (length l1)); [done | by rewrite list_lookup_middle].
    + intros j g' [Hj _] Hg'. destruct j as [|j]; [lia|]. unfold gs in Hg'. simpl in Hg'.
      apply list_lookup_fmap_Some in Hg' as (e & -> & He). rewrite (Hfound j) by done.
      rewrite lookup_app_r in He by lia.
      destruct (j - length l1)%nat as [|k] eqn:Hk; [lia|]. simpl in He.
      by eapply Forall_lookup_1 in Hl2.
  - apply upsert_None in Hu.
    destruct (search_groups _ _ gs _) as [i|] eqn:Hi.
    + apply search_groups_Some in Hi as (_ & (g & Hg & Hf) & _).
      destruct i as [|i]; simpl in Hg.
      * unfold place_block. change (gs !! 0%nat) with (Some g0). cbn [default from_option id].
        rewrite (proj2 (Nat.ltb_lt _ _) Hlen). unfold gs. by rewrite map_app.
      * apply list_lookup_fmap_Some in Hg as (e & -> & He). rewrite (Hfound i) in Hf by done.
        eapply Forall_lookup_1 in Hu; [|done]. simpl in Hu. congruence.
    + unfold place_block, gs. simpl. by rewrite map_app.
Qed.

(** ** Programs the editor works on *)

(** The loaded program is a first group too long to be overwritten (it holds the
    prologue) followed by the blocks of the entries [es], built here or read from
    the kernel. *)
Definition edits (insts g0 : Instructions) (es : list entry) : Prop :=
  (∃ gs, groups insts = g0 :: gs ∧ map shown gs = map shown (map entry_block es)) ∧
  closed_group g0 ∧ (8 < length g0)%nat ∧ Forall entry_wf es.

Definition rule_entry (rule : Rule) : result entry :=
  '(bt, acc) ← rule_params rule; Ok (mkEntry bt acc rule).

Lemma rule_entry_inv rule en :
  rule_entry rule = Ok en →
  rule_params rule = Ok (en_type en, en_access en) ∧ en_rule en = rule.
Proof. unfold rule_entry. destruct (rule_params rule) as [[bt acc]|]; [|done]. by intros [= <-]. Qed.

Lemma rule_entry_wf rule en :
  rule_entry rule = Ok en → (Major rule < 2 ^ 31)%Z → (Minor rule < 2 ^ 31)%Z → entry_wf en.
Proof.
  intros [Hp <-]%rule_entry_inv ??. apply rule_params_inv in Hp as (_ & _ & _ & _ & ?).
  by split.
Qed.

Lemma entry_block_closed en : entry_wf en → closed_group (entry_block en).
Proof. intros (_ & ? & ?). by apply rule_block_closed. Qed.

Lemma append_entry_wf new es :
  entry_wf new → Forall entry_wf es → Forall entry_wf (append_entry new es).
Proof.
  intros Hnew Hes. unfold append_entry. destruct (upsert new es) as [es'|] eqn:Hu; simpl.
  - apply upsert_Some in Hu as (l1 & old & l2 & -> & _ & _ & ->).
    rewrite Forall_app, Forall_cons in Hes. destruct_and! Hes.
    case_match; rewrite ?Forall_app, ?Forall_cons; auto 10.
  - by rewrite Forall_app, Forall_singleton.
Qed.

Lemma entry_blocks_closed es : Forall entry_wf es → Forall closed_group (map entry_block es).
Proof. intros Hes. apply Forall_fmap. eapply Forall_impl; [done | apply entry_block_closed]. Qed.

Lemma shown_closed gs gs' :
  map shown gs = map shown gs' → Forall closed_group gs' → Forall closed_group gs.
Proof.
  intros Hs Hc. assert (Forall closed_group (map shown gs)) as Hg.
  { rewrite Hs. apply Forall_fmap. eapply Forall_impl; [exact Hc|]. intros g. apply closed_group_shown. }
  change (Forall closed_group (shown <$> gs)) in Hg. rewrite Forall_fmap in Hg.
  eapply Forall_impl; [exact Hg|]. intros g. apply closed_group_shown.
Qed.

Lemma edits_closed insts g0 es : edits insts g0 es → Forall closed_group (groups insts).
Proof.
  intros ((gs & -> & Hs) & Hg0 & _ & Hes). constructor; [done|].
  eapply shown_closed; [done|]. by apply entry_blocks_closed.
Qed.

Lemma edits_shown insts g0 es :
  edits insts g0 es → shown insts = shown (concat (g0 :: map entry_block es)).
Proof.
  intros ((gs & Hg & Hs) & _). rewrite <- (groups_concat insts), Hg. cbn [concat].
  by rewrite !shown_app, !shown_concat, Hs.
Qed.

(** A program made of closed groups. *)
Lemma edits_of_groups g0 gs es :
  map shown gs = map shown (map entry_block es) →
  closed_group g0 → (8 < length g0)%nat → Forall entry_wf es →
  edits (concat (g0 :: gs)) g0 es.
Proof.
  intros Hs Hg0 Hlen Hes. split; [|done]. exists gs. split; [|done]. apply groups_of_concat.
  constructor; [done|]. eapply shown_closed; [done|]. by apply entry_blocks_closed.
Qed.

Lemma edits_intro g0 es :
  closed_group g0 → (8 < length g0)%nat → Forall entry_wf es →
  edits (concat (g0 :: map entry_block es)) g0 es.
Proof. by apply edits_of_groups. Qed.

(** Reading the program back from the kernel. *)
Lemma edits_read insts g0 es : edits insts g0 es → edits (shown insts) (shown g0) es.
Proof.
  intros ((gs & Hg & Hs) & Hg0 & Hlen & Hes). split; [|split; [by apply closed_group_shown|]].
  - exists (map shown gs). rewrite groups_shown, Hg. split; [done|]. rewrite <- Hs, map_map.
    apply map_ext. apply shown_idemp.
  - by rewrite length_shown.
Qed.

Lemma AppendRule_edits insts g0 es rule new :
  edits insts g0 es → rule_entry rule = Ok new →
  (Major rule < 2 ^ 31)%Z → (Minor rule < 2 ^ 31)%Z →
  ∃ insts', AppendRule insts rule = Ok insts' ∧ edits insts' g0 (append_entry new es).
Proof.
  intros ((gs & Hg & Hs) & Hg0 & Hlen & Hes) Hnew Hma Hmi.
  pose proof (rule_entry_wf _ _ Hnew Hma Hmi) as Hwf. apply rule_entry_inv in Hnew as [Hp Hr].
  unfold AppendRule. rewrite Hp. cbn [mbind result_bind]. rewrite Hg, <- Hr.
  set (index := search_groups _ _ _ _).
  destruct (place_block_first g0 gs index (entry_block new)) as (gs' & Hgs').
  { pose proof Hwf as (_ & ? & ?). pose proof (rule_block_length (en_type new)
      (en_access new) (en_rule new)). unfold entry_block. lia. }
  eexists. split; [reflexivity|]. unfold entry_block in Hgs'. rewrite Hgs'.
  apply edits_of_groups; [|done..|by apply append_entry_wf].
  pose proof (place_block_upsert g0 es new Hes Hwf Hlen) as Hu. cbv zeta in Hu.
  apply (f_equal (map shown)) in Hu, Hgs'. rewrite place_block_shown in Hu, Hgs'.
  assert (length (g0 :: gs) = length (g0 :: map entry_block es)) as Hl
    by (simpl; f_equal; by rewrite <- (length_map shown gs), Hs, length_map).
  unfold index in Hgs'. rewrite <- search_groups_shown in Hgs', Hu.
  rewrite <- Hl in Hu. cbn [map] in Hgs', Hu. rewrite <- Hs in Hu. unfold entry_block in Hu at 1.
  rewrite Hu in Hgs'. by injection Hgs'.
Qed.

Lemma closed_no_end_exit p g :
  closed_group g → (3 ≤ length g)%nat → hasEndExit (p ++ g) = Returns false.
Proof.
  intros (body & i & -> & Hi & Hb) Hlen. rewrite length_app in Hlen. simpl in Hlen.
  assert (∃ body' a b, body = body' ++ [a; b]) as (body' & a & b & ->).
  { destruct body as [|b l _] using rev_ind; [simpl in Hlen; lia|].
    destruct l as [|a l _] using rev_ind; [simpl in Hlen; lia|].
    exists l, a, b. by rewrite <- app_assoc. }
  apply Forall_app in Hb as [_ Hab]. apply Forall_cons in Hab as [Ha _].
  assert (∀ k x, ([i; b; a] : Instructions) !! k = Some x →
    from_end (p ++ (body' ++ [a; b]) ++ [i]) (S k) = Returns x) as Hend.
  { intros k x Hk. unfold from_end, slice_get. rewrite !length_app. simpl.
    assert (k < 3)%nat by (by apply lookup_lt_Some in Hk).
    rewrite decide_True by lia. rewrite !app_assoc, <- !(app_assoc _ [a; b]). simpl.
    rewrite lookup_app_r by (rewrite length_app; lia). rewrite length_app.
    replace (_ - S k - _)%nat with (2 - k)%nat by lia.
    by destruct k as [|[|[|]]]; [| | | lia]; injection Hk as ->. }
  unfold hasEndExit.
  rewrite (Hend 0 i), (Hend 1 b), (Hend 2 a) by done. simpl. rewrite Hi, Ha. simpl.
  by destruct (_ && _).
Qed.

Lemma edits_no_end_exit insts g0 es :
  edits insts g0 es → hasEndExit insts = Returns false.
Proof.
  intros He. rewrite <- hasEndExit_shown, (edits_shown _ _ _ He), hasEndExit_shown.
  destruct He as (_ & Hg0 & Hlen & Hes).
  destruct es as [|e es _] using rev_ind; simpl.
  - rewrite app_nil_r. apply (closed_no_end_exit []); [done | lia].
  - apply Forall_app in Hes as [_ [Hwf _]%Forall_cons].
    rewrite map_app, concat_app. simpl. rewrite app_nil_r, app_assoc.
    pose proof Hwf as (_ & ? & ?).
    apply closed_no_end_exit; [by apply entry_block_closed|].
    apply (rule_block_length (en_type e) (en_access e) (en_rule e)); done.
Qed.

Lemma upsert_middle new l1 old l2 :
  same_device old new = true → Forall (λ e, same_device e new = false) l2 →
  upsert new (l1 ++ old :: l2) =
    Some (if hasAccess (en_access old) && negb (hasAccess (en_access new))
          then (l1 ++ old :: l2) ++ [new] else l1 ++ new :: l2).
Proof.
  intros Hs Hl2.
  assert (upsert new l2 = None) as Hu.
  { induction Hl2 as [|e l2 He _ IH]; simpl; [done|]. by rewrite IH, He. }
  induction l1 as [|e l1 IH]; simpl.
  - by rewrite Hu, Hs; destruct (_ && _).
  - by rewrite IH; destruct (_ && _).
Qed.

(** Writing the entry of a device twice is writing the second one. *)
Lemma append_entry_overwrite a b es :
  same_device a b = true → en_access a = en_access b →
  append_entry b (append_entry a es) = append_entry b es.
Proof.
  intros Hab Hacc. pose proof (same_device_inv _ _ Hab) as (Ht & Hma & Hmi & ? & ?).
  assert (∀ e, same_device e a = same_device e b) as Hsame.
  { intros e. unfold same_device. by rewrite Ht, Hma, Hmi. }
  assert (upsert b es = None → append_entry b (es ++ [a]) = es ++ [b]) as Hsnoc.
  { intros _. unfold append_entry. rewrite upsert_middle by done. rewrite Hacc. by destruct (hasAccess (en_access b)). }
  unfold append_entry at 2 3.
  destruct (upsert a es) as [es'|] eqn:Ha; cbn [default from_option id].
  - apply upsert_Some in Ha as (l1 & old & l2 & -> & Hold & Hl2 & ->).
    assert (Forall (λ e, same_device e b = false) l2) as Hl2b
      by (eapply Forall_impl; [done|]; intros e; simpl; by rewrite Hsame).
    rewrite Hsame in Hold. rewrite Hacc, (upsert_middle b) by done. cbn [default from_option id].
    destruct (hasAccess (en_access old) && _) eqn:Hlong.
    + unfold append_entry. rewrite (upsert_middle b _ a []) by done. rewrite Hacc.
      by destruct (hasAccess (en_access b)).
    + unfold append_entry. rewrite upsert_middle by done. rewrite Hacc. by destruct (hasAccess (en_access b)).
  - destruct (upsert b es) as [es'|] eqn:Hb; [exfalso | by apply Hsnoc].
    apply upsert_None in Ha. apply upsert_Some in Hb as (l1 & old & l2 & -> & Hold & _).
    rewrite <- Hsame in Hold. apply Forall_app in Ha as [_ [Ha _]%Forall_cons]. congruence.
Qed.

Lemma first_verdict_app fs gs d q :
  first_verdict (fs ++ gs) d q = first_verdict fs (first_verdict gs d q) q.
Proof. induction fs as [|f fs IH]; simpl; [done|]. by destruct (f q). Qed.

Lemma edits_verdict other pre insts g0 f0 es d q r :
  edits insts g0 es → decides other pre g0 f0 → valid_request q → pre q r →
  exec other (insts ++ [Mov_Imm32 R0 d; Return_]) 0 r =
    Some (first_verdict (f0 :: map entry_decision es) (wrapU 32 d) q).
Proof.
  intros He Hg0 Hv Hr. pose proof (edits_shown _ _ _ He) as Hs. destruct He as (_ & Hcl & _ & Hes).
  rewrite (exec_shown _ _ (concat (g0 :: map entry_block es) ++ [Mov_Imm32 R0 d; Return_]))
    by (rewrite !(shown_app _ [_; _]); by rewrite Hs).
  revert Hv Hr. apply exec_program.
  assert (Forall closed_group (g0 :: map entry_block es)) as Hc
    by (constructor; [done|]; by apply entry_blocks_closed).
  exists g0, (map entry_block es), f0, (map entry_decision es). split; [by apply groups_of_concat|].
  split; [done|]. split; [done|]. split; [done|].
  clear Hcl Hg0 Hs Hc. induction Hes as [|e es (? & ? & ?) _ IH]; constructor; [|done].
  by apply rule_block_decides.
Qed.

Lemma shown_default v : shown [Mov_Imm32 R0 v; Return_] = [Mov_Imm32 R0 v; Return_].
Proof. unfold shown. cbn [map]. rewrite Return_read. by destruct (Mov_Imm32_law R0 v) as (? & ? & ->). Qed.

Lemma edits_Finalize insts g0 es :
  edits insts g0 es → Finalize insts = Returns (insts ++ [Mov_Imm32 R0 0; Return_]).
Proof. intros He. unfold Finalize. by rewrite (edits_no_end_exit _ _ _ He). Qed.

Lemma edits_Load insts g0 es v :
  edits insts g0 es →
  LoadInstructions (Some (insts ++ [Mov_Imm32 R0 v; Return_])) = Returns (Ok insts).
Proof.
  intros He.
  assert (∃ body i, insts = body ++ [i] ∧ is_exit i = true) as (body & i & -> & Hi).
  { pose proof (edits_closed _ _ _ He) as Hc. rewrite <- (groups_concat insts).
    destruct He as ((gs & Hg & _) & _). destruct (groups insts) as [|g gs' _] using rev_ind; [done|].
    apply Forall_app in Hc as [_ [(b & i & -> & Hi & _) _]%Forall_cons].
    exists (concat gs' ++ b), i. split; [|done]. by rewrite concat_app, <- app_assoc; simpl; rewrite app_nil_r. }
  pose proof is_exit_Return as Hret.
  assert (Dst (Mov_Imm32 R0 v) = R0) as Hdst by (by destruct (Mov_Imm32_law R0 v) as (?&?&->)).
  assert (∀ k x, ([Return_; Mov_Imm32 R0 v; i] : Instructions) !! k = Some x →
    from_end ((body ++ [i]) ++ [Mov_Imm32 R0 v; Return_]) (S k) = Returns x) as Hend.
  { intros k x Hk. unfold from_end, slice_get. rewrite !length_app. simpl.
    assert (k < 3)%nat by (by apply lookup_lt_Some in Hk).
    rewrite decide_True by lia. rewrite <- app_assoc, lookup_app_r by lia. simpl.
    replace (_ - S k - _)%nat with (2 - k)%nat by lia.
    by destruct k as [|[|[|]]]; [| | | lia]; injection Hk as <-. }
  unfold LoadInstructions, hasEndExit.
  rewrite (Hend 0 Return_), (Hend 1 (Mov_Imm32 R0 v)), (Hend 2 i) by done. simpl.
  rewrite Hret, Hdst, Hi, bool_decide_eq_false_2 by congruence. simpl.
  do 2 f_equal. rewrite length_app. simpl. rewrite take_app_le by lia. apply take_ge. lia.
Qed.

(** ** Properties *)

(** C1. [AppendRule] refines the update of a list of device entries: on a program
    made of a first group (prologue and first rule) and the blocks of the entries
    [es], whether built here or read from the kernel, an accepted rule yields the program of [append_entry new es] - the last
    block of the same device is overwritten, any other rule goes to the end - and
    the first group is never touched. *)
Theorem AppendRule_refines insts g0 es rule new :
  edits insts g0 es → rule_entry rule = Ok new →
  (Major rule < 2 ^ 31)%Z → (Minor rule < 2 ^ 31)%Z →
  ∃ insts', AppendRule insts rule = Ok insts' ∧ edits insts' g0 (append_entry new es).
Proof.
  apply AppendRule_edits.
Qed.

(** C2. The program the kernel runs after [Finalize] decides every request by
    the first entry that covers it, and denies a request no entry covers. *)
Theorem finalized_program_verdict other pre insts g0 f0 es q r :
  edits insts g0 es → decides other pre g0 f0 → valid_request q → pre q r →
  ∃ final, Finalize insts = Returns final ∧
    exec other final 0 r = Some (first_verdict (f0 :: map entry_decision es) 0 q).
Proof.
  intros He Hg0 Hv Hr. eexists. split; [by eapply edits_Finalize|].
  by apply (edits_verdict other pre insts g0 f0 es 0 q r).
Qed.

(** C33. Unmounting undoes mounting: a rule put into the program, finalized, put
    into the kernel, read back from it ([shown]), loaded and overwritten by the
    opposite rule of the same device and access leaves the kernel the program
    that the opposite rule alone would have left. *)
Theorem unmount_undoes_mount insts g0 es allow deny a d :
  edits insts g0 es → rule_entry allow = Ok a → rule_entry deny = Ok d →
  same_device a d = true → Permissions allow = Permissions deny →
  (Major allow < 2 ^ 31)%Z → (Minor allow < 2 ^ 31)%Z →
  ∃ mounted attached unmounted direct,
    AppendRule insts allow = Ok mounted ∧ Finalize mounted = Returns attached ∧
    LoadInstructions (Some (shown attached)) = Returns (Ok (shown mounted)) ∧
    AppendRule (shown mounted) deny = Ok unmounted ∧ AppendRule insts deny = Ok direct ∧
    shown unmounted = shown direct.
Proof.
  intros He Ha Hd Hs Hperm Hma Hmi.
  pose proof (rule_entry_inv _ _ Ha) as [Hpa Hra]. pose proof (rule_entry_inv _ _ Hd) as [Hpd Hrd].
  pose proof (same_device_inv _ _ Hs) as (_ & Hma' & Hmi' & _). rewrite Hra, Hrd in Hma', Hmi'.
  destruct (AppendRule_edits _ _ _ _ _ He Ha Hma Hmi) as (mounted & Hm & Hem).
  destruct (AppendRule_edits _ _ _ _ _ (edits_read _ _ _ Hem) Hd) as (unmounted & Hu & Heu); [lia..|].
  destruct (AppendRule_edits _ _ _ _ _ He Hd) as (direct & Hdir & Hed); [lia..|].
  exists mounted, (mounted ++ [Mov_Imm32 R0 0; Return_]), unmounted, direct. split_and!; try done.
  - by eapply edits_Finalize.
  - rewrite shown_app, shown_default. eapply edits_Load. by eapply edits_read.
  - rewrite (edits_shown _ _ _ Heu), (edits_shown _ _ _ Hed). cbn [concat].
    rewrite !shown_app, shown_idemp, append_entry_overwrite; [done|done|].
    apply rule_params_inv in Hpa as (_ & Hpa & _). apply rule_params_inv in Hpd as (_ & Hpd & _).
    rewrite Hperm in Hpa. congruence.
Qed.

(** A rule that loses the comparison of lengths - full access where the
    program has a block of the device with an access check - is appended, and
    changes nothing for the requests the program already decides. *)
Theorem longer_block_shadows other pre insts g0 f0 es rule new old q r v :
  edits insts g0 es → decides other pre g0 f0 → rule_entry rule = Ok new →
  (Major rule < 2 ^ 31)%Z → (Minor rule < 2 ^ 31)%Z →
  last es = Some old → same_device old new = true →
  hasAccess (en_access old) = true → hasAccess (en_access new) = false →
  valid_request q → pre q r →
  entry_decision old q = Some v →
  ∃ insts' final, AppendRule insts rule = Ok insts' ∧ Finalize insts' = Returns final ∧
    exec other final 0 r = Some (first_verdict (f0 :: map entry_decision es) 0 q).
Proof.
  intros He Hg0 Hnew Hma Hmi Hlast Hs Ho Hn Hv Hr Hdec.
  apply last_Some in Hlast as [l ->].
  assert (append_entry new (l ++ [old]) = (l ++ [old]) ++ [new]) as Happ.
  { unfold append_entry. rewrite upsert_middle by done. by rewrite Ho, Hn. }
  destruct (AppendRule_edits _ _ _ _ _ He Hnew Hma Hmi) as (insts' & Hi & Hm).
  eexists _, _. split_and!; [exact Hi | by eapply edits_Finalize |].
  rewrite (edits_verdict other pre _ g0 f0 _ 0 q r Hm Hg0 Hv Hr), Happ. f_equal.
  rewrite !map_app, !app_comm_cons, !first_verdict_app. by simpl; rewrite Hdec.
Qed.

(** Loading drops the default verdict whatever it is, and [Finalize] puts
    a deny: a program that allowed by default comes back denying by default. *)
Theorem default_verdict_becomes_deny insts g0 es v :
  edits insts g0 es →
  LoadInstructions (Some (insts ++ [Mov_Imm32 R0 v; Return_])) = Returns (Ok insts) ∧
  Finalize insts = Returns (insts ++ [Mov_Imm32 R0 0; Return_]).
Proof. intros He. split; [by eapply edits_Load | by eapply edits_Finalize]. Qed.

Definition access_char (c : ascii) : bool :=
  Ascii.eqb c "r" || Ascii.eqb c "w" || Ascii.eqb c "m".

Lemma bpfAccess_from_Ok acc perms :
  is_Ok (bpfAccess_from acc perms) = forallb access_char (String.list_ascii_of_string perms).
Proof.
  revert acc. induction perms as [|c perms IH]; intros acc; simpl; [done|].
  unfold access_char. repeat case_match; simpl; try apply IH; done.
Qed.

(** [AppendRule] accepts a rule exactly when its type is a character or
    block device, both numbers fit 32 bits and every access character is one of
    r, w and m; otherwise it fails whatever the program. *)
Theorem AppendRule_accepts insts rule :
  is_Ok (AppendRule insts rule) =
    ((Type_ rule =? CharDevice)%Z || (Type_ rule =? BlockDevice)%Z) &&
    (Major rule <=? MaxUint32)%Z && (Minor rule <=? MaxUint32)%Z &&
    forallb access_char (String.list_ascii_of_string (Permissions rule)).
Proof.
  rewrite <- (bpfAccess_from_Ok 0).
  unfold AppendRule, rule_params, rule_bpfType. rewrite !Z.leb_antisym.
  destruct (Z.eqb_spec (Type_ rule) CharDevice); [rewrite decide_True by done|
    rewrite decide_False by done; destruct (Z.eqb_spec (Type_ rule) BlockDevice);
    [rewrite decide_True by done | by rewrite decide_False by done]]; simpl;
    destruct (MaxUint32 <? Major rule)%Z; simpl; try done;
    destruct (MaxUint32 <? Minor rule)%Z; simpl; try done;
    by destruct (bpfAccess_from 0 (Permissions rule)).
Qed.

Lemma from_end_Returns ins k :
  (1 ≤ k ≤ length ins)%nat → ∃ x, from_end ins k = Returns x.
Proof.
  intros Hk. unfold from_end. rewrite decide_True by lia.
  destruct (slice_get_lt ins (length ins - k)) as (x & -> & _); [lia | eauto].
Qed.

(** C34. [LoadInstructions] rejects a nil program with an error, and indexes out
    of range exactly on a non-nil program of length zero, of a single exit, or
    of two instructions that end in an exit and are not cut short by the test
    of the one before it. *)
Theorem LoadInstructions_panics insts :
  is_panic (LoadInstructions (Some insts)) =
    match insts with
    | [] => true
    | [a] => is_exit a
    | [a; b] => is_exit b && negb (bool_decide (Dst a ≠ R0) && bool_decide (Constant a ≠ 0%Z))
    | _ => false
    end.
Proof.
  unfold LoadInstructions, hasEndExit.
  destruct insts as [|a [|b [|c l]]]; [done| | |].
  - change (from_end [a] 1) with (Returns a).
    change (from_end [a] 2) with (Panics (A := Instruction) "index out of range").
    cbn. by destruct (is_exit a).
  - change (from_end [a; b] 1) with (Returns b). change (from_end [a; b] 2) with (Returns a).
    change (from_end [a; b] 3) with (Panics (A := Instruction) "index out of range").
    cbn. destruct (is_exit b); cbn; [|done]. by destruct (_ && _).
  - set (insts := a :: b :: c :: l).
    assert (3 ≤ length insts)%nat by (simpl; lia).
    destruct (from_end_Returns insts 1) as [x ->]; [lia|].
    destruct (from_end_Returns insts 2) as [y ->]; [lia|].
    destruct (from_end_Returns insts 3) as [z ->]; [lia|]. cbn.
    by destruct (is_exit x), (_ && _), (is_exit z).
Qed.

End Facts.

(** ** Witnesses

    The prologue is the one runc and systemd emit: the type is the low half of
    the first word of the context, the access its high half, and the numbers
    follow. The context is held in pseudo registers from 100 on. *)

Definition ctx_loads (i : Instruction) (r : regs) : option regs :=
  if decide (OpCode i = 105%Z) then
    Some (set_reg r (Dst i) (r (100 + Offset i) `mod` 65536)%Z)
  else if decide (OpCode i = 97%Z) then Some (set_reg r (Dst i) (r (100 + Offset i)%Z))
  else if decide (OpCode i = 116%Z) then Some (set_reg r (Dst i) (r (Dst i) / 65536)%Z)
  else None.

Definition ctx_entry (q : Request) (r : regs) : Prop :=
  (0 ≤ rq_type q < 65536)%Z ∧ r 100%Z = (rq_type q + 65536 * rq_access q)%Z ∧
  r 104%Z = rq_major q ∧ r 108%Z = rq_minor q.

Definition runc_prologue : Instructions :=
  [mkInstruction 105 2 1 0 0 None; mkInstruction 97 3 1 0 0 None; mkInstruction 116 3 0 0 16 None;
   mkInstruction 97 4 1 4 0 None; mkInstruction 97 5 1 8 0 None]%Z.

Definition null_rule : Rule := mkRule CharDevice 1 3 "rwm" true.
Definition gpu_rule (perms : string) (allow : bool) : Rule :=
  mkRule CharDevice 195 0 perms allow.
Definition runc_group : Instructions := runc_prologue ++ shown (rule_block 2 7 null_rule).

Lemma runc_group_closed : closed_group runc_group.
Proof. exists (removelast runc_group), Return_. split; [done|]. repeat constructor. Qed.

Lemma runc_group_decides :
  decides ctx_loads ctx_entry runc_group (rule_decision 2 7 null_rule).
Proof.
  intros q r Hv (Ht & H0 & H4 & H8) rest. unfold runc_group. rewrite <- app_assoc.
  set (r5 := set_reg (set_reg (set_reg (set_reg (set_reg r 2 (rq_type q)) 3
    (rq_type q + 65536 * rq_access q)) 3 (rq_access q)) 4 (rq_major q)) 5 (rq_minor q)).
  assert (∀ rest', exec ctx_loads (runc_prologue ++ rest') 0 r = exec ctx_loads rest' 0 r5) as Hpro.
  { intros rest'. simpl. change (100 + 0)%Z with 100%Z. change (100 + 4)%Z with 104%Z.
    change (100 + 8)%Z with 108%Z.
    rewrite !(set_reg_ne _ _ _ 100), !(set_reg_ne _ _ _ 104), !(set_reg_ne _ _ _ 108) by done. rewrite H0, H4, H8, set_reg_eq.
    rewrite (Z.mul_comm 65536), Z.div_add, Z.div_small, Z.mod_add, Z.mod_small by lia.
    rewrite Z.add_0_l. unfold r5. by rewrite (Z.mul_comm 65536). }
  rewrite Hpro, (exec_shown _ _ (rule_block 2 7 null_rule ++ rest))
    by (by rewrite !(shown_app _ rest), shown_idemp).
  assert (holds q r5) as Hr5 by done.
  apply (rule_block_decides ctx_loads 2 7 null_rule); try done; simpl; lia.
Qed.

Definition runc_insts : Instructions :=
  shown (concat (runc_group :: map entry_block [mkEntry 2 6 (gpu_rule "rw" true)])).

Lemma runc_insts_edits : edits runc_insts runc_group [mkEntry 2 6 (gpu_rule "rw" true)].
Proof.
  change runc_group with (shown runc_group) at 1. apply edits_read.
  apply edits_intro; [apply runc_group_closed | simpl; lia | repeat constructor; simpl; lia].
Qed.

(** A read-write request for the device 195:0, in a context that holds it. *)
Definition gpu_request : Request := mkRequest 2 6 195 0.
Definition gpu_regs : regs := set_reg (set_reg (λ _, 0%Z) 100 393218%Z) 104 195%Z.

Lemma AppendRule_refines_witness :
  ∃ insts', AppendRule runc_insts (gpu_rule "rw" false) = Ok insts' ∧
    edits insts' runc_group [mkEntry 2 6 (gpu_rule "rw" false)].
Proof.
  apply (AppendRule_refines runc_insts runc_group [mkEntry 2 6 (gpu_rule "rw" true)]
    (gpu_rule "rw" false) (mkEntry 2 6 (gpu_rule "rw" false))).
  - apply runc_insts_edits.
  - reflexivity.
  - reflexivity.
  - reflexivity.
Defined.

Lemma finalized_program_verdict_witness :
  ∃ final, Finalize runc_insts = Returns final ∧ exec ctx_loads final 0 gpu_regs = Some 1%Z.
Proof.
  apply (finalized_program_verdict ctx_loads ctx_entry runc_insts runc_group
    (rule_decision 2 7 null_rule) [mkEntry 2 6 (gpu_rule "rw" true)] gpu_request gpu_regs).
  - apply runc_insts_edits.
  - apply runc_group_decides.
  - split; vm_compute; discriminate.
  - repeat split; vm_compute; discriminate.
Defined.

Lemma unmount_undoes_mount_witness :
  ∃ mounted attached unmounted direct,
    AppendRule runc_insts (gpu_rule "rwm" true) = Ok mounted ∧
    Finalize mounted = Returns attached ∧
    LoadInstructions (Some (shown attached)) = Returns (Ok (shown mounted)) ∧
    AppendRule (shown mounted) (gpu_rule "rwm" false) = Ok unmounted ∧
    AppendRule runc_insts (gpu_rule "rwm" false) = Ok direct ∧ shown unmounted = shown direct.
Proof.
  apply (unmount_undoes_mount runc_insts runc_group [mkEntry 2 6 (gpu_rule "rw" true)]
    (gpu_rule "rwm" true) (gpu_rule "rwm" false)
    (mkEntry 2 7 (gpu_rule "rwm" true)) (mkEntry 2 7 (gpu_rule "rwm" false)));
    [apply runc_insts_edits | reflexivity..].
Defined.

Lemma longer_block_shadows_witness :
  ∃ insts' final, AppendRule runc_insts (gpu_rule "rwm" false) = Ok insts' ∧
    Finalize insts' = Returns final ∧ exec ctx_loads final 0 gpu_regs = Some 1%Z.
Proof.
  apply (longer_block_shadows ctx_loads ctx_entry runc_insts runc_group
    (rule_decision 2 7 null_rule) [mkEntry 2 6 (gpu_rule "rw" true)]
    (gpu_rule "rwm" false) (mkEntry 2 7 (gpu_rule "rwm" false))
    (mkEntry 2 6 (gpu_rule "rw" true)) gpu_request gpu_regs 1%Z);
    try reflexivity.
  - apply runc_insts_edits.
  - apply runc_group_decides.
  - split; vm_compute; discriminate.
  - repeat split; vm_compute; discriminate.
Defined.

Lemma default_verdict_becomes_deny_witness :
  LoadInstructions (Some (runc_insts ++ [Mov_Imm32 R0 1; Return_])) = Returns (Ok runc_insts) ∧
  Finalize runc_insts = Returns (runc_insts ++ [Mov_Imm32 R0 0; Return_]).
Proof.
  apply (default_verdict_becomes_deny runc_insts runc_group
    [mkEntry 2 6 (gpu_rule "rw" true)] 1), runc_insts_edits.
Defined.
