(* ===== verification/World.v ===== *)
(** * The environment of the program

    Every call a component makes outside its own memory is a constructor of
    [cmd], with the type of its answer in [reply]: the API server and its
    informer caches, the kernel (files, cgroups, bpf(2)), child processes, the
    clock-driven helpers. [M] is the monad of programs over these calls.
    client-go's retry and poll helpers are third-party: they are the class
    [ClientLib], whose laws say, in terms of runs, what their documentation
    says. [bounded] is an instance. *)
From stdpp Require Import base gmap strings list.
From Stdlib Require Import ZArith Lia.
From S2P Require Import Prelude GoStrings Api Ebpf.

(** ** Answers of system calls *)

(** The error numbers the sources tell apart; [EPERM] is what
    [errors.Is(err, os.ErrPermission)] accepts. *)
Inductive errno := ENOENT | ENOSPC | EINVAL | EBADF | EPERM | EOTHER.

#[export] Instance errno_eq_dec : EqDecision errno.
Proof. solve_decision. Defined.

Inductive sysres (A : Type) :=
  | SysOk (a : A)
  | SysErr (k : errno) (msg : string).
Arguments SysOk {A} a.
Arguments SysErr {A} k msg.

(** [os.FileInfo] as the sources use it: the device bits of [Mode()], and
    [Sys().( *syscall.Stat_t).Rdev], absent when the assertion fails. *)
Record FileInfo := mkFileInfo {
  ModeDevice : bool;
  ModeCharDevice : bool;
  Rdev : option Z }.

(** [policyv1.PodDisruptionBudget] as [CreatePodDisruptionBudget] fills it. *)
Record PodDisruptionBudget := mkPodDisruptionBudget {
  pdb_Name : string;
  pdb_Namespace : string;
  pdb_Labels : gomap string;
  pdb_OwnerReferences : list OwnerReference;
  pdb_MinAvailable : Z;
  pdb_MatchLabels : gomap string }.

(** The answer of [BPF_PROG_QUERY]: the error with its text, the count the kernel
    wrote back and the ids it wrote into the array. The kernel writes at most as
    many ids as the array holds, and answers ENOSPC only with a larger count. *)
Record QueryReply := mkQueryReply {
  q_errno : option (errno * string);
  q_ProgCnt : nat;
  q_ids : list Z }.

(** The work queues of the controller, and an item taken from one: a key, or a
    value that is not a request. *)
Inductive Queue := podAddQueue | metadataFixQueue.
Inductive QueueItem := Request (key : ObjectKey) | NotRequest.

#[export] Instance Queue_eq_dec : EqDecision Queue.
Proof. solve_decision. Defined.
#[export] Instance QueueItem_eq_dec : EqDecision QueueItem.
Proof. solve_decision. Defined.

(** [v1.ConfigMap]. *)
Record ConfigMap := mkConfigMap {
  cm_ResourceVersion : string;
  cm_Data : gomap string }.

(** [TlsProfile] of [pkg/api/v1alpha1/types.go]. *)
Record TlsProfile := mkTlsProfile {
  Ciphers : list string;
  MinTLSVersion : string }.

(** What [fsnotify] offers to a [select] over the done channel, the events and
    the errors; [op] is the bit set of [fsnotify.Op]. *)
Inductive WatchInput :=
  | WatchDone
  | WatchEvent (name : string) (op : Z)
  | WatchEventsClosed
  | WatchError (err : option string)
  | WatchErrorsClosed.

(** [connectivity.State] of google.golang.org/grpc. *)
Inductive ConnState := Ready | Idle | Connecting | TransientFailure | Shutdown.

(** [common.DevProcessInfo] of npu-exporter: a count and the process ids. *)
Record DevProcessInfo := mkDevProcessInfo {
  ProcNum : Z;
  DevProcArray : list Z }.

(** The mutexes embedded in the two collectors. *)
Inductive Mutex := GPUCollectorMutex | NPUCollectorMutex.

#[export] Instance Mutex_eq_dec : EqDecision Mutex.
Proof. solve_decision. Defined.

(** ** Calls *)

Inductive cmd :=
  (* the API server *)
  | PodGet (namespace name ResourceVersion : string)
  | PodCreate (namespace : string) (pod : Pod)
  | PodDelete (namespace name : string) (uid : option string) (grace : Z)
  | PodPatch (namespace name : string) (labels annotations : gmap string string)
  | PdbCreate (namespace : string) (pdb : PodDisruptionBudget)
  | PodPatchData (namespace name data : string)
  | PodList (namespace selector ResourceVersion : string)
  | NodeJSONPatch (name : string) (patches : list Operation)
  | NodePatch (name : string) (labels annotations : gmap string string)
  | RecordEvent (pod : ObjectKey) (type reason message : string)
  (* informer caches *)
  | PodListerGet (namespace name : string)
  | PodListerList (namespace : string) (selector : list (string * string))
  | NodeListerGet (name : string)
  (* processes, files, cgroups *)
  | NewUUID
  | Exec (argv : list string)
  | Stat (path : string)
  | IsCgroup2UnifiedMode
  | IsCgroup2HybridMode
  | GetAllPids (path : string)
  | CgroupReadFile (dir file : string)
  | CgroupWriteFile (dir file data : string)
  | UnixOpen (path : string)
  | UnixClose (fd : Z)
  (* bpf(2) *)
  | SetrlimitMemlock
  | BpfProgQuery (fd : Z) (size : nat)
  | NewProgramFromID (id : Z)
  | ProgInstructions (prog : Z)
  | NewProgram (insts : list Instruction) (license : string)
  | CloseProgram (prog : Z)
  | OpenDevNull
  | CloseDevNull (fd : Z)
  | RawAttachProgram (target prog : Z) (replace : option Z) (flags : Z)
  | RawDetachProgram (target prog : Z)
  (* the controller's metadata cache and work queues, shared between goroutines *)
  | CacheSet (key : ObjectKey) (metadata : Metadata)
  | CacheGet (key : ObjectKey)
  | CacheDone (key : ObjectKey) (metadata : Metadata)
  | CacheDelete (key : ObjectKey)
  | QueueGet (q : Queue)
  | QueueDone (q : Queue) (item : QueueItem)
  | QueueForget (q : Queue) (item : QueueItem)
  | QueueAdd (q : Queue) (key : ObjectKey)
  | QueueAddRateLimited (q : Queue) (key : ObjectKey)
  | QueueAddAfter (q : Queue) (key : ObjectKey) (after : Z)
  | QueueShutDown (q : Queue)
  (* commands in a container of a pod *)
  | ExecCmdToPod (namespace name container : string) (argv : list string)
  | CopyToPod (namespace name container src dst : string)
  | WriteToPod (namespace name container content : string) (argv : list string)
  (* the NVIDIA management library *)
  | NvmlInit
  | NvmlShutdown
  | NvmlDeviceGetCount
  | NvmlHandleByIndex (index : Z)
  | NvmlHandleByUUID (uuid : string)
  | NvmlMinorNumber (dev : Z)
  | NvmlUUID (dev : Z)
  | NvmlComputeProcesses (dev : Z)
  | NvmlGraphicsProcesses (dev : Z)
  | ListPodResources
  (* the collectors, shared between requests *)
  | Lock (m : Mutex)
  | Unlock (m : Mutex)
  | LoadGPUList
  | StoreGPUList (l : list NvidiaGPU)
  (* memory-mapped cache files *)
  | ReadDir (dir : string)
  | OpenFile (path : string)
  | FileSize (fd : Z)
  | CloseFile (fd : Z)
  | Mmap (fd size : Z)
  | LoadRegion (addr : Z)
  | StoreRegion (addr : Z) (cache : sharedRegionT)
  | Munmap (addr : Z)
  | LockKey (key : string)
  | UnlockKey (key : string)
  (* the mounter's service and the authentication headers, seen from the apiserver *)
  | GrpcDial (address : string)
  | GrpcClose (conn : Z)
  | GrpcMountDevice (conn timeout : Z) (req : MountDeviceRequest)
  | GrpcUnMountDevice (conn timeout : Z) (req : UnMountDeviceRequest)
  | GetConfigMap (key : string)
  | ProbeConfigMaps
  | StartInformer
  | WaitForCacheSync
  | StopInformer
  | ReadFile (path : string)
  (* files that are decoded while they are read, and file watches *)
  | OsOpen (path : string)
  | DecodeTlsProfile (fd : Z)
  | WatcherNew
  | WatcherAdd (path : string)
  | WatcherNext
  | WatcherClose
  (* the gRPC connection to the kubelet *)
  | GrpcGetState (conn : Z)
  | StopRequested
  (* the Ascend device manager *)
  | InitRunLogger
  | DevmanagerAutoInit
  | DcmiInit
  | DcmiShutDown
  | DcmiGetDeviceList
  | DcmiGetDeviceHealth (logicId : Z)
  | DcmiGetDevProcessInfo (logicId : Z).

Definition reply (c : cmd) : Type :=
  match c with
  | PodGet _ _ _ => result Pod
  | PodCreate _ _ => result Pod
  | PodDelete _ _ _ _ => option goerr
  | PodPatch _ _ _ _ => result Pod
  | PdbCreate _ _ => option goerr
  | PodPatchData _ _ _ => result Pod
  | PodList _ _ _ => result (list Pod)
  | NodeJSONPatch _ _ => option goerr
  | NodePatch _ _ _ => option goerr
  | RecordEvent _ _ _ _ => unit
  | PodListerGet _ _ => result Pod
  | PodListerList _ _ => result (list Pod)
  | NodeListerGet _ => result Node
  | NewUUID => string
  | Exec _ => string * string * option string
  | Stat _ => sysres FileInfo
  | IsCgroup2UnifiedMode => bool
  | IsCgroup2HybridMode => bool
  | GetAllPids _ => result (list Z)
  | CgroupReadFile _ _ => result string
  | CgroupWriteFile _ _ _ => option goerr
  | UnixOpen _ => sysres Z
  | UnixClose _ => option goerr
  | SetrlimitMemlock => unit
  | BpfProgQuery _ _ => QueryReply
  | NewProgramFromID _ => sysres Z
  | ProgInstructions _ => result (option (list Instruction))
  | NewProgram _ _ => result Z
  | CloseProgram _ => unit
  | OpenDevNull => sysres Z
  | CloseDevNull _ => unit
  | RawAttachProgram _ _ _ _ => sysres unit
  | RawDetachProgram _ _ => sysres unit
  | CacheSet _ _ => unit
  | CacheGet _ => option Metadata
  | CacheDone _ _ => unit
  | CacheDelete _ => unit
  | QueueGet _ => option QueueItem
  | QueueDone _ _ => unit
  | QueueForget _ _ => unit
  | QueueAdd _ _ => unit
  | QueueAddRateLimited _ _ => unit
  | QueueAddAfter _ _ _ => unit
  | QueueShutDown _ => unit
  | ExecCmdToPod _ _ _ _ => result (string * string)
  | CopyToPod _ _ _ _ _ => result (string * string)
  | WriteToPod _ _ _ _ _ => result (string * string)
  | NvmlInit => option string
  | NvmlShutdown => unit
  | NvmlDeviceGetCount => result Z
  | NvmlHandleByIndex _ => result Z
  | NvmlHandleByUUID _ => result Z
  | NvmlMinorNumber _ => result Z
  | NvmlUUID _ => result string
  | NvmlComputeProcesses _ => result (list Z)
  | NvmlGraphicsProcesses _ => result (list Z)
  | ListPodResources => result (list PodResources)
  | Lock _ => unit
  | Unlock _ => unit
  | LoadGPUList => list NvidiaGPU
  | StoreGPUList _ => unit
  | ReadDir _ => result (list string)
  | OpenFile _ => result Z
  | FileSize _ => Z
  | CloseFile _ => unit
  | Mmap _ _ => result Z
  | LoadRegion _ => sharedRegionT
  | StoreRegion _ _ => unit
  | Munmap _ => option goerr
  | LockKey _ => unit
  | UnlockKey _ => option goerr
  | GrpcDial _ => result Z
  | GrpcClose _ => option goerr
  | GrpcMountDevice _ _ _ => result DeviceResponse
  | GrpcUnMountDevice _ _ _ => result DeviceResponse
  | GetConfigMap _ => result (option ConfigMap)
  | ProbeConfigMaps => option goerr
  | StartInformer => unit
  | WaitForCacheSync => bool
  | StopInformer => unit
  | ReadFile _ => sysres string
  | OsOpen _ => sysres Z
  | DecodeTlsProfile _ => result TlsProfile
  | WatcherNew => option goerr
  | WatcherAdd _ => option goerr
  | WatcherNext => WatchInput
  | WatcherClose => unit
  | GrpcGetState _ => ConnState
  | StopRequested => bool
  | InitRunLogger => option goerr
  | DevmanagerAutoInit => result string
  | DcmiInit => option goerr
  | DcmiShutDown => option goerr
  | DcmiGetDeviceList => result (list Z)
  | DcmiGetDeviceHealth _ => option goerr
  | DcmiGetDevProcessInfo _ => result (option DevProcessInfo)
  end.

(** An answer to every call, for examples: objects are not found, commands
    succeed, and the kernel refuses. *)
Definition default_reply (c : cmd) : reply c :=
  match c return reply c with
  | PodGet _ _ _ => Err (NotFoundError "pod not found")
  | PodCreate _ p => Ok p
  | PodDelete _ _ _ _ => None
  | PodPatch _ _ _ _ => Err (NotFoundError "pod not found")
  | PdbCreate _ _ => None
  | PodPatchData _ _ _ => Err (NotFoundError "pod not found")
  | PodList _ _ _ => Ok []
  | NodeJSONPatch _ _ => None
  | NodePatch _ _ _ => None
  | RecordEvent _ _ _ _ => tt
  | PodListerGet _ _ => Err (NotFoundError "pod not found")
  | PodListerList _ _ => Ok []
  | NodeListerGet _ => Err (NotFoundError "node not found")
  | NewUUID => "00000000-0000-0000-0000-000000000000"
  | Exec _ => ("", "", None)
  | Stat _ => SysErr ENOENT "no such file or directory"
  | IsCgroup2UnifiedMode => true
  | IsCgroup2HybridMode => false
  | GetAllPids _ => Ok []
  | CgroupReadFile _ _ => Ok ""
  | CgroupWriteFile _ _ _ => None
  | UnixOpen _ => SysErr ENOENT "no such file or directory"
  | UnixClose _ => None
  | SetrlimitMemlock => tt
  | BpfProgQuery _ _ => mkQueryReply (Some (EOTHER, "function not implemented")) 0 []
  | NewProgramFromID _ => SysErr EOTHER "no such program"
  | ProgInstructions _ => Err (PlainError "no such program")
  | NewProgram _ _ => Err (PlainError "operation not permitted")
  | CloseProgram _ => tt
  | OpenDevNull => SysOk 3%Z
  | CloseDevNull _ => tt
  | RawAttachProgram _ _ _ _ => SysErr EBADF "bad file descriptor"
  | RawDetachProgram _ _ => SysErr EBADF "bad file descriptor"
  | CacheSet _ _ => tt
  | CacheGet _ => None
  | CacheDone _ _ => tt
  | CacheDelete _ => tt
  | QueueGet _ => None
  | QueueDone _ _ => tt
  | QueueForget _ _ => tt
  | QueueAdd _ _ => tt
  | QueueAddRateLimited _ _ => tt
  | QueueAddAfter _ _ _ => tt
  | QueueShutDown _ => tt
  | ExecCmdToPod _ _ _ _ => Ok ("", "")
  | CopyToPod _ _ _ _ _ => Ok ("", "")
  | WriteToPod _ _ _ _ _ => Ok ("", "")
  | NvmlInit => None
  | NvmlShutdown => tt
  | NvmlDeviceGetCount => Ok 0%Z
  | NvmlHandleByIndex _ => Err (PlainError "Not Found")
  | NvmlHandleByUUID _ => Err (PlainError "Not Found")
  | NvmlMinorNumber _ => Ok 0%Z
  | NvmlUUID _ => Err (PlainError "Not Found")
  | NvmlComputeProcesses _ => Ok []
  | NvmlGraphicsProcesses _ => Ok []
  | ListPodResources => Ok []
  | Lock _ => tt
  | Unlock _ => tt
  | LoadGPUList => []
  | StoreGPUList _ => tt
  | ReadDir _ => Ok []
  | OpenFile _ => Err (PlainError "no such file or directory")
  | FileSize _ => 0%Z
  | CloseFile _ => tt
  | Mmap _ _ => Err (PlainError "invalid argument")
  | LoadRegion _ => mkSharedRegion 0 [] [] []
  | StoreRegion _ _ => tt
  | Munmap _ => None
  | LockKey _ => tt
  | UnlockKey _ => None
  | GrpcDial _ => Ok 5%Z
  | GrpcClose _ => None
  | GrpcMountDevice _ _ _ => Err (PlainError "connection refused")
  | GrpcUnMountDevice _ _ _ => Err (PlainError "connection refused")
  | GetConfigMap _ => Ok None
  | ProbeConfigMaps => None
  | StartInformer => tt
  | WaitForCacheSync => true
  | StopInformer => tt
  | ReadFile _ => SysErr ENOENT "no such file or directory"
  | OsOpen _ => SysErr ENOENT "no such file or directory"
  | DecodeTlsProfile _ => Err (PlainError "EOF")
  | WatcherNew => None
  | WatcherAdd _ => None
  | WatcherNext => WatchDone
  | WatcherClose => tt
  | GrpcGetState _ => Ready
  | StopRequested => true
  | InitRunLogger => None
  | DevmanagerAutoInit => Err (PlainError "dcmi not found")
  | DcmiInit => None
  | DcmiShutDown => None
  | DcmiGetDeviceList => Ok []
  | DcmiGetDeviceHealth _ => None
  | DcmiGetDevProcessInfo _ => Ok None
  end.

(** Programs over these calls. *)
Abbreviation M := (prog reply).
Abbreviation trace := (list (event reply)).
Abbreviation env := (environment reply).

(** Programs that may panic. *)
Abbreviation act A := (prog reply (outcome A)).

(** A Go closure without arguments that returns an error. *)
Abbreviation closure := (prog reply (option goerr)).

Definition NilCloser : closure := Done None.

(** ** client-go's helpers *)

(** The runs of a retried function: every attempt but the last fails with an
    error that [retriable] accepts, and the result is the last attempt's. *)
Inductive retry_run {A} (retriable : goerr → bool) (fn : M (result A)) (e : env) :
    trace → result A → trace → Prop :=
  | retry_last h r t :
      run e h fn = (r, t) → retry_run retriable fn e h r t
  | retry_again h err t r t' :
      run e h fn = (Err err, t) → retriable err = true →
      retry_run retriable fn e (h ++ t) r t' →
      retry_run retriable fn e h r (t ++ t').

(** The runs of a polled condition over the variables [S] it captures: it is
    evaluated until it is done or fails, or the context is cancelled. *)
Inductive poll_run {S} (condition : S → M (S * result bool)) (e : env) :
    trace → S → S * option goerr → trace → Prop :=
  | poll_cancelled h s err :
      poll_run condition e h s (s, Some (PlainError err)) []
  | poll_done h s s' t :
      run e h (condition s) = ((s', Ok true), t) →
      poll_run condition e h s (s', None) t
  | poll_failed h s s' err t :
      run e h (condition s) = ((s', Err err), t) →
      poll_run condition e h s (s', Some err) t
  | poll_again h s s' t out t' :
      run e h (condition s) = ((s', Ok false), t) →
      poll_run condition e (h ++ t) s' out t' →
      poll_run condition e h s out (t ++ t').

Class ClientLib := {
  retry_OnError : ∀ {A}, (goerr → bool) → M (result A) → M (result A);
  PollUntilContextCancel : ∀ {S}, (S → M (S * result bool)) → S → M (S * option goerr) }.

Class ClientLaws `{ClientLib} : Prop := {
  retry_OnError_law {A} retriable (fn : M (result A)) e h :
    let '(r, t) := run e h (retry_OnError retriable fn) in
    retry_run retriable fn e h r t;
  PollUntilContextCancel_law {S} (condition : S → M (S * result bool)) s e h :
    let '(out, t) := run e h (PollUntilContextCancel condition s) in
    poll_run condition e h s out t }.

(** [n] more attempts after the first one. *)
Fixpoint retry_n {A} (n : nat) (retriable : goerr → bool) (fn : M (result A)) : M (result A) :=
  match n with
  | O => fn
  | S n' =>
      r <-- fn ;;
      match r with
      | Ok a => Done (Ok a)
      | Err err => if retriable err then retry_n n' retriable fn else Done (Err err)
      end
  end.

(** The context is cancelled after [n] evaluations. *)
Fixpoint poll_n {S} (n : nat) (condition : S → M (S * result bool)) (s : S) :
    M (S * option goerr) :=
  match n with
  | O => Done (s, Some (PlainError "context canceled"))
  | S n' =>
      r <-- condition s ;;
      match r with
      | (s', Ok true) => Done (s', None)
      | (s', Err err) => Done (s', Some err)
      | (s', Ok false) => poll_n n' condition s'
      end
  end.

Definition bounded (n : nat) : ClientLib := {|
  retry_OnError A := retry_n n;
  PollUntilContextCancel S := poll_n n |}.

Lemma bounded_laws n : @ClientLaws (bounded n).
Proof.
  split.
  - intros A retriable fn e. simpl. induction n as [|n IH]; intros h; simpl.
    + destruct (run e h fn) as [r t] eqn:Hr. by apply retry_last.
    + rewrite run_bind. destruct (run e h fn) as [[a|err] t] eqn:Hr.
      * simpl. rewrite app_nil_r. by apply retry_last.
      * destruct (retriable err) eqn:He.
        -- specialize (IH (h ++ t)). destruct (run e (h ++ t) _) as [r t'].
           by eapply retry_again.
        -- simpl. rewrite app_nil_r. by apply retry_last.
  - intros S condition s e. simpl. revert s. induction n as [|n IH]; intros s h; simpl.
    + constructor.
    + rewrite run_bind. destruct (run e h (condition s)) as [[s' [[]|err]] t] eqn:Hr; simpl.
      * rewrite app_nil_r. by apply poll_done.
      * specialize (IH s' (h ++ t)). destruct (run e (h ++ t) _) as [out t'].
        by eapply poll_again.
      * rewrite app_nil_r. by apply poll_failed.
Qed.

(** ** Which calls a program makes *)

(** Every call in every run satisfies [P]. *)
Definition calls (P : cmd → Prop) {A} (p : M A) : Prop :=
  ∀ e h, wp e h p (λ _ t, Forall (λ ev, P (ev_cmd ev)) t).

Section Calls.
Context (P : cmd → Prop).

Lemma calls_only {A} (p : M A) : only P p → calls P p.
Proof. intros Hp e h. by apply only_wp. Qed.

Lemma calls_done {A} (a : A) : calls P (Done a).
Proof. intros e h. by apply wp_done. Qed.

Lemma calls_call c : P c → calls P (call c).
Proof. intros Hc e h. wp_step. by repeat constructor. Qed.

Lemma calls_bind {A B} (p : M A) (f : A → M B) :
  calls P p → (∀ a, calls P (f a)) → calls P (prog_bind_fix f p).
Proof.
  intros Hp Hf e h. wp_step. eapply wp_mono; [|apply Hp]. intros a t Ht.
  eapply wp_mono; [|apply Hf]. intros b t' Ht'. by apply Forall_app.
Qed.

Lemma calls_try {A B} (p : M (result A)) (f : A → M (result B)) :
  calls P p → (∀ a, calls P (f a)) → calls P (try_bind p f).
Proof. intros Hp Hf. apply calls_bind; [done|]. intros []; [done | apply calls_done]. Qed.

Lemma calls_panic {A B} (p : act A) (f : A → act B) :
  calls P p → (∀ a, calls P (f a)) → calls P (panic_bind p f).
Proof. intros Hp Hf. apply calls_bind; [done|]. intros []; [done | apply calls_done]. Qed.

Lemma calls_panic_try {A B} (p : act (result A)) (f : A → act (result B)) :
  calls P p → (∀ a, calls P (f a)) → calls P (panic_try_bind p f).
Proof. intros Hp Hf. apply calls_panic; [done|]. intros []; [done | apply calls_done]. Qed.

Lemma calls_total {A} (p : M A) : calls P p → calls P (total p).
Proof. intros Hp. apply calls_bind; [done|]. intros. apply calls_done. Qed.

Lemma calls_vis {A} c (k : reply c → M A) :
  P c → (∀ r, calls P (k r)) → calls P (Vis c k).
Proof. intros Hc Hk. apply (calls_bind (call c) k); [by apply calls_call | done]. Qed.

Lemma calls_run {A} (p : M A) e h a t :
  calls P p → run e h p = (a, t) → Forall (λ ev, P (ev_cmd ev)) t.
Proof. intros Hp Hr. specialize (Hp e h). unfold wp in Hp. by rewrite Hr in Hp. Qed.

Lemma calls_retry `{ClientLaws} {A} retriable (fn : M (result A)) :
  calls P fn → calls P (retry_OnError retriable fn).
Proof.
  intros Hfn e h. unfold wp. pose proof (retry_OnError_law retriable fn e h) as Hl.
  destruct (run e h _) as [r t]. induction Hl.
  - by eapply calls_run.
  - apply Forall_app; split; [by eapply calls_run | done].
Qed.

Lemma calls_poll `{ClientLaws} {S} (condition : S → M (S * result bool)) s :
  (∀ s, calls P (condition s)) → calls P (PollUntilContextCancel condition s).
Proof.
  intros Hc e h. unfold wp. pose proof (PollUntilContextCancel_law condition s e h) as Hl.
  destruct (run e h _) as [out t]. induction Hl.
  - constructor.
  - eapply calls_run; [apply Hc | done].
  - eapply calls_run; [apply Hc | done].
  - apply Forall_app; split; [eapply calls_run; [apply Hc | done] | done].
Qed.

End Calls.

Lemma calls_mono {A} (P Q : cmd → Prop) (p : M A) :
  (∀ c, P c → Q c) → calls P p → calls Q p.
Proof.
  intros HPQ Hp e h. eapply wp_mono; [|apply Hp]. intros a t Ht.
  eapply Forall_impl; [exact Ht|]. intros ev. apply HPQ.
Qed.

(** Splits a program down to its calls. *)
Ltac calls_step :=
  lazymatch goal with
  | |- calls _ (prog_bind_fix _ _) => apply calls_bind; [|intros ?]
  | |- calls _ (try_bind _ _) => apply calls_try; [|intros ?]
  | |- calls _ (panic_bind _ _) => apply calls_panic; [|intros ?]
  | |- calls _ (panic_try_bind _ _) => apply calls_panic_try; [|intros ?]
  | |- calls _ (total _) => apply calls_total
  | |- calls _ (Done _) => apply calls_done
  | |- calls _ (pure _) => apply calls_done
  | |- calls _ (call _) => apply calls_call; exact I
  | |- calls _ (Vis _ _) => apply calls_vis; [exact I | intros ?]
  | |- calls _ (retry_OnError _ _) => apply calls_retry
  | |- calls _ (match ?x with _ => _ end) => destruct x
  | |- calls _ (let _ := _ in _) => cbv zeta
  | |- calls _ ((λ _, _) _) => cbv beta
  end.

Ltac solve_calls := repeat (calls_step; try done).

(** The same, with the lemmas of the hint database for the functions called. *)
Ltac calling := repeat first [solve [eauto with go] | calls_step].

(** The result and the last attempt of a retried function. *)
Lemma retry_wp `{ClientLaws} {A} retriable (fn : M (result A)) e h (Q : result A → trace → Prop) :
  (∀ h', wp e h' fn Q) →
  (∀ r t0 t, Q r t → Q r (t0 ++ t)) →
  wp e h (retry_OnError retriable fn) Q.
Proof.
  intros Hfn Hmono. unfold wp. pose proof (retry_OnError_law retriable fn e h) as Hl.
  destruct (run e h _) as [r t]. induction Hl as [h r t Hr | h err t r t' Hr _ Hl IH].
  - specialize (Hfn h). unfold wp in Hfn. by rewrite Hr in Hfn.
  - by apply Hmono.
Qed.

(** The poll ends in a state the condition left it in. *)
Lemma poll_wp `{ClientLaws} {S} (condition : S → M (S * result bool)) s e h
    (I : S → Prop) (Q : S → option goerr → Prop) :
  I s →
  (∀ s h, I s → wp e h (condition s) (λ '(s', r) _,
     match r with Ok true => Q s' None | Ok false => I s' | Err err => Q s' (Some err) end)) →
  (∀ s msg, I s → Q s (Some (PlainError msg))) →
  wp e h (PollUntilContextCancel condition s) (λ '(s', err) _, Q s' err).
Proof.
  intros Hs Hc Hcancel. unfold wp.
  pose proof (PollUntilContextCancel_law condition s e h) as Hl.
  destruct (run e h _) as [out t].
  induction Hl as [h s err | h s s' t Hr | h s s' err t Hr | h s s' t out t' Hr Hl IH];
    [by apply Hcancel|..]; pose proof (Hc s h Hs) as Hw; unfold wp in Hw; rewrite Hr in Hw;
    [done | done | destruct out; by apply IH].
Qed.
