(* ===== verification/Resources.v ===== *)
(** * Acquiring and releasing

    Files, mappings, mutexes, NVML and DCMI sessions, file watchers and gRPC
    connections are acquired by one call and released by another. A run is
    [balanced] when it has released exactly what it acquired; [bal P p] says so
    of every run of [p], whatever the environment answers, and that every call of
    [p] satisfies [P]. The tactic [balance] follows the structure of a program
    and leaves the functions it has no lemma for. *)
From stdpp Require Import base gmap strings list.
From Stdlib Require Import ZArith Lia.
From S2P Require Import Prelude GoStrings Api Ebpf World.

Inductive Resource :=
  | File (fd : Z)
  | Mapping (addr : Z)
  | KeyMutex (key : string)
  | CollectorMutex (m : Mutex)
  | NvmlSession
  | DcmiSession
  | Watcher
  | Connection (conn : Z).

#[export] Instance Resource_eq_dec : EqDecision Resource.
Proof. solve_decision. Defined.

(** One if the call hands out [r], minus one if it gives [r] back. *)
Definition delta (r : Resource) (ev : event reply) : Z :=
  let on x n := if decide (r = x) then n else 0%Z in
  match ev with
  | Ev c rep =>
      match c return reply c → Z with
      | OpenFile _ => λ x, match x with Ok fd => on (File fd) 1%Z | Err _ => 0%Z end
      | OsOpen _ => λ x, match x with SysOk fd => on (File fd) 1%Z | SysErr _ _ => 0%Z end
      | CloseFile fd => λ _, on (File fd) (-1)%Z
      | Mmap _ _ => λ x, match x with Ok addr => on (Mapping addr) 1%Z | Err _ => 0%Z end
      | Munmap addr => λ _, on (Mapping addr) (-1)%Z
      | LockKey key => λ _, on (KeyMutex key) 1%Z
      | UnlockKey key => λ _, on (KeyMutex key) (-1)%Z
      | Lock m => λ _, on (CollectorMutex m) 1%Z
      | Unlock m => λ _, on (CollectorMutex m) (-1)%Z
      | NvmlInit => λ x, match x with None => on NvmlSession 1%Z | Some _ => 0%Z end
      | NvmlShutdown => λ _, on NvmlSession (-1)%Z
      | DcmiInit => λ x, match x with None => on DcmiSession 1%Z | Some _ => 0%Z end
      | DcmiShutDown => λ _, on DcmiSession (-1)%Z
      | WatcherNew => λ x, match x with None => on Watcher 1%Z | Some _ => 0%Z end
      | WatcherClose => λ _, on Watcher (-1)%Z
      | GrpcDial _ => λ x, match x with Ok conn => on (Connection conn) 1%Z | Err _ => 0%Z end
      | GrpcClose conn => λ _, on (Connection conn) (-1)%Z
      | _ => λ _, 0%Z
      end rep
  end.

(** What is held of [r] after the calls of [t]. *)
Definition held (r : Resource) (t : trace) : Z := foldr (λ ev n, (delta r ev + n)%Z) 0%Z t.

Definition balanced (t : trace) : Prop := ∀ r, held r t = 0%Z.

Lemma held_app r t t' : held r (t ++ t') = (held r t + held r t')%Z.
Proof. unfold held. induction t as [|ev t IH]; simpl; lia. Qed.

(** Calls that neither acquire nor release. *)
Definition neutral (c : cmd) : Prop :=
  match c with
  | OpenFile _ | OsOpen _ | CloseFile _ | Mmap _ _ | Munmap _ | LockKey _ | UnlockKey _ | Lock _
  | Unlock _ | NvmlInit | NvmlShutdown | DcmiInit | DcmiShutDown | WatcherNew | WatcherClose
  | GrpcDial _ | GrpcClose _ => False
  | _ => True
  end.

Lemma neutral_delta c (rep : reply c) r : neutral c → delta r (Ev c rep) = 0%Z.
Proof. by destruct c. Qed.

(** Every run of [p] makes calls that satisfy [P] only and, entered while [n] is
    held, ends holding [D a] with result [a]. *)
Definition leaves (P : cmd → Prop) (n : Resource → Z) {A} (D : A → Resource → Z) (p : M A) : Prop :=
  ∀ e h, wp e h p (λ a t, Forall (λ ev, P (ev_cmd ev)) t ∧ ∀ r, (n r + held r t = D a r)%Z).

Definition nothing : Resource → Z := λ _, 0%Z.

Definition one_of (x : Resource) : Resource → Z := λ r, if decide (r = x) then 1%Z else 0%Z.

(** Nothing is held before or after. *)
Abbreviation bal P := (leaves P nothing (λ _, nothing)).

Lemma bal_balanced P {A} (p : M A) e h : bal P p → wp e h p (λ _ t, balanced t).
Proof. intros Hp. eapply wp_mono; [|apply Hp]. intros a t [_ Ht] r. apply (Ht r). Qed.

Lemma bal_calls P {A} (p : M A) : bal P p → calls P p.
Proof. intros Hp e h. eapply wp_mono; [|apply Hp]. by intros a t [Ht _]. Qed.

Section Rules.
Context (P : cmd → Prop).

Lemma leaves_done n {A} (D : A → Resource → Z) a : (∀ r, n r = D a r) → leaves P n D (Done a).
Proof. intros Hn e h. apply wp_done. split; [constructor|]. intros r. rewrite Hn. cbn. lia. Qed.

Section Leaves.
Context (n : Resource → Z) {A : Type} (D : A → Resource → Z).

(** A call whose answer decides what is held. *)
Lemma leaves_vis c (k : reply c → M A) :
  P c → (∀ rep, leaves P (λ r, (n r + delta r (Ev c rep))%Z) D (k rep)) → leaves P n D (Vis c k).
Proof.
  intros Hc Hk e h. wp_step. eapply wp_mono; [|apply Hk]. intros a t [HP Ht]. cbn beta in HP.
  split; [by constructor|]. intros r'. cbn [held foldr]. specialize (Ht r'). unfold held in Ht. cbn beta in Ht. lia.
Qed.

Lemma leaves_call c (f : reply c → M A) :
  P c → (∀ rep, leaves P (λ r, (n r + delta r (Ev c rep))%Z) D (f rep)) →
  leaves P n D (prog_bind_fix f (call c)).
Proof. apply leaves_vis. Qed.

Lemma leaves_neutral c (f : reply c → M A) :
  neutral c → P c → (∀ rep, leaves P n D (f rep)) → leaves P n D (prog_bind_fix f (call c)).
Proof.
  intros Hc HP Hf. apply leaves_call; [done|]. intros rep e h. eapply wp_mono; [|apply Hf].
  intros a t [? Ht]. split; [done|]. intros r. rewrite neutral_delta by done. rewrite Z.add_0_r. apply Ht.
Qed.

(** A part of the program that leaves [E]. *)
Lemma leaves_bind_with {B} (E : B → Resource → Z) (p : M B) (f : B → M A) :
  leaves P nothing E p → (∀ b, leaves P (λ r, (n r + E b r)%Z) D (f b)) →
  leaves P n D (prog_bind_fix f p).
Proof.
  intros Hp Hf e h. wp_step. eapply wp_mono; [|apply Hp]. intros b t [HP Ht].
  eapply wp_mono; [|apply Hf]. intros a t' [HP' Ht']. split; [by apply Forall_app|].
  intros r. rewrite held_app.
  specialize (Ht r). specialize (Ht' r). unfold nothing in Ht. cbn beta in Ht, Ht'. lia.
Qed.

(** A balanced part. *)
Lemma leaves_bind {B} (p : M B) (f : B → M A) :
  bal P p → (∀ b, leaves P n D (f b)) → leaves P n D (prog_bind_fix f p).
Proof.
  intros Hp Hf. eapply leaves_bind_with; [exact Hp|]. intros b e h.
  eapply wp_mono; [|apply Hf]. intros a t [HP Ht]. split; [done|]. intros r. unfold nothing. rewrite Z.add_0_r. apply Ht.
Qed.

End Leaves.

Lemma leaves_last n c (D : reply c → Resource → Z) :
  P c → (∀ rep r, (n r + delta r (Ev c rep) = D rep r)%Z) → leaves P n D (call c).
Proof. intros HP Hc. apply leaves_vis; [done|]. intros rep. by apply leaves_done. Qed.

Lemma bal_done {A} (a : A) : bal P (Done a).
Proof. by apply leaves_done. Qed.

Lemma bal_try {A B} (p : M (result A)) (f : A → M (result B)) :
  bal P p → (∀ a, bal P (f a)) → bal P (try_bind p f).
Proof. intros Hp Hf. apply leaves_bind; [done|]. intros []; [apply Hf | apply bal_done]. Qed.

Lemma bal_panic {A B} (p : act A) (f : A → act B) :
  bal P p → (∀ a, bal P (f a)) → bal P (panic_bind p f).
Proof. intros Hp Hf. apply leaves_bind; [done|]. intros []; [apply Hf | apply bal_done]. Qed.

Lemma bal_panic_try {A B} (p : act (result A)) (f : A → act (result B)) :
  bal P p → (∀ a, bal P (f a)) → bal P (panic_try_bind p f).
Proof. intros Hp Hf. apply bal_panic; [done|]. intros []; [apply Hf | apply bal_done]. Qed.

Lemma bal_total {A} (p : M A) : bal P p → bal P (total p).
Proof. intros Hp. apply leaves_bind; [done|]. intros. apply bal_done. Qed.

Lemma bal_pure {A} (o : outcome A) : bal P (pure o).
Proof. apply bal_done. Qed.

Lemma bal_call c : neutral c → P c → bal P (call c).
Proof. intros Hc HP. apply leaves_last; [done|]. intros rep r. by rewrite neutral_delta. Qed.

(** A program that makes harmless calls only. *)
Lemma calls_bal (Q : cmd → Prop) {A} (p : M A) :
  (∀ c, Q c → P c ∧ neutral c) → calls Q p → bal P p.
Proof.
  intros HQ Hp e h. eapply wp_mono; [|apply Hp]. intros a t Ht. split.
  - eapply Forall_impl; [exact Ht|]. intros ev. apply HQ.
  - intros r. unfold nothing. simpl. induction Ht as [|[c rep] t Hc Ht IH]; [done|].
    cbn [held foldr]. rewrite neutral_delta by (by apply HQ). exact IH.
Qed.

End Rules.

#[export] Hint Resolve bal_done bal_pure : go.

(** What is left to show at the end of a program. *)
Ltac settled :=
  intros; simpl; repeat (case_match; simplify_eq/=); unfold nothing, one_of in *;
  repeat case_decide; simplify_eq; first [done | lia | congruence].

(** Follows the structure of a program: neutral calls are skipped, the others
    added to what is held. *)
Ltac balance_step :=
  lazymatch goal with
  | |- leaves _ nothing _ (pure _) => apply bal_pure
  | |- leaves _ nothing _ (total _) => apply bal_total
  | |- leaves _ nothing _ (try_bind _ _) => apply bal_try; [|intros ?]
  | |- leaves _ nothing _ (panic_bind _ _) => apply bal_panic; [|intros ?]
  | |- leaves _ nothing _ (panic_try_bind _ _) => apply bal_panic_try; [|intros ?]
  | |- leaves _ _ _ (Done _) => apply leaves_done; settled
  | |- leaves _ _ _ (call _) => first [apply bal_call; exact I | apply leaves_last; [exact I | settled]]
  | |- leaves _ _ _ (Vis _ _) => apply leaves_vis; [exact I | intros ?]
  | |- leaves _ _ _ (prog_bind_fix _ (call _)) =>
      first [apply leaves_neutral; [exact I | exact I | intros ?] | apply leaves_call; [exact I | intros ?]]
  | |- leaves _ _ _ (prog_bind_fix _ _) => apply leaves_bind; [|intros ?]
  | |- leaves _ _ _ (match ?x with _ => _ end) => destruct x
  | |- leaves _ _ _ (let _ := _ in _) => cbv zeta
  | |- leaves _ _ _ ((λ _, _) _) => cbv beta
  end.
Ltac balance := repeat first [solve [eauto with go] | balance_step].
