(* ===== verification/Util.v ===== *)
(** * Shared helpers ([pkg/util/util.go], [pkg/config/options.go])

    Checks on resource lists, the template of a slave pod, device numbers of a
    file, and the process-wide settings. A [range] over a Go map is a loop over
    some enumeration of its entries; the theorems hold for each of them. *)
From stdpp Require Import base gmap strings list.
From Stdlib Require Import ZArith Lia.
From S2P Require Import Prelude GoStrings Api Ebpf World.

(** The order in which a [range] statement may visit a map. *)
Definition range_of {V} (m : gmap string V) (l : list (string * V)) : Prop :=
  l ≡ₚ map_to_list m.

Lemma range_of_elem {V} (m : gmap string V) l k v :
  range_of m l → (k, v) ∈ l ↔ m !! k = Some v.
Proof. intros Hl. rewrite Hl. apply elem_of_map_to_list. Qed.

(** The orders the run-time picks, one for each map. *)
Class RangeLib := { range : ∀ {V}, gmap string V → list (string * V) }.

Class RangeLaws `{RangeLib} : Prop := {
  range_law {V} (m : gmap string V) : range_of m (range m) }.

Lemma range_elem `{RangeLaws} {V} (m : gmap string V) k v :
  (k, v) ∈ range m ↔ m !! k = Some v.
Proof. apply range_of_elem, range_law. Qed.

(** ** Process-wide settings *)

(** The package variables of [pkg/config/options.go] (set once from the command
    line). *)
Class Settings := {
  DeviceSlaveContainerImageTag : string;
  DeviceSlaveImagePullPolicy : string;
  CurrentCGroupDriver : string }.

Definition SYSTEMD : string := "systemd".
Definition CGROUPFS : string := "cgroupfs".

(** [InitializeCGroupDriver] computes the driver; [kubelet] is the answer of
    reading and decoding the kubelet configuration. [klog.Exitf] ends the
    process. *)
Definition InitializeCGroupDriver (kubelet : result string) (cgroupDriver : string)
    : outcome string :=
  if decide (ToLower cgroupDriver = SYSTEMD) then Returns SYSTEMD
  else if decide (ToLower cgroupDriver = CGROUPFS) then Returns CGROUPFS
  else match kubelet with
       | Err err => Panics (Error err)
       | Ok driver =>
           if bool_decide (driver ≠ SYSTEMD) && bool_decide (driver ≠ CGROUPFS)
           then Panics ("Invalid CGroup driver in kubelet config: " +:+ driver)
           else Returns driver
       end.

Section Util.

(** ** Containers *)

Definition ContainerRestartPolicyAlways : string := "Always".

Definition IsSidecar (container : PodContainer) : bool :=
  bool_decide (ctr_RestartPolicy container = Some ContainerRestartPolicyAlways).

(** ** Loops *)

(** [LoopRetry] from iteration [i] on, with [n] iterations left. *)
Fixpoint LoopRetry_from (retryCount : nat) (n i : nat)
    (conditionFunc : M (bool * option goerr)) : closure :=
  match n with
  | O => Done None
  | S n' =>
      r <-- conditionFunc ;;
      let '(done, err) := r in
      match done, err with
      | true, _ => Done err
      | false, Some _ => Done err
      | false, None =>
          if decide (i + 1 = retryCount)
          then Done (Some (PlainError ("unable to complete after " +:+
                 Itoa (Z.of_nat retryCount) +:+ " retries")))
          else LoopRetry_from retryCount n' (i + 1) conditionFunc
      end
  end.

Definition LoopRetry (retryCount : nat) (conditionFunc : M (bool * option goerr)) : closure :=
  LoopRetry_from retryCount retryCount 0 conditionFunc.

(** [CopyMap(src, dst)] with [src] visited in the order [l]. *)
Fixpoint CopyMap {V} (l : list (string * V)) (dst : gomap V) : outcome (gomap V) :=
  match l with
  | [] => Returns dst
  | (k, v) :: rest => dst' ← map_put dst k v; CopyMap rest dst'
  end.

(** The loop of [DeleteSliceFunc]: [j] elements are kept in the prefix of the
    backing array [s], which it overwrites while it reads it. *)
Fixpoint DeleteSliceFunc_loop {A} (filter : A → bool) (n i j : nat) (s : list A)
    : outcome (nat * list A) :=
  match n with
  | O => Returns (j, s)
  | S n' =>
      e ← slice_get s i;
      if filter e then
        s' ← slice_set s j e; DeleteSliceFunc_loop filter n' (S i) (S j) s'
      else DeleteSliceFunc_loop filter n' (S i) j s
  end.

(** The returned slice and the backing array the caller's slice now shows. *)
Definition DeleteSliceFunc {A} (s : option (list A)) (filter : A → bool)
    : outcome (option (list A) * option (list A)) :=
  match s with
  | None => Returns (None, None)
  | Some s =>
      '(j, s') ← DeleteSliceFunc_loop filter (length s) 0 0 s;
      Returns (Some (take j s'), Some s')
  end.

(** ** Resources *)

(** [request] in the order it is visited. *)
Definition CheckResourcesInNode (node : option Node) (request : list (string * Quantity)) : bool :=
  match node with
  | None => false
  | Some node =>
      forallb (λ '(reqRes, reqQuantity),
        match node_Allocatable node !! reqRes with
        | None => false
        | Some quantity => negb (Value quantity <? Value reqQuantity)%Z
        end) request
  end.

(** The first loop of [CheckResourcesInSlice], building [set]. *)
Fixpoint check_slice (resources : gmap string Quantity) (slice : list string)
    (set : gset string) : option (gset string) :=
  match slice with
  | [] => Some set
  | s :: rest =>
      match resources !! s with
      | None => None
      | Some quantity =>
          if IsZero quantity then None else check_slice resources rest ({[s]} ∪ set)
      end
  end.

(** [resources] and the order [range] in which the last loop visits it. *)
Definition CheckResourcesInSlice (resources : gmap string Quantity)
    (range : list (string * Quantity)) (slice ignore : list string) : bool :=
  match check_slice resources slice ∅ with
  | None => false
  | Some set =>
      let set := foldl (λ st s, {[s]} ∪ st) set ignore in
      forallb (λ '(s, _), bool_decide (s ∈ set)) range
  end.

(** ** The slave pod *)

Context `{Settings}.

Definition NewDeviceSlavePod (ownerPod : Pod) (limits : gmap string Quantity)
    (annotations labels : gomap string) : Pod :=
  mkPod
    (mkObjectMeta EmptyString (pod_Name ownerPod +:+ "-device-slave-") EmptyString
       EmptyString EmptyString labels annotations [] false)
    (mkPodSpec EmptyString []
       [mkPodContainer "device-container" DeviceSlaveContainerImageTag
          DeviceSlaveImagePullPolicy ["/bin/sh"; "-c"]
          ["trap 'echo Ignoring termination signal; sleep infinity &' SIGTERM; while true; do echo this is a slave device container; sleep 10; done"]
          [] limits None]
       (Some {[LabelHostname := spec_NodeName (pod_Spec ownerPod)]})
       (spec_SchedulerName (pod_Spec ownerPod))
       (spec_PriorityClassName (pod_Spec ownerPod))
       (spec_Priority (pod_Spec ownerPod)) "Always" None)
    emptyStatus.

End Util.

(** ** Device numbers *)

(** golang.org/x/sys/unix: the numbers packed in a [dev_t]. *)
Class UnixLib := { unix_Major : Z → Z; unix_Minor : Z → Z }.

Section DeviceNumbers.
Context `{UnixLib}.

(** Major, minor and type; the type comes back with the errors too, and the
    callers that see an error do not use it. *)
Definition GetDeviceFileVersionV2 (deviceFile : string) : M (result (Z * Z * Z)) :=
  info <-- call (Stat deviceFile) ;;
  Done match info with
  | SysErr _ err => Err (PlainError ("error getting file info: " +:+ err))
  | SysOk info =>
      if negb (ModeDevice info)
      then Err (PlainError (deviceFile +:+ " not a device file")) else
      let deviceType := if ModeCharDevice info then CharDevice else BlockDevice in
      match Rdev info with
      | None => Err (PlainError "error converting to syscall.Stat_t")
      | Some rdev => Ok (unix_Major rdev, unix_Minor rdev, deviceType)
      end
  end.

Definition GetDeviceFileVersion (deviceFile : string) : M (result (Z * Z)) :=
  info <-- call (Stat deviceFile) ;;
  Done match info with
  | SysErr _ err => Err (PlainError ("Error getting file info: " +:+ err))
  | SysOk info =>
      match Rdev info with
      | None => Err (PlainError "error converting to syscall.Stat_t")
      | Some rdev => Ok (unix_Major rdev, unix_Minor rdev)
      end
  end.

End DeviceNumbers.

(** ** Lemmas *)

Lemma CopyMap_nil {V} (l : list (string * V)) :
  CopyMap l None = match l with [] => Returns None | _ => Panics "assignment to entry in nil map" end.
Proof. by destruct l as [|[]]. Qed.

Lemma CopyMap_foldl {V} (l : list (string * V)) (m : gmap string V) :
  CopyMap l (Some m) = Returns (Some (foldl (λ m '(k, v), <[k := v]> m) m l)).
Proof. revert m. induction l as [|[k v] l IH]; intros m; simpl; [done|]. apply IH. Qed.

Lemma foldl_insert_NoDup {V} (l : list (string * V)) (m : gmap string V) :
  NoDup l.*1 → foldl (λ m '(k, v), <[k := v]> m) m l = list_to_map l ∪ m.
Proof.
  revert m. induction l as [|[k v] l IH]; intros m; simpl.
  - intros _. by rewrite map_empty_union.
  - intros [Hk Hl]%NoDup_cons. rewrite IH by done.
    rewrite <- insert_union_r by (by apply not_elem_of_list_to_map_1).
    by rewrite insert_union_l.
Qed.

Lemma check_slice_spec resources slice set :
  check_slice resources slice set =
    if forallb (λ s, match resources !! s with
                     | Some quantity => negb (IsZero quantity) | None => false end) slice
    then Some (list_to_set slice ∪ set) else None.
Proof.
  revert set. induction slice as [|s slice IH]; intros set; simpl.
  - f_equal. set_solver.
  - destruct (resources !! s) as [q|]; simpl; [|done]. destruct (IsZero q); simpl; [done|].
    rewrite IH. case_match; [|done]. f_equal. set_solver.
Qed.

Lemma foldl_union_set (l : list string) (st : gset string) :
  foldl (λ st s, {[s]} ∪ st) st l = list_to_set l ∪ st.
Proof. revert st. induction l as [|s l IH]; intros st; simpl; [set_solver|]. rewrite IH. set_solver. Qed.

(** ** Properties *)

(** [CheckResourcesInSlice] answers yes exactly when every required resource
    is present with a non-zero quantity and no resource is neither required
    nor ignored, in whatever order the map is visited. *)
Theorem CheckResourcesInSlice_spec resources range slice ignore :
  range_of resources range →
  CheckResourcesInSlice resources range slice ignore = true ↔
  (∀ s, s ∈ slice → ∃ q, resources !! s = Some q ∧ IsZero q = false) ∧
  (∀ s, is_Some (resources !! s) → s ∈ slice ∨ s ∈ ignore).
Proof.
  intros Hr. unfold CheckResourcesInSlice. rewrite check_slice_spec.
  assert (forallb (λ s, match resources !! s with
      | Some quantity => negb (IsZero quantity) | None => false end) slice = true ↔
    ∀ s, s ∈ slice → ∃ q, resources !! s = Some q ∧ IsZero q = false) as Hs.
  { rewrite forallb_forall. setoid_rewrite <- list_elem_of_In. apply forall_proper. intros s.
    destruct (resources !! s) as [q|]; [destruct (IsZero q) eqn:?|]; naive_solver. }
  destruct (forallb _ slice) eqn:Hf.
  - rewrite foldl_union_set, forallb_forall. split.
    + intros Hall. split; [by apply Hs|]. intros s [q Hq].
      specialize (Hall (s, q)). rewrite <- list_elem_of_In, range_of_elem in Hall by done.
      specialize (Hall Hq). simpl in Hall. apply bool_decide_eq_true in Hall. set_solver.
    + intros [_ Hall] [s q]. rewrite <- list_elem_of_In, range_of_elem by done.
      intros Hq. apply bool_decide_eq_true. destruct (Hall s); [eauto | set_solver | set_solver].
  - split; [done|]. intros [Hall _]. apply Hs in Hall. congruence.
Qed.

(** [CheckResourcesInNode] answers yes exactly when the node is known and
    offers at least the requested amount of every requested resource. *)
Theorem CheckResourcesInNode_spec node request range :
  range_of request range →
  CheckResourcesInNode node range = true ↔
  ∃ n, node = Some n ∧ ∀ s q, request !! s = Some q →
    ∃ a, node_Allocatable n !! s = Some a ∧ (Value q ≤ Value a)%Z.
Proof.
  intros Hr. destruct node as [n|]; simpl; [|naive_solver].
  rewrite forallb_forall. split.
  - intros Hall. exists n. split; [done|]. intros s q Hq.
    specialize (Hall (s, q)). rewrite <- list_elem_of_In, range_of_elem in Hall by done.
    specialize (Hall Hq). simpl in Hall. destruct (node_Allocatable n !! s) as [a|]; [|done].
    apply negb_true_iff, Z.ltb_ge in Hall. eauto.
  - intros (? & [= <-] & Hall) [s q]. rewrite <- list_elem_of_In, range_of_elem by done.
    intros Hq. destruct (Hall s q Hq) as (a & -> & Ha).
    apply negb_true_iff, Z.ltb_ge. done.
Qed.

Lemma DeleteSliceFunc_loop_spec {A} (f : A → bool) (kept mid rest : list A) :
  DeleteSliceFunc_loop f (length rest) (length kept + length mid) (length kept)
    (kept ++ mid ++ rest) =
  Returns (length (kept ++ filter f rest),
           (kept ++ filter f rest) ++ drop (length (filter f rest)) (mid ++ rest)).
Proof.
  revert kept mid. induction rest as [|x rest IH]; intros kept mid; simpl.
  - by rewrite !app_nil_r.
  - unfold slice_get. rewrite app_assoc, list_lookup_middle by (by rewrite length_app). simpl.
    destruct (f x) eqn:Hf.
    + rewrite slice_set_lt by (rewrite !length_app; simpl; lia). simpl.
      rewrite filter_cons_True by (by rewrite Hf). destruct mid as [|y mid]; cbn [length].
      * rewrite !app_nil_r. rewrite list_insert_middle by done.
        specialize (IH (kept ++ [x]) []). rewrite length_app in IH. simpl in IH.
        replace (S (length kept + 0)) with (length kept + 1 + 0)%nat by lia.
        replace (S (length kept)) with (length kept + 1)%nat by lia.
        rewrite <- !app_assoc in IH. simpl in IH. rewrite IH.
        rewrite length_app, <- !app_assoc. cbn [length]. done.
      * rewrite <- app_assoc. simpl. rewrite list_insert_middle by done.
        specialize (IH (kept ++ [x]) (mid ++ [x])). rewrite !length_app in IH. simpl in IH.
        replace (S (length kept + S (length mid))) with (length kept + 1 + (length mid + 1))%nat by lia.
        replace (S (length kept)) with (length kept + 1)%nat by lia.
        rewrite <- !app_assoc in IH. simpl in IH. rewrite IH.
        rewrite length_app, <- !app_assoc. cbn [length]. f_equal. f_equal; lia.
    + rewrite filter_cons_False by (rewrite Hf; intros []).
      specialize (IH kept (mid ++ [x])). rewrite length_app in IH. simpl in IH.
      replace (S (length kept + length mid)) with (length kept + (length mid + 1))%nat by lia.
      rewrite <- !app_assoc in *. simpl in *. by rewrite IH.
Qed.

(** [DeleteSliceFunc] keeps, in order, exactly the elements its function
    accepts, never indexes out of range, and leaves them at the front of the
    backing array it shares with its argument. *)
Theorem DeleteSliceFunc_filters {A} (s : list A) (f : A → bool) :
  DeleteSliceFunc (Some s) f =
    Returns (Some (filter f s), Some (filter f s ++ drop (length (filter f s)) s)).
Proof.
  unfold DeleteSliceFunc. pose proof (DeleteSliceFunc_loop_spec f [] [] s) as Hs.
  simpl in Hs. rewrite Hs. simpl. by rewrite take_app_length.
Qed.

(** ** Witnesses *)

Definition one_gpu : Quantity := mkQuantity 1 false.

Lemma CheckResourcesInSlice_spec_witness :
  CheckResourcesInSlice {["gpu" := one_gpu]} [("gpu", one_gpu)] ["gpu"] [] = true ↔
  (∀ s, s ∈ ["gpu"] → ∃ q, ({["gpu" := one_gpu]} : gmap string Quantity) !! s = Some q ∧
     IsZero q = false) ∧
  (∀ s, is_Some (({["gpu" := one_gpu]} : gmap string Quantity) !! s) → s ∈ ["gpu"] ∨ s ∈ []).
Proof.
  apply (CheckResourcesInSlice_spec {["gpu" := one_gpu]} [("gpu", one_gpu)] ["gpu"] []).
  vm_compute. reflexivity.
Defined.

Lemma CheckResourcesInNode_spec_witness :
  CheckResourcesInNode (Some (mkNode "n" None {["gpu" := one_gpu]})) [("gpu", one_gpu)] = true ↔
  ∃ n, Some (mkNode "n" None {["gpu" := one_gpu]}) = Some n ∧
    ∀ s q, ({["gpu" := one_gpu]} : gmap string Quantity) !! s = Some q →
      ∃ a, node_Allocatable n !! s = Some a ∧ (Value q ≤ Value a)%Z.
Proof.
  apply (CheckResourcesInNode_spec (Some (mkNode "n" None {["gpu" := one_gpu]}))
    {["gpu" := one_gpu]} [("gpu", one_gpu)]).
  vm_compute. reflexivity.
Defined.
