(* ===== verification/Cgroup.v ===== *)
(** * Container cgroups and device files ([pkg/util/cgroup.go])

    Commands run in the container's mount namespace through nsenter, the path
    of a container's cgroup under both drivers, and the device rules of cgroup
    v1. runc's emulator of devices.list, its systemd slice names and kubectl's
    QoS class are third-party: they are parameters. *)
From stdpp Require Import base gmap strings list.
From Stdlib Require Import ZArith Lia Ascii.
From S2P Require Import Prelude GoStrings Api Ebpf World Util.

(** ** nsenter *)

(** [type Config struct]; a zero number and an empty string mean unset. *)
Record Config := mkConfig {
  cfg_Cgroup : bool;
  cfg_CgroupFile : string;
  cfg_FollowContext : bool;
  cfg_GID : Z;
  cfg_IPC : bool;
  cfg_IPCFile : string;
  cfg_Mount : bool;
  cfg_MountFile : string;
  cfg_Net : bool;
  cfg_NetFile : string;
  cfg_NoFork : bool;
  cfg_PID : bool;
  cfg_PIDFile : string;
  cfg_PreserveCredentials : bool;
  cfg_RootDirectory : string;
  cfg_Target : Z;
  cfg_UID : Z;
  cfg_User : bool;
  cfg_UserFile : string;
  cfg_UTS : bool;
  cfg_UTSFile : string;
  cfg_WorkingDirectory : string }.

(** [&util.Config{Target: pid, Mount: true}]. *)
Definition mount_config (pid : Z) : Config :=
  mkConfig false "" false 0 false "" true "" false "" false false "" false ""
    pid 0 false "" false "" "".

(** A flag with an optional file argument. *)
Definition ns_flag (enabled : bool) (file withFile without : string) : list string :=
  if enabled then (if decide (file ≠ "") then [withFile +:+ file] else [without]) else [].

(** The arguments of the command: [exec.CommandContext(ctx, "nsenter", args...)]. *)
Definition buildCommand (c : Config) : result (list string) :=
  if decide (cfg_Target c = 0%Z) then Err (PlainError "Target must be specified ") else
  Ok (["nsenter"; "--target"; Itoa (cfg_Target c)] ++
      ns_flag (cfg_Cgroup c) (cfg_CgroupFile c) "--cgroup=" "--cgroup" ++
      (if cfg_FollowContext c then ["--follow-context"] else []) ++
      (if decide (cfg_GID c ≠ 0%Z) then ["--setgid"; Itoa (cfg_GID c)] else []) ++
      ns_flag (cfg_IPC c) (cfg_IPCFile c) "--ip=" "--ipc" ++
      ns_flag (cfg_Mount c) (cfg_MountFile c) "--mount=" "--mount" ++
      ns_flag (cfg_Net c) (cfg_NetFile c) "--net=" "--net" ++
      (if cfg_NoFork c then ["--no-fork"] else []) ++
      ns_flag (cfg_PID c) (cfg_PIDFile c) "--pid=" "--pid" ++
      (if cfg_PreserveCredentials c then ["--preserve-credentials"] else []) ++
      (if decide (cfg_RootDirectory c ≠ "") then ["--root"; cfg_RootDirectory c] else []) ++
      (if decide (cfg_UID c ≠ 0%Z) then ["--setuid"; Itoa (cfg_UID c)] else []) ++
      ns_flag (cfg_User c) (cfg_UserFile c) "--user=" "--user" ++
      ns_flag (cfg_UTS c) (cfg_UTSFile c) "--uts=" "--uts" ++
      (if decide (cfg_WorkingDirectory c ≠ "") then ["--wd"; cfg_WorkingDirectory c] else [])).

(** Standard output, standard error and the error. *)
Definition ExecuteContext (c : Config) (program : string) (args : list string)
    : M (string * string * option goerr) :=
  match buildCommand c with
  | Err err => Done ("", "", Some (PlainError ("Error while building command: " +:+ Error err +:+ " ")))
  | Ok cmd_Args =>
      r <-- call (Exec (cmd_Args ++ program :: args)) ;;
      let '(stdout, stderr, err) := r in
      match err with
      | Some err => Done (stdout, stderr,
                      Some (PlainError ("Error while executing command: " +:+ err +:+ " ")))
      | None => Done (stdout, stderr, None)
      end
  end.

Definition Execute (c : Config) (program : string) (args : list string)
    : M (string * string * option goerr) := ExecuteContext c program args.

(** [config.Execute("sh", "-c", cmd)] and its error. *)
Definition sh (config : Config) (cmd : string) : closure :=
  r <-- Execute config "sh" ["-c"; cmd] ;;
  let '(_, _, err) := r in Done err.

(** [%c] of a rune. *)
Definition rune_str (r : Z) : string := String (ascii_of_nat (Z.to_nat r)) "".

Definition mknod_cmd (d : DeviceInfo) : string :=
  "mknod -m 666 " +:+ DeviceFilePath d +:+ " " +:+ rune_str (Type_ (di_Rule d)) +:+ " " +:+
  Itoa (Major (di_Rule d)) +:+ " " +:+ Itoa (Minor (di_Rule d)).

Definition AddDeviceFile (config : Config) (deviceInfo : DeviceInfo) : closure :=
  if negb (Allow (di_Rule deviceInfo)) then Done None
  else sh config (mknod_cmd deviceInfo).

Definition RemoveDeviceFile (config : Config) (deviceInfo : DeviceInfo) : closure :=
  if Allow (di_Rule deviceInfo) then Done None
  else sh config ("rm " +:+ DeviceFilePath deviceInfo).

Definition KillRunningProcesses (config : Config) (processes : list Z) : closure :=
  sh config ("kill " +:+ Join (map Itoa processes) " ").

(** ** Cgroup names *)

Definition GetK8sPodDeviceCGroupFullPath (podCGroupPath : string) : string :=
  PathJoin ["/sys/fs/cgroup/devices"; podCGroupPath].

Definition GetK8sPodCGroupFullPath (podCGroupPath : string) : string :=
  PathJoin ["/sys/fs/cgroup"; podCGroupPath].

(** The first status of that name. *)
Definition GetContainerStatus (pod : Pod) (containerName : string) : option ContainerStatus :=
  snd <$> list_find (λ status, cs_Name status = containerName)
            (status_ContainerStatuses (pod_Status pod)).

Definition CgroupName : Type := list string.

Definition PodQOSGuaranteed : string := "Guaranteed".
Definition PodQOSBurstable : string := "Burstable".
Definition PodQOSBestEffort : string := "BestEffort".

(** [qos.GetPodQOS] (kubectl), [cgroupsystemd.ExpandSlice] (runc). *)
Class CgroupLib := {
  GetPodQOS : Pod → string;
  ExpandSlice : string → result string }.

Section Names.
Context `{CgroupLib}.

Definition NewPodCgroupName (pod : Pod) : CgroupName :=
  let podQos := status_QOSClass (pod_Status pod) in
  let podQos := if decide (String.length podQos = 0) then GetPodQOS pod else podQos in
  (if decide (podQos = PodQOSGuaranteed) then ["kubepods"]
   else if decide (podQos = PodQOSBurstable) then ["kubepods"; ToLower PodQOSBurstable]
   else if decide (podQos = PodQOSBestEffort) then ["kubepods"; ToLower PodQOSBestEffort]
   else []) ++ ["pod" +:+ pod_UID pod].

Definition escapeSystemdCgroupName (part : string) : string := ReplaceAll part "-" "_".

Definition ToSystemd (cgroupName : CgroupName) : outcome string :=
  if decide (cgroupName = [] ∨ cgroupName = [""]) then Returns "/" else
  match ExpandSlice (Join (map escapeSystemdCgroupName cgroupName) "-" +:+ ".slice") with
  | Ok r => Returns r
  | Err err => Panics ("error converting cgroup name to systemd format: " +:+ Error err)
  end.

(** The closure [toSystemd] of [convertSystemdFullPath]: the unexpanded name. *)
Definition toSystemd (cgroupName : CgroupName) : string :=
  if decide (cgroupName = [] ∨ cgroupName = [""]) then "/"
  else Join (map (λ part, ReplaceAll part "-" "_") cgroupName) "-" +:+ ".slice".

Definition ToCgroupfs (cgroupName : CgroupName) : string := "/" +:+ PathJoin cgroupName.

Definition SystemdPathPrefixOfRuntime (runtimeName : string) : string :=
  if decide (runtimeName = "cri-o") then "crio"
  else if decide (runtimeName = "containerd") then "cri-containerd"
  else runtimeName.

(** Runtime and container id, both empty when the id has another form. *)
Definition parseRuntime (podContainerId : string) : string * string :=
  match Split podContainerId "://" with
  | [runtimeName; containerId] => (runtimeName, containerId)
  | _ => ("", "")
  end.

(** ** The cgroup path of a container *)

Definition PathIsNotExist (fullPath : string) : M bool :=
  r <-- call (Stat fullPath) ;;
  Done match r with SysErr ENOENT _ => true | _ => false end.

Definition not_exist_error (fullPath : string) : goerr :=
  PlainError ("container CGroup full path <" +:+ fullPath +:+ "> not exist").

(** Try a path; go on with [k] when it does not exist. *)
Definition try_path (fullPath : string) (k : M (result string)) : M (result string) :=
  missing <-- PathIsNotExist fullPath ;;
  if missing : bool then k else Done (Ok fullPath).

Definition convertSystemdFullPath (runtimeName containerId : string) (cgroupName : CgroupName)
    (getFullPath : string → string) : outcome (M (result string)) :=
  slice ← ToSystemd cgroupName;
  let prefix := SystemdPathPrefixOfRuntime runtimeName in
  let fullPath := getFullPath (slice +:+ "/" +:+ prefix +:+ "-" +:+ containerId +:+ ".scope") in
  Returns (try_path fullPath
    (if decide (runtimeName = "containerd") then
       let fullPath := getFullPath ("system.slice/" +:+ runtimeName +:+ ".service/" +:+
         toSystemd cgroupName +:+ ":" +:+ prefix +:+ ":" +:+ containerId) in
       try_path fullPath (Done (Err (not_exist_error fullPath)))
     else if decide (runtimeName = "docker") then
       let fullPath := getFullPath (slice +:+ "/" +:+ containerId) in
       try_path fullPath (Done (Err (not_exist_error fullPath)))
     else Done (Err (not_exist_error fullPath)))).

Definition convertCGroupfsFullPath (runtimeName containerId : string) (cgroupName : CgroupName)
    (getFullPath : string → string) : outcome (M (result string)) :=
  last ← slice_get cgroupName (length cgroupName - 1);
  let fullPath := getFullPath (PathJoin [ToCgroupfs cgroupName; containerId]) in
  let fullPath' := getFullPath (PathJoin ["system.slice"; last]) in
  Returns (try_path fullPath (try_path fullPath' (Done (Err (not_exist_error fullPath'))))).

Context `{Settings}.

Definition GetK8sPodCGroupPath (pod : Pod) (container : Container)
    (getFullPath : string → string) : outcome (M (result string)) :=
  match GetContainerStatus pod (Name container) with
  | None => Returns (Done (Err (PlainError "failed to obtain container cgroup path")))
  | Some status =>
      let '(runtimeName, containerId) := parseRuntime (cs_ContainerID status) in
      let cgroupName := NewPodCgroupName pod in
      if decide (CurrentCGroupDriver = SYSTEMD) then
        convertSystemdFullPath runtimeName containerId cgroupName getFullPath
      else if decide (CurrentCGroupDriver = CGROUPFS) then
        convertCGroupfsFullPath runtimeName containerId cgroupName getFullPath
      else Returns (Done (Err (PlainError
             ("unknown CGroup driver: " +:+ CurrentCGroupDriver))))
  end.

End Names.

(** ** Device rules of cgroup v1 *)

(** runc's [devices.Emulator] and [Rule.CgroupString]; [emu_eqb] is
    [reflect.DeepEqual]. *)
Class EmulatorLib := {
  Emulator : Type;
  emu_zero : Emulator;
  EmulatorFromList : string → result Emulator;
  emu_Rules : Emulator → result (list Rule);
  emu_Apply : Emulator → Rule → result Emulator;
  emu_Transition : Emulator → Emulator → result (list Rule);
  emu_IsBlacklist : Emulator → bool;
  emu_eqb : Emulator → Emulator → bool;
  CgroupString : Rule → string }.

(** [configs.Resources]; both callers fill [Devices] with non-nil pointers. *)
Record Resources := mkResources { SkipDevices : bool; Devices : list Rule }.

Section V1.
Context `{EmulatorLib}.

Definition LoadEmulator (path : string) : M (result Emulator) :=
  list <-! call (CgroupReadFile path "devices.list") ;;
  Done (EmulatorFromList list).

(** The closure [exist]. *)
Definition rule_exist (rules : list Rule) (rule : Rule) : bool :=
  existsb (λ ru, (Major ru =? Major rule)%Z && (Minor ru =? Minor rule)%Z &&
                 (Type_ ru =? Type_ rule)%Z) rules.

(** The current rules of other devices are added to the requested ones. *)
Fixpoint merge_rules (devices rules : list Rule) : list Rule :=
  match rules with
  | [] => devices
  | rule :: rest =>
      if rule_exist devices rule then merge_rules devices rest
      else merge_rules (devices ++ [rule]) rest
  end.

Fixpoint apply_rules (target : Emulator) (rules : list Rule) : result Emulator :=
  match rules with
  | [] => Ok target
  | rule :: rest => target' ← emu_Apply target rule; apply_rules target' rest
  end.

(** The writes; the first that fails stops the loop. *)
Fixpoint write_rules (path : string) (rules : list Rule) : closure :=
  match rules with
  | [] => Done None
  | rule :: rest =>
      err <-- call (CgroupWriteFile path
        (if Allow rule then "devices.allow" else "devices.deny") (CgroupString rule)) ;;
      match err with
      | Some err => Done (Some err)
      | None => write_rules path rest
      end
  end.

(** What [SetDeviceRulesByCgroupv1] returns: the error, and the rules its
    rollback closure captures ([None] is [NilCloser]) with the value that the
    variable [err] holds when the closure runs. *)
Record V1Result := mkV1Result {
  v1_err : option goerr;
  v1_rollback : option (list Rule * option goerr) }.

Definition set_rules_v1 (path : string) (r : Resources) : M V1Result :=
  if SkipDevices r then Done (mkV1Result None None) else
  current <-- LoadEmulator path ;;
  match current with
  | Err err => Done (mkV1Result (Some err) None)
  | Ok current =>
  match emu_Rules current with
  | Err err => Done (mkV1Result (Some err) None)
  | Ok rules =>
  match apply_rules emu_zero (merge_rules (Devices r) rules) with
  | Err err => Done (mkV1Result (Some err) None)
  | Ok target =>
  match emu_Transition current target with
  | Err err => Done (mkV1Result (Some err) None)
  | Ok transitionRules =>
      werr <-- write_rules path transitionRules ;;
      match werr with
      | Some err => Done (mkV1Result (Some err) (Some (rules, None)))
      | None =>
          currentAfter <-- LoadEmulator path ;;
          Done match currentAfter with
          | Err err => mkV1Result (Some err) (Some (rules, Some err))
          | Ok currentAfter =>
              if negb (emu_IsBlacklist target) && negb (emu_eqb currentAfter target)
              then mkV1Result
                (Some (PlainError "resulting devices cgroup doesn't precisely match target"))
                (Some (rules, None))
              else if negb (Bool.eqb (emu_IsBlacklist target) (emu_IsBlacklist currentAfter))
              then mkV1Result
                (Some (PlainError "resulting devices cgroup doesn't match target mode"))
                (Some (rules, None))
              else mkV1Result None (Some (rules, None))
          end
      end
  end end end end.

(** The text of [%w] applied to the captured error. *)
Definition wrapped_text (err : option goerr) : string :=
  match err with Some err => Error err | None => "%!w(<nil>)" end.

Definition rollback_v1 (path : string) (rules : list Rule) (err : option goerr) : closure :=
  if decide (0 < length rules) then
    res <-- set_rules_v1 path (mkResources false rules) ;;
    match v1_err res with
    | Some err2 => Done (Some (PlainError
                     ("failed to call rollback device rules: " +:+ wrapped_text err)))
    | None => Done None
    end
  else Done None.

(** The rollback closure and the error. *)
Definition SetDeviceRulesByCgroupv1 (path : string) (r : Resources)
    : M (closure * option goerr) :=
  res <-- set_rules_v1 path r ;;
  Done (match v1_rollback res with
        | None => NilCloser
        | Some (rules, err) => rollback_v1 path rules err
        end, v1_err res).

End V1.

(** ** Lemmas *)

Lemma split_from_drop full p cur t :
  split_from full (String.length p) cur (p +:+ t) = split_from full 0 cur t.
Proof. induction p as [|x p IH]; [done|]. apply IH. Qed.

Lemma prefix_char_ne c d s sep :
  Ascii.eqb d c = false → HasPrefix (String d s) (String c sep) = false.
Proof.
  intros Hd. unfold HasPrefix. cbn [String.prefix].
  destruct (ascii_dec c d) as [->|]; [|done]. by rewrite Ascii.eqb_refl in Hd.
Qed.

Lemma split_from_skip c sep cur s t :
  char_free c s = true →
  split_from (String c sep) 0 cur (s +:+ String c sep +:+ t) =
    (cur +:+ s) :: split_from (String c sep) 0 "" t.
Proof.
  revert cur. induction s as [|d s IH]; intros cur Hs.
  - pose proof (HasPrefix_app (String c sep) t) as Hp. cbn [String.append] in *.
    cbn [split_from]. rewrite Hp, string_app_nil_r. f_equal. cbn [String.length].
    rewrite Nat.sub_succ, Nat.sub_0_r. apply split_from_drop.
  - simpl in Hs. apply andb_true_iff in Hs as [Hd%negb_true_iff Hs].
    cbn [String.append split_from]. rewrite prefix_char_ne, IH by done.
    by rewrite <- string_app_assoc.
Qed.

Lemma split_from_rest c sep cur s :
  char_free c s = true → split_from (String c sep) 0 cur s = [cur +:+ s].
Proof.
  revert cur. induction s as [|d s IH]; intros cur Hs; [simpl; by rewrite string_app_nil_r|].
  simpl in Hs. apply andb_true_iff in Hs as [Hd%negb_true_iff Hs].
  cbn [split_from]. rewrite prefix_char_ne, IH by done. by rewrite <- string_app_assoc.
Qed.

Lemma rule_exist_true rules rule :
  rule_exist rules rule = true ↔
  ∃ ru, ru ∈ rules ∧ Major ru = Major rule ∧ Minor ru = Minor rule ∧ Type_ ru = Type_ rule.
Proof.
  unfold rule_exist. rewrite existsb_exists. setoid_rewrite <- list_elem_of_In.
  setoid_rewrite andb_true_iff. setoid_rewrite andb_true_iff. setoid_rewrite Z.eqb_eq.
  naive_solver.
Qed.

Lemma rule_exist_app l1 l2 rule : rule_exist (l1 ++ l2) rule = rule_exist l1 rule || rule_exist l2 rule.
Proof. apply existsb_app. Qed.

Lemma merge_rules_app devices rules :
  ∃ extra, merge_rules devices rules = devices ++ extra ∧
    (∀ rule, rule ∈ extra → rule ∈ rules ∧ rule_exist devices rule = false) ∧
    (∀ rule, rule ∈ rules → rule_exist (devices ++ extra) rule = true).
Proof.
  revert devices. induction rules as [|rule rest IH]; intros devices; simpl.
  - exists []. rewrite app_nil_r. set_solver.
  - destruct (rule_exist devices rule) eqn:He.
    + destruct (IH devices) as (extra & -> & Hin & Hall). exists extra.
      split; [done|]. split; [set_solver|]. intros r [->|Hr]%elem_of_cons; [|auto].
      by rewrite rule_exist_app, He.
    + destruct (IH (devices ++ [rule])) as (extra & -> & Hin & Hall).
      exists (rule :: extra). rewrite <- app_assoc in *. split; [done|]. split.
      * intros r [->|Hr]%elem_of_cons; [set_solver|]. apply Hin in Hr as [? Hr].
        rewrite rule_exist_app in Hr. apply orb_false_iff in Hr as [??]. set_solver.
      * intros r [->|Hr]%elem_of_cons; [|by apply Hall].
        apply rule_exist_true. exists rule. set_solver.
Qed.

(** ** Properties *)

(** Container ids are taken apart as they are put together: the runtime
    before the separator and the id after it, when neither holds a colon. *)
Theorem parseRuntime_roundtrip runtimeName containerId :
  char_free ":" runtimeName = true → char_free ":" containerId = true →
  parseRuntime (runtimeName +:+ "://" +:+ containerId) = (runtimeName, containerId).
Proof.
  intros Hr Hc. unfold parseRuntime, Split.
  by rewrite split_from_skip, split_from_rest.
Qed.

(** Setting the rules of some devices under cgroup v1 asks for these rules
    and, of the current ones, exactly rules of other devices; no device that
    had a rule is forgotten. *)
Theorem merge_rules_spec devices rules :
  ∃ extra, merge_rules devices rules = devices ++ extra ∧
    (∀ rule, rule ∈ extra → rule ∈ rules ∧
       ¬ ∃ d, d ∈ devices ∧ Major d = Major rule ∧ Minor d = Minor rule ∧ Type_ d = Type_ rule) ∧
    (∀ rule, rule ∈ rules → ∃ r, r ∈ devices ++ extra ∧
       Major r = Major rule ∧ Minor r = Minor rule ∧ Type_ r = Type_ rule).
Proof.
  destruct (merge_rules_app devices rules) as (extra & -> & Hin & Hall).
  exists extra. split; [done|]. split.
  - intros rule Hr. destruct (Hin rule Hr) as [? Hne]. split; [done|].
    rewrite <- rule_exist_true. congruence.
  - intros rule Hr. by apply rule_exist_true, Hall.
Qed.

Section V1Facts.
Context `{EmulatorLib}.

(** The successful write of one rule. *)
Definition rule_written (path : string) (rule : Rule) : event reply :=
  Ev (CgroupWriteFile path (if Allow rule then "devices.allow" else "devices.deny")
        (CgroupString rule)) None.

Lemma write_rules_wp e h path rules :
  wp e h (write_rules path rules)
    (λ err t, err = None → t = map (rule_written path) rules).
Proof.
  revert h. induction rules as [|rule rest IH]; intros h; simpl; [by wp_step|].
  wp_step. destruct r as [err|]; [by wp_step|].
  eapply wp_mono; [|apply IH]. simpl. intros err t Ht Hnone. by rewrite Ht.
Qed.

(** When [SetDeviceRulesByCgroupv1] reports no error, it has read the current
    rules, written every rule of the transition to the target successfully,
    and read back a list in the target's mode that, for a whitelist, is the
    target itself; the target is made of the requested rules and the current
    rules of other devices. *)
Theorem SetDeviceRulesByCgroupv1_success e h path r :
  SkipDevices r = false →
  wp e h (SetDeviceRulesByCgroupv1 path r) (λ '(_, err) t, err = None →
    ∃ list current rules target trans list' after,
      t = [Ev (CgroupReadFile path "devices.list") (Ok list)] ++
          map (rule_written path) trans ++
          [Ev (CgroupReadFile path "devices.list") (Ok list')] ∧
      EmulatorFromList list = Ok current ∧ emu_Rules current = Ok rules ∧
      apply_rules emu_zero (merge_rules (Devices r) rules) = Ok target ∧
      emu_Transition current target = Ok trans ∧ EmulatorFromList list' = Ok after ∧
      emu_IsBlacklist after = emu_IsBlacklist target ∧
      (emu_IsBlacklist target = false → emu_eqb after target = true)).
Proof.
  intros Hskip. unfold SetDeviceRulesByCgroupv1, set_rules_v1, LoadEmulator. rewrite Hskip.
  repeat wp_step. destruct r0 as [list|]; repeat wp_step; [|done].
  destruct (EmulatorFromList list) as [current|] eqn:Hcur; repeat wp_step; [|done].
  destruct (emu_Rules current) as [rules|] eqn:Hrules; repeat wp_step; [|done].
  destruct (apply_rules _ _) as [target|] eqn:Htarget; repeat wp_step; [|done].
  destruct (emu_Transition current target) as [trans|] eqn:Htrans; repeat wp_step; [|done].
  eapply wp_mono; [|apply write_rules_wp]. intros [err|] t Ht; simpl; repeat wp_step; [done|].
  specialize (Ht eq_refl) as ->.
  destruct r0 as [list'|]; repeat wp_step; [|done].
  destruct (EmulatorFromList list') as [after|] eqn:Hafter; [|done].
  destruct (emu_IsBlacklist target) eqn:Hbt; destruct (emu_eqb after target) eqn:Heq; simpl;
    destruct (emu_IsBlacklist after) eqn:Hba; simpl; try done;
  (intros _; exists list, current, rules, target, trans, list', after;
   rewrite ?app_nil_r, <- ?app_assoc; repeat split; congruence).
Qed.

End V1Facts.

(** ** Looking for the cgroup of a container *)

(** A path that is there, or not. *)
Definition stat_present (r : sysres FileInfo) : Prop :=
  match r with SysErr ENOENT _ => False | _ => True end.

Definition stat_missing (ev : event reply) : Prop :=
  ∃ path msg, ev = Ev (Stat path) (SysErr ENOENT msg).

(** The path of an answer is the first one tried that is there. *)
Definition first_present (r : result string) (t : trace) : Prop :=
  match r with
  | Ok path => ∃ t0 info, t = t0 ++ [Ev (Stat path) info] ∧ stat_present info ∧
                 Forall stat_missing t0
  | Err _ => Forall stat_missing t
  end.

Lemma try_path_wp fullPath k e h :
  (∀ h', wp e h' k first_present) → wp e h (try_path fullPath k) first_present.
Proof.
  intros Hk. unfold try_path, PathIsNotExist. repeat wp_step.
  assert (stat_present r ∨ ∃ msg, r = SysErr ENOENT msg) as [Hr|[msg ->]].
  { destruct r as [|[] msg]; simpl; eauto. }
  - assert (match r with SysErr ENOENT _ => true | _ => false end = false) as ->
      by (by destruct r as [|[]]).
    wp_step. exists [], r. by repeat split.
  - eapply wp_mono; [|apply Hk]. intros a t Ha. simpl. destruct a as [path|].
    + destruct Ha as (t0 & info & -> & ? & ?). eexists (_ :: t0), info.
      repeat split; [done|]. constructor; [by eexists _, _ | done].
    + constructor; [by eexists _, _ | done].
Qed.

Lemma not_exist_wp err e h : wp e h (Done (Err err)) first_present.
Proof. wp_step. by simpl. Qed.

(** The cgroup path of a container is the first candidate of the driver and
    runtime that exists; when it reports an error, every path it tried was
    missing. *)
Theorem GetK8sPodCGroupPath_first_present `{CgroupLib, Settings} pod container getFullPath p e h :
  GetK8sPodCGroupPath pod container getFullPath = Returns p → wp e h p first_present.
Proof.
  unfold GetK8sPodCGroupPath.
  destruct (GetContainerStatus pod (Name container)) as [status|];
    [|intros [= <-]; apply not_exist_wp].
  destruct (parseRuntime _) as [runtimeName containerId].
  case_decide; [|case_decide; [|intros [= <-]; apply not_exist_wp]].
  - unfold convertSystemdFullPath. destruct (ToSystemd _) as [slice|]; [|done].
    intros [= <-]. apply try_path_wp. intros h'.
    repeat case_decide; try apply try_path_wp; intros; apply not_exist_wp.
  - unfold convertCGroupfsFullPath. destruct (slice_get _ _) as [last|]; [|done].
    intros [= <-]. apply try_path_wp. intros h'. apply try_path_wp. intros h''. apply not_exist_wp.
Qed.

(** ** Commands in the container *)

(** The command line of a shell command in the mount namespace of [pid]. *)
Definition mount_sh (pid : Z) (command : string) : list string :=
  ["nsenter"; "--target"; Itoa pid; "--mount"; "sh"; "-c"; command].

Lemma sh_mount_wp e h pid command :
  pid ≠ 0%Z →
  wp e h (sh (mount_config pid) command)
    (λ err t, ∃ r, t = [Ev (Exec (mount_sh pid command)) r] ∧ (err = None ↔ r.2 = None)).
Proof.
  intros Hpid. unfold sh, Execute, ExecuteContext, buildCommand.
  cbn [mount_config cfg_Target]. rewrite decide_False by done. simpl.
  repeat wp_step. destruct r as [[out err] [x|]]; repeat wp_step; eexists; (split; [reflexivity|]);
    simpl; naive_solver.
Qed.

(** ** Witnesses *)

Lemma parseRuntime_roundtrip_witness :
  parseRuntime ("containerd" +:+ "://" +:+ "4a1f") = ("containerd", "4a1f").
Proof. apply (parseRuntime_roundtrip "containerd" "4a1f"); reflexivity. Defined.

Definition toy_emulator : EmulatorLib := {|
  Emulator := list Rule;
  emu_zero := [];
  EmulatorFromList s :=
    Ok (if decide (s = "") then [] else [mkRule CharDevice 195 0 "rw" true]);
  emu_Rules e := Ok e;
  emu_Apply e r := Ok (e ++ [r]);
  emu_Transition current target := Ok target;
  emu_IsBlacklist _ := false;
  emu_eqb e e' := bool_decide (e = e');
  CgroupString r := rune_str (Type_ r) +:+ " " +:+ Itoa (Major r) +:+ ":" +:+
    Itoa (Minor r) +:+ " " +:+ Permissions r |}.

(** devices.list shows the rule once it has been written. *)
Definition v1_env : env := λ h c,
  match c return reply c with
  | CgroupReadFile _ _ => Ok (match h with [] => "" | _ => "c 195:0 rw" end)
  | c => default_reply c
  end.

Lemma SetDeviceRulesByCgroupv1_success_witness :
  let rule := mkRule CharDevice 195 0 "rw" true in
  let r := mkResources false [rule] in
  (run v1_env [] (@SetDeviceRulesByCgroupv1 toy_emulator "/sys/fs/cgroup/devices/pod" r)).1.2 = None ∧
  wp v1_env [] (@SetDeviceRulesByCgroupv1 toy_emulator "/sys/fs/cgroup/devices/pod" r)
    (λ '(_, err) t, err = None →
    ∃ list current rules target trans list' after,
      t = [Ev (CgroupReadFile "/sys/fs/cgroup/devices/pod" "devices.list") (Ok list)] ++
          map (@rule_written toy_emulator "/sys/fs/cgroup/devices/pod") trans ++
          [Ev (CgroupReadFile "/sys/fs/cgroup/devices/pod" "devices.list") (Ok list')] ∧
      @EmulatorFromList toy_emulator list = Ok current ∧
      @emu_Rules toy_emulator current = Ok rules ∧
      @apply_rules toy_emulator [] (merge_rules (Devices r) rules) = Ok target ∧
      @emu_Transition toy_emulator current target = Ok trans ∧
      @EmulatorFromList toy_emulator list' = Ok after ∧
      @emu_IsBlacklist toy_emulator after = @emu_IsBlacklist toy_emulator target ∧
      (@emu_IsBlacklist toy_emulator target = false → @emu_eqb toy_emulator after target = true)).
Proof.
  split; [reflexivity|].
  apply (@SetDeviceRulesByCgroupv1_success toy_emulator v1_env []
    "/sys/fs/cgroup/devices/pod" (mkResources false [mkRule CharDevice 195 0 "rw" true])).
  reflexivity.
Defined.

#[local] Instance plain_cgroup_lib : CgroupLib :=
  {| GetPodQOS _ := "BestEffort"; ExpandSlice s := Ok ("/kubepods.slice/" +:+ s) |}.
#[local] Instance cgroupfs_settings : Settings :=
  {| DeviceSlaveContainerImageTag := "alpine:latest";
     DeviceSlaveImagePullPolicy := "IfNotPresent"; CurrentCGroupDriver := "cgroupfs" |}.

Definition cuda_pod : Pod :=
  mkPod (mkObjectMeta "cuda" "" "default" "u-1" "" None None [] false) emptySpec
    (mkPodStatus PodRunning "" []
       [mkContainerStatus "main" true "containerd://4a1f"] PodQOSBurstable "").

Lemma GetK8sPodCGroupPath_first_present_witness :
  wp (λ _ c, default_reply c) []
    (try_path "/sys/fs/cgroup/kubepods/burstable/podu-1/4a1f"
      (try_path "/sys/fs/cgroup/system.slice/podu-1"
        (Done (Err (not_exist_error "/sys/fs/cgroup/system.slice/podu-1"))))) first_present.
Proof.
  apply (GetK8sPodCGroupPath_first_present cuda_pod (mkContainer 0 "main") GetK8sPodCGroupFullPath).
  vm_compute. reflexivity.
Defined.
