(* ===== verification/CgroupV2.v ===== *)
(** * Device rules of cgroup v2 ([pkg/util/cgroupv2.go])

    The one CGROUP_DEVICE program of the container's cgroup is fetched, edited
    ([Ebpf.v]) and put in the place of the old one: with BPF_F_REPLACE where the
    kernel has it, otherwise by attaching the new program and detaching the old
    one. The rollback closure is returned to the caller. *)
From stdpp Require Import base gmap strings list sets.
From Stdlib Require Import ZArith Lia Ascii.
From S2P Require Import Prelude GoStrings Api Ebpf World Util Cgroup.

(** Flags of linux/bpf.h. *)
Definition BPF_F_ALLOW_MULTI : Z := 2%Z.
Definition BPF_F_REPLACE : Z := 4%Z.

Definition isRWM (perms : string) : bool :=
  let has c := bool_decide (c ∈ String.list_ascii_of_string perms) in
  has "r"%char && has "w"%char && has "m"%char.

Definition canSkipEBPFError (r : Resources) : bool :=
  forallb (λ dev, negb (negb (Allow dev) || negb (isRWM (Permissions dev)))) (Devices r).

(** Handles for the ids; programs that may not be accessed are skipped. *)
Fixpoint programs_from_ids (ids : list Z) : M (result (list Z)) :=
  match ids with
  | [] => Done (Ok [])
  | progId :: rest =>
      r <-- call (NewProgramFromID progId) ;;
      match r with
      | SysOk program =>
          programs <-! programs_from_ids rest ;;
          Done (Ok (program :: programs))
      | SysErr EPERM _ => programs_from_ids rest
      | SysErr _ err => Done (Err (PlainError ("cannot fetch program from id: " +:+ err)))
      end
  end.

(** [n] is the number of retries left. *)
Fixpoint find_filters (n : nat) (dirFd : Z) (size : nat) : M (result (list Z)) :=
  match n with
  | O => Done (Err (PlainError "could not get complete list of CGROUP_DEVICE programs"))
  | S n' =>
      query <-- call (BpfProgQuery dirFd size) ;;
      match q_errno query with
      | Some (ENOSPC, _) => find_filters n' dirFd (q_ProgCnt query)
      | Some (_, err) =>
          Done (Err (PlainError ("bpf_prog_query(BPF_CGROUP_DEVICE) failed: " +:+ err)))
      | None => programs_from_ids (take (q_ProgCnt query) (q_ids query))
      end
  end.

Definition findAttachedCgroupDeviceFilters (dirFd : Z) : M (result (list Z)) :=
  find_filters 10 dirFd 64.

Section V2.
Context `{AsmLib}.

(** The body of [haveBpfProgReplaceOnce.Do]. *)
Definition probeBpfProgReplace : M bool :=
  r <-- call (NewProgram [Mov_Imm R0 0; Return_] "MIT") ;;
  match r with
  | Err _ => Done false
  | Ok prog =>
      devnull <-- call OpenDevNull ;;
      match devnull with
      | SysErr _ _ => _ <-- call (CloseProgram prog) ;; Done false
      | SysOk fd =>
          err <-- call (RawAttachProgram fd prog None (Z.lor BPF_F_ALLOW_MULTI BPF_F_REPLACE)) ;;
          _ <-- call (CloseDevNull fd) ;;
          _ <-- call (CloseProgram prog) ;;
          Done match err with SysErr EINVAL _ => false | _ => true end
      end
  end.

(** [once] is the answer of the first call in this process, if there was one. *)
Definition haveBpfProgReplace (once : option bool) : M bool :=
  match once with Some b => Done b | None => probeBpfProgReplace end.

(** The closure [rollback]; [err] is the value of the captured variable. *)
Definition rollback_v2 (dirFd oldProg prog : Z) (supportReplaceProg : bool) (attachFlags : Z)
    (err : option goerr) : closure :=
  rollbackErr <--
    (if supportReplaceProg
     then call (RawAttachProgram dirFd oldProg (Some prog) attachFlags)
     else call (RawDetachProgram dirFd prog)) ;;
  Done match rollbackErr with
  | SysOk _ => None
  | SysErr _ _ => Some (PlainError ("failed to call rollback " +:+
      (if supportReplaceProg then "BPF_F_REPLACE" else "BPF_PROG_DETACH") +:+
      " (BPF_CGROUP_DEVICE): " +:+ wrapped_text err))
  end.

(** Attaching the edited program. *)
Definition attach_filter (once : option bool) (dirFd oldProg : Z) (newInstructions : Instructions)
    : M (closure * option goerr) :=
  supportReplaceProg <-- haveBpfProgReplace once ;;
  let replaceProg := if supportReplaceProg : bool then Some oldProg else None in
  let attachFlags :=
    if supportReplaceProg : bool then Z.lor BPF_F_ALLOW_MULTI BPF_F_REPLACE else BPF_F_ALLOW_MULTI in
  r <-- call (NewProgram newInstructions "Apache") ;;
  match r with
  | Err err => Done (NilCloser, Some err)
  | Ok prog =>
      r <-- call (RawAttachProgram dirFd prog replaceProg attachFlags) ;;
      match r with
      | SysErr _ err => Done (NilCloser, Some (PlainError
          ("failed to call BPF_PROG_ATTACH (BPF_CGROUP_DEVICE, BPF_F_ALLOW_MULTI): " +:+ err)))
      | SysOk _ =>
          let rollback := rollback_v2 dirFd oldProg prog supportReplaceProg attachFlags in
          if supportReplaceProg : bool then Done (rollback None, None) else
          r <-- call (RawDetachProgram dirFd oldProg) ;;
          Done match r with
          | SysOk _ => (rollback None, None)
          | SysErr _ err => (rollback (Some (PlainError err)), Some (PlainError
              ("failed to call BPF_PROG_DETACH (BPF_CGROUP_DEVICE) on old filter program: " +:+ err)))
          end
      end
  end.

(** The instructions of the new program, from those of the old one. *)
Definition edit_instructions (current : option Instructions) (rules : list (option Rule))
    : outcome (result Instructions) :=
  loaded ← LoadInstructions current;
  match loaded with
  | Err err => Returns (Err err)
  | Ok tmpInstructions =>
      match AppendRules tmpInstructions rules with
      | Err err => Returns (Err err)
      | Ok tmpInstructions => final ← Finalize tmpInstructions; Returns (Ok final)
      end
  end.

Definition loadAttachCgroupDeviceFilter (once : option bool) (dirFd : Z)
    (rules : list (option Rule)) : act (closure * option goerr) :=
  _ <-- call SetrlimitMemlock ;;
  oldProgs <-- findAttachedCgroupDeviceFilters dirFd ;;
  match oldProgs with
  | Err err => Done (Returns (NilCloser, Some err))
  | Ok [] => Done (Returns (NilCloser, Some (PlainError "Device rule ebpf program not found")))
  | Ok (_ :: _ :: _) => Done (Returns (NilCloser, Some (PlainError
      "Multiple ebpf programs detected, unable to set device permissions")))
  | Ok [oldProg] =>
      currentInstructions <-- call (ProgInstructions oldProg) ;;
      match currentInstructions with
      | Err err => Done (Returns (NilCloser, Some err))
      | Ok currentInstructions =>
          edited <-? pure (edit_instructions currentInstructions rules) ;;
          match edited with
          | Err err => Done (Returns (NilCloser, Some err))
          | Ok newInstructions =>
              if decide (Some newInstructions = currentInstructions)
              then Done (Returns (NilCloser, None))
              else total (attach_filter once dirFd oldProg newInstructions)
          end
      end
  end.

(** The closer of the directory, the rollback and the error. *)
Definition SetDeviceRulesByCgroupv2 (once : option bool) (dirPath : string) (r : Resources)
    : act (closure * closure * option goerr) :=
  if SkipDevices r then Done (Returns (NilCloser, NilCloser, None)) else
  fd <-- call (UnixOpen dirPath) ;;
  match fd with
  | SysErr _ _ => Done (Returns (NilCloser, NilCloser,
      Some (PlainError ("cannot get dir FD for " +:+ dirPath))))
  | SysOk dirFD =>
      res <-? loadAttachCgroupDeviceFilter once dirFD (map Some (Devices r)) ;;
      let '(rollback, err) := res in
      let closedFd : closure := call (UnixClose dirFD) in
      Done (Returns match err with
      | Some err => if canSkipEBPFError r then (closedFd, rollback, None)
                    else (closedFd, rollback, Some err)
      | None => (closedFd, rollback, None)
      end)
  end.

End V2.

(** ** The programs attached to a cgroup *)

(** What a call does to the set of programs attached to [dirFd]. *)
Definition filter_step (dirFd : Z) (attached : gset Z) (ev : event reply) : gset Z :=
  let '(Ev c r) := ev in
  match c return reply c → gset Z with
  | RawAttachProgram target prog replace _ => λ r,
      match r with
      | SysErr _ _ => attached
      | SysOk _ =>
          if decide (target = dirFd) then
            {[prog]} ∪ match replace with Some old => attached ∖ {[old]} | None => attached end
          else attached
      end
  | RawDetachProgram target prog => λ r,
      match r with
      | SysErr _ _ => attached
      | SysOk _ => if decide (target = dirFd) then attached ∖ {[prog]} else attached
      end
  | _ => λ _, attached
  end r.

Definition filters (dirFd : Z) (attached : gset Z) (t : trace) : gset Z :=
  foldl (filter_step dirFd) attached t.

(** /dev/null is opened on another descriptor than the open directory. *)
Definition other_fd (dirFd : Z) (ev : event reply) : Prop :=
  ∀ fd, ev = Ev OpenDevNull (SysOk fd) → fd ≠ dirFd.

(** A new program has a handle of its own. *)
Definition fresh_prog (oldProg : Z) (ev : event reply) : Prop :=
  ∀ insts license prog, ev = Ev (NewProgram insts license) (Ok prog) → prog ≠ oldProg.

Lemma filters_app fd s t1 t2 : filters fd s (t1 ++ t2) = filters fd (filters fd s t1) t2.
Proof. apply foldl_app. Qed.

(** No prefix of the calls leaves the cgroup without a program. *)
Definition always_filtered (dirFd : Z) (attached : gset Z) (t : trace) : Prop :=
  ∀ t1 t2, t = t1 ++ t2 → filters dirFd attached t1 ≠ ∅.

Lemma always_filtered_nil fd s : s ≠ ∅ → always_filtered fd s [].
Proof. intros Hs t1 t2 Ht. symmetry in Ht. apply app_eq_nil in Ht as [-> _]. done. Qed.

Lemma always_filtered_cons fd s ev t :
  s ≠ ∅ → always_filtered fd (filter_step fd s ev) t → always_filtered fd s (ev :: t).
Proof.
  intros Hs Ht [|ev' t1] t2 Heq; [done|]. injection Heq as <- ->. by apply (Ht t1 t2).
Qed.

Lemma always_filtered_app fd s t1 t2 :
  always_filtered fd s t1 → always_filtered fd (filters fd s t1) t2 →
  always_filtered fd s (t1 ++ t2).
Proof.
  revert s. induction t1 as [|ev t1 IH]; intros s H1 H2; simpl; [done|].
  apply always_filtered_cons; [by apply (H1 [] (ev :: t1))|].
  apply IH; [|done]. intros ta tb Heq. apply (H1 (ev :: ta) tb). simpl. by rewrite Heq.
Qed.

Section V2Facts.
Context `{AsmLib}.

(** The probe touches no program of the cgroup. *)
Lemma haveBpfProgReplace_wp once dirFd s e h :
  wp e h (haveBpfProgReplace once) (λ b t,
    (∀ b', once = Some b' → b = b') ∧
    (Forall (other_fd dirFd) t → ∀ t1 t2, t = t1 ++ t2 → filters dirFd s t1 = s)).
Proof.
  destruct once as [b|]; simpl.
  { wp_step. split; [naive_solver|]. intros _ t1 t2 Ht. symmetry in Ht.
    by apply app_eq_nil in Ht as [-> _]. }
  assert (∀ t : trace, Forall (λ ev, filter_step dirFd s ev = s) t →
    ∀ t1 t2, t = t1 ++ t2 → filters dirFd s t1 = s) as Hall.
  { intros t Ht t1 t2 ->. apply Forall_app in Ht as [Ht _].
    induction Ht as [|ev t1 Hev _ IH]; simpl; [done|]. by rewrite Hev. }
  unfold probeBpfProgReplace.
  repeat (wp_step || case_goal); (split; [done|]); intros Hfd; apply Hall;
    repeat (apply Forall_cons; split); try apply Forall_nil; try done; simpl;
    repeat case_match; try done; subst; exfalso; cbn [app] in Hfd;
    rewrite !Forall_cons in Hfd; destruct_and? Hfd;
    match goal with
    | Ho : other_fd _ (Ev OpenDevNull _) |- _ => exact (Ho _ eq_refl eq_refl)
    end.
Qed.

(** What replacing [oldProg] means for the calls made. *)
Definition swapped (dirFd oldProg : Z) (insts : Instructions) (err : option goerr) (t : trace)
    : Prop :=
  always_filtered dirFd {[oldProg]} t ∧
  (err = None → ∃ prog, Ev (NewProgram insts "Apache") (Ok prog) ∈ t ∧
     filters dirFd {[oldProg]} t = {[prog]}) ∧
  (err ≠ None → oldProg ∈ filters dirFd {[oldProg]} t).

Lemma swapped_app dirFd oldProg insts err t0 t :
  (∀ t1 t2, t0 = t1 ++ t2 → filters dirFd {[oldProg]} t1 = {[oldProg]}) →
  swapped dirFd oldProg insts err t → swapped dirFd oldProg insts err (t0 ++ t).
Proof.
  intros Hkeep (Ha & Hok & Herr).
  assert (filters dirFd {[oldProg]} t0 = {[oldProg]}) as Hf
    by (apply (Hkeep t0 []); by rewrite app_nil_r).
  split; [|split].
  - apply always_filtered_app; [|by rewrite Hf].
    intros t1 t2 Heq. rewrite (Hkeep t1 t2 Heq). set_solver.
  - intros Hn. destruct (Hok Hn) as (prog & Hin & Hp). exists prog.
    rewrite filters_app, Hf. set_solver.
  - intros Hn. rewrite filters_app, Hf. auto.
Qed.

Ltac filtered :=
  repeat (apply always_filtered_cons; [simpl; rewrite ?decide_True by done; set_solver|]);
  apply always_filtered_nil; simpl; rewrite ?decide_True by done; set_solver.

Ltac swap_case :=
  intros Hfd Hfr; apply Forall_app in Hfd as [Hfd _];
  match goal with
  | Ht0 : _ → ∀ _ _, _ → filters _ _ _ = _ |- _ => apply swapped_app; [exact (Ht0 Hfd)|]
  end;
  apply Forall_app in Hfr as [_ Hfr]; apply Forall_cons in Hfr as [Hne Hfr];
  try specialize (Hne _ _ _ eq_refl); split; [filtered | split].

Lemma attach_filter_wp once dirFd oldProg insts e h :
  wp e h (attach_filter once dirFd oldProg insts) (λ '(_, err) t,
    Forall (other_fd dirFd) t → Forall (fresh_prog oldProg) t →
    swapped dirFd oldProg insts err t).
Proof.
  unfold attach_filter. wp_step.
  eapply wp_mono; [|apply (haveBpfProgReplace_wp once dirFd {[oldProg]})].
  intros supports t0 [_ Ht0]; cbn beta.
  repeat wp_step. destruct r as [prog|err]; repeat wp_step; cbn [app].
  2:{ swap_case; [done|]. set_solver. }
  destruct r as [|k err]; repeat wp_step; cbn [app]; [|swap_case; [done|set_solver]].
  destruct supports; repeat wp_step; cbn [app].
  - swap_case; [|done]. intros _. exists prog. split; [set_solver|].
    simpl. rewrite decide_True by done. set_solver.
  - destruct r as [|k err]; cbn [app]; swap_case; try done; intros _.
    + exists prog. split; [set_solver|]. simpl. rewrite !decide_True by done. set_solver.
    + simpl. rewrite decide_True by done. set_solver.
Qed.

(** C13. Putting the edited program in the place of the old one never leaves the
    cgroup without a filter, with and without BPF_F_REPLACE: the new program is
    attached before the old one goes. Without an error exactly the new program,
    loaded with the edited instructions, is attached; with an error the old one
    still is. *)
Theorem attach_filter_swaps once dirFd oldProg insts e h :
  wp e h (attach_filter once dirFd oldProg insts) (λ '(_, err) t,
    Forall (other_fd dirFd) t → Forall (fresh_prog oldProg) t →
    swapped dirFd oldProg insts err t).
Proof. apply attach_filter_wp. Qed.

(** [attach_filter] and then the rollback it returned. *)
Definition attach_then_rollback (once : option bool) (dirFd oldProg : Z) (insts : Instructions)
    : M (option goerr * option goerr) :=
  res <-- attach_filter once dirFd oldProg insts ;;
  rollbackErr <-- res.1 ;;
  Done (res.2, rollbackErr).

(** C35. Rolling back after a failure, or with BPF_F_REPLACE, brings the old
    program back; without BPF_F_REPLACE a rollback that reports success after a
    completed exchange detaches the new program and attaches nothing, so the
    cgroup is left without a device filter. *)
Theorem rollback_filter once dirFd oldProg insts e h :
  wp e h (attach_then_rollback (Some once) dirFd oldProg insts) (λ '(err, rollbackErr) t,
    Forall (fresh_prog oldProg) t → rollbackErr = None →
    filters dirFd {[oldProg]} t =
      if negb once && bool_decide (err = None) then ∅ else {[oldProg]}).
Proof.
  unfold attach_then_rollback, attach_filter. cbn [haveBpfProgReplace].
  destruct once;
    repeat first [wp_step | progress cbn [fst snd NilCloser app negb andb]
      | progress unfold rollback_v2
      | match goal with
        | |- wp _ _ (match ?r with _ => _ end) _ => destruct r
        | |- wp _ _ (fst (match ?r with _ => _ end)) _ => destruct r
        end];
    repeat match goal with |- context [match ?r with SysOk _ => _ | SysErr _ _ => _ end] =>
      destruct r end;
    intros Hfr Hn; try done; cbn; rewrite ?decide_True by done; try set_solver;
    apply Forall_cons in Hfr as [Hne _]; specialize (Hne _ _ _ eq_refl); set_solver.
Qed.

(** Calls that attach and detach nothing. *)
Definition neutral (c : cmd) : Prop :=
  match c with RawAttachProgram _ _ _ _ | RawDetachProgram _ _ => False | _ => True end.

Lemma filters_neutral fd s t :
  Forall (λ ev, neutral (ev_cmd ev)) t → filters fd s t = s.
Proof.
  induction 1 as [|[c r] t Hev _ IH]; simpl; [done|]. by destruct c.
Qed.

(** The calls that look for the attached programs. *)
Definition bpf_read (c : cmd) : Prop :=
  match c with BpfProgQuery _ _ | NewProgramFromID _ => True | _ => False end.

Lemma find_filters_only n dirFd size : only bpf_read (find_filters n dirFd size).
Proof.
  assert (∀ ids, only bpf_read (programs_from_ids ids)) as Hids.
  { induction ids as [|i ids IH]; simpl; [constructor|]. constructor; [done|].
    intros [prog|[] err]; simpl; try constructor; try done.
    apply only_bind; [done|]. intros []; constructor. }
  revert size. induction n as [|n IH]; intros size; simpl; [constructor|].
  constructor; [done|]. intros q. simpl.
  destruct (q_errno q) as [[[] err]|]; try constructor; auto.
Qed.

(** The calls that put the edited program of [oldProg] into force. *)
Definition installed (rules : list (option Rule)) (dirFd : Z) (t : trace) : Prop :=
  ∃ oldProg current insts,
    Ev (ProgInstructions oldProg) (Ok current) ∈ t ∧
    edit_instructions current rules = Returns (Ok insts) ∧
    (current = Some insts ∨
     (Forall (other_fd dirFd) t → Forall (fresh_prog oldProg) t →
      ∃ prog, Ev (NewProgram insts "Apache") (Ok prog) ∈ t ∧
        filters dirFd {[oldProg]} t = {[prog]})).

Lemma installed_app rules dirFd t0 t :
  Forall (λ ev, neutral (ev_cmd ev)) t0 → installed rules dirFd t →
  installed rules dirFd (t0 ++ t).
Proof.
  intros Hn (old & cur & insts & Hin & He & Hor). exists old, cur, insts.
  split; [set_solver|]. split; [done|]. destruct Hor as [|Hor]; [by left|right].
  intros Hfd Hfr. apply Forall_app in Hfd as [_ Hfd]. apply Forall_app in Hfr as [_ Hfr].
  destruct (Hor Hfd Hfr) as (prog & Hp & Hf). exists prog.
  rewrite filters_app, (filters_neutral _ _ t0) by done. set_solver.
Qed.

Lemma loadAttach_wp once dirFd rules e h :
  wp e h (loadAttachCgroupDeviceFilter once dirFd rules) (λ o t,
    ∀ rollback, o = Returns (rollback, None) → installed rules dirFd t).
Proof.
  unfold loadAttachCgroupDeviceFilter. repeat wp_step.
  eapply wp_mono; [|apply only_wp, (only_mono bpf_read neutral), find_filters_only;
    by intros []].
  intros progs t0 Ht0. cbn beta.
  eapply (wp_mono _ _ _ (λ o t, ∀ rollback, o = Returns (rollback, None) →
    installed rules dirFd t)).
  { intros o t Hi rb Ho. cbn [app]. apply (installed_app _ _ [_]); [by repeat constructor|].
    apply installed_app; [done|]. by eapply Hi. }
  destruct progs as [[|oldProg [|]]|]; try (wp_step; naive_solver).
  repeat wp_step. destruct r0 as [current|]; [|wp_step; naive_solver].
  repeat wp_step. destruct (edit_instructions current rules) as [[insts|err]|] eqn:He;
    try (wp_step; naive_solver). cbn beta iota.
  case_decide as Hsame.
  - wp_step. intros rb _. exists oldProg, current, insts. split; [set_solver|].
    split; [done|]. left. done.
  - repeat wp_step. eapply wp_mono; [|apply (attach_filter_wp once dirFd oldProg insts)].
    intros [rb err] t Ht. wp_step. intros rb' [= -> ->].
    exists oldProg, current, insts. split; [set_solver|]. split; [done|]. right.
    intros Hfd Hfr. rewrite app_nil_r in *. cbn [app] in *.
    apply Forall_cons in Hfd as [_ Hfd]. apply Forall_cons in Hfr as [_ Hfr].
    destruct (Ht Hfd Hfr) as (_ & Hok & _). destruct (Hok eq_refl) as (prog & Hin & Hf).
    exists prog. split; [set_solver|]. done.
Qed.

(** A v2 rule change that reports success, for rules of which at least one
    denies or lacks an access mode, has opened the cgroup's directory, read its
    program, and installed exactly the edited program (or found it in place);
    only all-allowing rwm rules may report success without that. *)
Theorem SetDeviceRulesByCgroupv2_success once dirPath r e h :
  SkipDevices r = false → canSkipEBPFError r = false →
  wp e h (SetDeviceRulesByCgroupv2 once dirPath r) (λ o t,
    ∀ closedFd rollback, o = Returns (closedFd, rollback, None) →
    ∃ dirFD, Ev (UnixOpen dirPath) (SysOk dirFD) ∈ t ∧
      installed (map Some (Devices r)) dirFD t).
Proof.
  intros Hskip Hcan. unfold SetDeviceRulesByCgroupv2. rewrite Hskip.
  wp_step. wp_step. destruct r0 as [dirFD|k err]; [|wp_step; naive_solver].
  wp_step. eapply wp_mono; [|apply loadAttach_wp].
  intros [[rb err]|] t Ht; wp_step; [|naive_solver].
  intros closedFd rollback. rewrite Hcan. destruct err as [err|]; [naive_solver|].
  intros _. exists dirFD. rewrite app_nil_r. split; [set_solver|].
  apply (installed_app _ _ [_]); [by repeat constructor|]. by eapply Ht.
Qed.

End V2Facts.

(** ** Witnesses *)

(** A kernel with one program attached, the runc program of [EbpfFacts.v]. *)
Definition v2_env (final : Instructions) : env := λ h c,
  match c return reply c with
  | UnixOpen _ => SysOk 7%Z
  | BpfProgQuery _ _ => mkQueryReply None 1 [41%Z]
  | NewProgramFromID _ => SysOk 10%Z
  | ProgInstructions _ => Ok (Some (shown final))
  | NewProgram _ _ => Ok 11%Z
  | RawAttachProgram _ _ _ _ => SysOk tt
  | RawDetachProgram _ _ => SysOk tt
  | c => default_reply c
  end.

Lemma SetDeviceRulesByCgroupv2_success_witness :
  let final := [JNE_Imm R2 2%Z; Mov_Imm32 R0 1%Z; Return_; Mov_Imm32 R0 0%Z; Return_] in
  let r := mkResources false [mkRule CharDevice 195 0 "rw" true] in
  (∃ c rb, (run (v2_env final) [] (SetDeviceRulesByCgroupv2 (Some true) "/cg" r)).1 =
     Returns (c, rb, None)) ∧
  wp (v2_env final) [] (SetDeviceRulesByCgroupv2 (Some true) "/cg" r) (λ o t,
    ∀ closedFd rollback, o = Returns (closedFd, rollback, None) →
    ∃ dirFD, Ev (UnixOpen "/cg") (SysOk dirFD) ∈ t ∧
      installed (map Some (Devices r)) dirFD t).
Proof.
  split; [do 2 eexists; vm_compute; reflexivity|].
  apply (SetDeviceRulesByCgroupv2_success (Some true) "/cg"
    (mkResources false [mkRule CharDevice 195 0 "rw" true])); reflexivity.
Defined.
