(* ===== verification/DeviceAccess.v ===== *)
(** * What a container may open after a rule change

    The editor of device filters ([EbpfFacts]) and the exchange of programs
    ([CgroupV2]) together: which requests the kernel grants once a rule change
    under cgroup v2 has been reported successful. *)
From Stdlib Require Import ZArith Lia.
From stdpp Require Import base gmap strings list.
From S2P Require Import Prelude GoStrings Api Ebpf EbpfFacts World Util Cgroup CgroupV2.

Section Access.
Context `{AsmLib, !AsmLaws}.

(** The program of a first group and a table of device entries, with the default
    deny, as it is read from the kernel. *)
Definition filter_program (g0 : Instructions) (es : list entry) : Instructions :=
  shown (concat (g0 :: map entry_block es) ++ [Mov_Imm32 R0 0; Return_]).

(** ** The table of devices *)

(** The entry is about the device of the request. *)
Definition about (en : entry) (q : Ebpf.Request) : bool :=
  (rq_type q =? en_type en)%Z && (rq_major q =? Major (en_rule en))%Z &&
  (rq_minor q =? Minor (en_rule en))%Z.

(** A rule with the numbers of one device, no wildcards. *)
Definition concrete (rule : Rule) : Prop :=
  (0 ≤ Major rule < 2 ^ 31)%Z ∧ (0 ≤ Minor rule < 2 ^ 31)%Z.

(** No device has two entries. *)
Definition distinct : list entry → Prop := ForallOrdPairs (λ e1 e2, same_device e1 e2 = false).

(** The entry of the new one's device, if any, is not longer. *)
Definition unshadowed (es : list entry) (new : entry) : Prop :=
  ∀ e, e ∈ es → same_device e new = true → hasAccess (en_access e) = true →
    hasAccess (en_access new) = true.

(** No entry of another device (a wildcard) decides the request. *)
Definition clear (es : list entry) (new : entry) (q : Ebpf.Request) : Prop :=
  ∀ e, e ∈ es → same_device e new = false → entry_decision e q = None.

Lemma same_device_iff e1 e2 :
  same_device e1 e2 = true ↔
    en_type e1 = en_type e2 ∧ Major (en_rule e1) = Major (en_rule e2) ∧
    Minor (en_rule e1) = Minor (en_rule e2) ∧ (0 ≤ Major (en_rule e1))%Z ∧ (0 ≤ Minor (en_rule e1))%Z.
Proof. unfold same_device. rewrite !andb_true_iff, !Z.eqb_eq, !Z.leb_le. tauto. Qed.

Lemma about_iff en q :
  about en q = true ↔ rq_type q = en_type en ∧ rq_major q = Major (en_rule en) ∧
    rq_minor q = Minor (en_rule en).
Proof. unfold about. rewrite !andb_true_iff, !Z.eqb_eq. tauto. Qed.

Lemma same_device_comm e1 e2 : same_device e1 e2 = same_device e2 e1.
Proof. apply eq_true_iff_eq. rewrite !same_device_iff. intuition congruence. Qed.

Lemma decision_about en q v :
  (0 ≤ Major (en_rule en))%Z → (0 ≤ Minor (en_rule en))%Z → entry_decision en q = Some v →
  about en q = true.
Proof.
  intros Hma Hmi. unfold entry_decision, rule_decision. destruct (covers _ _ _ _) eqn:Hc; [|done].
  intros _. unfold covers in Hc. apply about_iff. lia.
Qed.

(** An entry of the same device as one that is not about the request is silent. *)
Lemma silent e new q : same_device e new = true → about new q = false → entry_decision e q = None.
Proof.
  intros Hs Ha. destruct (entry_decision e q) as [v|] eqn:Hd; [|done].
  apply same_device_iff in Hs as (Ht & Hma & Hmi & H1 & H2).
  apply decision_about in Hd; [|done..]. apply about_iff in Hd.
  apply not_true_iff_false in Ha. destruct Ha. apply about_iff. intuition congruence.
Qed.

(** In a table without duplicates a new entry takes the place of the device's. *)
Lemma append_entry_cases new es :
  distinct es → unshadowed es new →
  (Forall (λ e, same_device e new = false) es ∧ append_entry new es = es ++ [new]) ∨
  ∃ l1 old l2, es = l1 ++ old :: l2 ∧ same_device old new = true ∧
    Forall (λ e, same_device e new = false) l1 ∧ Forall (λ e, same_device e new = false) l2 ∧
    append_entry new es = l1 ++ new :: l2.
Proof.
  intros Hd Hu. unfold append_entry. destruct (upsert new es) as [es'|] eqn:Hes.
  - right. apply upsert_Some in Hes as (l1 & old & l2 & -> & Hs & Hl2 & ->).
    exists l1, old, l2. split; [done|]. split; [done|]. split; [|split; [done|]].
    + apply Forall_forall. intros e He. apply not_true_iff_false. intros Hen.
      assert (same_device e old = true) as Heo.
      { rewrite same_device_iff in *. intuition congruence. }
      clear -Hd He Heo. induction l1 as [|a l1 IH]; [set_solver|].
      inversion_clear Hd as [|? ? Ha Hd']. apply elem_of_cons in He as [->|He]; [|auto].
      rewrite Forall_forall in Ha. rewrite Ha in Heo; [done|]. set_solver.
    + cbn. destruct (hasAccess (en_access old)) eqn:Ho; [|done].
      rewrite (Hu old); [done | set_solver | done..].
  - left. split; [by apply upsert_None | done].
Qed.

(** Both lists of the cases, as one surgery. *)
Lemma append_entry_split new es :
  distinct es → unshadowed es new →
  ∃ l1 mid l2, es = l1 ++ mid ++ l2 ∧ append_entry new es = l1 ++ new :: l2 ∧
    Forall (λ e, same_device e new = true) mid ∧ (length mid ≤ 1)%nat ∧
    Forall (λ e, same_device e new = false) (l1 ++ l2).
Proof.
  intros Hd Hu. destruct (append_entry_cases new es Hd Hu) as [[Hf ->]|(l1 & old & l2 & -> & Hs & H1 & H2 & ->)].
  - exists es, [], []. rewrite !app_nil_r. split_and!; auto using Forall_nil_2; simpl; lia.
  - exists l1, [old], l2. rewrite Forall_app. split_and!; auto; simpl; lia.
Qed.

Lemma distinct_app l1 l2 :
  distinct (l1 ++ l2) ↔ distinct l1 ∧ distinct l2 ∧
    ∀ e1 e2, e1 ∈ l1 → e2 ∈ l2 → same_device e1 e2 = false.
Proof.
  unfold distinct. induction l1 as [|a l1 IH]; simpl.
  - split; [|by intros (_ & ? & _)]. intros Hl. split; [constructor|]. split; [done|].
    intros e1 e2 He. by apply elem_of_nil in He.
  - split.
    + inversion_clear 1 as [|? ? Ha Hr]. apply IH in Hr as (H1 & H2 & H12).
      apply Forall_app in Ha as [Ha1 Ha2]. rewrite Forall_forall in Ha2.
      split_and!; [by constructor|done|]. intros e1 e2 [->|?]%elem_of_cons; auto.
    + intros (Hal & H2 & H12). inversion_clear Hal as [|? ? Ha H1]. constructor.
      * apply Forall_app. split; [done|]. apply Forall_forall. intros e He. apply H12; [by left | done].
      * apply IH. split_and!; [done..|]. intros e1 e2 ??. apply H12; [by right | done].
Qed.

Lemma append_entry_distinct new es : distinct es → unshadowed es new → distinct (append_entry new es).
Proof.
  intros Hd Hu. destruct (append_entry_split new es Hd Hu) as (l1 & mid & l2 & -> & -> & _ & _ & Hf).
  apply distinct_app in Hd as (H1 & (_ & H2 & _)%distinct_app & H12).
  rewrite Forall_app, !Forall_forall in Hf. destruct Hf as [Hf1 Hf2].
  apply distinct_app. split; [done|]. split.
  - constructor; [|done]. apply Forall_forall. intros e He. rewrite same_device_comm. by apply Hf2.
  - intros e1 e2 He1 [->|He2]%elem_of_cons; [by apply Hf1|]. apply H12; set_solver.
Qed.

Lemma append_entry_elem new es e :
  distinct es → unshadowed es new → e ∈ append_entry new es → e = new ∨ e ∈ es.
Proof.
  intros Hd Hu. destruct (append_entry_split new es Hd Hu) as (l1 & mid & l2 & -> & -> & _). set_solver.
Qed.

(** ** Verdicts *)

Section Verdict.
Context (f0 : Ebpf.Request → option Z) (q : Ebpf.Request).

Definition verdict (es : list entry) : Z := first_verdict (f0 :: map entry_decision es) 0 q.

Lemma verdict_skip l es :
  (∀ e, e ∈ l → entry_decision e q = None) →
  first_verdict (map entry_decision (l ++ es)) 0 q = first_verdict (map entry_decision es) 0 q.
Proof.
  induction l as [|e l IH]; intros Hl; simpl; [done|]. rewrite (Hl e) by left. apply IH. set_solver.
Qed.

(** Another device keeps its verdict. *)
Lemma append_entry_other new es :
  distinct es → unshadowed es new → concrete (en_rule new) → about new q = false →
  verdict (append_entry new es) = verdict es.
Proof.
  intros Hd Hu Hc Ha. destruct (append_entry_split new es Hd Hu) as (l1 & mid & l2 & -> & -> & Hm & _).
  assert (entry_decision new q = None) as Hnew.
  { destruct (entry_decision new q) as [v|] eqn:Hv; [|done].
    apply decision_about in Hv; [congruence | apply Hc..]. }
  unfold verdict. simpl. destruct (f0 q); [done|]. rewrite !map_app, !first_verdict_app.
  f_equal. simpl. rewrite Hnew, <- first_verdict_app, <- map_app. symmetry. apply verdict_skip.
  intros e He. rewrite Forall_forall in Hm. by eapply silent; [apply Hm|].
Qed.

(** A request that the new entry covers gets its verdict. *)
Lemma append_entry_covered new es v :
  distinct es → unshadowed es new → f0 q = None → clear es new q → entry_decision new q = Some v →
  verdict (append_entry new es) = v.
Proof.
  intros Hd Hu Hf Hcl Hv. destruct (append_entry_split new es Hd Hu) as (l1 & mid & l2 & -> & -> & _ & _ & Ho).
  unfold verdict. simpl. rewrite Hf, verdict_skip; [simpl; by rewrite Hv|].
  intros e He. rewrite Forall_app, Forall_forall in Ho. apply Hcl; [set_solver | by apply Ho].
Qed.

End Verdict.

(** ** A list of rules *)

(** The table after new entries, one after the other. *)
Definition after (es news : list entry) : list entry := foldl (λ es new, append_entry new es) es news.

Definition fits (es news : list entry) : Prop :=
  distinct es ∧ distinct news ∧ Forall (unshadowed es) news ∧ Forall (λ new, concrete (en_rule new)) news.

Lemma fits_cons es new news :
  fits es (new :: news) →
  distinct es ∧ unshadowed es new ∧ concrete (en_rule new) ∧ fits (append_entry new es) news.
Proof.
  intros (Hd & Hdn & [Hu Hus]%Forall_cons & [Hc Hcs]%Forall_cons).
  inversion_clear Hdn as [|? ? Hn Hdn']. split_and!; try done. split_and!; try done.
  - by apply append_entry_distinct.
  - rewrite Forall_forall in *. intros new' Hin e He Hs.
    destruct (append_entry_elem new es e Hd Hu He) as [->|He']; [|by apply (Hus new' Hin e He')].
    rewrite Hn in Hs; [done|]. done.
Qed.

Lemma after_other f0 q es news :
  fits es news → Forall (λ new, about new q = false) news → verdict f0 q (after es news) = verdict f0 q es.
Proof.
  revert es. induction news as [|new news IH]; intros es Hf Ha; simpl; [done|].
  apply fits_cons in Hf as (Hd & Hu & Hc & Hf). apply Forall_cons in Ha as [Ha Has].
  change (verdict f0 q (after (append_entry new es) news) = verdict f0 q es).
  rewrite IH by done. by apply append_entry_other.
Qed.

Lemma after_covered f0 q es news new v :
  fits es news → new ∈ news → f0 q = None → clear es new q → entry_decision new q = Some v →
  verdict f0 q (after es news) = v.
Proof.
  intros Hf Hin Hf0 Hcl Hv. revert es Hf Hcl.
  induction news as [|n news IH]; intros es Hf Hcl; [set_solver|].
  pose proof Hf as (_ & Hdn & _ & Hcn). inversion_clear Hdn as [|? ? Hn _].
  rewrite Forall_forall in Hn, Hcn. apply fits_cons in Hf as (Hd & Hu & Hc & Hf).
  change (verdict f0 q (after (append_entry n es) news) = v).
  assert (about new q = true) as Hab by (eapply decision_about; [apply Hcn; set_solver.. | exact Hv]).
  apply elem_of_cons in Hin as [<-|Hin].
  - rewrite after_other; [by apply append_entry_covered | done |].
    apply Forall_forall. intros n' Hn'. apply not_true_iff_false. intros Ha.
    specialize (Hn n' Hn'). apply not_true_iff_false in Hn. destruct Hn. apply same_device_iff.
    apply about_iff in Hab, Ha. destruct Hc as [? ?]. intuition (congruence || lia).
  - apply IH; [done..|]. intros e He Hs.
    destruct (append_entry_elem n es e Hd Hu He) as [->|He']; [|by apply Hcl].
    destruct (entry_decision n q) as [v'|] eqn:Hd'; [|done].
    apply decision_about in Hd'; [|apply Hc..]. exfalso.
    specialize (Hn new Hin). apply not_true_iff_false in Hn. destruct Hn. apply same_device_iff.
    apply about_iff in Hab, Hd'. destruct Hc as [? ?]. intuition (congruence || lia).
Qed.

(** ** Editing the attached program *)

(** The program is one the editor works on: a first group with the prologue, too
    long to be taken for a device block, and a table without duplicates. *)
Definition table (g0 : Instructions) (es : list entry) : Prop :=
  closed_group g0 ∧ (8 < length g0)%nat ∧ Forall entry_wf es ∧ distinct es.

Definition entries_of (rules : list Rule) (news : list entry) : Prop :=
  Forall2 (λ rule new, rule_entry rule = Ok new) rules news.

Lemma filter_program_shown g0 es : shown (filter_program g0 es) = filter_program g0 es.
Proof. apply shown_idemp. Qed.

Lemma AppendRules_table insts g0 es rules insts' :
  edits insts g0 es → Forall concrete rules → AppendRules insts (map Some rules) = Ok insts' →
  ∃ news, entries_of rules news ∧ edits insts' g0 (after es news).
Proof.
  revert insts es. induction rules as [|rule rules IH]; intros insts es He Hc; cbn [map AppendRules].
  - intros [= <-]. exists []. by split; [constructor|].
  - apply Forall_cons in Hc as [[Hma Hmi] Hc]. destruct (rule_entry rule) as [new|err] eqn:Hnew.
    + destruct (AppendRule_edits _ _ _ _ _ He Hnew) as (i & -> & Hi); [lia..|]. cbn. intros Happ.
      destruct (IH _ _ Hi Hc Happ) as (news & Hn & He'). exists (new :: news). by split; [constructor|].
    + unfold rule_entry in Hnew. unfold AppendRule. destruct (rule_params rule) as [[bt acc]|]; done.
Qed.

Lemma filter_program_edits g0 es : table g0 es →
  ∃ insts, edits insts (shown g0) es ∧ filter_program g0 es = insts ++ [Mov_Imm32 R0 0; Return_].
Proof.
  intros (Hg & Hl & Hes & _). exists (shown (concat (g0 :: map entry_block es))). split.
  - by apply edits_read, edits_intro.
  - unfold filter_program. by rewrite shown_app, shown_default.
Qed.

Lemma edits_filter_program insts g0 es :
  edits insts (shown g0) es → shown (insts ++ [Mov_Imm32 R0 0; Return_]) = filter_program g0 es.
Proof.
  intros He. unfold filter_program. rewrite !(shown_app _ [_; _]), (edits_shown _ _ _ He). cbn [concat].
  by rewrite !shown_app, shown_idemp.
Qed.

(** The editor on a table, whose program differs from the new table's only in
    what the kernel does not keep. *)
Lemma edit_table g0 es rules final :
  table g0 es → Forall concrete rules →
  edit_instructions (Some (filter_program g0 es)) (map Some rules) = Returns (Ok final) →
  ∃ news, entries_of rules news ∧ shown final = filter_program g0 (after es news).
Proof.
  intros Ht Hc. destruct (filter_program_edits g0 es Ht) as (insts & He & ->).
  unfold edit_instructions. rewrite (edits_Load _ _ _ _ He). cbn.
  destruct (AppendRules insts (map Some rules)) as [insts'|] eqn:Happ; [|done].
  destruct (AppendRules_table _ _ _ _ _ He Hc Happ) as (news & Hn & He').
  rewrite (edits_Finalize _ _ _ He'). intros [= <-]. exists news. split; [done|].
  by apply edits_filter_program.
Qed.

(** The kernel runs a program of the editor. *)
Lemma exec_filter_program other pre g0 f0 es q r :
  closed_group g0 → (8 < length g0)%nat → Forall entry_wf es → decides other pre g0 f0 →
  valid_request q → pre q r → exec other (filter_program g0 es) 0 r = Some (verdict f0 q es).
Proof.
  intros Hg Hl Hes Hd Hv Hr. unfold filter_program. rewrite (exec_shown _ _ _ _ _ (shown_idemp _)).
  by apply (edits_verdict other pre _ g0 f0 es 0 q r (edits_intro g0 es Hg Hl Hes)).
Qed.

Lemma after_wf es rules news :
  Forall entry_wf es → Forall concrete rules → entries_of rules news → Forall entry_wf (after es news).
Proof.
  intros Hes Hc Hn. revert es Hes. induction Hn as [|rule new rules news Hnew _ IH]; intros es Hes; [done|].
  apply Forall_cons in Hc as [[Hma Hmi] Hc]. apply (IH Hc), append_entry_wf; [|done].
  eapply rule_entry_wf; [done|lia..].
Qed.

Lemma entries_concrete rules news :
  Forall concrete rules → entries_of rules news → Forall (λ new, concrete (en_rule new)) news.
Proof.
  intros Hc Hn. induction Hn as [|rule new rules news Hnew _ IH]; [constructor|].
  apply Forall_cons in Hc as [Hr Hc]. apply rule_entry_inv in Hnew as [_ <-]. constructor; auto.
Qed.

(** ** The effect of a rule change *)

(** What a rule change does to a table and to the kernel's answers. *)
Definition table_changed (rules : list Rule) (g0 : Instructions) (es : list entry)
    (current final : Instructions) : Prop :=
  ∃ news, entries_of rules news ∧ shown final = filter_program g0 (after es news) ∧
    (distinct news → Forall (unshadowed es) news →
     ∀ other pre f0 q regs, decides other pre g0 f0 → valid_request q → pre q regs →
       (Forall (λ new, about new q = false) news →
        exec other final 0 regs = exec other current 0 regs) ∧
       ∀ new, new ∈ news → covers (en_type new) (en_access new) (en_rule new) q = true →
         f0 q = None → clear es new q →
         exec other final 0 regs = Some (if Allow (en_rule new) then 1%Z else 0%Z)).

(** The editor's answer, as the kernel runs it. *)
Lemma edit_access current final rules :
  Forall concrete rules → edit_instructions (Some current) (map Some rules) = Returns (Ok final) →
  ∀ g0 es, table g0 es → current = filter_program g0 es → table_changed rules g0 es current final.
Proof.
  intros Hc Hed g0 es Ht ->. destruct (edit_table g0 es rules final Ht Hc Hed) as (news & Hn & Hfin).
  pose proof Ht as (Hg & Hl & Hes & Hd). exists news. split; [done|]. split; [done|].
  intros Hdn Hun other pre f0 q regs Hf0 Hv Hr.
  assert (fits es news) as Hf by (split_and!; eauto using entries_concrete).
  rewrite <- (exec_shown other (shown final) final) by apply shown_idemp. rewrite Hfin.
  rewrite !(exec_filter_program other pre g0 f0 _ q regs) by eauto using after_wf.
  split; [intros Ha; f_equal; by apply after_other|].
  intros new Hin Hcov Hq Hcl. f_equal. eapply after_covered; [done..|].
  unfold entry_decision, rule_decision. by rewrite Hcov.
Qed.

(** The calls of a rule change in the directory [dirPath] that is in force: the
    attached program was read and [final] put in its place. *)
Definition in_force (dirPath : string) (rules : list Rule) (t : trace) : Prop :=
  ∃ dirFD oldProg current final,
    Ev (UnixOpen dirPath) (SysOk dirFD) ∈ t ∧
    Ev (ProgInstructions oldProg) (Ok (Some current)) ∈ t ∧
    (current = final ∨
     (Forall (other_fd dirFD) t → Forall (fresh_prog oldProg) t →
      ∃ prog, Ev (NewProgram final "Apache") (Ok prog) ∈ t ∧ filters dirFD {[oldProg]} t = {[prog]})) ∧
    ∀ g0 es, table g0 es → current = filter_program g0 es → table_changed rules g0 es current final.

Lemma rule_change_in_force once dirPath r e h :
  SkipDevices r = false → canSkipEBPFError r = false → Forall concrete (Devices r) →
  wp e h (SetDeviceRulesByCgroupv2 once dirPath r) (λ o t, ∀ closedFd rollback,
    o = Returns (closedFd, rollback, None) → in_force dirPath (Devices r) t).
Proof.
  intros Hskip Hcan Hc. unfold SetDeviceRulesByCgroupv2. rewrite Hskip.
  wp_step. wp_step. destruct r0 as [dirFD|k err]; [|wp_step; intros ?? [=]].
  wp_step. eapply wp_mono; [|apply loadAttach_wp].
  intros [[rb err]|] t Ht; wp_step; [|intros ?? [=]].
  intros closedFd rollback. rewrite Hcan. destruct err as [err|]; [intros [=]|].
  intros _. destruct (Ht rb eq_refl) as (oldProg & [current|] & final & Hin & Hed & Hor).
  2:{ unfold edit_instructions in Hed. cbn in Hed. discriminate. }
  exists dirFD, oldProg, current, final. rewrite app_nil_r. cbn [app].
  split; [by left|]. split; [by right|]. split; [|by apply edit_access].
  destruct Hor as [[= ->]|Hor]; [by left | right]. intros Hfd Hfr.
  apply Forall_cons in Hfd as [_ Hfd]. apply Forall_cons in Hfr as [_ Hfr].
  destruct (Hor Hfd Hfr) as (prog & Hp & Hf). exists prog. split; [by right | done].
Qed.

(** C5. What a container may open after a rule change under cgroup v2 that was
    reported successful (the rules name devices by their numbers and at least
    one of them denies or lacks a mode). The change has read the attached
    program and put [final] into force in its place. If the attached program
    was a table of device entries with a default deny, [final] is that of the
    table with the rules' entries put in; if further no device occurs twice in
    the table or the rules and no entry of a rule's device is longer than the
    rule's, then the kernel decides requests for all other devices as before,
    and a request that a rule covers, and that neither the first group nor a
    wildcard of the table decides, is granted exactly if the rule allows. *)
Theorem rule_change_effect once dirPath r e h :
  SkipDevices r = false → canSkipEBPFError r = false → Forall concrete (Devices r) →
  wp e h (SetDeviceRulesByCgroupv2 once dirPath r) (λ o t, ∀ closedFd rollback,
    o = Returns (closedFd, rollback, None) →
    ∃ dirFD oldProg current final,
      Ev (UnixOpen dirPath) (SysOk dirFD) ∈ t ∧
      Ev (ProgInstructions oldProg) (Ok (Some current)) ∈ t ∧
      (current = final ∨
       (Forall (other_fd dirFD) t → Forall (fresh_prog oldProg) t →
        ∃ prog, Ev (NewProgram final "Apache") (Ok prog) ∈ t ∧ filters dirFD {[oldProg]} t = {[prog]})) ∧
      ∀ g0 es, table g0 es → current = filter_program g0 es →
        table_changed (Devices r) g0 es current final).
Proof. apply rule_change_in_force. Qed.

End Access.

(** ** Witness *)

(** Unmounting a device: the attached program grants it, the new one does not. *)
Lemma rule_change_effect_witness :
  let es := [mkEntry 2 6 (gpu_rule "rw" true)] in
  let r := mkResources false [gpu_rule "rw" false] in
  let current := filter_program runc_group es in
  let m := SetDeviceRulesByCgroupv2 (Some true) "/cg" r in
  let news := [mkEntry 2 6 (gpu_rule "rw" false)] in
  table runc_group es ∧ entries_of (Devices r) news ∧ distinct news ∧
  Forall (unshadowed es) news ∧ clear es (mkEntry 2 6 (gpu_rule "rw" false)) gpu_request ∧
  exec ctx_loads current 0 gpu_regs = Some 1%Z ∧
  (∃ c rb, (run (v2_env current) [] m).1 = Returns (c, rb, None)) ∧
  wp (v2_env current) [] m (λ o t, ∀ closedFd rollback, o = Returns (closedFd, rollback, None) →
    ∃ dirFD oldProg current final,
      Ev (UnixOpen "/cg") (SysOk dirFD) ∈ t ∧
      Ev (ProgInstructions oldProg) (Ok (Some current)) ∈ t ∧
      (current = final ∨
       (Forall (other_fd dirFD) t → Forall (fresh_prog oldProg) t →
        ∃ prog, Ev (NewProgram final "Apache") (Ok prog) ∈ t ∧ filters dirFD {[oldProg]} t = {[prog]})) ∧
      ∀ g0 es, table g0 es → current = filter_program g0 es →
        table_changed (Devices r) g0 es current final).
Proof.
  cbn zeta. split.
  { split; [apply runc_group_closed|]. split; [simpl; lia|]. split.
    - repeat constructor; simpl; lia.
    - repeat constructor. }
  split; [repeat constructor|]. split; [repeat constructor|].
  split.
  { constructor; [|constructor]. intros e He%list_elem_of_singleton. by subst e. }
  split; [intros e He%list_elem_of_singleton; by subst e|].
  split; [vm_compute; reflexivity|].
  split; [do 2 eexists; vm_compute; reflexivity|].
  apply (rule_change_effect (Some true) "/cg" (mkResources false [gpu_rule "rw" false])).
  - reflexivity.
  - reflexivity.
  - repeat constructor; vm_compute; done.
Defined.
