(* ===== verification/Interleaving.v ===== *)
(** * Interleaving

    Programs that run at the same time on a shared state: a pool of threads that
    arrive at any time and take turns call by call ([Pool]), and a way to reason
    about one thread while the others do anything that the threads guarantee
    ([Thread]). [EffectOrder] puts the threads' effects in an order that agrees
    with real time. *)
From Stdlib Require Import Lia.
From stdpp Require Import base gmap list relations.
From S2P Require Import Prelude.

(** ** A pool of threads *)

(** A thread that has arrived: those that had finished by then, and what it has
    left to do. *)
Record running {cmd : Type} (reply : cmd → Type) (A : Type) := mkRunning {
  done_before : gset nat;
  rest : prog reply A }.
Arguments mkRunning {cmd reply A}.
Arguments done_before {cmd reply A}.
Arguments rest {cmd reply A}.

Section Pool.
Context {cmd : Type} {reply : cmd → Type} {S : Type}.
Context (respond : S → ∀ c, reply c → S → Prop).

Definition is_done {A} (t : running reply A) : bool := match rest t with Done _ => true | Vis _ _ => false end.

Definition finished_threads {A} (ts : list (running reply A)) : gset nat :=
  list_to_set (filter (λ i, is_done <$> ts !! i = Some true) (seq 0 (length ts))).

(** The next of the programs [reqs] arrives, or a thread makes its next call and
    the shared state answers. *)
Inductive pool_step {A} (reqs : list (prog reply A)) : relation (list (running reply A) * S) :=
  | pool_arrive ts s p :
      reqs !! length ts = Some p →
      pool_step reqs (ts, s) (ts ++ [mkRunning (finished_threads ts) p], s)
  | pool_call ts s i d c k r s' :
      ts !! i = Some (mkRunning d (Vis c k)) → respond s c r s' →
      pool_step reqs (ts, s) (<[i := mkRunning d (k r)]> ts, s').

Lemma finished_threads_elem {A} (ts : list (running reply A)) i :
  i ∈ finished_threads ts ↔ ∃ d a, ts !! i = Some (mkRunning d (Done a)).
Proof.
  unfold finished_threads. rewrite elem_of_list_to_set, list_elem_of_filter, elem_of_seq. split.
  - intros [Hi _]. destruct (ts !! i) as [[d [a|c k]]|]; [|done..]. by exists d, a.
  - intros (d & a & Hi). rewrite Hi. split; [done|]. apply lookup_lt_Some in Hi. lia.
Qed.

(** ** One thread among others *)

Section Thread.
Context (inv : S → Prop) (rely : relation S).

(** The thread from [s] on: between its calls the state changes by [rely]; each
    of its calls keeps [inv] and stays within [rely], and either does not
    [take] effect, or does, for the first time. At the end [Q] holds of the
    result, of whether the thread has taken effect, and of the state. *)
Context (stays takes : relation S).

Fixpoint thread {A} (p : prog reply A) (taken : bool) (s : S) (Q : A → bool → S → Prop) : Prop :=
  match p with
  | Done a => Q a taken s
  | Vis c k => ∀ s1 r s2, rely s s1 → inv s1 → respond s1 c r s2 →
      inv s2 ∧ rely s1 s2 ∧
      ((stays s1 s2 ∧ thread (k r) taken s2 Q) ∨
       (taken = false ∧ takes s1 s2 ∧ thread (k r) true s2 Q))
  end.

Context `{!Transitive rely}.

Lemma thread_bind {A B} (f : A → prog reply B) p taken s (Q : B → bool → S → Prop) :
  thread p taken s (λ a t s', thread (f a) t s' Q) → thread (prog_bind_fix f p) taken s Q.
Proof.
  revert taken s. induction p as [a|c k IH]; intros taken s; simpl; [done|].
  intros Hp s1 r s2 Hr Hi Hs. destruct (Hp s1 r s2 Hr Hi Hs) as (? & ? & Hor).
  split; [done|]. split; [done|]. destruct Hor as [[??]|(?&?&?)]; [left|right]; auto.
Qed.

Lemma thread_mono {A} (p : prog reply A) taken s (Q Q' : A → bool → S → Prop) :
  (∀ a t s', Q a t s' → Q' a t s') → thread p taken s Q → thread p taken s Q'.
Proof.
  intros HQ. revert taken s. induction p as [a|c k IH]; intros taken s; simpl; [auto|].
  intros Hp s1 r s2 Hr Hi Hs. destruct (Hp s1 r s2 Hr Hi Hs) as (? & ? & Hor).
  split; [done|]. split; [done|]. destruct Hor as [[??]|(?&?&?)]; [left|right]; auto.
Qed.

(** What the others do does not matter. *)
Lemma thread_rely {A} (p : prog reply A) taken s s' (Q : A → bool → S → Prop) :
  (∀ a s1 s2, rely s1 s2 → Q a taken s1 → Q a taken s2) → rely s s' →
  thread p taken s Q → thread p taken s' Q.
Proof.
  intros HQ Hs. destruct p as [a|c k]; simpl; [eauto|].
  intros Hp s1 r s2 Hr. apply Hp. by transitivity s'.
Qed.

(** A single call that takes no effect. *)
Lemma thread_call {A} c (k : reply c → prog reply A) taken s (Q : A → bool → S → Prop) :
  (∀ s1 r s2, rely s s1 → inv s1 → respond s1 c r s2 →
     inv s2 ∧ rely s1 s2 ∧ stays s1 s2 ∧ (rely s s2 → thread (k r) taken s2 Q)) →
  thread (Vis c k) taken s Q.
Proof.
  intros Hc s1 r s2 Hr Hi Hs. destruct (Hc s1 r s2 Hr Hi Hs) as (? & Hr2 & ? & Hk).
  split; [done|]. split; [done|]. left. split; [done|]. apply Hk. by transitivity s1.
Qed.

End Thread.
End Pool.

(** ** The order of effects

    The state has a history of values, the last of them the current one. The
    effect of thread [i] appends a value, by [change i]. A thread that has
    finished has taken effect exactly if [success] says so, or its change would
    have changed nothing at some time while it ran. *)

Section Changes.
Context {V : Type} (change : nat → relation V).

Inductive changes : list nat → relation V :=
  | changes_nil v : changes [] v v
  | changes_cons i l v1 v2 v3 : change i v1 v2 → changes l v2 v3 → changes (i :: l) v1 v3.

Lemma changes_app l1 l2 v1 v3 :
  changes (l1 ++ l2) v1 v3 ↔ ∃ v2, changes l1 v1 v2 ∧ changes l2 v2 v3.
Proof.
  split.
  - revert v1. induction l1 as [|i l1 IH]; intros v1; simpl.
    + intros Hc. exists v1. split; [constructor|done].
    + inversion_clear 1 as [|? ? ? v ? Hi Hl]. destruct (IH _ Hl) as (v2 & ? & ?). exists v2.
      by split; [econstructor|].
  - intros (v2 & H1 & H2). induction H1; simpl; [done|]. econstructor; eauto.
Qed.

Lemma changes_idle l v : Forall (λ i, change i v v) l → changes l v v.
Proof. induction 1; econstructor; eauto. Qed.

(** The threads at the value number [n] of the history [h]: the one whose effect
    made it (nobody made the first), and then those that it left as it was. *)
Definition segment (h : list V) (n : nat) (seg : list nat) : Prop :=
  ∃ w, h !! n = Some w ∧
    match n with
    | 0 => Forall (λ i, change i w w) seg
    | S m => ∃ i l v, seg = i :: l ∧ h !! m = Some v ∧ change i v w ∧ Forall (λ i, change i w w) l
    end.

Definition segments (h : list V) (segs : list (list nat)) : Prop :=
  length segs = length h ∧ ∀ n seg, segs !! n = Some seg → segment h n seg.

Lemma segments_changes h segs v0 n v :
  segments h segs → h !! 0 = Some v0 → h !! n = Some v → changes (concat (take (S n) segs)) v0 v.
Proof.
  intros [Hlen Hsegs] Hv0. revert v. induction n as [|n IH]; intros v Hv.
  - destruct segs as [|seg segs]; [by destruct h|]. simpl. rewrite app_nil_r.
    destruct (Hsegs 0 seg eq_refl) as (w & Hw & Hall). simplify_eq. by apply changes_idle.
  - destruct (lookup_lt_is_Some_2 segs (S n)) as [seg Hseg]; [rewrite Hlen; by eapply lookup_lt_Some|].
    rewrite (take_S_r _ _ _ Hseg), concat_app. simpl. rewrite app_nil_r. apply changes_app.
    destruct (Hsegs _ _ Hseg) as (w & Hw & i & l & u & -> & Hu & Hi & Hl). simplify_eq.
    exists u. split; [by apply IH|]. econstructor; [done|]. by apply changes_idle.
Qed.

(** A new value. *)
Lemma segments_snoc h segs i v w :
  segments h segs → last h = Some v → change i v w → segments (h ++ [w]) (segs ++ [[i]]).
Proof.
  intros [Hlen Hsegs] Hv Hi. split; [by rewrite !length_app, Hlen|]. intros n seg Hseg.
  apply lookup_app_Some in Hseg as [Hseg|[Hn Hseg]].
  - destruct (Hsegs _ _ Hseg) as (u & Hu & Hn). exists u. split; [by apply lookup_app_l_Some|].
    destruct n as [|n]; [done|]. destruct Hn as (j & l & u' & -> & Hu' & ?). exists j, l, u'.
    split; [done|]. split; [by apply lookup_app_l_Some|done].
  - apply list_lookup_singleton_Some in Hseg as [Hz <-]. rewrite Hlen in *.
    rewrite last_lookup in Hv. destruct (length h) as [|m] eqn:Hm; [by destruct h|]. simpl in Hv.
    replace n with (S m) by lia. exists w. split; [apply list_lookup_middle; lia|].
    exists i, [], v. split; [done|]. split; [by apply lookup_app_l_Some|done].
Qed.

(** Thread [i] finds nothing to change at the value number [n]. *)
Lemma segments_insert h segs n i v :
  segments h segs → h !! n = Some v → change i v v → segments h (alter (λ seg, seg ++ [i]) n segs).
Proof.
  intros [Hlen Hsegs] Hv Hi. split; [by rewrite length_alter|]. intros m seg Hseg.
  destruct (decide (m = n)) as [->|Hne]; [|rewrite list_lookup_alter_ne in Hseg by done; auto].
  rewrite list_lookup_alter_eq in Hseg. apply fmap_Some in Hseg as (seg' & Hseg & ->).
  destruct (Hsegs _ _ Hseg) as (w & Hw & Hn). simplify_eq. exists v. split; [done|]. destruct n as [|n].
  - by apply Forall_app; split; [|apply Forall_singleton].
  - destruct Hn as (j & l & u & -> & ? & ? & ?). exists j, (l ++ [i]), u. do 3 (split; [done|]).
    by apply Forall_app; split; [|apply Forall_singleton].
Qed.

End Changes.

Lemma concat_alter_snoc {A} (segs : list (list A)) n (a : A) :
  n < length segs →
  concat (alter (λ seg, seg ++ [a]) n segs) =
    concat (take (S n) segs) ++ a :: concat (drop (S n) segs).
Proof.
  revert n. induction segs as [|seg segs IH]; intros n Hn; simpl in Hn; [lia|].
  destruct n as [|n]; simpl; [by rewrite app_nil_r, <- app_assoc|].
  rewrite <- app_assoc. f_equal. apply IH. lia.
Qed.

Lemma elem_of_take_concat {A} (segs : list (list A)) m n a :
  m ≤ n → a ∈ concat (take m segs) → a ∈ concat (take n segs).
Proof.
  intros Hmn. revert m n Hmn. induction segs as [|seg segs IH]; intros [|m] [|n] Hmn; simpl;
    rewrite ?elem_of_nil; try done; [lia|].
  rewrite !elem_of_app. intros [?|?]; [by left|right]. by apply (IH m n); [lia|].
Qed.

Lemma elem_of_take_alter {A} (segs : list (list A)) m n a b :
  a ∈ concat (take m segs) → a ∈ concat (take m (alter (λ seg, seg ++ [b]) n segs)).
Proof.
  revert m n. induction segs as [|seg segs IH]; intros [|m] [|n]; simpl; rewrite ?elem_of_nil; try done;
    rewrite !elem_of_app; naive_solver.
Qed.

(** [i] comes before [j] in the list. *)
Definition before (i j : nat) (l : list nat) : Prop := [i; j] `sublist_of` l.

Lemma before_middle i j l1 l2 : i ∈ l1 → before i j (l1 ++ j :: l2).
Proof.
  intros Hi. apply (sublist_app [i] l1 [j] (j :: l2)).
  - by apply singleton_sublist_l.
  - apply sublist_skip, sublist_nil_l.
Qed.

Lemma before_insert i j k l1 l2 : before i j (l1 ++ l2) → before i j (l1 ++ k :: l2).
Proof. unfold before. intros Hb. etrans; [exact Hb|]. by apply sublist_app; [|apply sublist_cons]. Qed.

Section EffectOrder.
Context {cmd : Type} {reply : cmd → Type} {St V A : Type}.
Context (respond : St → ∀ c, reply c → St → Prop) (inv : St → Prop) (rely : relation St).
Context (hist : St → list V) (change : nat → relation V) (success : A → Prop).
Context `{!Reflexive rely, !Transitive rely, !∀ a, Decision (success a)}.
Context (hist_rely : ∀ s s', rely s s' → hist s `prefix_of` hist s').

Definition stays (s s' : St) : Prop := hist s' = hist s.

Definition takes (i : nat) (s s' : St) : Prop :=
  ∃ v w, last (hist s) = Some v ∧ hist s' = hist s ++ [w] ∧ change i v w.

(** The change would have changed nothing, at the value number [k] or later. *)
Definition idle (i k : nat) (s : St) : Prop := ∃ n v, k ≤ n ∧ hist s !! n = Some v ∧ change i v v.

Definition finished (i k : nat) (a : A) (taken : bool) (s : St) : Prop :=
  if decide (success a) then taken = true ∨ idle i k s else taken = false.

(** Thread [i], which arrived when the value number [k] was the current one. *)
Definition in_order (i k : nat) (p : prog reply A) (taken : bool) (s : St) : Prop :=
  thread respond inv rely stays (takes i) p taken s (finished i k).

Lemma in_order_rely i k p taken s s' : rely s s' → in_order i k p taken s → in_order i k p taken s'.
Proof.
  intros Hs. apply thread_rely; [done| |done]. intros a s1 s2 Hr. unfold finished.
  case_decide; [|done]. intros [|(n & v & ? & Hv & ?)]; [by left|right]. exists n, v.
  split; [done|]. split; [|done]. by eapply prefix_lookup_Some, hist_rely.
Qed.

(** The threads of [segs] have taken effect, segment by segment, in the order in
    which the values of the state came about. A thread comes after those that had
    finished when it arrived. What thread [x] has returned is left open. *)
Record linearised (x : option nat) (ts : list (running reply A)) (s : St) (segs : list (list nat)) : Prop := {
  lin_inv : inv s;
  lin_once : NoDup (concat segs);
  lin_hist : segments change (hist s) segs;
  lin_bound i : i ∈ concat segs → i < length ts;
  lin_done i d a : x ≠ Some i → ts !! i = Some (mkRunning d (Done a)) → (i ∈ concat segs ↔ success a);
  lin_threads i d p : ts !! i = Some (mkRunning d p) →
    ∃ k, k < length (hist s) ∧ in_order i k p (bool_decide (i ∈ concat segs)) s ∧
      (∀ j, j ∈ d → j ∈ concat segs → j ∈ concat (take (S k) segs));
  lin_before i d p j : ts !! i = Some (mkRunning d p) → j ∈ d →
    (∃ d' a, ts !! j = Some (mkRunning d' (Done a))) ∧
    (j ∈ concat segs → i ∈ concat segs → before j i (concat segs)) }.

(** A thread arrives. *)
Lemma lin_arrive ts s segs p :
  linearised None ts s segs → hist s ≠ [] →
  in_order (length ts) (pred (length (hist s))) p false s →
  linearised (Some (length ts)) (ts ++ [mkRunning (finished_threads ts) p]) s segs.
Proof.
  intros [Hi Ho Hh Hb Hd Ht Hr] Hne Hp.
  assert (length ts ∉ concat segs) as Hnew by (intros ?%Hb; lia).
  assert (0 < length (hist s)) by (destruct (hist s); simpl; [done|lia]).
  split; try done.
  - intros i Hin. rewrite length_app. specialize (Hb i Hin). lia.
  - intros i d a Hx [Hts|[Hn Hts]]%lookup_app_Some; [by eapply Hd|].
    apply list_lookup_singleton_Some in Hts as [Hz _]. destruct Hx. f_equal. lia.
  - intros i d q [Hts|[Hn Hts]]%lookup_app_Some; [by eapply Ht|].
    apply list_lookup_singleton_Some in Hts as [Hz [= <- <-]].
    replace i with (length ts) by lia. exists (pred (length (hist s))). split; [lia|].
    split; [by rewrite bool_decide_eq_false_2|]. intros j _ Hj.
    rewrite take_ge; [done|]. destruct Hh as [-> _]. lia.
  - intros i d q j [Hts|[Hn Hts]]%lookup_app_Some Hj.
    + destruct (Hr i d q j Hts Hj) as [(d' & a & Hdone) ?]. split; [|done].
      exists d', a. by apply lookup_app_l_Some.
    + apply list_lookup_singleton_Some in Hts as [Hz [= <- <-]].
      apply finished_threads_elem in Hj as (d' & a & Hj). split.
      * exists d', a. by apply lookup_app_l_Some.
      * intros _. by replace i with (length ts) by lia.
Qed.

(** A thread that still runs had not finished when another arrived. *)
Lemma lin_busy x ts s segs i d c k j d' p :
  linearised x ts s segs → ts !! i = Some (mkRunning d (Vis c k)) → ts !! j = Some (mkRunning d' p) → i ∉ d'.
Proof.
  intros Hlin Hi Hj Hin. destruct (lin_before _ _ _ _ Hlin j d' p i Hj Hin) as [(? & ? & ?) _]. congruence.
Qed.

(** Those that had finished stay so when another goes on. *)
Lemma lin_still x ts s segs i d c k t j d' p j' :
  linearised x ts s segs → ts !! i = Some (mkRunning d (Vis c k)) → ts !! j = Some (mkRunning d' p) → j' ∈ d' →
  j' ≠ i ∧ ∃ d0 a, <[i := t]> ts !! j' = Some (mkRunning d0 (Done a)).
Proof.
  intros Hlin Hi Hj Hin. destruct (lin_before _ _ _ _ Hlin j d' p j' Hj Hin) as [(d0 & a & Hj') _].
  assert (j' ≠ i) by congruence. split; [done|]. exists d0, a. by rewrite list_lookup_insert_ne.
Qed.

(** A call without an effect. *)
Lemma lin_stay ts s segs i d c k k0 p s' :
  linearised None ts s segs → ts !! i = Some (mkRunning d (Vis c k)) →
  inv s' → rely s s' → stays s s' → k0 < length (hist s) →
  in_order i k0 p (bool_decide (i ∈ concat segs)) s' →
  (∀ j, j ∈ d → j ∈ concat segs → j ∈ concat (take (S k0) segs)) →
  linearised (Some i) (<[i := mkRunning d p]> ts) s' segs.
Proof.
  intros Hlin Hts Hi' Hrely Hstay Hk0 Hp Hd0. pose proof Hlin as [Hi Ho Hh Hb Hd Ht Hr].
  unfold stays in Hstay. split; rewrite ?Hstay; try done.
  - intros j. rewrite length_insert. apply Hb.
  - intros j d' a Hne. rewrite list_lookup_insert_ne by congruence. by apply Hd.
  - intros j d' q [(<- & [= <- <-] & _)|[Hne Hj]]%list_lookup_insert_Some; [by exists k0|].
    destruct (Ht j d' q Hj) as (k1 & ? & ? & ?). exists k1. split; [done|]. split; [|done].
    by eapply in_order_rely.
  - intros j d' q j' [(<- & [= <- <-] & _)|[Hne Hj]]%list_lookup_insert_Some Hj'.
    + split; [by eapply lin_still|]. by apply (Hr i d _ j' Hts).
    + split; [by eapply lin_still|]. by apply (Hr j d' q j').
Qed.

(** A call that takes effect. *)
Lemma lin_take ts s segs i d c k k0 p s' :
  linearised None ts s segs → ts !! i = Some (mkRunning d (Vis c k)) →
  inv s' → rely s s' → takes i s s' → i ∉ concat segs → k0 < length (hist s) →
  in_order i k0 p true s' →
  (∀ j, j ∈ d → j ∈ concat segs → j ∈ concat (take (S k0) segs)) →
  linearised (Some i) (<[i := mkRunning d p]> ts) s' (segs ++ [[i]]).
Proof.
  intros Hlin Hts Hi' Hrely (v & w & Hv & Hh' & Hch) Hnot Hk0 Hp Hd0. pose proof Hlin as [Hi Ho Hh Hb Hd Ht Hr].
  assert (concat (segs ++ [[i]]) = concat segs ++ [i]) as Hcat by by rewrite concat_app.
  assert (∀ j, j ≠ i → j ∈ concat (segs ++ [[i]]) ↔ j ∈ concat segs) as Helem.
  { intros j Hne. rewrite Hcat, elem_of_app, list_elem_of_singleton. naive_solver. }
  assert (∀ m, m < length (hist s) → take (S m) (segs ++ [[i]]) = take (S m) segs) as Htake.
  { intros m Hm. apply take_app_le. destruct Hh as [-> _]. lia. }
  split; rewrite ?Hh'; try done.
  - rewrite Hcat. apply NoDup_app. split; [done|]. split; [|apply NoDup_singleton]. intros j Hj.
    rewrite list_elem_of_singleton. by intros ->.
  - by eapply segments_snoc.
  - intros j. rewrite length_insert, Hcat, elem_of_app, list_elem_of_singleton.
    intros [?| ->]; [auto|]. by eapply lookup_lt_Some.
  - intros j d' a Hne. rewrite list_lookup_insert_ne by congruence. rewrite Helem by congruence. by apply Hd.
  - intros j d' q [(<- & [= <- <-] & _)|[Hne Hj]]%list_lookup_insert_Some.
    + exists k0. rewrite length_app, Htake by done. split; [lia|]. split.
      { rewrite bool_decide_eq_true_2; [done|]. rewrite Hcat. set_solver. }
      intros j Hj. rewrite Helem; [auto|]. intros ->. by eapply lin_busy.
    + destruct (Ht j d' q Hj) as (k1 & ? & ? & Hk1). exists k1. rewrite length_app, Htake by done.
      split; [lia|]. split.
      { rewrite (bool_decide_ext _ (j ∈ concat segs)) by auto. by eapply in_order_rely. }
      intros j' Hj'. rewrite Helem; [auto|]. intros ->. by eapply (lin_busy _ _ _ _ i).
  - intros j d' q j' [(<- & [= <- <-] & _)|[Hne Hj]]%list_lookup_insert_Some Hj'.
    + destruct (lin_still _ _ _ _ _ _ _ _ (mkRunning d p) i d _ j' Hlin Hts Hts Hj') as [? ?].
      split; [done|]. rewrite Helem by done. intros Hj _. rewrite Hcat. by apply (before_middle j' i _ []).
    + destruct (lin_still _ _ _ _ _ _ _ _ (mkRunning d p) j d' q j' Hlin Hts Hj Hj') as [? ?].
      split; [done|]. rewrite !Helem by done. intros ? ?. rewrite Hcat.
      unfold before. apply sublist_inserts_r. by apply (Hr j d' q j' Hj Hj').
Qed.

(** A thread makes a call. *)
Lemma lin_call ts s segs i d c k r s' :
  linearised None ts s segs → ts !! i = Some (mkRunning d (Vis c k)) → respond s c r s' →
  rely s s' ∧ ∃ segs', linearised (Some i) (<[i := mkRunning d (k r)]> ts) s' segs'.
Proof.
  intros Hlin Hts Hs. destruct (lin_threads _ _ _ _ Hlin i d _ Hts) as (k0 & Hk0 & Hin & Hd0).
  destruct (Hin s r s' (reflexivity s) (lin_inv _ _ _ _ Hlin) Hs) as (Hi' & Hrely & Hor). split; [done|].
  destruct Hor as [[Hstay Hk]|(Hnot & Htake & Hk)].
  - exists segs. by eapply lin_stay.
  - apply bool_decide_eq_false in Hnot. exists (segs ++ [[i]]). by eapply lin_take.
Qed.

(** Thread [i] gets its place in the segment number [n]. *)
Lemma lin_insert ts s segs i d a n v :
  linearised (Some i) ts s segs → ts !! i = Some (mkRunning d (Done a)) → success a → i ∉ concat segs →
  (∀ j d p, ts !! j = Some (mkRunning d p) → i ∉ d) →
  hist s !! n = Some v → change i v v →
  (∀ j, j ∈ d → j ∈ concat segs → j ∈ concat (take (S n) segs)) →
  linearised None ts s (alter (λ seg, seg ++ [i]) n segs).
Proof.
  intros [Hi Ho Hh Hb Hd Ht Hr] Hts Hs Hel Hother Hn Hch Hd0.
  assert (n < length segs) as Hlen by (destruct Hh as [-> _]; by eapply lookup_lt_Some).
  pose proof (concat_alter_snoc segs n i Hlen) as Hcat.
  assert (concat (take (S n) segs) ++ concat (drop (S n) segs) = concat segs) as Hold
    by by rewrite <- concat_app, take_drop.
  assert (concat (alter (λ seg, seg ++ [i]) n segs) ≡ₚ i :: concat segs) as Hperm
    by by rewrite Hcat, <- Hold, Permutation_middle.
  assert (∀ j, j ≠ i → j ∈ concat (alter (λ seg, seg ++ [i]) n segs) ↔ j ∈ concat segs) as Helem.
  { intros j Hne. rewrite Hperm, elem_of_cons. naive_solver. }
  split; try done.
  - rewrite Hperm. by apply NoDup_cons.
  - by eapply segments_insert.
  - intros j. rewrite Hperm. intros [->|?]%elem_of_cons; [|auto]. by eapply lookup_lt_Some.
  - intros j d' a' _ Hj. destruct (decide (j = i)) as [->|Hne].
    + rewrite Hts in Hj. injection Hj as <- <-. rewrite Hperm. set_solver.
    + rewrite Helem by done. apply (Hd j d'); congruence.
  - intros j d' p Hj. destruct (Ht j d' p Hj) as (k1 & ? & Hp & Hk1). exists k1. split; [done|]. split.
    + destruct (decide (j = i)) as [->|Hne].
      * rewrite Hts in Hj. injection Hj as <- <-. rewrite bool_decide_eq_true_2 by (rewrite Hperm; by left).
        unfold in_order. simpl. unfold finished. rewrite decide_True by done. by left.
      * by rewrite (bool_decide_ext _ (j ∈ concat segs)) by auto.
    + intros j' Hj'. rewrite Helem by (intros ->; by apply (Hother j d' p)).
      intros ?. by apply elem_of_take_alter, Hk1.
  - intros j d' p j' Hj Hj'. destruct (Hr j d' p j' Hj Hj') as [Hdone Hbefore]. split; [done|].
    rewrite Helem by (intros ->; by apply (Hother j d' p)).
    intros Hin'. destruct (decide (j = i)) as [->|Hne].
    + rewrite Hcat. intros _. apply before_middle. rewrite Hts in Hj. injection Hj as <- <-. auto.
    + rewrite Helem by done. intros ?. rewrite Hcat. apply before_insert. rewrite Hold. auto.
Qed.

(** A thread that has succeeded without an effect gets a place in the order. *)
Lemma lin_settle ts s segs i :
  linearised (Some i) ts s segs → (∀ j d p, ts !! j = Some (mkRunning d p) → i ∉ d) →
  ∃ segs', linearised None ts s segs'.
Proof.
  intros Hlin Hother. pose proof Hlin as [Hi Ho Hh Hb Hd Ht Hr].
  assert ((∀ d a, ts !! i = Some (mkRunning d (Done a)) → (i ∈ concat segs ↔ success a)) →
    linearised None ts s segs) as Hsame.
  { intros Hsame. split; try done. intros j d a _. destruct (decide (j = i)) as [->|]; [eauto|].
    apply Hd. congruence. }
  destruct (ts !! i) as [[d [a|c k]]|] eqn:Hts; [|exists segs; by apply Hsame..].
  destruct (Ht i d _ Hts) as (k & Hk & Hin & Hd0). unfold in_order in Hin. simpl in Hin.
  unfold finished in Hin. destruct (decide (success a)) as [Hs|Hs].
  2:{ exists segs. apply Hsame. intros ? ? [= <- <-]. by apply bool_decide_eq_false in Hin. }
  destruct (decide (i ∈ concat segs)) as [Hel|Hel]; [exists segs; apply Hsame; by intros ? ? [= <- <-]|].
  rewrite bool_decide_eq_false_2 in Hin by done.
  destruct Hin as [|(n & v & Hkn & Hn & Hch)]; [done|]. eexists. eapply lin_insert; [done..|].
  intros j Hj Hin. apply (elem_of_take_concat _ (S k)); [lia|auto].
Qed.

(** An order of the threads that explains what they returned, and what became of
    the value [v0]. *)
Record serial (ts : list (running reply A)) (v0 v : V) (order : list nat) : Prop := {
  serial_once : NoDup order;
  serial_bound i : i ∈ order → i < length ts;
  serial_changes : changes change order v0 v;
  serial_success i d a : ts !! i = Some (mkRunning d (Done a)) → (i ∈ order ↔ success a);
  serial_real_time i d p j :
    ts !! i = Some (mkRunning d p) → j ∈ d → j ∈ order → i ∈ order → before j i order }.

(** One step of the pool. *)
Lemma lin_step reqs v0 ts s ts' s' segs :
  (∀ i p s, reqs !! i = Some p → inv s → in_order i (pred (length (hist s))) p false s) →
  linearised None ts s segs → hist s !! 0 = Some v0 → pool_step respond reqs (ts, s) (ts', s') →
  ∃ segs', linearised None ts' s' segs' ∧ hist s' !! 0 = Some v0.
Proof.
  intros Hreqs Hlin Hv0 Hstep. inversion Hstep as [? ? p Hp|? ? i d cm k r ? Hts Hs]; subst.
  - apply (lin_arrive _ _ _ p) in Hlin as Hlin'; [|by intros Hnil; rewrite Hnil in Hv0|apply Hreqs; [done|apply Hlin]].
    apply lin_settle in Hlin' as [segs' ?]; [by exists segs'|].
    intros j d q [Hj|[_ Hj]]%lookup_app_Some Hin.
    + destruct (lin_before _ _ _ _ Hlin j d q _ Hj Hin) as [(? & ? & ?%lookup_lt_Some) _]. lia.
    + apply list_lookup_singleton_Some in Hj as [_ [= <- <-]].
      apply finished_threads_elem in Hin as (? & ? & ?%lookup_lt_Some). lia.
  - destruct (lin_call _ _ _ _ _ _ _ _ _ Hlin Hts Hs) as (Hrely & segs' & Hlin').
    apply lin_settle in Hlin' as [segs'' ?].
    + exists segs''. split; [done|]. by eapply prefix_lookup_Some, hist_rely.
    + intros j d' q [(<- & [= <- <-] & _)|[_ Hj]]%list_lookup_insert_Some.
      * exact (lin_busy _ _ _ _ _ _ _ _ _ _ _ Hlin Hts Hts).
      * exact (lin_busy _ _ _ _ _ _ _ _ _ _ _ Hlin Hts Hj).
Qed.

(** However threads arrive and interleave, their effects are those of one order. *)
Lemma pool_serial reqs s v0 ts s' :
  inv s → hist s = [v0] →
  (∀ i p s, reqs !! i = Some p → inv s → in_order i (pred (length (hist s))) p false s) →
  rtc (pool_step respond reqs) ([], s) (ts, s') →
  ∃ v order, last (hist s') = Some v ∧ serial ts v0 v order ∧ inv s'.
Proof.
  intros Hi Hv Hreqs Hr.
  assert (∃ segs, linearised None [] s segs ∧ hist s !! 0 = Some v0) as Hstart.
  { exists [[]]. rewrite Hv. split; [|done]. split; try done.
    - constructor.
    - rewrite Hv. split; [done|]. intros [|n] seg; [|done]. intros [= <-]. exists v0. split; [done|]. constructor.
    - by intros i ?%elem_of_nil. }
  assert (∃ segs, linearised None ts s' segs ∧ hist s' !! 0 = Some v0) as (segs & [Hinv ? Hsegs ? ? ? Hbef] & Hv0).
  { clear Hi Hv. revert Hr Hstart. generalize (@nil (running reply A)) as ts0. intros ts0 Hr.
    remember (ts0, s) as c eqn:Hc. remember (ts, s') as c' eqn:Hc'. revert ts0 s Hc.
    induction Hr as [|? [ts1 s1] ? Hstep _ IH]; intros ts0 s0 -> (segs & Hlin & Hv0).
    - injection Hc' as -> ->. by exists segs.
    - eapply IH; [done|done|]. by eapply lin_step. }
  destruct (last (hist s')) as [v|] eqn:Hlast; [|apply last_None in Hlast; by rewrite Hlast in Hv0].
  exists v, (concat segs). split; [done|]. split; [|exact Hinv]. split; try done.
  - rewrite last_lookup in Hlast. pose proof (segments_changes _ _ _ _ _ _ Hsegs Hv0 Hlast) as Hch.
    rewrite take_ge in Hch; [done|]. destruct Hsegs as [-> _]. lia.
  - intros i d a Hts. eauto.
  - intros i d p j Hts Hj. by apply (Hbef i d p j).
Qed.

End EffectOrder.
