(* ===== verification/ConcurrentRules.v ===== *)
(** * Concurrent rule changes under cgroup v2

    Requests for the same container are served at the same time and nothing locks
    its cgroup. The kernel's part of [pkg/util/cgroupv2.go] as a state, the pool
    of [loadAttachCgroupDeviceFilter]s on it, and the order of their effects. *)
From Stdlib Require Import ZArith Lia.
From stdpp Require Import base gmap strings list sets relations.
From S2P Require Import Prelude GoStrings Api Ebpf EbpfFacts World Util Cgroup CgroupV2 Interleaving.

(** ** The kernel *)

(** The programs attached to the cgroup, all loaded programs and the descriptors
    of this process for them. [history] is what was attached, one program after
    another. *)
Record Kernel := mkKernel {
  attached : gset Z;
  loaded : gmap Z Instructions;
  handles : gmap Z Z;
  history : list Instructions }.

(** The program [id], with the instructions [insts], beside [others]. *)
Definition attach (id : Z) (insts : Instructions) (others : gset Z) (κ : Kernel) : Kernel :=
  mkKernel ({[id]} ∪ others) (loaded κ) (handles κ) (history κ ++ [insts]).
Definition open_handle (fd id : Z) (κ : Kernel) : Kernel :=
  mkKernel (attached κ) (loaded κ) (<[fd := id]> (handles κ)) (history κ).
Definition load (id : Z) (insts : Instructions) (κ : Kernel) : Kernel :=
  mkKernel (attached κ) (<[id := insts]> (loaded κ)) (handles κ) (history κ).

Section Kernel.
(** The descriptors of the cgroup's directory, and how the kernel shows a program
    that was loaded. *)
Context (dirs : gset Z) (xlated : Instructions → Instructions).

(** The answers that the kernel may give, from bpf(2); any call may fail. A
    program is replaced only while it is attached. *)
Definition bpf_step (κ : Kernel) (c : cmd) : reply c → Kernel → Prop :=
  match c return reply c → Kernel → Prop with
  | BpfProgQuery fd _ => λ r κ', κ' = κ ∧
      (q_errno r = None → fd ∈ dirs → take (q_ProgCnt r) (q_ids r) ≡ₚ elements (attached κ))
  | NewProgramFromID id => λ r κ',
      match r with
      | SysErr _ _ => κ' = κ
      | SysOk fd => is_Some (loaded κ !! id) ∧ handles κ !! fd = None ∧ κ' = open_handle fd id κ
      end
  | ProgInstructions fd => λ r κ', κ' = κ ∧
      match r with
      | Ok (Some insts) => ∃ id prog, handles κ !! fd = Some id ∧ loaded κ !! id = Some prog ∧
                                      insts = xlated prog
      | _ => True
      end
  | NewProgram insts _ => λ r κ',
      match r with
      | Err _ => κ' = κ
      | Ok fd => ∃ id, loaded κ !! id = None ∧ handles κ !! fd = None ∧
                       κ' = open_handle fd id (load id insts κ)
      end
  | CloseProgram fd => λ _ κ', κ' = mkKernel (attached κ) (loaded κ) (delete fd (handles κ)) (history κ)
  | RawAttachProgram fd prog replace _ => λ r κ',
      match r with
      | SysErr _ _ => κ' = κ
      | SysOk _ => ∃ id insts, handles κ !! prog = Some id ∧ loaded κ !! id = Some insts ∧
          if decide (fd ∈ dirs) then
            match replace with
            | None => κ' = attach id insts (attached κ) κ
            | Some old => ∃ oid, handles κ !! old = Some oid ∧ oid ∈ attached κ ∧
                κ' = attach id insts (attached κ ∖ {[oid]}) κ
            end
          else κ' = κ
      end
  | RawDetachProgram fd prog => λ r κ',
      match r with
      | SysErr _ _ => κ' = κ
      | SysOk _ => ∃ id, handles κ !! prog = Some id ∧
          if decide (fd ∈ dirs)
          then id ∈ attached κ ∧ κ' = mkKernel (attached κ ∖ {[id]}) (loaded κ) (handles κ) (history κ)
          else κ' = κ
      end
  | _ => λ _ κ', κ' = κ
  end.

(** What the threads keep: one program is attached, the last of the history, and
    descriptors are for programs that exist. *)
Record kernel_ok (κ : Kernel) : Prop := {
  one_attached : ∃ id insts, attached κ = {[id]} ∧ loaded κ !! id = Some insts ∧
                             last (history κ) = Some insts;
  handle_loaded fd id : handles κ !! fd = Some id → is_Some (loaded κ !! id) }.

(** What any thread may rely on. *)
Record later (κ κ' : Kernel) : Prop := {
  later_loaded : loaded κ ⊆ loaded κ';
  later_handles : handles κ ⊆ handles κ';
  later_history : history κ `prefix_of` history κ' }.

#[local] Instance later_preorder : PreOrder later.
Proof.
  split; [by split|]. intros κ1 κ2 κ3 [] []. split; by etrans.
Qed.

(** The program in force. *)
Definition now (κ : Kernel) (insts : Instructions) : Prop :=
  ∃ id, attached κ = {[id]} ∧ loaded κ !! id = Some insts.

Lemma now_last κ insts : kernel_ok κ → last (history κ) = Some insts → now κ insts.
Proof. intros [(id & insts' & Ha & Hl & Hh) _] ?. exists id. split; [done|congruence]. Qed.

Context `{AsmLib}.

(** The change that a list of rules asks for. *)
Definition change (rules : list (option Rule)) (cur new : Instructions) : Prop :=
  ∃ out, edit_instructions (Some (xlated cur)) rules = Returns (Ok out) ∧
    new = if decide (out = xlated cur) then cur else out.

Lemma change_det rules cur n1 n2 : change rules cur n1 → change rules cur n2 → n1 = n2.
Proof. intros (o1 & H1 & ->) (o2 & H2 & ->). by rewrite H1 in H2; simplify_eq. Qed.

(** [loadAttachCgroupDeviceFilter] has succeeded. *)
Definition succeeded (o : outcome (closure * option goerr)) : Prop :=
  match o with Returns (_, None) => True | _ => False end.

#[global] Instance succeeded_dec o : Decision (succeeded o).
Proof. destruct o as [[? []]|]; simpl; apply _. Defined.

(** Calls that change what is attached, or close a descriptor. *)
Definition calm (c : cmd) : Prop :=
  match c with
  | RawAttachProgram _ _ _ _ | RawDetachProgram _ _ | CloseProgram _ => False
  | _ => True
  end.

Lemma open_handle_ok fd id κ :
  kernel_ok κ → is_Some (loaded κ !! id) → handles κ !! fd = None →
  kernel_ok (open_handle fd id κ) ∧ later κ (open_handle fd id κ).
Proof.
  intros [Ho Hh] Hid Hfd. split; (split; [done|..]); simpl.
  - intros fd' id'. intros [[_ <-]|[_ ?]]%lookup_insert_Some; [done|]. by eapply Hh.
  - by apply insert_subseteq.
  - done.
Qed.

Lemma load_ok id insts κ :
  kernel_ok κ → loaded κ !! id = None → kernel_ok (load id insts κ) ∧ later κ (load id insts κ).
Proof.
  intros [(i & insts' & Ha & Hl & Hlast) Hh] Hid.
  assert (loaded κ ⊆ loaded (load id insts κ)) as Hsub by by apply insert_subseteq. split; [|by split].
  split.
  - exists i, insts'. split; [done|]. split; [by eapply lookup_weaken|done].
  - intros fd i' [x Hx]%Hh. exists x. by eapply lookup_weaken.
Qed.

Lemma calm_step κ c r κ' :
  calm c → kernel_ok κ → bpf_step κ c r κ' → kernel_ok κ' ∧ later κ κ' ∧ stays history κ κ'.
Proof.
  intros Hc Hκ. assert (kernel_ok κ ∧ later κ κ ∧ stays history κ κ) as Hsame by done.
  destruct c; simpl in *; try done; try (by intros ->); try (by intros [-> _]).
  - destruct r as [fd|]; [|by intros ->]. intros (Hid & Hfd & ->).
    by destruct (open_handle_ok fd id κ Hκ Hid Hfd).
  - destruct r as [fd|]; [|by intros ->]. intros (id & Hid & Hfd & ->).
    destruct (load_ok id insts κ Hκ Hid) as (H1 & H2).
    destruct (open_handle_ok fd id (load id insts κ) H1) as (H4 & H5); [|done|].
    { simpl. rewrite lookup_insert_eq. eauto. }
    split; [done|]. split; [by etrans|done].
Qed.

(** ** One request *)

Section Request.
Context (takes_effect : relation Kernel).

Abbreviation runs := (thread bpf_step kernel_ok later (stays history) takes_effect).

Lemma runs_calm {A} c (k : reply c → M A) taken κ Q :
  calm c →
  (∀ κ1 r κ2, later κ κ1 → kernel_ok κ1 → bpf_step κ1 c r κ2 → kernel_ok κ2 → later κ κ2 →
     runs (k r) taken κ2 Q) →
  runs (Vis c k) taken κ Q.
Proof.
  intros Hc Hk. apply thread_call; [apply _|]. intros κ1 r κ2 Hl Hok Hs.
  destruct (calm_step _ _ _ _ Hc Hok Hs) as (? & ? & ?).
  do 3 (split; [done|]). intros Hl2. by apply (Hk κ1 r κ2).
Qed.

(** The descriptors are for programs of the list. *)
Definition opened (ids : list Z) (res : result (list Z)) (κ : Kernel) : Prop :=
  ∀ fds, res = Ok fds → ∀ fd, fd ∈ fds → ∃ id, id ∈ ids ∧ handles κ !! fd = Some id.

Lemma programs_from_ids_runs ids taken κ (Q : result (list Z) → bool → Kernel → Prop) :
  (∀ res κ', later κ κ' → opened ids res κ' → Q res taken κ') →
  runs (programs_from_ids ids) taken κ Q.
Proof.
  revert κ Q. induction ids as [|id ids IH]; intros κ Q HQ; cbn [programs_from_ids].
  { apply HQ; [done|]. intros ? [= <-] fd Hfd. by apply elem_of_nil in Hfd. }
  apply runs_calm; [done|]. intros κ1 [fd|k err] κ2 Hl1 Hok1 Hs Hok2 Hl2; simpl in Hs.
  - destruct Hs as (_ & _ & ->). unfold try_bind. apply thread_bind. apply IH.
    intros res κ3 Hl3 Hres. destruct res as [programs|]; simpl; apply HQ; [by etrans| |by etrans|by intros ? [=]].
    intros ? [= <-] fd' [->|Hin]%elem_of_cons.
    + exists id. split; [by left|]. eapply lookup_weaken; [|apply Hl3]. apply lookup_insert_eq.
    + destruct (Hres _ eq_refl fd' Hin) as (id' & ? & ?). exists id'. split; [by right|done].
  - assert (runs (programs_from_ids ids) taken κ2 Q) as Hskip.
    { apply IH. intros res κ3 Hl3 Hres. apply HQ; [by etrans|]. intros fds Hf fd' Hin.
      destruct (Hres fds Hf fd' Hin) as (id' & ? & ?). exists id'. split; [by right|done]. }
    destruct k; try exact Hskip; (apply HQ; [done|by intros ? [=]]).
Qed.

(** The descriptor is for a program that was the current one when the history had
    [k] programs before it, or later. *)
Definition current_since (k : nat) (fd : Z) (κ : Kernel) : Prop :=
  ∃ id insts n, k ≤ n ∧ history κ !! n = Some insts ∧ loaded κ !! id = Some insts ∧
    handles κ !! fd = Some id.

Lemma current_since_later k fd κ κ' : later κ κ' → current_since k fd κ → current_since k fd κ'.
Proof.
  intros [Hl Hh Hp] (id & insts & n & ? & Hn & Hi & Hf). exists id, insts, n. split; [done|].
  split; [by eapply prefix_lookup_Some|]. split; by eapply lookup_weaken.
Qed.

(** The place of the current program in the history. *)
Definition arrival (κ : Kernel) : nat := pred (length (history κ)).

(** A single program that was found was the current one when it was found. *)
Lemma find_filters_runs k n dirFd size taken κ (Q : result (list Z) → bool → Kernel → Prop) :
  dirFd ∈ dirs → k ≤ arrival κ →
  (∀ res κ', later κ κ' → (∀ fd fds, res = Ok (fd :: fds) → current_since k fd κ') → Q res taken κ') →
  runs (find_filters n dirFd size) taken κ Q.
Proof.
  intros Hdir. revert size κ. induction n as [|n IH]; intros size κ Hk HQ; cbn [find_filters].
  { apply HQ; [done|]. by intros ?? [=]. }
  apply runs_calm; [done|]. intros κ1 query κ2 Hl1 Hok1 [-> Hq] Hok2 _.
  pose proof (prefix_length _ _ (later_history _ _ Hl1)) as Hlen. unfold arrival in *.
  destruct (q_errno query) as [[e err]|]; simpl.
  - assert (runs (find_filters n dirFd (q_ProgCnt query)) taken κ1 Q) as Hagain.
    { apply IH; [lia|]. intros res κ3 Hl3 Hres. apply HQ; [by etrans|done]. }
    destruct e; try exact Hagain; (apply HQ; [done|by intros ?? [=]]).
  - apply programs_from_ids_runs. intros res κ3 Hl3 Hres. apply HQ; [by etrans|]. intros fd fds ->.
    destruct (Hres _ eq_refl fd) as (id & Hid & Hfd); [by left|].
    destruct Hok1 as [(aid & insts & Ha & Hi & Hlast) _].
    rewrite Hq, Ha, elements_singleton, list_elem_of_singleton in Hid by done. subst id.
    exists aid, insts, (pred (length (history κ1))). split; [lia|]. split; [|split; [|done]].
    + eapply prefix_lookup_Some; [|apply Hl3]. by rewrite <- last_lookup.
    + eapply lookup_weaken; [done|apply Hl3].
Qed.

End Request.

(** Replacing the program that was read. *)
Lemma replace_step κ fd prog old flags κ' id insts oid :
  fd ∈ dirs → kernel_ok κ → handles κ !! prog = Some id → loaded κ !! id = Some insts →
  handles κ !! old = Some oid → bpf_step κ (RawAttachProgram fd prog (Some old) flags) (SysOk tt) κ' →
  kernel_ok κ' ∧ later κ κ' ∧ loaded κ !! oid = last (history κ) ∧ history κ' = history κ ++ [insts].
Proof.
  intros Hfd [(aid & cur & Ha & Hcur & Hlast) Hh] Hid Hi Hoid (id' & insts' & Hid' & Hi' & Hs).
  rewrite decide_True in Hs by done. destruct Hs as (oid' & Hoid' & Hin & ->). simplify_eq. rewrite Ha in *.
  apply elem_of_singleton in Hin as ->. split; [|split; [by split; simpl; [..|apply prefix_app_r]|split; [congruence|done]]].
  split; simpl; [|done]. exists id, insts. split; [set_solver|]. split; [done|]. apply last_snoc.
Qed.

(** One request takes effect at most once, when it replaces the program it read,
    and only if it succeeds. *)
Lemma loadAttach_runs (rules : list (list (option Rule))) i k own dirFd κ :
  rules !! i = Some own → dirFd ∈ dirs → k ≤ arrival κ →
  in_order bpf_step kernel_ok later history (λ i, change (default [] (rules !! i))) succeeded i k
    (loadAttachCgroupDeviceFilter (Some true) dirFd own) false κ.
Proof.
  intros Hown Hdir Hk. unfold in_order, loadAttachCgroupDeviceFilter.
  assert (∀ o κ', ¬ succeeded o →
    finished history (λ i, change (default [] (rules !! i))) succeeded i k o false κ') as Hfail
    by (intros o κ' Ho; unfold finished; by rewrite decide_False).
  apply runs_calm; [done|]. intros κ1 [] κ2 _ _ _ _ Hl2.
  pose proof (prefix_length _ _ (later_history _ _ Hl2)) as Hlen.
  apply thread_bind, (find_filters_runs _ k); [done|unfold arrival in *; lia|]. clear Hk Hl2 Hlen.
  intros oldProgs κ3 _ Hold.
  destruct oldProgs as [[|oldProg [|]]|]; try (apply Hfail; by intros []).
  specialize (Hold oldProg [] eq_refl).
  apply runs_calm; [done|]. intros κ4 r κ5 Hl4 _ [-> Hr] _ _.
  destruct r as [[cur|]|]; [|apply Hfail; by intros []..].
  destruct Hr as (oid & prog & Hid & Hprog & ->). apply (current_since_later _ _ _ _ Hl4) in Hold.
  assert (∃ n, k ≤ n ∧ history κ4 !! n = Some prog) as Hread.
  { destruct Hold as (id & insts & n & ? & Hn & Hi & Hf). exists n. split; [done|]. congruence. }
  clear κ1 κ2 κ3 Hl4 Hold.
  unfold pure. destruct (edit_instructions (Some (xlated prog)) own) as [[out|err]|] eqn:Hed;
    [|apply Hfail; by intros []..].
  cbn beta iota delta [panic_bind prog_bind_fix].
  destruct (decide (Some out = Some (xlated prog))) as [Hsame|Hsame].
  { simplify_eq. unfold thread, finished. rewrite decide_True by done. right.
    destruct Hread as (n & Hn & Hv). exists n, prog. split; [done|]. split; [done|].
    rewrite Hown. exists (xlated prog). split; [done|]. by rewrite decide_True. }
  unfold total. apply thread_bind. unfold attach_filter, haveBpfProgReplace.
  cbn beta iota delta [prog_bind_fix call].
  apply runs_calm; [done|]. intros κ5 r κ6 Hl5 _ Hr _ Hl6.
  destruct r as [fd|err]; [|apply Hfail; by intros []].
  destruct Hr as (id & Hnew & Hfd & ->). set (κ6 := open_handle _ _ _) in *.
  assert (handles κ6 !! fd = Some id) as Hh by apply lookup_insert_eq.
  assert (loaded κ6 !! id = Some out) as Hout by apply lookup_insert_eq.
  clearbody κ6. intros κ7 r κ8 Hl7 Hok7 Hs.
  apply (lookup_weaken _ (handles κ7)) in Hh, Hid; [|by transitivity (handles κ6); [apply Hl6|apply Hl7]|apply Hl7].
  apply (lookup_weaken _ (loaded κ7)) in Hout, Hprog; [|by transitivity (loaded κ6); [apply Hl6|apply Hl7]|apply Hl7].
  destruct r as [[]|e err].
  2:{ simpl in Hs. subst κ8. split; [done|]. split; [done|]. left. split; [done|]. apply Hfail. by intros []. }
  apply (replace_step _ _ _ _ _ _ id out oid) in Hs as (Hok8 & Hl8 & Hlast & Hhist); [|done..].
  split; [done|]. split; [done|]. right. split; [done|]. split.
  - exists prog, out. split; [congruence|]. split; [done|].
    rewrite Hown. exists out. split; [done|]. rewrite decide_False; [done|]. congruence.
  - unfold thread, finished. rewrite decide_True by done. by left.
Qed.

(** ** Many requests *)

(** A request per list of rules, each with a descriptor of the directory. *)
Definition requests (rules : list (list (option Rule))) (fds : list Z)
    : list (act (closure * option goerr)) :=
  zip_with (λ own fd, loadAttachCgroupDeviceFilter (Some true) fd own) rules fds.

(** How the requests come out: an order that explains the replies and the program
    attached, and that agrees with real time. *)
Abbreviation serial_rules := (λ rules, serial (λ i, change (default [] (rules !! i))) succeeded).

(** The effects of the requests have an order. *)
Lemma serialised rules fds κ0 cur0 ts κ :
  Forall (λ fd, fd ∈ dirs) fds → kernel_ok κ0 → history κ0 = [cur0] →
  rtc (pool_step bpf_step (requests rules fds)) ([], κ0) (ts, κ) →
  ∃ final order, now κ final ∧ serial_rules rules ts cur0 final order.
Proof.
  intros Hfds Hok Hcur Hsteps.
  destruct (pool_serial bpf_step kernel_ok later history (λ i, change (default [] (rules !! i))) succeeded
    later_history (requests rules fds) κ0 cur0 ts κ) as (final & order & Hlast & Hserial & Hinv); [done..| |done|].
  - intros i p κ' (own & fd & -> & Hown & Hfd)%lookup_zip_with_Some _. apply loadAttach_runs; [done| |done].
    rewrite Forall_lookup in Hfds. by eapply Hfds.
  - exists final, order. split; [by apply now_last|done].
Qed.

(** C3. Rule changes of one container at the same time, with BPF_F_REPLACE. However
    the requests arrive, their calls interleave and fail, at every moment exactly
    one program is attached, and it is the initial one edited by the requests in
    some order: each request that has returned without an error is in it exactly
    once, and none that has returned an error or panicked; a request that arrived
    after another had returned comes after it. No request overwrites the change
    of another. *)
Theorem rule_changes_serialise rules fds κ0 cur0 ts κ :
  Forall (λ fd, fd ∈ dirs) fds → kernel_ok κ0 → history κ0 = [cur0] →
  rtc (pool_step bpf_step (requests rules fds)) ([], κ0) (ts, κ) →
  ∃ final order, now κ final ∧
    NoDup order ∧ (∀ i, i ∈ order → i < length ts) ∧
    changes (λ i, change (default [] (rules !! i))) order cur0 final ∧
    (∀ i d o, ts !! i = Some (mkRunning d (Done o)) → (i ∈ order ↔ succeeded o)) ∧
    ∀ i d p j, ts !! i = Some (mkRunning d p) → j ∈ d → j ∈ order → i ∈ order → before j i order.
Proof.
  intros Hfds Hok Hcur Hsteps.
  destruct (serialised _ _ _ _ _ _ Hfds Hok Hcur Hsteps) as (final & order & Hnow & []). by exists final, order.
Qed.

End Kernel.

(** ** Schedules *)

(** A kernel that fails only where it must. *)
Definition kernel_reply (dirs : gset Z) (κ : Kernel) (c : cmd) : reply c * Kernel :=
  let fd := fresh (dom (handles κ)) in
  match c return reply c * Kernel with
  | BpfProgQuery _ _ =>
      let ids := elements (attached κ) in (mkQueryReply None (length ids) ids, κ)
  | NewProgramFromID id =>
      if decide (is_Some (loaded κ !! id)) then (SysOk fd, open_handle fd id κ)
      else (SysErr ENOENT "no such file or directory", κ)
  | ProgInstructions h =>
      (match handles κ !! h ≫= λ id, loaded κ !! id with
       | Some insts => Ok (Some (shown insts))
       | None => Err (PlainError "bad file descriptor")
       end, κ)
  | NewProgram insts _ =>
      let id := fresh (dom (loaded κ)) in (Ok fd, open_handle fd id (load id insts κ))
  | RawAttachProgram d prog (Some old) _ =>
      match handles κ !! prog, handles κ !! old with
      | Some id, Some oid =>
          if decide (d ∈ dirs ∧ oid ∈ attached κ)
          then match loaded κ !! id with
               | Some insts => (SysOk tt, attach id insts (attached κ ∖ {[oid]}) κ)
               | None => (SysErr EBADF "bad file descriptor", κ)
               end
          else (SysErr ENOENT "no such file or directory", κ)
      | _, _ => (SysErr EBADF "bad file descriptor", κ)
      end
  | CloseProgram h => (tt, mkKernel (attached κ) (loaded κ) (delete h (handles κ)) (history κ))
  | c => (default_reply c, κ)
  end.

Lemma kernel_reply_step dirs κ c :
  bpf_step dirs shown κ c (kernel_reply dirs κ c).1 (kernel_reply dirs κ c).2.
Proof.
  destruct c; try done; simpl.
  - split; [done|]. intros _ _. rewrite firstn_all. done.
  - case_decide; simpl; [|done]. split; [done|]. split; [|done].
    apply not_elem_of_dom. apply is_fresh.
  - split; [done|]. destruct (handles κ !! prog) as [i|] eqn:Hh; simpl; [|done].
    destruct (loaded κ !! i) as [insts|] eqn:Hl; [|done]. by exists i, insts.
  - exists (fresh (dom (loaded κ))). split_and!; [apply not_elem_of_dom, is_fresh..|done].
  - destruct replace as [old|]; [|done].
    destruct (handles κ !! prog) as [i|] eqn:Hp; [|done]. destruct (handles κ !! old) as [o|] eqn:Ho; [|done].
    case_decide as Hd; simpl; [|done]. destruct (loaded κ !! i) as [insts|] eqn:Hl; simpl; [|done].
    exists i, insts. do 2 (split; [done|]). rewrite decide_True by tauto.
    exists o. split_and!; [done|tauto|done].
Qed.

(** The threads that take the next turns; the turn of one that is not there is that
    of the next request to arrive. *)
Fixpoint schedule {A} (reqs : list (M A)) (dirs : gset Z) (turns : list nat)
    (c : list (running reply A) * Kernel) : list (running reply A) * Kernel :=
  match turns with
  | [] => c
  | i :: turns =>
      schedule reqs dirs turns
        match c.1 !! i with
        | Some (mkRunning d (Vis cmd k)) =>
            let '(r, κ) := kernel_reply dirs c.2 cmd in (<[i := mkRunning d (k r)]> c.1, κ)
        | Some _ => c
        | None =>
            match reqs !! length c.1 with
            | Some p => (c.1 ++ [mkRunning (finished_threads c.1) p], c.2)
            | None => c
            end
        end
  end.

Lemma schedule_steps {A} (reqs : list (M A)) dirs turns c :
  rtc (pool_step (bpf_step dirs shown) reqs) c (schedule reqs dirs turns c).
Proof.
  revert c. induction turns as [|i turns IH]; intros [ts κ]; cbn [schedule fst snd]; [done|].
  destruct (ts !! i) as [[d [a|cm k]]|] eqn:Hi.
  - apply IH.
  - pose proof (kernel_reply_step dirs κ cm) as Hstep. destruct (kernel_reply dirs κ cm) as [r κ'].
    eapply rtc_l; [by eapply pool_call|]. apply IH.
  - destruct (reqs !! length ts) as [p|] eqn:Hp; [|apply IH]. eapply rtc_l; [by apply pool_arrive|]. apply IH.
Qed.

(** ** Witnesses *)

Definition w_initial : Instructions := runc_insts ++ [Mov_Imm32 R0 0; Return_].
Definition w_kernel : Kernel := mkKernel {[41%Z]} {[41%Z := w_initial]} ∅ [w_initial].

Lemma w_kernel_ok : kernel_ok w_kernel.
Proof.
  split.
  - exists 41%Z, w_initial. split; [done|]. split; [apply lookup_singleton_eq|done].
  - intros fd i. simpl. by rewrite lookup_empty.
Qed.

Definition w_rules : list (list (option Rule)) :=
  [[Some (mkRule CharDevice 195 1 "rw" true)]; [Some (mkRule CharDevice 195 2 "rw" true)];
   [Some (mkRule CharDevice 195 3 "rw" true)]].
Definition w_requests : list (act (closure * option goerr)) := requests w_rules [7; 7; 7]%Z.

(** The first two requests read the same program; the third comes later. *)
Definition w_turns : list nat := concat (replicate 7 [0; 1]) ++ replicate 7 2.

(** Who had finished when a thread arrived, and whether it has succeeded. *)
Definition w_outcome (ts : list (running reply (outcome (closure * option goerr))))
    : list (list nat * option bool) :=
  map (λ t, (elements (done_before t),
    match rest t with Done o => Some (bool_decide (succeeded o)) | Vis _ _ => None end)) ts.

(** The second request fails, as the program it read has been replaced. *)
Lemma w_run :
  w_outcome (schedule w_requests {[7%Z]} w_turns ([], w_kernel)).1 =
    [([], Some true); ([], Some false); ([1; 0], Some true)].
Proof. vm_compute. reflexivity. Qed.

Lemma rule_changes_serialise_witness :
  let '(ts, κ) := schedule w_requests {[7%Z]} w_turns ([], w_kernel) in
  w_outcome ts = [([], Some true); ([], Some false); ([1; 0], Some true)] ∧
  ∃ final order, now κ final ∧
    NoDup order ∧ (∀ i, i ∈ order → i < length ts) ∧
    changes (λ i, change shown (default [] (w_rules !! i))) order w_initial final ∧
    (∀ i d o, ts !! i = Some (mkRunning d (Done o)) → (i ∈ order ↔ succeeded o)) ∧
    ∀ i d p j, ts !! i = Some (mkRunning d p) → j ∈ d → j ∈ order → i ∈ order → before j i order.
Proof.
  pose proof (schedule_steps w_requests {[7%Z]} w_turns ([], w_kernel)) as Hs.
  pose proof w_run as Ho. destruct (schedule _ _ _ _) as [ts κ]. split; [exact Ho|].
  apply (rule_changes_serialise {[7%Z]} shown w_rules [7; 7; 7]%Z w_kernel w_initial ts κ).
  - repeat constructor; set_solver.
  - exact w_kernel_ok.
  - reflexivity.
  - exact Hs.
Defined.
