(* ===== verification/ConcurrentAccess.v ===== *)
(** * What a container may open after concurrent requests

    [ConcurrentRules] and [DeviceAccess] together: requests for different devices
    do not disturb each other, whichever succeed. *)
From Stdlib Require Import ZArith Lia.
From stdpp Require Import base gmap strings list sets relations.
From S2P Require Import Prelude GoStrings Api Ebpf EbpfFacts World Util Cgroup CgroupV2 DeviceAccess Interleaving ConcurrentRules.

Section Access.
Context `{AsmLib, !AsmLaws}.

(** ** Tables and lists of requests *)

Lemma fits_app es n1 n2 : fits es (n1 ++ n2) → fits es n1 ∧ fits (after es n1) n2.
Proof.
  revert es. induction n1 as [|new n1 IH]; intros es Hf; simpl.
  - split; [|done]. destruct Hf as (? & _). by split_and!; try constructor.
  - pose proof Hf as (Hd & Hdn & Hu & Hc). simpl in *. apply fits_cons in Hf as (_ & _ & _ & Hf).
    destruct (IH _ Hf) as [H1 H2]. split; [|exact H2].
    apply (distinct_app (new :: n1) n2) in Hdn as (? & _ & _).
    apply (Forall_app _ (new :: n1) n2) in Hu as [? _]. apply (Forall_app _ (new :: n1) n2) in Hc as [? _].
    by split_and!.
Qed.

Lemma after_app es n1 n2 : after es (n1 ++ n2) = after (after es n1) n2.
Proof. apply foldl_app. Qed.

Lemma entries_of_inj rules n1 n2 : entries_of rules n1 → entries_of rules n2 → n1 = n2.
Proof.
  intros H1. revert n2. induction H1 as [|rule new rules news Hn _ IH]; intros n2 H2;
    inversion_clear H2 as [|? new' ? news' Hn' Hr]; [done|]. f_equal; [congruence|auto].
Qed.

(** The entries of request [i]. *)
Definition entries_at (newss : list (list entry)) (i : nat) : list entry := default [] (newss !! i).

Definition apart (l1 l2 : list entry) : Prop := ∀ e1 e2, e1 ∈ l1 → e2 ∈ l2 → same_device e1 e2 = false.

Lemma apart_comm l1 l2 : apart l1 l2 → apart l2 l1.
Proof. intros Ha e1 e2 H1 H2. rewrite same_device_comm. by apply Ha. Qed.

Lemma entries_at_concat newss i e : e ∈ entries_at newss i → e ∈ concat newss.
Proof.
  unfold entries_at. destruct (newss !! i) as [news|] eqn:Hi; simpl; [|intros []%elem_of_nil].
  intros He. apply list_elem_of_In, in_concat. exists news.
  split; apply list_elem_of_In; [by eapply list_elem_of_lookup_2|done].
Qed.

Lemma distinct_concat newss :
  distinct (concat newss) →
  (∀ i, distinct (entries_at newss i)) ∧ ∀ i j, i ≠ j → apart (entries_at newss i) (entries_at newss j).
Proof.
  induction newss as [|news newss IH]; simpl.
  - intros _. split; [constructor|]. intros i j _ e1 e2 []%elem_of_nil.
  - intros (Hd & (Hds & Ha)%IH & Hcross)%distinct_app. split; [intros [|i]; [exact Hd|exact (Hds i)]|].
    assert (∀ j, apart news (entries_at newss j)) as Hn
      by (intros j e1 e2 ? ?; eapply Hcross; [done|by eapply entries_at_concat]).
    intros [|i] [|j] Hij; [done|apply Hn|apply apart_comm, Hn|apply Ha; congruence].
Qed.

Lemma distinct_select newss order :
  distinct (concat newss) → NoDup order → distinct (concat (map (entries_at newss) order)).
Proof.
  intros [Hd Ha]%distinct_concat. induction 1 as [|i order Hi _ IH]; simpl; [constructor|].
  apply distinct_app. split; [done|]. split; [done|]. intros e1 e2 H1 H2.
  apply list_elem_of_In, in_concat in H2 as (l & (j & <- & Hj)%in_map_iff & He).
  apply list_elem_of_In in Hj, He. apply (Ha i j); [|done..]. by intros ->.
Qed.

(** ** The order of effects, on tables *)

Section Requests.
Context (rules : list (list Rule)) (newss : list (list entry)).
Context (Hnews : Forall2 entries_of rules newss) (Hconcrete : Forall (Forall concrete) rules).

Lemma rules_at i :
  Forall concrete (default [] (rules !! i)) ∧
  entries_of (default [] (rules !! i)) (entries_at newss i).
Proof.
  unfold entries_at. destruct (rules !! i) as [own|] eqn:Hi.
  - destruct (Forall2_lookup_l _ _ _ _ _ Hnews Hi) as (news & -> & ?).
    rewrite Forall_lookup in Hconcrete. split; [by eapply Hconcrete|done].
  - destruct (newss !! i) as [news|] eqn:Hn; [|split; constructor].
    destruct (Forall2_lookup_r _ _ _ _ _ Hnews Hn) as (? & ? & ?). congruence.
Qed.

Lemma changes_table g0 order es cur final :
  changes (λ i, change shown (default [] (map (map Some) rules !! i))) order cur final →
  shown cur = filter_program g0 es → table g0 es → fits es (concat (map (entries_at newss) order)) →
  shown final = filter_program g0 (after es (concat (map (entries_at newss) order))) ∧
  Forall entry_wf (after es (concat (map (entries_at newss) order))).
Proof.
  intros Hc. revert es. induction Hc as [v|i order v1 v2 v3 (out & Hout & Hv2) _ IH]; intros es Hv1 Ht Hf.
  { by destruct Ht as (_ & _ & ? & _). }
  destruct (rules_at i) as [Hci Hei]. simpl in *. rewrite after_app.
  assert (default [] (map (map Some) rules !! i) = map Some (default [] (rules !! i))) as Hr
    by (rewrite list_lookup_fmap; by destruct (rules !! i)).
  rewrite Hr, Hv1 in Hout. destruct (edit_table g0 es _ out Ht Hci Hout) as (news & Hn & Hfin).
  rewrite (entries_of_inj _ _ _ Hn Hei) in *. apply fits_app in Hf as [_ Hf].
  assert (shown v2 = filter_program g0 (after es (entries_at newss i))) as Hv
    by (rewrite <- Hfin, Hv2; case_decide as Heq; [by rewrite Heq, shown_idemp|done]).
  apply IH; [done| |done]. destruct Ht as (? & ? & Hes & _). destruct Hf as (? & _). split_and!; [done..| |done].
  by eapply after_wf.
Qed.

Lemma entries_selected P order :
  (∀ i, Forall P (entries_at newss i)) → Forall P (concat (map (entries_at newss) order)).
Proof. intros HP. induction order as [|i order IH]; simpl; [constructor|]. by apply Forall_app. Qed.

Lemma selected_elem i order new :
  i ∈ order → new ∈ entries_at newss i → new ∈ concat (map (entries_at newss) order).
Proof.
  intros Hi Hn. apply list_elem_of_In, in_concat. exists (entries_at newss i).
  split; apply list_elem_of_In; [|done]. apply list_elem_of_fmap. eauto.
Qed.

Lemma selected_fits es order :
  distinct es → distinct (concat newss) → Forall (unshadowed es) (concat newss) → NoDup order →
  fits es (concat (map (entries_at newss) order)).
Proof.
  intros Hes Hd Hu Hnd. split; [done|]. split; [by apply distinct_select|].
  split; apply entries_selected; intros i.
  - apply Forall_forall. intros e He%entries_at_concat. rewrite Forall_forall in Hu. by apply Hu.
  - destruct (rules_at i) as [Hc He]. by eapply entries_concrete.
Qed.

(** C4. What a container may open after mounts and unmounts at the same time, with
    BPF_F_REPLACE, on a program that is a table of device entries. If no two
    requests name the same device (and no entry of the table is longer than the
    rule for its device), then however their calls interleave and whichever
    fail: at every moment one program is attached; it grants or denies the
    devices of every request that has succeeded as its rules say; and every
    device that only failed requests name is decided as before. *)
Theorem concurrent_access dirs fds κ0 g0 es ts κ :
  table g0 es → distinct (concat newss) → Forall (unshadowed es) (concat newss) →
  Forall (λ fd, fd ∈ dirs) fds → kernel_ok κ0 → history κ0 = [filter_program g0 es] →
  rtc (pool_step (bpf_step dirs shown) (requests (map (map Some) rules) fds)) ([], κ0) (ts, κ) →
  ∃ final, now κ final ∧
    ∀ other pre f0 q regs, decides other pre g0 f0 → valid_request q → pre q regs →
      (∀ i d o new, ts !! i = Some (mkRunning d (Done o)) → succeeded o → new ∈ entries_at newss i →
         covers (en_type new) (en_access new) (en_rule new) q = true → f0 q = None → clear es new q →
         exec other final 0 regs = Some (if Allow (en_rule new) then 1%Z else 0%Z)) ∧
      ((∀ i new, new ∈ entries_at newss i → about new q = true →
          ∃ d o, ts !! i = Some (mkRunning d (Done o)) ∧ ¬ succeeded o) →
       exec other final 0 regs = exec other (filter_program g0 es) 0 regs).
Proof.
  intros Ht Hd Hu Hfds Hok Hcur Hsteps.
  destruct (serialised dirs shown _ _ _ _ _ _ Hfds Hok Hcur Hsteps)
    as (final & order & Hfinal & [Hnd _ Hch Hdone _]).
  pose proof Ht as (Hg & Hl & Hes & Hdes).
  pose proof (selected_fits es order Hdes Hd Hu Hnd) as Hf.
  destruct (changes_table g0 order es _ _ Hch (filter_program_shown _ _) Ht Hf) as [Hshown Hwf].
  exists final. split; [done|].
  intros other pre f0 q regs Hf0 Hv Hr.
  rewrite <- (exec_shown other (shown final) final) by apply shown_idemp. rewrite Hshown.
  rewrite !(exec_filter_program other pre g0 f0 _ q regs) by done. split.
  - intros i d o new Hi Ho Hnew Hcov Hq Hcl. f_equal. eapply after_covered; [done| |done..|].
    + apply (selected_elem i); [by apply (Hdone i d o)|done].
    + unfold entry_decision, rule_decision. by rewrite Hcov.
  - intros Hfailed. f_equal. apply after_other; [done|].
    apply Forall_forall. intros new (l & (i & <- & Hi)%in_map_iff & Hnew)%list_elem_of_In%in_concat.
    apply list_elem_of_In in Hi, Hnew. apply not_true_iff_false. intros Ha.
    destruct (Hfailed i new Hnew Ha) as (d & o & Ho & Hno). by apply Hno, (Hdone i d o Ho).
Qed.

End Requests.
End Access.

(** ** Witness *)

Definition w_rule_lists : list (list Rule) :=
  [[mkRule CharDevice 195 1 "rw" true]; [mkRule CharDevice 195 2 "rw" true];
   [mkRule CharDevice 195 3 "rw" true]].
Definition w_entry_lists : list (list entry) := map (map (mkEntry 2 6)) w_rule_lists.
Definition w_table : list entry := [mkEntry 2 6 (gpu_rule "rw" true)].

(** Of three mounts, two at the same time and one later, the second fails. *)
Lemma concurrent_access_witness :
  let '(ts, κ) := schedule w_requests {[7%Z]} w_turns ([], w_kernel) in
  w_outcome ts = [([], Some true); ([], Some false); ([1; 0], Some true)] ∧
  ∃ final, now κ final ∧
    ∀ other pre f0 q regs, decides other pre runc_group f0 → valid_request q → pre q regs →
      (∀ i d o new, ts !! i = Some (mkRunning d (Done o)) → succeeded o → new ∈ entries_at w_entry_lists i →
         covers (en_type new) (en_access new) (en_rule new) q = true → f0 q = None → clear w_table new q →
         exec other final 0 regs = Some (if Allow (en_rule new) then 1%Z else 0%Z)) ∧
      ((∀ i new, new ∈ entries_at w_entry_lists i → about new q = true →
          ∃ d o, ts !! i = Some (mkRunning d (Done o)) ∧ ¬ succeeded o) →
       exec other final 0 regs = exec other (filter_program runc_group w_table) 0 regs).
Proof.
  pose proof (schedule_steps w_requests {[7%Z]} w_turns ([], w_kernel)) as Hs.
  pose proof w_run as Ho. destruct (schedule _ _ _ _) as [ts κ]. split; [exact Ho|].
  apply (concurrent_access w_rule_lists w_entry_lists) with (dirs := {[7%Z]}) (fds := [7; 7; 7]%Z) (κ0 := w_kernel).
  - repeat constructor.
  - repeat constructor; vm_compute; done.
  - split; [apply runc_group_closed|]. split; [simpl; lia|]. split.
    + repeat constructor; simpl; lia.
    + repeat constructor.
  - repeat constructor.
  - repeat constructor; intros e He%list_elem_of_singleton; by subst e.
  - repeat constructor; set_solver.
  - exact w_kernel_ok.
  - reflexivity.
  - exact Hs.
Defined.
