(* ===== verification/Framework.v ===== *)
(** * The device mounter interface and its registry ([pkg/framework/mounter.go])

    The server drives a kind of device through [DeviceMounter]; the three
    packages of pkg/devices implement it and register a constructor each. *)
From stdpp Require Import base gmap strings list fin_maps.
From Stdlib Require Import ZArith Lia.
From S2P Require Import Prelude GoStrings Api Ebpf World Util Cgroup.

(** [type DeviceMounter interface]. The context and the client set are the
    environment's; a method may panic. *)
Record DeviceMounter := mkDeviceMounter {
  GetDeviceType : string;
  ValidateMountRequest : Node → Pod → Container → gmap string Quantity →
    gomap string → gomap string → act (option goerr);
  BuildSupportPodTemplates : Pod → Container → gmap string Quantity →
    gomap string → gomap string → list Pod → act (result (list Pod));
  VerifySupportPodStatus : Pod → act (StatusCode * option goerr);
  GetDeviceInfosToMount : Pod → Container → list Pod → act (result (list DeviceInfo));
  ExecutePostMountActions : Config → Pod → Container → list Pod → act (option goerr);
  GetDeviceInfosToUnmount : Pod → Container → list Pod → act (result (list DeviceInfo));
  GetDevicesActiveProcessIDs : list Z → list DeviceInfo → act (result (list Z));
  ExecutePostUnmountActions : Config → Pod → Container → list Pod → act (option goerr);
  GetPodsToCleanup : Pod → Container → list Pod → act (list ObjectKey) }.

(** [type CreateMounterFunc]. *)
Definition CreateMounterFunc : Type := M (result DeviceMounter).

(** The package variables. *)
Record Registry := mkRegistry {
  registerDeviceMounter : gmap string DeviceMounter;
  addDeviceMounterFuncs : list CreateMounterFunc }.

Definition emptyRegistry : Registry := mkRegistry ∅ [].

(** A nil function is ignored. *)
Definition AddDeviceMounterFuncs (createFunc : option CreateMounterFunc) (s : Registry) : Registry :=
  match createFunc with
  | Some f => mkRegistry (registerDeviceMounter s) (addDeviceMounterFuncs s ++ [f])
  | None => s
  end.

(** The loop of [RegisrtyDeviceMounter]: a constructor that fails is skipped. *)
Fixpoint register_mounters (funcs : list CreateMounterFunc) (m : gmap string DeviceMounter)
    : M (gmap string DeviceMounter) :=
  match funcs with
  | [] => Done m
  | createFunc :: rest =>
      r <-- createFunc ;;
      match r with
      | Err _ => register_mounters rest m
      | Ok mounter => register_mounters rest (<[ToUpper (GetDeviceType mounter) := mounter]> m)
      end
  end.

Definition RegisrtyDeviceMounter (s : Registry) : M (Registry * option goerr) :=
  m <-- register_mounters (addDeviceMounterFuncs s) (registerDeviceMounter s) ;;
  Done (mkRegistry m (addDeviceMounterFuncs s), None).

(** [range] visits the map in the order [l]. *)
Definition GetDeviceMounterTypes (l : list (string * DeviceMounter)) : list string :=
  map (λ '(_, mounter), GetDeviceType mounter) l.

Definition GetDeviceMounter (s : Registry) (devType : string) : option DeviceMounter :=
  registerDeviceMounter s !! devType.

(** ** Properties *)

(** Every mounter is registered under the upper-case form of its own type. *)
Definition well_keyed (m : gmap string DeviceMounter) : Prop :=
  ∀ k mounter, m !! k = Some mounter → k = ToUpper (GetDeviceType mounter).

Lemma register_mounters_wp funcs (m0 m : gmap string DeviceMounter) e h :
  well_keyed m → (∀ k, is_Some (m0 !! k) → is_Some (m !! k)) →
  wp e h (register_mounters funcs m)
    (λ m' _, well_keyed m' ∧ ∀ k, is_Some (m0 !! k) → is_Some (m' !! k)).
Proof.
  revert m h. induction funcs as [|f funcs IH]; intros m h Hm Hk; simpl; [by wp_step|].
  wp_step. eapply wp_mono; [|apply wp_true]. intros [mounter|err] t _; cbn beta iota.
  - eapply wp_mono; [|apply IH]; [done| |].
    + intros k x. rewrite lookup_insert. case_decide; [naive_solver | apply Hm].
    + intros k Hs. rewrite lookup_insert. case_decide; [eauto|]. auto.
  - eapply wp_mono; [|by apply IH]. done.
Qed.

(** Registration keeps the map keyed by upper-case device type whatever the
    constructors do, so a lookup with the upper-case form of a request's type
    finds a mounter exactly of that type; and no failing constructor prevents
    the others from being registered. *)
Theorem registration_well_keyed s e h :
  well_keyed (registerDeviceMounter s) →
  wp e h (RegisrtyDeviceMounter s) (λ '(s', err) _,
    err = None ∧ well_keyed (registerDeviceMounter s') ∧
    (∀ devType mounter, GetDeviceMounter s' (ToUpper devType) = Some mounter →
       ToUpper (GetDeviceType mounter) = ToUpper devType) ∧
    (∀ k, is_Some (GetDeviceMounter s k) → is_Some (GetDeviceMounter s' k))).
Proof.
  intros Hwf. unfold RegisrtyDeviceMounter. wp_step.
  eapply (wp_mono _ _ _ (λ m _, well_keyed m ∧
    ∀ k, is_Some (registerDeviceMounter s !! k) → is_Some (m !! k))).
  { intros m t [Hm Hk]. wp_step. repeat split; try done. unfold GetDeviceMounter. simpl.
    intros devType mounter Hl. symmetry. by apply Hm. }
  apply register_mounters_wp; [done | auto].
Qed.

(** ** Witnesses *)

(** A mounter of the given type that accepts everything and has no devices. *)
Definition inert_mounter (type : string) : DeviceMounter := {|
  GetDeviceType := type;
  ValidateMountRequest _ _ _ _ _ _ := Done (Returns None);
  BuildSupportPodTemplates _ _ _ _ _ _ := Done (Returns (Ok []));
  VerifySupportPodStatus _ := Done (Returns (Success, None));
  GetDeviceInfosToMount _ _ _ := Done (Returns (Ok []));
  ExecutePostMountActions _ _ _ _ := Done (Returns None);
  GetDeviceInfosToUnmount _ _ _ := Done (Returns (Ok []));
  GetDevicesActiveProcessIDs _ _ := Done (Returns (Ok []));
  ExecutePostUnmountActions _ _ _ _ := Done (Returns None);
  GetPodsToCleanup _ _ _ := Done (Returns []) |}.

Lemma registration_well_keyed_witness :
  let s := mkRegistry ∅
    [Done (Err (PlainError "no driver")); Done (Ok (inert_mounter "Nvidia_GPU"))] in
  wp (λ _ c, default_reply c) [] (RegisrtyDeviceMounter s) (λ '(s', err) _,
    err = None ∧ well_keyed (registerDeviceMounter s') ∧
    (∀ devType mounter, GetDeviceMounter s' (ToUpper devType) = Some mounter →
       ToUpper (GetDeviceType mounter) = ToUpper devType) ∧
    (∀ k, is_Some (GetDeviceMounter s k) → is_Some (GetDeviceMounter s' k))).
Proof.
  apply (registration_well_keyed (mkRegistry ∅
    [Done (Err (PlainError "no driver")); Done (Ok (inert_mounter "Nvidia_GPU"))])).
  intros k mounter Hk. simpl in Hk. by rewrite lookup_empty in Hk.
Defined.
