(* ===== verification/MounterUtil.v ===== *)
(** * Steps of the mounter server ([pkg/server/mounter/util.go])

    The checks of a request and of its container, the slave pods (templates,
    labels, disruption budgets, waiting, deletion), the device rules and the
    device files with their rollbacks. JSON, JSON patches and quantities are
    parsed by other code and are parameters. *)
From stdpp Require Import base gmap strings list.
From Stdlib Require Import ZArith Lia Ascii.
From S2P Require Import Prelude GoStrings Api Ebpf World Util Cgroup CgroupV2 Framework.

(** ** Requests *)

Definition param_error (paramNames : list string) : goerr :=
  MounterError ResultCode_Invalid
    ("parameters [" +:+ Join paramNames "," +:+ "] cannot be empty").

(** The request comes back with its defaults filled in. *)
Definition CheckMountDeviceRequest (req : MountDeviceRequest) : result MountDeviceRequest :=
  let paramNames :=
    (if str_empty (mr_PodName req) then ["'pod_name'"] else []) ++
    (if str_empty (mr_PodNamespace req) then ["'pod_namespace'"] else []) ++
    (if decide (map_len (mr_Resources req) = 0) then ["'resources'"] else []) in
  match paramNames with
  | _ :: _ => Err (param_error paramNames)
  | [] =>
      Ok (mkMountDeviceRequest (mr_PodName req) (mr_PodNamespace req)
            (Some (default (mkContainer 0 "") (mr_Container req)))
            (mr_Resources req) (map_make (mr_Annotations req)) (map_make (mr_Labels req))
            (mr_DeviceType req) (mr_Patches req))
  end.

Definition CheckUnMountDeviceRequest (req : UnMountDeviceRequest) : result UnMountDeviceRequest :=
  let paramNames :=
    (if str_empty (ur_PodName req) then ["'pod_name'"] else []) ++
    (if str_empty (ur_PodNamespace req) then ["'pod_namespace'"] else []) in
  match paramNames with
  | _ :: _ => Err (param_error paramNames)
  | [] =>
      Ok (mkUnMountDeviceRequest (ur_PodName req) (ur_PodNamespace req)
            (Some (default (mkContainer 0 "") (ur_Container req)))
            (ur_DeviceType req) (ur_Force req))
  end.

(** ** The container *)

Definition CheckPodContainerStatus (pod : Pod) (cont : Container) : option goerr :=
  if existsb (λ containerStatus,
       bool_decide (cs_Name containerStatus = Name cont) && cs_Ready containerStatus)
       (status_ContainerStatuses (pod_Status pod))
  then None
  else Some (PlainError ("the target container " +:+ Name cont +:+ " is not ready")).

(** ** The owner of an object *)

Definition Owner (pod : Pod) (controller : bool) : list OwnerReference :=
  [mkOwnerReference "v1" "Pod" (pod_Name pod) (pod_UID pod) true controller].

(** ** The server *)

(** [json.Marshal], [json.Unmarshal] of pods, evanphx/json-patch, and the text of
    the protobuf message. *)
Class JsonLib := {
  Patch : Type;
  Marshal : Pod → result string;
  DecodePatch : string → result Patch;
  patch_Apply : Patch → string → result string;
  Unmarshal : string → result Pod;
  Container_String : Container → string }.

(** [type DeviceMounterServer struct]; its clients are the environment. *)
Record DeviceMounterServer := mkDeviceMounterServer { nodeName : string }.

Section Server.
Context `{ClientLib, Settings, CgroupLib, EmulatorLib, AsmLib, JsonLib}.

(** The loop over the containers, from index [i] on. *)
Fixpoint find_container (cont : Container) (i : Z) (containers : list PodContainer)
    : result Container :=
  match containers with
  | [] => Err (MounterError ResultCode_Invalid
            ("target container " +:+ Container_String cont +:+ " not found"))
  | container :: rest =>
      let sidecar :=
        Err (MounterError ResultCode_Invalid "Target container is a sidecar container") in
      if decide (ctr_Name container = Name cont) then
        if IsSidecar container then sidecar else Ok (mkContainer (wrapU 32 i) (Name cont))
      else if str_empty (Name cont) && (Index cont =? i)%Z then
        if IsSidecar container then sidecar else Ok (mkContainer (Index cont) (ctr_Name container))
      else find_container cont (i + 1) rest
  end.

Definition CheckPodContainer (pod : option Pod) (cont : option Container) : result Container :=
  match pod with
  | None => Err (MounterError ResultCode_Invalid "The target pod is empty")
  | Some pod =>
      match cont with
      | None =>
          match spec_Containers (pod_Spec pod) with
          | [c] => Ok (mkContainer 0 (ctr_Name c))
          | _ => Err (MounterError ResultCode_Invalid
                   "Pod has multiple containers, target container must be specified")
          end
      | Some cont => find_container cont 0 (spec_Containers (pod_Spec pod))
      end
  end.

(** The argument of [retry.OnError] throughout. *)
Definition not_NotFound (err : goerr) : bool := negb (IsNotFound err).

(** An error-only call, as a result. *)
Definition as_result (m : closure) : M (result unit) :=
  err <-- m ;; Done match err with Some err => Err err | None => Ok tt end.

(** *** Slave pods *)

(** [options] is reused by the loop, but every iteration sets the one field
    that varies. *)
Fixpoint GarbageCollectionPods (objKeys : list ObjectKey) : M (list ObjectKey) :=
  match objKeys with
  | [] => Done []
  | objKey :: rest =>
      err <-- retry_OnError not_NotFound
        (as_result (call (PodDelete (ok_Namespace objKey) (ok_Name objKey) (ok_UID objKey) 0))) ;;
      deleteFailed <-- GarbageCollectionPods rest ;;
      Done match err with
      | Ok _ => deleteFailed
      | Err err => if IsNotFound err then deleteFailed else objKey :: deleteFailed
      end
  end.

(** The variables the condition closure captures. *)
Record WaitState := mkWaitState { readySlavePods : list Pod; skipSlavePods : list Pod }.

(** The pod from the informer cache, else from the API server. *)
Definition get_slave_pod (slaveKey : ObjectKey) : M (result Pod) :=
  r <-- call (PodListerGet (ok_Namespace slaveKey) (ok_Name slaveKey)) ;;
  match r with
  | Ok slavePod => Done (Ok slavePod)
  | Err err =>
      if IsNotFound err then
        retry_OnError not_NotFound
          (call (PodGet (ok_Namespace slaveKey) (ok_Name slaveKey) ""))
      else Done (Err err)
  end.

(** One evaluation of the condition, over the keys still to be looked at. *)
Fixpoint wait_condition (deviceMounter : DeviceMounter) (slavePodKeys : list ObjectKey)
    (s : WaitState) : act (WaitState * result bool) :=
  match slavePodKeys with
  | [] => Done (Returns (s, Ok true))
  | slaveKey :: rest =>
      r <-- get_slave_pod slaveKey ;;
      match r with
      | Err err => Done (Returns (s, Err err))
      | Ok slavePod =>
          res <-? VerifySupportPodStatus deviceMounter slavePod ;;
          let '(statusCode, err) := res in
          if decide (statusCode = Success) then
            wait_condition deviceMounter rest
              (mkWaitState (readySlavePods s ++ [slavePod]) (skipSlavePods s))
          else if decide (statusCode = Wait) then
            Done (Returns (mkWaitState [] [], Ok false))
          else if decide (statusCode = Skip) then
            wait_condition deviceMounter rest
              (mkWaitState (readySlavePods s) (skipSlavePods s ++ [slavePod]))
          else if decide (statusCode = Unschedulable) then
            Done (Returns (s, Err (default
              (PlainError ("slave pod <" +:+ key_String slaveKey +:+ "> is not schedulable")) err)))
          else if decide (statusCode = Fail) then
            let text := "failed to verify slave pod <" +:+ key_String slaveKey +:+ "> status" in
            Done (Returns (s, Err match err with
              | None => PlainError text
              | Some err => if is_MounterError err then err else wrap_err (text +:+ ": ") err
              end))
          else Done (Returns (s, Err (PlainError
            ("the status return code of the position is incorrect: " +:+ Itoa statusCode))))
      end
  end.

(** A panic in the condition leaves the poll at once; its state is kept apart
    from the captured variables. *)
Definition poll_panic (condition : WaitState → act (WaitState * result bool))
    (s : WaitState * option string) : M ((WaitState * option string) * result bool) :=
  o <-- condition s.1 ;;
  Done match o with
  | Returns (s', r) => ((s', None), r)
  | Panics why => ((s.1, Some why), Ok true)
  end.

(** Ready pods, skipped pods and the error. *)
Definition WaitSupportPodsReady (deviceMounter : DeviceMounter) (slavePodKeys : list ObjectKey)
    : act (list Pod * list Pod * option goerr) :=
  res <-- PollUntilContextCancel (poll_panic (wait_condition deviceMounter slavePodKeys))
            (mkWaitState [] [], None) ;;
  let '((s, why), err) := res in
  Done match why with
  | Some why => Panics why
  | None => Returns (readySlavePods s, skipSlavePods s, err)
  end.

Definition slave_selector (ownerPod : Pod) (container : Container) : list (string * string) :=
  [(OwnerNameLabelKey, pod_Name ownerPod); (OwnerUidLabelKey, pod_UID ownerPod);
   (MountContainerLabelKey, Name container)].

Definition GetSlavePods (devType : string) (ownerPod : Pod) (container : Container)
    : M (result (list Pod)) :=
  pods <-! call (PodListerList (pod_Namespace ownerPod) (slave_selector ownerPod container)) ;;
  Done (Ok (filter (λ pod, pod_Annotations pod ≠ None ∧
                     map_str (pod_Annotations pod) DeviceTypeAnnotationKey = devType) pods)).

Definition CreatePodDisruptionBudget (ownerPod : Pod) : closure :=
  call (PdbCreate (pod_Namespace ownerPod)
    (mkPodDisruptionBudget (pod_Name ownerPod) (pod_Namespace ownerPod)
       (Some {[AppComponentLabelKey := CreateManagerBy; AppManagedByLabelKey := CreateManagerBy]})
       (Owner ownerPod true) 1
       (Some {[CreatedByLabelKey := map_str (pod_Labels ownerPod) CreatedByLabelKey]}))).

(** Newlines of the patch document. *)
Definition nl : string := String "010" "".

Definition PatchPod (pod : Pod) (patches : list string) : result Pod :=
  match patches with
  | [] => Ok pod
  | _ =>
      match Marshal pod with
      | Err err => Err (wrap_err "JSON serialization failed: " err)
      | Ok marshalledPod =>
      let jsonPatch := "[" +:+ nl +:+ Join patches ("," +:+ nl) +:+ nl +:+ "]" in
      match DecodePatch jsonPatch with
      | Err err => Err (wrap_err ("cannot decode pod patches " +:+ jsonPatch +:+ ": ") err)
      | Ok patch =>
      match patch_Apply patch marshalledPod with
      | Err err => Err (wrap_err ("failed to apply patch for Pod " +:+ jsonPatch +:+ ": ") err)
      | Ok modifiedMarshalledPod =>
      match Unmarshal modifiedMarshalledPod with
      | Err err => Err (wrap_err ("cannot unmarshal modified marshalled Pod " +:+
                                  modifiedMarshalledPod +:+ ": ") err)
      | Ok patchedPod => Ok patchedPod
      end end end end
  end.

(** The closure [getContainerId]. *)
Definition getContainerId (ownerPod : Pod) (container : Container) : string :=
  match GetContainerStatus ownerPod (Name container) with
  | Some status => cs_ContainerID status
  | None => ""
  end.

Definition set_all {V} (m : gomap V) (l : list (string * V)) : gomap V :=
  Some (foldl (λ m '(k, v), <[k := v]> m) (default ∅ m) l).

Definition MutationPodFunc (s : DeviceMounterServer) (devType : string) (container : Container)
    (ownerPod mutaPod : Pod) : M Pod :=
  uuid <-- call NewUUID ;;
  let meta := pod_Meta mutaPod in
  let spec := pod_Spec mutaPod in
  Done (mkPod
    (mkObjectMeta (meta_Name meta) (meta_GenerateName meta) (pod_Namespace ownerPod)
       (meta_UID meta) (meta_ResourceVersion meta)
       (set_all (meta_Labels meta)
          [(CreatedByLabelKey, uuid); (OwnerNameLabelKey, pod_Name ownerPod);
           (OwnerUidLabelKey, pod_UID ownerPod); (MountContainerLabelKey, Name container);
           (AppComponentLabelKey, CreateManagerBy); (AppManagedByLabelKey, CreateManagerBy)])
       (set_all (meta_Annotations meta)
          [(DeviceTypeAnnotationKey, devType);
           (ContainerIdAnnotationKey, getContainerId ownerPod container)])
       (Owner ownerPod false) false)
    (mkPodSpec (spec_NodeName spec) (spec_InitContainers spec)
       (map (λ c, mkPodContainer (ctr_Name c) DeviceSlaveContainerImageTag
                    DeviceSlaveImagePullPolicy (ctr_Command c) (ctr_Args c) (ctr_Env c)
                    (ctr_Limits c) (ctr_RestartPolicy c)) (spec_Containers spec))
       (set_all (spec_NodeSelector spec) [(LabelHostname, nodeName s)])
       (spec_SchedulerName spec) (spec_PriorityClassName spec) (spec_Priority spec)
       (spec_RestartPolicy spec) (Some 0%Z))
    (pod_Status mutaPod)).

(** *** The container's cgroup *)

Definition devices_dir : string := "/sys/fs/cgroup/devices".

Definition GetCGroupPath (pod : Pod) (container : Container) : act (result string) :=
  unified <-- call IsCgroup2UnifiedMode ;;
  getFullPath <--
    (if unified : bool then Done GetK8sPodCGroupFullPath else
     hybrid <-- call IsCgroup2HybridMode ;;
     if hybrid : bool then
       missing <-- PathIsNotExist devices_dir ;;
       Done (if missing : bool then GetK8sPodCGroupFullPath else GetK8sPodDeviceCGroupFullPath)
     else Done GetK8sPodDeviceCGroupFullPath) ;;
  match GetK8sPodCGroupPath pod container getFullPath with
  | Panics why => Done (Panics why)
  | Returns p => total p
  end.

(** Pids and path. *)
Definition GetContainerCGroupPathAndPids (pod : Pod) (container : Container)
    : act (result (list Z * string)) :=
  cgroupPath <-?! GetCGroupPath pod container ;;
  pids <-- call (GetAllPids cgroupPath) ;;
  Done (Returns match pids with
  | Err err => Err (wrap_err "error in obtaining container process id: " err)
  | Ok [] => Err (PlainError "process id for target container not found")
  | Ok pids => Ok (pids, cgroupPath)
  end).

(** Closer, rollback and error. [once] is the state of the BPF_F_REPLACE probe. *)
Definition DeviceRuleSetFunc (once : option bool) (cgroupPath : string) (r : Resources)
    : act (closure * closure * option goerr) :=
  let v1 :=
    res <-- SetDeviceRulesByCgroupv1 cgroupPath r ;;
    Done (Returns (NilCloser, res.1, res.2)) in
  match Devices r with
  | [] => Done (Returns (NilCloser, NilCloser, None))
  | _ =>
      unified <-- call IsCgroup2UnifiedMode ;;
      if unified : bool then SetDeviceRulesByCgroupv2 once cgroupPath r else
      hybrid <-- call IsCgroup2HybridMode ;;
      if hybrid : bool then
        missing <-- PathIsNotExist devices_dir ;;
        if missing : bool then SetDeviceRulesByCgroupv2 once cgroupPath r else v1
      else v1
  end.

(** *** Device files *)

(** Every file is tried; failures are ignored. *)
Fixpoint for_files (f : DeviceInfo → closure) (devInfos : list DeviceInfo) : M unit :=
  match devInfos with
  | [] => Done tt
  | devInfo :: rest => _ <-- f devInfo ;; for_files f rest
  end.

(** A rollback tries every file and returns the error of the last one. *)
Fixpoint rollback_files (f : DeviceInfo → closure) (devInfos : list DeviceInfo)
    (err : option goerr) : closure :=
  match devInfos with
  | [] => Done err
  | devInfo :: rest => err <-- f devInfo ;; rollback_files f rest err
  end.

Definition CreateDeviceFiles (cfg : option Config) (devInfos : list DeviceInfo)
    : M (closure * option goerr) :=
  match cfg with
  | None => Done (NilCloser, Some (PlainError "nsenter config cannot be empty"))
  | Some cfg =>
      _ <-- for_files (AddDeviceFile cfg) devInfos ;;
      Done (rollback_files (λ devInfo, RemoveDeviceFile cfg (set_Allow false devInfo))
              devInfos None, None)
  end.

Definition DeleteDeviceFiles (cfg : option Config) (devInfos : list DeviceInfo)
    : M (closure * option goerr) :=
  match cfg with
  | None => Done (NilCloser, Some (PlainError "nsenter config cannot be empty"))
  | Some cfg =>
      _ <-- for_files (RemoveDeviceFile cfg) devInfos ;;
      Done (rollback_files (λ devInfo, AddDeviceFile cfg (set_Allow true devInfo))
              devInfos None, None)
  end.

(** *** The target pod *)

Definition GetTargetPod (s : DeviceMounterServer) (name namespace : string) : M (result Pod) :=
  pod <-! retry_OnError not_NotFound (call (PodGet namespace name "0")) ;;
  if decide (spec_NodeName (pod_Spec pod) ≠ nodeName s)
  then Done (Err (PlainError ("target pod is not running on the node <" +:+ nodeName s +:+ ">")))
  else Done (Ok pod).

(** ** Properties *)

Lemma find_container_spec cont i containers c :
  (0 ≤ i)%Z → (i + Z.of_nat (length containers) ≤ 2 ^ 32)%Z →
  find_container cont i containers = Ok c →
  ∃ j pc, containers !! j = Some pc ∧ Index c = (i + Z.of_nat j)%Z ∧ ctr_Name pc = Name c ∧
    IsSidecar pc = false ∧ (Name c = Name cont ∨ Name cont = "" ∧ Index c = Index cont).
Proof.
  revert i. induction containers as [|pc rest IH]; intros i Hi Hlen; simpl; [done|].
  simpl in Hlen. case_decide as Hname; [|destruct (str_empty _ && _) eqn:Hidx].
  - destruct (IsSidecar pc) eqn:Hs; [done|]. intros [= <-]. exists 0%nat, pc. simpl.
    rewrite wrapU_small by lia. repeat split; auto with lia.
  - destruct (IsSidecar pc) eqn:Hs; [done|]. intros [= <-]. exists 0%nat, pc. simpl.
    apply andb_true_iff in Hidx as [He%bool_decide_eq_true Hi'%Z.eqb_eq].
    repeat split; auto with lia.
  - intros Hc. destruct (IH (i + 1)%Z) as (j & pc' & Hj & Hix & Hrest); [lia..|done|].
    exists (S j), pc'. simpl. split; [done|]. split; [lia | done].
Qed.

(** The container a request is resolved to exists in the pod at the index
    and under the name reported, is not a sidecar, and is the one asked for: by
    its name, or by its index when the request names none. *)
Theorem CheckPodContainer_spec pod cont c :
  (Z.of_nat (length (spec_Containers (pod_Spec pod))) ≤ 2 ^ 32)%Z →
  CheckPodContainer (Some pod) (Some cont) = Ok c →
  ∃ pc, spec_Containers (pod_Spec pod) !! Z.to_nat (Index c) = Some pc ∧
    ctr_Name pc = Name c ∧ IsSidecar pc = false ∧
    (Name c = Name cont ∨ Name cont = "" ∧ Index c = Index cont).
Proof.
  intros Hlen Hc. simpl in Hc.
  apply find_container_spec in Hc as (j & pc & Hj & Hix & ? & ? & ?); [|lia..].
  exists pc. replace (Z.to_nat (Index c)) with j by lia. done.
Qed.

Lemma map_get_set_all {V} (m : gomap V) l k :
  map_get (set_all m l) k =
    foldl (λ old '(k', v), if decide (k' = k) then Some v else old) (map_get m k) l.
Proof.
  unfold set_all. cbn [map_get].
  assert (map_get m k = default ∅ m !! k) as -> by (destruct m; simpl; [done|by rewrite lookup_empty]).
  generalize (default ∅ m) as m'. induction l as [|[k' v] l IH]; intros m'; simpl; [done|].
  rewrite IH. f_equal. rewrite lookup_insert. done.
Qed.

(** Does the pod carry the labels of a selector? *)
Definition selected (selector : list (string * string)) (pod : Pod) : Prop :=
  Forall (λ '(k, v), map_get (pod_Labels pod) k = Some v) selector.

#[global] Instance selected_dec selector pod : Decision (selected selector pod).
Proof. apply Forall_dec. intros [k v]. apply _. Defined.

(** The informer's cache holds [pods]. *)
Definition lists (pods : list Pod) (e : env) : Prop := ∀ h ns selector,
  e h (PodListerList ns selector) = Ok (filter (λ pod, pod_Namespace pod = ns ∧ selected selector pod) pods).

(** C36. Whatever a request's patches made of a slave pod, after [MutationPodFunc]
    it is in the owner's namespace, pinned to this node, its containers have the
    configured image and it ends without grace; its init containers are those of
    the patches; it is owned by the target pod; and once the informer's cache
    holds it, [GetSlavePods] finds it for the same type, pod and container. *)
Theorem MutationPodFunc_enforces s devType container ownerPod mutaPod e h :
  wp e h (MutationPodFunc s devType container ownerPod mutaPod) (λ pod _,
    pod_Namespace pod = pod_Namespace ownerPod ∧
    map_get (spec_NodeSelector (pod_Spec pod)) LabelHostname = Some (nodeName s) ∧
    Forall (λ c, ctr_Image c = DeviceSlaveContainerImageTag ∧
                 ctr_ImagePullPolicy c = DeviceSlaveImagePullPolicy) (spec_Containers (pod_Spec pod)) ∧
    spec_TerminationGracePeriodSeconds (pod_Spec pod) = Some 0%Z ∧
    spec_InitContainers (pod_Spec pod) = spec_InitContainers (pod_Spec mutaPod) ∧
    meta_OwnerReferences (pod_Meta pod) = Owner ownerPod false ∧
    ∀ pods e' h', lists pods e' → pod ∈ pods →
      wp e' h' (GetSlavePods devType ownerPod container) (λ r _, ∃ slaves, r = Ok slaves ∧ pod ∈ slaves)).
Proof.
  unfold MutationPodFunc. repeat wp_step.
  split; [done|]. split; [cbn [pod_Spec spec_NodeSelector]; by rewrite map_get_set_all|].
  split; [by apply Forall_fmap, Forall_true|]. do 3 (split; [done|]).
  intros pods e' h' Hlists Hpods. unfold GetSlavePods. wp_step. apply wp_vis_at.
  rewrite Hlists. do 2 wp_step. eexists. split; [done|].
  apply list_elem_of_filter. split; [|apply list_elem_of_filter; split; [split; [done|]|exact Hpods]].
  - split; [done|]. unfold map_str, pod_Annotations. cbn [pod_Meta meta_Annotations]. by rewrite map_get_set_all.
  - unfold selected, slave_selector. repeat constructor; unfold pod_Labels; cbn [pod_Meta meta_Labels];
      by rewrite map_get_set_all.
Qed.

(** *** Deleting pods *)

Context `{!ClientLaws}.

(** Some attempt to delete the pod of [key] was answered by [err]. *)
Definition delete_answered (key : ObjectKey) (err : option goerr) (t : trace) : Prop :=
  Ev (PodDelete (ok_Namespace key) (ok_Name key) (ok_UID key) 0) err ∈ t.

Lemma delete_wp key e h :
  wp e h (retry_OnError not_NotFound
      (as_result (call (PodDelete (ok_Namespace key) (ok_Name key) (ok_UID key) 0))))
    (λ r t, delete_answered key (err_of r) t).
Proof.
  apply retry_wp.
  - intros h'. unfold as_result. repeat wp_step. unfold delete_answered.
    destruct r as [err|]; simpl; set_solver.
  - unfold delete_answered. set_solver.
Qed.

Lemma GarbageCollectionPods_wp keys e h :
  wp e h (GarbageCollectionPods keys) (λ failed t,
    (∀ key, key ∈ keys → ∃ err, delete_answered key err t) ∧
    (∀ key, key ∈ failed → key ∈ keys) ∧
    (∀ key, key ∈ keys → key ∉ failed →
       delete_answered key None t ∨
       ∃ err, IsNotFound err = true ∧ delete_answered key (Some err) t)).
Proof.
  revert h. induction keys as [|key keys IH]; intros h; simpl; [wp_step; set_solver|].
  wp_step. eapply wp_mono; [|apply delete_wp]. intros r t Ht.
  wp_step. eapply wp_mono; [|apply IH]. intros failed t' (Hall & Hin & Hgone).
  wp_step. rewrite app_nil_r.
  assert (∀ k err, delete_answered k err t ∨ delete_answered k err t' →
    delete_answered k err (t ++ t')) as Happ by (unfold delete_answered; set_solver).
  split; [|split].
  - intros k [->|Hk]%elem_of_cons; [exists (err_of r); auto|].
    destruct (Hall k Hk) as [err ?]. exists err. auto.
  - intros k. destruct r as [|err]; [set_solver|]. destruct (IsNotFound err); set_solver.
  - intros k Hk Hnot. destruct (decide (k ∈ keys)) as [Hk'|Hk'].
    + assert (k ∉ failed) as Hf by (destruct r as [|err]; [done|]; destruct (IsNotFound err); set_solver).
      destruct (Hgone k Hk' Hf) as [?|(err & ? & ?)]; [left | right; exists err]; auto.
    + apply elem_of_cons in Hk as [->|]; [|done]. destruct r as [|err]; simpl in Ht; [left; auto|].
      destruct (IsNotFound err) eqn:He; [right; exists err; auto | set_solver].
Qed.

(** [GarbageCollectionPods] tries to delete every pod it is given, with the
    uid as precondition, and returns keys of exactly the kind it was given: a
    key missing from the answer was deleted or already gone. *)
Theorem GarbageCollectionPods_spec keys e h :
  wp e h (GarbageCollectionPods keys) (λ failed t,
    (∀ key, key ∈ keys → ∃ err, delete_answered key err t) ∧
    (∀ key, key ∈ failed → key ∈ keys) ∧
    (∀ key, key ∈ keys → key ∉ failed →
       delete_answered key None t ∨
       ∃ err, IsNotFound err = true ∧ delete_answered key (Some err) t)).
Proof. apply GarbageCollectionPods_wp. Qed.

(** *** Waiting for the slave pods *)

Definition judged (verify : Pod → StatusCode * option goerr) (code : StatusCode) (p : Pod) : Prop :=
  (verify p).1 = code.

(** Between [s] and [s'], [n] pods were judged ready or skippable. *)
Definition wait_progress (verify : Pod → StatusCode * option goerr) (n : nat)
    (s s' : WaitState) : Prop :=
  ∃ ready skip, readySlavePods s' = readySlavePods s ++ ready ∧
    skipSlavePods s' = skipSlavePods s ++ skip ∧ length ready + length skip = n ∧
    Forall (judged verify Success) ready ∧ Forall (judged verify Skip) skip.

Lemma wait_condition_wp m verify keys s e h :
  (∀ p, VerifySupportPodStatus m p = Done (Returns (verify p))) →
  wp e h (wait_condition m keys s) (λ o _, match o with
    | Returns (s', Ok true) => wait_progress verify (length keys) s s'
    | Returns (s', Ok false) => s' = mkWaitState [] []
    | Returns (_, Err _) => True
    | Panics _ => False
    end).
Proof.
  intros Hv. revert s h.
  induction keys as [|key keys IH]; intros s h; cbn [wait_condition length].
  { wp_step. exists [], []. by rewrite !app_nil_r. }
  wp_step. eapply wp_mono; [|apply wp_true]. intros [pod|err] t _; [|by wp_step].
  cbn beta iota. rewrite Hv. wp_step. wp_step. destruct (verify pod) as [code err] eqn:Hpod.
  cbn beta iota. repeat case_decide; try by wp_step.
  - eapply wp_mono; [|apply IH]. intros [[s' [[]|]]|] t'; try done.
    intros (ready & skip & Hr & Hs & Hn & ? & ?). exists (pod :: ready), skip.
    simpl in Hr, Hs. split_and!; [by rewrite Hr, <- ?app_assoc | by rewrite Hs, <- ?app_assoc |
      simpl; lia | | ]; try done.
    constructor; [|done]. unfold judged. by rewrite Hpod.
  - eapply wp_mono; [|apply IH]. intros [[s' [[]|]]|] t'; try done.
    intros (ready & skip & Hr & Hs & Hn & ? & ?). exists ready, (pod :: skip).
    simpl in Hr, Hs. split_and!; [by rewrite Hr, <- ?app_assoc | by rewrite Hs, <- ?app_assoc |
      simpl; lia | | ]; try done.
    constructor; [|done]. unfold judged. by rewrite Hpod.
Qed.

(** When the wait for the slave pods ends without an error, every pod of the
    request has been judged in the last poll: exactly one verdict for each, the
    ready ones all Success and the skipped ones all Skip, with nothing left over
    from polls that had to wait. *)
Theorem WaitSupportPodsReady_complete m verify keys e h :
  (∀ p, VerifySupportPodStatus m p = Done (Returns (verify p))) →
  wp e h (WaitSupportPodsReady m keys) (λ o _, ∃ ready skip err,
    o = Returns (ready, skip, err) ∧
    (err = None → length ready + length skip = length keys ∧
       Forall (judged verify Success) ready ∧ Forall (judged verify Skip) skip)).
Proof.
  intros Hv. unfold WaitSupportPodsReady. wp_step.
  set (Q := λ (s : WaitState * option string) (err : option goerr),
    s.2 = None ∧ (err = None → wait_progress verify (length keys) (mkWaitState [] []) s.1)).
  eapply (wp_mono _ _ _ (λ '(s, err) _, Q s err)).
  { intros [[s why] err] t [Hwhy Hok]. simpl in Hwhy, Hok. subst why. wp_step.
    do 3 eexists. split; [reflexivity|]. intros Hn.
    destruct (Hok Hn) as (ready & skip & Hr & Hs & ? & ? & ?). simpl in Hr, Hs.
    by rewrite Hr, Hs. }
  apply (poll_wp _ _ _ _ (λ s, s = (mkWaitState [] [], None)) Q); [done| |].
  - intros s h' ->. unfold poll_panic. wp_step.
    eapply wp_mono; [|by apply wait_condition_wp]. simpl.
    intros [[s' [[]|err]]|] t Hc; wp_step; [by split | by rewrite Hc | by split | done].
  - intros s err ->. by split.
Qed.

(** *** Device files *)

(** The command lines of the processes started. *)
Definition execs (t : trace) : list (list string) :=
  omap (λ ev, match ev_cmd ev with Exec argv => Some argv | _ => None end) t.

Lemma execs_app t1 t2 : execs (t1 ++ t2) = execs t1 ++ execs t2.
Proof. apply omap_app. Qed.

Lemma sh_execs e h pid command :
  pid ≠ 0%Z →
  wp e h (sh (mount_config pid) command) (λ _ t, execs t = [mount_sh pid command]).
Proof.
  intros Hpid. eapply wp_mono; [|by apply sh_mount_wp]. by intros err t (r & -> & _).
Qed.

Definition rm_cmd (d : DeviceInfo) : string := "rm " +:+ DeviceFilePath d.

(** A loop over devices that runs one command for each that [p] selects. *)
Lemma for_files_execs f p command pid devs e h :
  (∀ d e h, wp e h (f d) (λ _ t, execs t = if p d : bool then [mount_sh pid (command d)] else [])) →
  wp e h (for_files f devs) (λ _ t, execs t = map (λ d, mount_sh pid (command d)) (filter p devs)).
Proof.
  intros Hf. revert h. induction devs as [|d devs IH]; intros h; simpl; [by wp_step|].
  wp_step. eapply wp_mono; [|apply Hf]. intros v t Ht.
  eapply wp_mono; [|apply IH]. simpl. intros v' t' Ht'. rewrite execs_app, Ht, Ht'.
  destruct (p d) eqn:Hp; [rewrite filter_cons_True by (by rewrite Hp) |
    rewrite filter_cons_False by (rewrite Hp; intros [])]; done.
Qed.

Lemma rollback_files_execs f command pid devs err e h :
  (∀ d e h, wp e h (f d) (λ _ t, execs t = [mount_sh pid (command d)])) →
  wp e h (rollback_files f devs err) (λ _ t, execs t = map (λ d, mount_sh pid (command d)) devs).
Proof.
  intros Hf. revert h err. induction devs as [|d devs IH]; intros h err; simpl; [by wp_step|].
  wp_step. eapply wp_mono; [|apply Hf]. intros err' t Ht.
  eapply wp_mono; [|apply IH]. simpl. intros v' t' Ht'. by rewrite execs_app, Ht, Ht'.
Qed.

(** Making the device files and rolling them back. *)
Definition files_then_rollback (files : M (closure * option goerr)) : M (option goerr) :=
  res <-- files ;;
  _ <-- res.1 ;;
  Done res.2.

(** Creating device files runs one mknod in the container for each allowed
    device and reports no error whatever the commands answer; its rollback runs
    rm for every device of the list, so also for files that it did not create. *)
Theorem CreateDeviceFiles_rollback pid devs e h :
  pid ≠ 0%Z →
  wp e h (files_then_rollback (CreateDeviceFiles (Some (mount_config pid)) devs)) (λ err t,
    err = None ∧
    execs t = map (λ d, mount_sh pid (mknod_cmd d)) (filter (λ d, Allow (di_Rule d)) devs) ++
              map (λ d, mount_sh pid (rm_cmd d)) devs).
Proof.
  intros Hpid. unfold files_then_rollback, CreateDeviceFiles. repeat wp_step.
  eapply wp_mono; [|apply (for_files_execs _ (λ d, Allow (di_Rule d)) mknod_cmd pid)].
  - intros v t Ht. repeat wp_step. cbn [fst snd].
    eapply wp_mono; [|apply (rollback_files_execs _ rm_cmd pid)].
    + intros v' t' Ht'. wp_step. split; [done|]. by rewrite !app_nil_r, execs_app, Ht, Ht'.
    + intros d e' h'. unfold RemoveDeviceFile. simpl. by apply sh_execs.
  - intros d e' h'. unfold AddDeviceFile. destruct (Allow (di_Rule d)); simpl; [|by wp_step].
    by apply sh_execs.
Qed.

End Server.

(** ** Witnesses *)

#[local] Instance bounded_lib : ClientLib := bounded 4.
#[local] Instance bounded_lib_laws : ClientLaws := bounded_laws 4.

Definition two_container_pod : Pod :=
  mkPod (mkObjectMeta "cuda" "" "default" "u-1" "" None None [] false)
    (mkPodSpec "node-1" []
       [mkPodContainer "main" "" "" [] [] [] ∅ None; mkPodContainer "side" "" "" [] [] [] ∅ None]
       None "" "" None "" None)
    emptyStatus.

(** The texts a message may print are irrelevant to the witnesses. *)
Definition no_json : JsonLib := {|
  Patch := unit;
  Marshal _ := Ok "{}";
  DecodePatch _ := Ok tt;
  patch_Apply _ s := Ok s;
  Unmarshal _ := Ok emptyPod;
  Container_String c := Name c |}.

Lemma CheckPodContainer_spec_witness :
  ∃ pc, spec_Containers (pod_Spec two_container_pod) !! Z.to_nat (Index (mkContainer 1 "side")) = Some pc ∧
    ctr_Name pc = Name (mkContainer 1 "side") ∧ IsSidecar pc = false ∧
    (Name (mkContainer 1 "side") = Name (mkContainer 1 "") ∨
     Name (mkContainer 1 "") = "" ∧ Index (mkContainer 1 "side") = Index (mkContainer 1 "")).
Proof.
  apply (@CheckPodContainer_spec no_json two_container_pod (mkContainer 1 "") (mkContainer 1 "side")).
  - vm_compute. discriminate.
  - reflexivity.
Defined.

Lemma GarbageCollectionPods_spec_witness :
  let keys := [mkObjectKey "default" "cuda-device-slave-x" (Some "u-2")] in
  wp (λ _ c, default_reply c) [] (GarbageCollectionPods keys) (λ failed t,
    (∀ key, key ∈ keys → ∃ err, delete_answered key err t) ∧
    (∀ key, key ∈ failed → key ∈ keys) ∧
    (∀ key, key ∈ keys → key ∉ failed →
       delete_answered key None t ∨
       ∃ err, IsNotFound err = true ∧ delete_answered key (Some err) t)).
Proof. apply (GarbageCollectionPods_spec [mkObjectKey "default" "cuda-device-slave-x" (Some "u-2")]). Defined.

(** The informer cache knows a pod under every name. *)
Definition cached_env : env := λ _ c,
  match c return reply c with
  | PodListerGet _ _ => Ok two_container_pod
  | c => default_reply c
  end.

Lemma WaitSupportPodsReady_complete_witness :
  let verify := λ _ : Pod, (Success, None : option goerr) in
  wp cached_env [] (WaitSupportPodsReady (inert_mounter "X") [mkObjectKey "default" "s" None])
    (λ o _, ∃ ready skip err, o = Returns (ready, skip, err) ∧
      (err = None → length ready + length skip = 1 ∧
       Forall (judged verify Success) ready ∧ Forall (judged verify Skip) skip)).
Proof.
  apply (WaitSupportPodsReady_complete (inert_mounter "X") (λ _ : Pod, (Success, None))
    [mkObjectKey "default" "s" None]).
  reflexivity.
Defined.

Lemma CreateDeviceFiles_rollback_witness :
  let devs := [mkDeviceInfo (mkRule CharDevice 195 0 "rw" true) "GPU-0" "/dev/nvidia0"] in
  wp (λ _ c, default_reply c) []
    (files_then_rollback (CreateDeviceFiles (Some (mount_config 42)) devs)) (λ err t,
    err = None ∧
    execs t = map (λ d, mount_sh 42 (mknod_cmd d)) (filter (λ d, Allow (di_Rule d)) devs) ++
              map (λ d, mount_sh 42 (rm_cmd d)) devs).
Proof.
  apply (CreateDeviceFiles_rollback 42
    [mkDeviceInfo (mkRule CharDevice 195 0 "rw" true) "GPU-0" "/dev/nvidia0"]).
  discriminate.
Defined.
