(* ===== verification/Server.v ===== *)
(** * The mounter server ([pkg/server/mounter/server.go])

    [MountDevice] and [UnMountDevice] with their deferred functions. A handler
    runs in the monad [att]: it may stop with the values its named results have
    at a [return], may panic, and keeps the closures that the deferred rollback
    will find ([Cleanup]). *)
From stdpp Require Import base gmap strings list.
From Stdlib Require Import ZArith Lia Ascii.
From S2P Require Import Prelude GoStrings Api Ebpf World Util Cgroup CgroupV2 Framework MounterUtil.

(** The named results [resp] and [err]. *)
Definition Exit : Type := option DeviceResponse * option goerr.

(** The variables [rollbackFiles], [rollbackRules] and [closedFd]; nil at first. *)
Record Cleanup := mkCleanup {
  rollbackFiles : option closure;
  rollbackRules : option closure;
  closedFd : option closure }.

Definition no_cleanup : Cleanup := mkCleanup None None None.

Definition att A : Type := Cleanup → M (Cleanup * outcome (Exit + A)).

Definition att_ret {A} (a : A) : att A := λ c, Done (c, Returns (inr a)).

Definition stop {A} (x : Exit) : att A := λ c, Done (c, Returns (inl x)).

Definition att_bind {A B} (m : att A) (f : A → att B) : att B := λ c,
  r <-- m c ;;
  let '(c', o) := r in
  match o with
  | Returns (inr a) => f a c'
  | Returns (inl x) => Done (c', Returns (inl x))
  | Panics why => Done (c', Panics why)
  end.

Notation "x <-% m ;; k" := (att_bind m (λ x, k))
  (at level 100, m at next level, k at level 200, right associativity) : go_scope.

(** A step that may panic. *)
Definition run_act {A} (m : act A) : att A := λ c,
  o <-- m ;;
  Done (c, match o with Returns a => Returns (inr a) | Panics why => Panics why end).

Definition run_m {A} (m : M A) : att A := run_act (total m).

(** [if err != nil { return }]. *)
Definition check {A} (r : result A) : att A :=
  match r with Ok a => att_ret a | Err err => stop (None, Some err) end.

Definition check_err (err : option goerr) : att unit :=
  match err with None => att_ret tt | Some err => stop (None, Some err) end.

Definition not_found_response (err : goerr) : DeviceResponse :=
  mkDeviceResponse ResultCode_NotFound (Error err).

(** [if apierror.IsNotFound(err) { resp = ...; return } else if err != nil { return }]. *)
Definition check_found {A} (r : result A) : att A :=
  match r with
  | Ok a => att_ret a
  | Err err =>
      if IsNotFound err then stop (Some (not_found_response err), Some err)
      else stop (None, Some err)
  end.

(** [if _, ok = err.( *api.MounterError); !ok { err = fmt.Errorf(...) }]. *)
Definition keep_mounter_error (prefix : string) (err : goerr) : goerr :=
  if is_MounterError err then err else wrap_err prefix err.

Definition set_cleanup (f : Cleanup → Cleanup) : att unit := λ c, Done (f c, Returns (inr tt)).

Definition error_response (err : goerr) : DeviceResponse :=
  match err with
  | MounterError code message => mkDeviceResponse code message
  | _ => mkDeviceResponse ResultCode_Fail (Error err)
  end.

(** The first deferred function, on the named results. *)
Definition respond (x : Exit) : Exit :=
  let '(resp, err) := x in
  let resp :=
    match err, resp with Some err, None => Some (error_response err) | _, _ => resp end in
  match resp with Some _ => (resp, None) | None => (resp, err) end.

(** [resource.ParseQuantity]. *)
Class QuantityLib := { ParseQuantity : string → result Quantity }.

(** A call through a variable that may be nil. *)
Definition call_closure (f : option closure) : M unit :=
  match f with None => Done tt | Some f => _ <-- f ;; Done tt end.

Section Server.
Context `{ClientLib, Settings, CgroupLib, EmulatorLib, AsmLib, JsonLib, QuantityLib, RangeLib}.
(** The registered mounters and the state of the BPF_F_REPLACE probe. *)
Context (registry : Registry) (once : option bool).

(** ** Steps shared by the handlers *)

Fixpoint parse_resources (l : list (string * string)) (resources : gmap string Quantity)
    : result (gmap string Quantity) :=
  match l with
  | [] => Ok resources
  | (key, val) :: rest =>
      quantity ← ParseQuantity val;
      parse_resources rest (<[key := quantity]> resources)
  end.

Definition find_mounter (deviceType : string) (requested : string) : att DeviceMounter :=
  match GetDeviceMounter registry deviceType with
  | Some deviceMounter => att_ret deviceMounter
  | None => stop (None, Some (PlainError ("Unsupported device type: " +:+ requested)))
  end.

(** The target pod, the container in it and the mounter: the head of both. *)
Definition find_target (s : DeviceMounterServer) (podName podNamespace : string)
    (cont : option Container) (type : string)
    : att (Pod * Container * string * DeviceMounter) :=
  r <-% run_m (GetTargetPod s podName podNamespace) ;;
  pod <-% check_found r ;;
  container <-% check (CheckPodContainer (Some pod) cont) ;;
  _ <-% check_err (CheckPodContainerStatus pod container) ;;
  let deviceType := ToUpper type in
  deviceMounter <-% find_mounter deviceType type ;;
  att_ret (pod, container, deviceType, deviceMounter).

(** ** MountDevice *)

(** The loop that patches and labels the templates. *)
Fixpoint finish_templates (s : DeviceMounterServer) (deviceType : string) (container : Container)
    (pod : Pod) (patches : list string) (slavePods : list Pod) : M (result (list Pod)) :=
  match slavePods with
  | [] => Done (Ok [])
  | slavePod :: rest =>
      match PatchPod slavePod patches with
      | Err err => Done (Err err)
      | Ok targetPod =>
          targetPod <-- MutationPodFunc s deviceType container pod targetPod ;;
          rest <-! finish_templates s deviceType container pod patches rest ;;
          Done (Ok (targetPod :: rest))
      end
  end.

Record Prepared := mkPrepared {
  p_pod : Pod;
  p_container : Container;
  p_deviceType : string;
  p_mounter : DeviceMounter;
  p_slavePods : list Pod }.

(** Everything before the first slave pod is created. *)
Definition mount_prepare (s : DeviceMounterServer) (req : MountDeviceRequest) : att Prepared :=
  req <-% check (CheckMountDeviceRequest req) ;;
  target <-% find_target s (mr_PodName req) (mr_PodNamespace req) (mr_Container req)
               (mr_DeviceType req) ;;
  let '(pod, container, deviceType, deviceMounter) := target in
  resources <-% check (parse_resources (range (default ∅ (mr_Resources req))) ∅) ;;
  r <-% run_m (call (NodeListerGet (nodeName s))) ;;
  node <-% check_found r ;;
  err <-% run_act (ValidateMountRequest deviceMounter node pod container resources
                     (mr_Annotations req) (mr_Labels req)) ;;
  _ <-% check_err err ;;
  r <-% run_m (GetSlavePods deviceType pod container) ;;
  slavePods <-% check_found r ;;
  r <-% run_act (BuildSupportPodTemplates deviceMounter pod container resources
                   (mr_Annotations req) (mr_Labels req) slavePods) ;;
  slavePods <-% check r ;;
  r <-% run_m (finish_templates s deviceType container pod (mr_Patches req) slavePods) ;;
  slavePods <-% check r ;;
  att_ret (mkPrepared pod container deviceType deviceMounter slavePods).

(** The creation loop: the keys of the pods created, and the error that ended it. *)
Fixpoint create_pods (slavePods : list Pod) : M (list ObjectKey * option goerr) :=
  match slavePods with
  | [] => Done ([], None)
  | slavePod :: rest =>
      r <-- call (PodCreate (pod_Namespace slavePod) slavePod) ;;
      match r with
      | Err err => Done ([], Some err)
      | Ok slavePod =>
          _ <-- CreatePodDisruptionBudget slavePod ;;
          r <-- create_pods rest ;;
          let '(slavePodKeys, err) := r in
          Done (ObjectKeyFromObject (pod_Meta slavePod) :: slavePodKeys, err)
      end
  end.

(** The text of [%v] of an error that may be nil. *)
Definition err_text (err : option goerr) : string :=
  match err with Some err => Error err | None => "<nil>" end.

(** Everything after the deferred rollback is registered. *)
Definition mount_attempt (p : Prepared) (slavePodKeys : list ObjectKey)
    (create_err : option goerr) : att Exit :=
  let '(mkPrepared pod container deviceType deviceMounter _) := p in
  _ <-% (if bool_decide (create_err ≠ None) || bool_decide (slavePodKeys = [])
         then stop (None, Some (PlainError
                ("Device slave pod creation failed: " +:+ err_text create_err)))
         else att_ret tt) ;;
  waited <-% run_act (WaitSupportPodsReady deviceMounter slavePodKeys) ;;
  let '(readyPods, skipPods, err) := waited in
  _ <-% check_err err ;;
  _ <-% (if bool_decide (readyPods = [])
         then stop (None, Some (PlainError "waiting for device pod to be ready failed"))
         else att_ret tt) ;;
  r <-% run_act (GetDeviceInfosToMount deviceMounter pod container readyPods) ;;
  deviceInfos <-% match r with
    | Ok deviceInfos => att_ret deviceInfos
    | Err err => stop (None, Some (keep_mounter_error "failed to detect mount device info: " err))
    end ;;
  r <-% run_act (GetContainerCGroupPathAndPids pod container) ;;
  pids_path <-% check r ;;
  let '(pids, cgroupPath) := pids_path in
  set <-% run_act (DeviceRuleSetFunc once cgroupPath (mkResources false (map di_Rule deviceInfos))) ;;
  let '(closed, rollback, err) := set in
  _ <-% set_cleanup (λ c, mkCleanup (rollbackFiles c) (Some rollback) (Some closed)) ;;
  _ <-% match err with
    | None => att_ret tt
    | Some err => stop (None, Some
        (wrap_err "failed to set access permissions for cgroup devices: " err))
    end ;;
  pid <-% run_act (pure (slice_get pids 0)) ;;
  let config := mount_config pid in
  files <-% run_m (CreateDeviceFiles (Some config) deviceInfos) ;;
  let '(rollback, err) := files in
  _ <-% set_cleanup (λ c, mkCleanup (Some rollback) (rollbackRules c) (closedFd c)) ;;
  _ <-% match err with
    | None => att_ret tt
    | Some err => stop (None, Some (wrap_err "failed to create devic files: " err))
    end ;;
  err <-% run_act (ExecutePostMountActions deviceMounter config pod container readyPods) ;;
  _ <-% match err with
    | None => att_ret tt
    | Some err => stop (None, Some (keep_mounter_error "failed to execute post mount actions: " err))
    end ;;
  _ <-% run_m (GarbageCollectionPods (map (λ p, ObjectKeyFromObject (pod_Meta p)) skipPods)) ;;
  let message := "Successfully mounted " +:+ deviceType +:+ " devices" in
  _ <-% run_m (call (RecordEvent (ObjectKeyFromObject (pod_Meta pod)) "Normal" "MountDevice" message)) ;;
  att_ret (Some (mkDeviceResponse ResultCode_Success message), None).

(** The error variable when a deferred function runs: a panic finds it nil,
    because every error has been checked. *)
Definition exit_of (o : outcome (Exit + Exit)) : outcome Exit :=
  match o with
  | Returns (inl x) => Returns x
  | Returns (inr x) => Returns x
  | Panics why => Panics why
  end.

Definition pending_err (o : outcome Exit) : option goerr :=
  match o with Returns (_, err) => err | Panics _ => None end.

(** The deferred rollback of [MountDevice]. *)
Definition mount_cleanup (c : Cleanup) (err : option goerr) (slavePodKeys : list ObjectKey) : M unit :=
  _ <-- match err with
    | None => Done tt
    | Some _ =>
        _ <-- call_closure (rollbackFiles c) ;;
        _ <-- call_closure (rollbackRules c) ;;
        _ <-- GarbageCollectionPods slavePodKeys ;;
        Done tt
    end ;;
  call_closure (closedFd c).

Definition MountDevice (s : DeviceMounterServer) (req : MountDeviceRequest) : act Exit :=
  prep <-- mount_prepare s req no_cleanup ;;
  match prep with
  | (_, Panics why) => Done (Panics why)
  | (_, Returns (inl x)) => Done (Returns (respond x))
  | (_, Returns (inr p)) =>
      created <-- create_pods (p_slavePods p) ;;
      let '(slavePodKeys, create_err) := created in
      res <-- mount_attempt p slavePodKeys create_err no_cleanup ;;
      let '(c, o) := res in
      let o := exit_of o in
      _ <-- mount_cleanup c (pending_err o) slavePodKeys ;;
      Done (match o with Returns x => Returns (respond x) | Panics why => Panics why end)
  end.

(** ** UnMountDevice *)

Record Unmounting := mkUnmounting {
  u_pod : Pod;
  u_container : Container;
  u_deviceType : string;
  u_mounter : DeviceMounter;
  u_slavePods : list Pod;
  u_deviceInfos : list DeviceInfo;
  u_config : Config;
  u_err : option goerr }.

(** Up to the change of the device rules, whose error is checked only after the
    deferred rollback is registered. *)
Definition unmount_prepare (s : DeviceMounterServer) (req : UnMountDeviceRequest) : att Unmounting :=
  req <-% check (CheckUnMountDeviceRequest req) ;;
  target <-% find_target s (ur_PodName req) (ur_PodNamespace req) (ur_Container req)
               (ur_DeviceType req) ;;
  let '(pod, container, deviceType, deviceMounter) := target in
  r <-% run_m (GetSlavePods deviceType pod container) ;;
  slavePods <-% check_found r ;;
  _ <-% (if bool_decide (slavePods = [])
         then stop (None, Some (MounterError ResultCode_NotFound "No device found for uninstallation"))
         else att_ret tt) ;;
  r <-% run_act (GetDeviceInfosToUnmount deviceMounter pod container slavePods) ;;
  deviceInfos <-% match r with
    | Ok deviceInfos => att_ret deviceInfos
    | Err err => stop (None, Some (keep_mounter_error "Failed to detect uninstalled device info: " err))
    end ;;
  r <-% run_act (GetContainerCGroupPathAndPids pod container) ;;
  pids_path <-% check r ;;
  let '(pids, cgroupPath) := pids_path in
  pid <-% run_act (pure (slice_get pids 0)) ;;
  let config := mount_config pid in
  r <-% run_act (GetDevicesActiveProcessIDs deviceMounter pids deviceInfos) ;;
  processes <-% match r with
    | Ok processes => att_ret processes
    | Err err => stop (None, Some (keep_mounter_error
        "Failed to retrieve the list of device container processes: " err))
    end ;;
  _ <-% (if negb (ur_Force req) && bool_decide (processes ≠ [])
         then stop (None, Some (MounterError ResultCode_DeviceBusy
                "The device is in use and cannot be uninstalled"))
         else att_ret tt) ;;
  _ <-% (if bool_decide (processes ≠ [])
         then run_m (_ <-- KillRunningProcesses config processes ;; Done tt)
         else att_ret tt) ;;
  set <-% run_act (DeviceRuleSetFunc once cgroupPath (mkResources false (map di_Rule deviceInfos))) ;;
  let '(closed, rollback, err) := set in
  _ <-% set_cleanup (λ c, mkCleanup (rollbackFiles c) (Some rollback) (Some closed)) ;;
  att_ret (mkUnmounting pod container deviceType deviceMounter slavePods deviceInfos config err).

Definition unmount_attempt (u : Unmounting) : att Exit :=
  let '(mkUnmounting pod container deviceType deviceMounter slavePods deviceInfos config err) := u in
  _ <-% match err with
    | None => att_ret tt
    | Some err => stop (None, Some
        (wrap_err "Failed to set access permissions for cgroup devices: " err))
    end ;;
  files <-% run_m (DeleteDeviceFiles (Some config) deviceInfos) ;;
  let '(rollback, err) := files in
  _ <-% set_cleanup (λ c, mkCleanup (Some rollback) (rollbackRules c) (closedFd c)) ;;
  _ <-% match err with
    | None => att_ret tt
    | Some err => stop (None, Some (wrap_err "failed to delete devic files: " err))
    end ;;
  err <-% run_act (ExecutePostUnmountActions deviceMounter config pod container slavePods) ;;
  _ <-% match err with
    | None => att_ret tt
    | Some err => stop (None, Some (keep_mounter_error "failed to execute post unmount actions: " err))
    end ;;
  gcPodKeys <-% run_act (GetPodsToCleanup deviceMounter pod container slavePods) ;;
  _ <-% run_m (GarbageCollectionPods gcPodKeys) ;;
  let message := "Successfully uninstalled " +:+ deviceType +:+ " devices" in
  _ <-% run_m (call (RecordEvent (ObjectKeyFromObject (pod_Meta pod)) "Normal" "UnMountDevice" message)) ;;
  att_ret (Some (mkDeviceResponse ResultCode_Success message), None).

(** The deferred rollback of [UnMountDevice]. *)
Definition unmount_cleanup (c : Cleanup) (err : option goerr) : M unit :=
  _ <-- match err with
    | None => Done tt
    | Some _ =>
        _ <-- call_closure (rollbackFiles c) ;;
        call_closure (rollbackRules c)
    end ;;
  call_closure (closedFd c).

Definition UnMountDevice (s : DeviceMounterServer) (req : UnMountDeviceRequest) : act Exit :=
  prep <-- unmount_prepare s req no_cleanup ;;
  match prep with
  | (_, Panics why) => Done (Panics why)
  | (_, Returns (inl x)) => Done (Returns (respond x))
  | (c, Returns (inr u)) =>
      res <-- unmount_attempt u c ;;
      let '(c, o) := res in
      let o := exit_of o in
      _ <-- unmount_cleanup c (pending_err o) ;;
      Done (match o with Returns x => Returns (respond x) | Panics why => Panics why end)
  end.

End Server.
