(* ===== verification/ServerFacts.v ===== *)
(** * Theorems about the mounter server

    The handlers are long, so the theorems follow invariants over the cleanup
    closures and the calls made so far ([ok_att]); the mounters enter only
    through the calls they make ([benign_mounter]). *)
From stdpp Require Import base gmap strings list.
From Stdlib Require Import ZArith Lia Ascii.
From S2P Require Import Prelude GoStrings Api Ebpf World Util Cgroup CgroupV2 Framework MounterUtil Server.

(** Calls that neither create a pod nor open a descriptor. *)
Definition benign (c : cmd) : Prop :=
  match c with PodCreate _ _ | UnixOpen _ => False | _ => True end.

Definition no_create (c : cmd) : Prop := match c with PodCreate _ _ => False | _ => True end.

(** Calls that look, at the cluster, the node or the devices. The mutexes and the
    list of GPUs are the mounter's own, kept up to date while it looks. *)
Definition reading (c : cmd) : Prop :=
  match c with
  | PodGet _ _ _ | PodListerGet _ _ | PodListerList _ _ | NodeListerGet _ | Stat _
  | IsCgroup2UnifiedMode | IsCgroup2HybridMode | GetAllPids _ | ListPodResources
  | NvmlInit | NvmlShutdown | NvmlHandleByUUID _ | NvmlMinorNumber _
  | NvmlComputeProcesses _ | NvmlGraphicsProcesses _
  | Lock _ | Unlock _ | LoadGPUList | StoreGPUList _
  | DcmiInit | DcmiShutDown | DcmiGetDeviceList | DcmiGetDeviceHealth _
  | DcmiGetDevProcessInfo _ => True
  | _ => False
  end.

(** Every method of the mounter makes benign calls only. *)
Record benign_mounter (m : DeviceMounter) : Prop := {
  bm_validate node pod c r a l : calls benign (ValidateMountRequest m node pod c r a l);
  bm_build pod c r a l ps : calls benign (BuildSupportPodTemplates m pod c r a l ps);
  bm_verify p : calls benign (VerifySupportPodStatus m p);
  bm_mount pod c ps : calls benign (GetDeviceInfosToMount m pod c ps);
  bm_post_mount cfg pod c ps : calls benign (ExecutePostMountActions m cfg pod c ps);
  bm_unmount pod c ps : calls benign (GetDeviceInfosToUnmount m pod c ps);
  bm_active pids infos : calls benign (GetDevicesActiveProcessIDs m pids infos);
  bm_post_unmount cfg pod c ps : calls benign (ExecutePostUnmountActions m cfg pod c ps);
  bm_cleanup pod c ps : calls benign (GetPodsToCleanup m pod c ps) }.

Section Calls.
Context `{ClientLib, Settings, CgroupLib, EmulatorLib, AsmLib, JsonLib, !ClientLaws}.

Lemma benign_no_create {A} (p : M A) : calls benign p → calls no_create p.
Proof.
  intros Hp e h. eapply wp_mono; [|apply Hp]. intros a t Ht. cbn in Ht |- *.
  eapply Forall_impl; [exact Ht|]. intros [c r]. destruct c; simpl; tauto.
Qed.

Lemma reading_benign {A} (p : M A) : calls reading p → calls benign p.
Proof. apply calls_mono. by intros []. Qed.

Lemma GetTargetPod_reading s n ns : calls reading (GetTargetPod s n ns).
Proof. unfold GetTargetPod. solve_calls. Qed.

Lemma GetTargetPod_benign s n ns : calls benign (GetTargetPod s n ns).
Proof. apply reading_benign, GetTargetPod_reading. Qed.

Lemma GetSlavePods_reading ty p c : calls reading (GetSlavePods ty p c).
Proof. unfold GetSlavePods. solve_calls. Qed.

Lemma GetSlavePods_benign ty p c : calls benign (GetSlavePods ty p c).
Proof. apply reading_benign, GetSlavePods_reading. Qed.

Lemma GarbageCollectionPods_benign keys : calls benign (GarbageCollectionPods keys).
Proof. induction keys as [|k keys IH]; cbn [GarbageCollectionPods]; unfold as_result; solve_calls. Qed.

Lemma wait_condition_benign m keys s :
  (∀ p, calls benign (VerifySupportPodStatus m p)) → calls benign (wait_condition m keys s).
Proof.
  intros Hm. revert s. induction keys as [|k keys IH]; intros s; cbn [wait_condition];
    unfold get_slave_pod; solve_calls.
Qed.

Lemma WaitSupportPodsReady_benign m keys :
  (∀ p, calls benign (VerifySupportPodStatus m p)) → calls benign (WaitSupportPodsReady m keys).
Proof.
  intros Hm. unfold WaitSupportPodsReady. calls_step; [|solve_calls].
  apply calls_poll; [done|]. intros s. unfold poll_panic. calls_step; [|solve_calls].
  by apply wait_condition_benign.
Qed.

Lemma try_path_reading p k : calls reading k → calls reading (try_path p k).
Proof. intros Hk. unfold try_path, PathIsNotExist. solve_calls. Qed.

Lemma GetK8sPodCGroupPath_reading pod c f p :
  GetK8sPodCGroupPath pod c f = Returns p → calls reading p.
Proof.
  unfold GetK8sPodCGroupPath, convertSystemdFullPath, convertCGroupfsFullPath.
  destruct (GetContainerStatus _ _); [|intros [= <-]; solve_calls].
  destruct (parseRuntime _) as [r i].
  case_decide; [|case_decide; [|intros [= <-]; solve_calls]].
  - destruct (ToSystemd _); [|done]. intros [= <-].
    repeat case_decide; repeat apply try_path_reading; solve_calls.
  - destruct (slice_get (NewPodCgroupName pod) _); [|done]. intros [= <-].
    repeat apply try_path_reading; solve_calls.
Qed.

Lemma GetContainerCGroupPathAndPids_reading pod c :
  calls reading (GetContainerCGroupPathAndPids pod c).
Proof.
  unfold GetContainerCGroupPathAndPids, GetCGroupPath, PathIsNotExist.
  calls_step; [|solve_calls]. calls_step; [solve_calls|]. calls_step; [solve_calls|].
  destruct (GetK8sPodCGroupPath _ _ _) as [p|] eqn:Hp; [|solve_calls].
  calls_step. by eapply GetK8sPodCGroupPath_reading.
Qed.

Lemma GetContainerCGroupPathAndPids_benign pod c :
  calls benign (GetContainerCGroupPathAndPids pod c).
Proof. apply reading_benign, GetContainerCGroupPathAndPids_reading. Qed.

Lemma sh_benign cfg command : calls benign (sh cfg command).
Proof. unfold sh, Execute, ExecuteContext. solve_calls. Qed.

Lemma AddDeviceFile_benign cfg d : calls benign (AddDeviceFile cfg d).
Proof. unfold AddDeviceFile. case_match; [solve_calls | apply sh_benign]. Qed.

Lemma RemoveDeviceFile_benign cfg d : calls benign (RemoveDeviceFile cfg d).
Proof. unfold RemoveDeviceFile. case_match; [solve_calls | apply sh_benign]. Qed.

Lemma for_files_benign f devs : (∀ d, calls benign (f d)) → calls benign (for_files f devs).
Proof. intros Hf. induction devs; cbn [for_files]; solve_calls. Qed.

Lemma rollback_files_benign f devs err :
  (∀ d, calls benign (f d)) → calls benign (rollback_files f devs err).
Proof. intros Hf. revert err. induction devs; intros err; cbn [rollback_files]; solve_calls. Qed.

Lemma MutationPodFunc_benign s ty c o p : calls benign (MutationPodFunc s ty c o p).
Proof. unfold MutationPodFunc. solve_calls. Qed.

Lemma finish_templates_benign s ty c p patches ps :
  calls benign (finish_templates s ty c p patches ps).
Proof.
  induction ps as [|q ps IH]; cbn [finish_templates]; [solve_calls|].
  destruct (PatchPod _ _); [|solve_calls]. calls_step; [apply MutationPodFunc_benign|]. solve_calls.
Qed.

(** The steps that return a rollback, with what is known of it. *)
Definition rollback_benign (o : closure * option goerr) : Prop := calls benign o.1.

Lemma CreateDeviceFiles_wp cfg devs e h :
  wp e h (CreateDeviceFiles cfg devs) (λ o t,
    rollback_benign o ∧ Forall (λ ev, benign (ev_cmd ev)) t).
Proof.
  unfold CreateDeviceFiles. destruct cfg as [cfg|].
  - wp_step. eapply wp_mono; [|apply for_files_benign; intros; apply AddDeviceFile_benign].
    intros a t Ht. wp_step. rewrite app_nil_r. split; [|done].
    apply rollback_files_benign. intros. apply RemoveDeviceFile_benign.
  - wp_step. split; [apply calls_done | constructor].
Qed.

Lemma DeleteDeviceFiles_wp cfg devs e h :
  wp e h (DeleteDeviceFiles cfg devs) (λ o t,
    rollback_benign o ∧ Forall (λ ev, benign (ev_cmd ev)) t).
Proof.
  unfold DeleteDeviceFiles. destruct cfg as [cfg|].
  - wp_step. eapply wp_mono; [|apply for_files_benign; intros; apply RemoveDeviceFile_benign].
    intros a t Ht. wp_step. rewrite app_nil_r. split; [|done].
    apply rollback_files_benign. intros. apply AddDeviceFile_benign.
  - wp_step. split; [apply calls_done | constructor].
Qed.

Lemma set_rules_v1_benign path r : calls benign (set_rules_v1 path r).
Proof.
  assert (∀ rules, calls benign (write_rules path rules)) as Hw.
  { induction rules; cbn [write_rules]; solve_calls. }
  unfold set_rules_v1, LoadEmulator. solve_calls.
Qed.

Lemma attach_filter_benign oc fd old insts : calls benign (attach_filter oc fd old insts).
Proof. unfold attach_filter, haveBpfProgReplace, probeBpfProgReplace. solve_calls. Qed.

Lemma loadAttach_benign oc fd rules : calls benign (loadAttachCgroupDeviceFilter oc fd rules).
Proof.
  unfold loadAttachCgroupDeviceFilter. calls_step; [solve_calls|]. calls_step.
  - apply calls_only. eapply only_mono; [|apply find_filters_only]. by intros [].
  - destruct a0 as [[|old [|]]|]; try solve_calls. apply attach_filter_benign.
Qed.

(** What is known of the closures a rule change returns, and of a descriptor it
    opened. *)
Definition fd_opened (fd : Z) (t : trace) : Prop := ∃ p, Ev (UnixOpen p) (SysOk fd) ∈ t.
Definition fd_closed (fd : Z) (t : trace) : Prop := ∃ r, Ev (UnixClose fd) r ∈ t.

Definition closes (f : closure) (fd : Z) : Prop := ∀ e h, wp e h f (λ _ t, fd_closed fd t).

Definition rules_set (o : closure * closure * option goerr) (t : trace) : Prop :=
  calls benign o.1.1 ∧ calls benign o.1.2 ∧ ∀ fd, fd_opened fd t → closes o.1.1 fd.

(** The descriptor an event opened. *)
Definition open_of (ev : event reply) : option Z :=
  let '(Ev c r) := ev in
  match c return reply c → option Z with
  | UnixOpen _ => λ r, match r with SysOk fd => Some fd | SysErr _ _ => None end
  | _ => λ _, None
  end r.

Lemma benign_not_opened fd t : Forall (λ ev, benign (ev_cmd ev)) t → ¬ fd_opened fd t.
Proof. intros Ht [p Hp]. eapply Forall_forall in Ht; [|done]. done. Qed.

Lemma NilCloser_benign : calls benign NilCloser.
Proof. apply calls_done. Qed.

Lemma rollback_v2_benign fd old prog b flags err :
  calls benign (rollback_v2 fd old prog b flags err).
Proof. unfold rollback_v2. solve_calls. Qed.

Lemma attach_filter_rollback oc fd old insts e h :
  wp e h (attach_filter oc fd old insts) (λ o t,
    calls benign o.1 ∧ Forall (λ ev, benign (ev_cmd ev)) t).
Proof.
  eapply wp_mono; [|apply wp_and; [|apply attach_filter_benign]]; [by intros a t Ht; exact Ht|].
  unfold attach_filter. wp_step. eapply wp_mono; [|apply wp_true]. intros b t _.
  repeat first [wp_step | match goal with |- wp _ _ (match ?r with _ => _ end) _ => destruct r end];
    cbn [fst]; try apply NilCloser_benign; try apply rollback_v2_benign.
  case_match; apply rollback_v2_benign.
Qed.

Lemma loadAttach_rollback oc fd rules e h :
  wp e h (loadAttachCgroupDeviceFilter oc fd rules) (λ o t,
    (∀ res, o = Returns res → calls benign res.1) ∧ Forall (λ ev, benign (ev_cmd ev)) t).
Proof.
  eapply wp_mono; [|apply wp_and; [|apply loadAttach_benign]]; [by intros a t Ht; exact Ht|].
  unfold loadAttachCgroupDeviceFilter. do 2 wp_step. wp_step.
  eapply wp_mono; [|apply wp_true]. intros progs t _. cbn beta.
  assert (∀ err (res : closure * option goerr), Returns (NilCloser, err) = Returns res →
    calls benign res.1) as Hnil by (intros err res [= <-]; apply NilCloser_benign).
  destruct progs as [[|old [|]]|]; try (wp_step; by apply Hnil).
  do 2 wp_step. destruct r0 as [cur|]; [|wp_step; by apply Hnil].
  do 2 wp_step. destruct (edit_instructions cur rules) as [[insts|]|];
    try (wp_step; by apply Hnil); [|by wp_step].
  cbn beta iota. case_decide; [wp_step; by apply Hnil|].
  wp_step. eapply wp_mono; [|apply attach_filter_rollback]. intros o t' [Ho _].
  wp_step. by intros res [= <-].
Qed.

Lemma benign_forall_no_create (t : trace) :
  Forall (λ ev, benign (ev_cmd ev)) t → Forall (λ ev, no_create (ev_cmd ev)) t.
Proof. intros Ht. eapply Forall_impl; [exact Ht|]. intros [c r]. destruct c; simpl; tauto. Qed.

(** What [DeviceRuleSetFunc] guarantees. *)
Definition rule_step (o : outcome (closure * closure * option goerr)) (t : trace) : Prop :=
  Forall (λ ev, no_create (ev_cmd ev)) t ∧ ∀ res, o = Returns res → rules_set res t.

Lemma rule_step_benign closed rollback err (t : trace) :
  calls benign closed → calls benign rollback → Forall (λ ev, benign (ev_cmd ev)) t →
  rule_step (Returns (closed, rollback, err)) t.
Proof.
  intros Hc Hr Ht. split; [by apply benign_forall_no_create|]. intros res [= <-].
  split; [done|]. split; [done|]. intros fd Hfd. by destruct (benign_not_opened fd t Ht).
Qed.

Lemma rule_step_app o (t0 t : trace) :
  Forall (λ ev, benign (ev_cmd ev)) t0 → rule_step o t → rule_step o (t0 ++ t).
Proof.
  intros Ht0 [Hn Hres]. split.
  - apply Forall_app; split; [by apply benign_forall_no_create | done].
  - intros res Ho. destruct (Hres res Ho) as (? & ? & Hfd). split; [done|]. split; [done|].
    intros fd [p Hp]. apply Hfd. apply elem_of_app in Hp as [Hp|Hp]; [|by exists p].
    exfalso. apply (benign_not_opened fd t0 Ht0). by exists p.
Qed.

Lemma SetV2_rule_step oc path r e h :
  wp e h (SetDeviceRulesByCgroupv2 oc path r) (λ o t, rule_step o t).
Proof.
  unfold SetDeviceRulesByCgroupv2. destruct (SkipDevices r).
  { wp_step. apply rule_step_benign; [apply NilCloser_benign..|constructor]. }
  do 2 wp_step. destruct r0 as [fd|k err]; cbn [app].
  2:{ wp_step. split; [by repeat constructor|]. intros res [= <-].
      split; [apply NilCloser_benign|]. split; [apply NilCloser_benign|].
      intros fd [p Hp]. apply list_elem_of_singleton in Hp.
      by apply (f_equal open_of) in Hp. }
  wp_step. eapply wp_mono; [|apply loadAttach_rollback].
  intros o t [Hrb Ht]. cbn beta.
  assert (∀ closed rollback err, closed = call (UnixClose fd) → calls benign rollback →
    rule_step (Returns (closed, rollback, err))
      (Ev (reply := reply) (UnixOpen path) (SysOk fd) :: t)) as Hdone.
  { intros closed rollback err -> Hr. split.
    - constructor; [done|]. by apply benign_forall_no_create.
    - intros res [= <-]. split; [by apply calls_call|]. split; [done|].
      intros fd' [p [Hp|Hp]%elem_of_cons].
      + apply (f_equal open_of) in Hp. injection Hp as ->.
        intros e' h'. cbn [fst]. wp_step. exists r0. set_solver.
      + exfalso. apply (benign_not_opened fd' t Ht). by exists p. }
  destruct o as [[rollback err]|w]; cbn beta iota.
  - specialize (Hrb _ eq_refl). wp_step. rewrite app_nil_r.
    destruct err; [destruct (canSkipEBPFError r)|]; by apply Hdone.
  - wp_step. rewrite app_nil_r. split; [|done].
    constructor; [done|]. by apply benign_forall_no_create.
Qed.

Lemma SetV1_rule_step path r e h :
  wp e h (res <-- SetDeviceRulesByCgroupv1 path r ;; Done (Returns (NilCloser, res.1, res.2)))
    (λ o t, rule_step o t).
Proof.
  wp_step. unfold SetDeviceRulesByCgroupv1. wp_step.
  eapply wp_mono; [|apply set_rules_v1_benign]. intros res t Ht. do 2 wp_step.
  rewrite !app_nil_r. cbn [fst snd]. apply rule_step_benign; [apply NilCloser_benign| |done].
  destruct (v1_rollback res) as [[rules err]|]; [|apply NilCloser_benign].
  unfold rollback_v1. case_decide; [|apply NilCloser_benign].
  calls_step; [apply set_rules_v1_benign | solve_calls].
Qed.

Lemma DeviceRuleSetFunc_wp oc path r e h :
  wp e h (DeviceRuleSetFunc oc path r) (λ o t, rule_step o t).
Proof.
  unfold DeviceRuleSetFunc. destruct (Devices r).
  { wp_step. apply rule_step_benign; [apply NilCloser_benign..|constructor]. }
  assert (∀ c (r' : reply c) o t, benign c → rule_step o t → rule_step o (Ev c r' :: t)) as Hcons.
  { intros c r' o t Hc Ho. apply (rule_step_app _ [_]); [by repeat constructor | done]. }
  do 2 wp_step. destruct r1; cbn beta iota.
  { eapply wp_mono; [|apply SetV2_rule_step]. intros o t Ho. by apply Hcons. }
  do 2 wp_step. destruct r1; cbn beta iota.
  2:{ eapply wp_mono; [|apply SetV1_rule_step]. intros o t Ho. by repeat apply Hcons. }
  unfold PathIsNotExist. do 3 wp_step. wp_step.
  set (missing := match r1 with SysErr ENOENT _ => true | _ => false end).
  destruct missing; cbn beta iota.
  - eapply wp_mono; [|apply SetV2_rule_step]. intros o t Ho. by repeat apply Hcons.
  - eapply wp_mono; [|apply SetV1_rule_step]. intros o t Ho. by repeat apply Hcons.
Qed.

(** ** Invariants of a handler *)

(** Assertions about the cleanup variables and the calls made so far. *)
Definition assertion : Type := Cleanup → trace → Prop.

(** From states in [I], [m] goes on with values that satisfy [V] in states in
    [K], or stops with an exit that satisfies [E] in a state in [J]. Nothing is
    said after a panic. *)
Definition ok_att {A} (I K J : assertion) (E : Exit → Prop) (V : A → Prop) (m : att A) : Prop :=
  ∀ c t0, I c t0 → ∀ e h, wp e h (m c) (λ r t,
    match r.2 with
    | Panics _ => True
    | Returns (inl x) => E x ∧ J r.1 (t0 ++ t)
    | Returns (inr a) => V a ∧ K r.1 (t0 ++ t)
    end).

(** Benign calls keep the assertion. *)
Definition stable (I : assertion) : Prop :=
  ∀ c t0 t, I c t0 → Forall (λ ev, benign (ev_cmd ev)) t → I c (t0 ++ t).

Definition implies (I J : assertion) : Prop := ∀ c t, I c t → J c t.

Section Att.
Context (I J : assertion) (E : Exit → Prop) (HI : stable I) (HIJ : implies I J).

Lemma ok_ret {A} (V : A → Prop) a : V a → ok_att I I J E V (att_ret a).
Proof. intros Ha c t0 Hc e h. unfold att_ret. wp_step. simpl. by rewrite app_nil_r. Qed.

Lemma ok_stop {A} K (V : A → Prop) x : E x → ok_att I K J E V (stop x).
Proof.
  intros Hx c t0 Hc e h. unfold stop. wp_step. simpl. rewrite app_nil_r.
  split; [done | by apply HIJ].
Qed.

Lemma ok_bind {A B} K L (V : A → Prop) (W : B → Prop) m (f : A → att B) :
  ok_att I K J E V m → (∀ a, V a → ok_att K L J E W (f a)) → ok_att I L J E W (att_bind m f).
Proof.
  intros Hm Hf c t0 Hc e h. unfold att_bind. wp_step.
  eapply wp_mono; [|by apply Hm]. intros [c' [[x|a]|w]] t; cbn [snd fst]; [|..].
  - intros [Hx Hc']. wp_step. simpl. by rewrite app_nil_r.
  - intros [Ha Hc']. eapply wp_mono; [|by apply Hf].
    intros r t'. cbn beta. by rewrite app_assoc.
  - intros _. by wp_step.
Qed.

Lemma ok_act {A} (m : act A) : calls benign m → ok_att I I J E (λ _, True) (run_act m).
Proof.
  intros Hm c t0 Hc e h. unfold run_act. wp_step.
  eapply wp_mono; [|apply Hm]. intros o t Ht. wp_step. rewrite app_nil_r.
  destruct o; simpl; auto.
Qed.

Lemma ok_m {A} (m : M A) : calls benign m → ok_att I I J E (λ _, True) (run_m m).
Proof. intros Hm. apply ok_act. by apply calls_total. Qed.

Lemma ok_check {A} (r : result A) :
  (∀ err, E (None, Some err)) → ok_att I I J E (λ _, True) (check r).
Proof. intros HE. destruct r; [by apply ok_ret | by apply ok_stop]. Qed.

Lemma ok_check_err err :
  (∀ err, E (None, Some err)) → ok_att I I J E (λ _, True) (check_err err).
Proof. intros HE. destruct err; [by apply ok_stop | by apply ok_ret]. Qed.

Lemma ok_check_found {A} (r : result A) :
  (∀ err, E (None, Some err)) → (∀ err, E (Some (not_found_response err), Some err)) →
  ok_att I I J E (λ _, True) (check_found r).
Proof.
  intros HE HN. destruct r; [by apply ok_ret|]. simpl.
  destruct (IsNotFound e); by apply ok_stop.
Qed.

End Att.

(** ** The handlers *)

(** [I] before and [J] after the rule step: benign calls keep both, and they
    allow the assignments of the closures that the two steps return. *)
Record cleanup_inv (I J : assertion) : Prop := {
  ci_before : stable I;
  ci_after : stable J;
  ci_implies : implies I J;
  ci_files c t0 t rb :
    J c t0 → calls benign rb → Forall (λ ev, benign (ev_cmd ev)) t →
    J (mkCleanup (Some rb) (rollbackRules c) (closedFd c)) (t0 ++ t);
  ci_rules c t0 t res :
    I c t0 → rule_step (Returns res) t →
    J (mkCleanup (rollbackFiles c) (Some res.1.2) (Some res.1.1)) (t0 ++ t) }.

Context `{QuantityLib, RangeLib}.
Context (registry : Registry) (once : option bool).

Definition benign_registry : Prop :=
  ∀ type m, GetDeviceMounter registry type = Some m → benign_mounter m.

Section Handlers.
Context (I J : assertion) (Hinv : cleanup_inv I J).

Lemma ok_rules {B} K L (E : Exit → Prop) (W : B → Prop) path r (k : option goerr → att B) :
  (∀ err, ok_att J K L E W (k err)) →
  ok_att I K L E W (att_bind (run_act (DeviceRuleSetFunc once path r)) (λ set,
    let '(closed, rollback, err) := set in
    att_bind (set_cleanup (λ c, mkCleanup (rollbackFiles c) (Some rollback) (Some closed)))
      (λ _, k err))).
Proof.
  intros Hk c t0 Hc e h. unfold att_bind at 1, run_act. do 2 wp_step.
  eapply wp_mono; [|apply DeviceRuleSetFunc_wp]. intros o t Ht. wp_step. cbn beta iota.
  destruct o as [[[closed rollback] err]|w]; [|by wp_step].
  unfold att_bind, set_cleanup. wp_step. wp_step.
  eapply wp_mono; [|apply Hk; by apply (ci_rules I J Hinv c t0 t (closed, rollback, err))].
  intros x t'. cbn beta. cbn [app]. by rewrite ?app_nil_r, ?app_assoc, ?app_nil_r.
Qed.

Lemma ok_files {B} K L (E : Exit → Prop) (W : B → Prop) (files : M (closure * option goerr))
    (k : option goerr → att B) :
  (∀ e h, wp e h files (λ o t, rollback_benign o ∧ Forall (λ ev, benign (ev_cmd ev)) t)) →
  (∀ err, ok_att J K L E W (k err)) →
  ok_att J K L E W (att_bind (run_m files) (λ files,
    let '(rollback, err) := files in
    att_bind (set_cleanup (λ c, mkCleanup (Some rollback) (rollbackRules c) (closedFd c)))
      (λ _, k err))).
Proof.
  intros Hf Hk c t0 Hc e h. unfold att_bind at 1, run_m, run_act, total. do 3 wp_step.
  eapply wp_mono; [|apply Hf]. intros [rb err] t [Hrb Ht]. do 2 wp_step. cbn beta iota.
  unfold att_bind, set_cleanup. wp_step. wp_step.
  eapply wp_mono; [|apply Hk; by apply (ci_files I J Hinv c t0 t rb)].
  intros x t'. cbn beta. cbn [app]. by rewrite ?app_nil_r, ?app_assoc, ?app_nil_r.
Qed.

Lemma implies_refl K : implies K K.
Proof. by intros c t. Qed.

Lemma implies_IJ : implies I J.
Proof. apply Hinv. Qed.

Hint Resolve implies_refl implies_IJ : core.

Lemma stable_IJ K : K = I ∨ K = J → stable K.
Proof. intros [->| ->]; apply Hinv. Qed.

Lemma find_mounter_ok (E : Exit → Prop) ty req :
  benign_registry → (∀ err, E (None, Some err)) →
  ok_att I I I E benign_mounter (find_mounter registry ty req).
Proof.
  intros Hreg HE. unfold find_mounter.
  destruct (GetDeviceMounter registry ty) as [m|] eqn:Hm.
  - apply ok_ret. by eapply Hreg.
  - apply ok_stop; [apply implies_refl | done].
Qed.

(** One step of a handler whose exits all satisfy [E]. *)
Ltac att_step HE HN :=
  lazymatch goal with
  | |- ok_att _ _ _ _ _ (att_bind (run_act (DeviceRuleSetFunc _ _ _)) _) =>
      apply ok_rules; intros ?
  | |- ok_att _ _ _ _ _ (att_bind (run_m (CreateDeviceFiles _ _)) _) =>
      apply ok_files; [intros; apply CreateDeviceFiles_wp | intros ?]
  | |- ok_att _ _ _ _ _ (att_bind (run_m (DeleteDeviceFiles _ _)) _) =>
      apply ok_files; [intros; apply DeleteDeviceFiles_wp | intros ?]
  | |- ok_att _ _ _ _ _ (att_bind (find_mounter _ _ _) _) =>
      eapply ok_bind; [by apply find_mounter_ok | intros ? ?]
  | |- ok_att ?K _ _ _ _ (att_bind _ _) =>
      apply (ok_bind _ _ _ K _ (λ _, True)); [|intros ? _]
  | |- ok_att _ _ _ _ _ (run_act _) => apply ok_act; [apply stable_IJ; auto|]
  | |- ok_att _ _ _ _ _ (run_m _) => apply ok_m; [apply stable_IJ; auto|]
  | |- ok_att _ _ _ _ _ (check _) => apply ok_check; [by auto | exact HE]
  | |- ok_att _ _ _ _ _ (check_err _) => apply ok_check_err; [by auto | exact HE]
  | |- ok_att _ _ _ _ _ (check_found _) =>
      apply ok_check_found; [by auto | exact HE | exact HN]
  | |- ok_att _ _ _ _ _ (att_ret _) => apply ok_ret; try done
  | |- ok_att _ _ _ _ _ (stop _) => apply ok_stop; [by auto | try apply HE]
  | |- ok_att _ _ _ _ _ (match ?x with _ => _ end) => destruct x
  end.

Lemma find_target_ok (E : Exit → Prop) s n ns cont ty :
  benign_registry → (∀ err, E (None, Some err)) →
  (∀ err, E (Some (not_found_response err), Some err)) →
  ok_att I I I E (λ '(_, _, _, m), benign_mounter m) (find_target registry s n ns cont ty).
Proof.
  intros Hreg HE HN. unfold find_target.
  repeat att_step HE HN. apply GetTargetPod_benign.
Qed.

Lemma mount_prepare_ok (E : Exit → Prop) s req :
  benign_registry → (∀ err, E (None, Some err)) →
  (∀ err, E (Some (not_found_response err), Some err)) →
  ok_att I I I E (λ p, benign_mounter (p_mounter p)) (mount_prepare registry s req).
Proof.
  intros Hreg HE HN. unfold mount_prepare. att_step HE HN; [by att_step HE HN|].
  eapply ok_bind; [by apply find_target_ok|].
  intros [[[pod container] ty] m] Hm. destruct Hm.
  repeat att_step HE HN; eauto using GetSlavePods_benign, finish_templates_benign.
  by apply calls_call.
Qed.

(** How a handler ends after its deferred rollback is registered. *)
Definition failed (x : Exit) : Prop := ∃ err, x = (None, Some err).
Definition succeeded (x : Exit) : Prop :=
  ∃ resp, x = (Some resp, None) ∧ Result resp = ResultCode_Success.

Lemma mount_attempt_ok p keys err :
  benign_mounter (p_mounter p) →
  ok_att I J J failed succeeded (mount_attempt once p keys err).
Proof.
  intros Hm. destruct p as [pod container ty m pods]. simpl in Hm. destruct Hm.
  assert (∀ err, failed (None, Some err)) as HE by (intros ?; by eexists).
  unfold mount_attempt.
  repeat att_step HE HE; eauto using WaitSupportPodsReady_benign,
    GetContainerCGroupPathAndPids_benign, GarbageCollectionPods_benign;
    try (by apply calls_call); try apply calls_done.
  eexists. split; [reflexivity | done].
Qed.

Lemma unmount_prepare_ok (E : Exit → Prop) s req :
  benign_registry → (∀ err, E (None, Some err)) →
  (∀ err, E (Some (not_found_response err), Some err)) →
  ok_att I J I E (λ u, benign_mounter (u_mounter u)) (unmount_prepare registry once s req).
Proof.
  intros Hreg HE HN. unfold unmount_prepare. att_step HE HN; [by att_step HE HN|].
  eapply ok_bind; [by apply find_target_ok|].
  intros [[[pod container] ty] m] Hm. pose proof Hm as Hm'. destruct Hm'.
  repeat att_step HE HN; eauto using GetSlavePods_benign, GetContainerCGroupPathAndPids_benign;
    try apply calls_done.
  calls_step; [apply sh_benign | apply calls_done].
Qed.

Lemma unmount_attempt_ok u :
  benign_mounter (u_mounter u) → ok_att J J J failed succeeded (unmount_attempt u).
Proof.
  intros Hm. destruct u as [pod container ty m pods infos cfg err]. simpl in Hm. destruct Hm.
  assert (∀ err, failed (None, Some err)) as HE by (intros ?; by eexists).
  unfold unmount_attempt.
  repeat att_step HE HE; eauto using GarbageCollectionPods_benign; try (by apply calls_call).
  eexists. split; [reflexivity | done].
Qed.

End Handlers.

(** ** Two invariants *)

Definition benign_closures (c : Cleanup) : Prop :=
  ∀ f, rollbackFiles c = Some f ∨ rollbackRules c = Some f ∨ closedFd c = Some f → calls benign f.

(** The closures make benign calls, and no pod has been created. *)
Definition clean_closures (c : Cleanup) (t : trace) : Prop :=
  benign_closures c ∧ Forall (λ ev, no_create (ev_cmd ev)) t.

Lemma no_cleanup_benign : benign_closures no_cleanup.
Proof. intros f. simpl. naive_solver. Qed.

Lemma clean_closures_inv : cleanup_inv clean_closures clean_closures.
Proof.
  assert (stable clean_closures) as Hst.
  { intros c t0 t [Hc Ht0] Ht. split; [done|].
    apply Forall_app. split; [done | by apply benign_forall_no_create]. }
  split; [exact Hst | exact Hst | by intros c t | | ].
  - intros c t0 t rb [Hc Ht0] Hrb Ht. split.
    + intros f Hf. simpl in Hf. destruct_or! Hf; simplify_eq; eauto.
    + apply Forall_app. split; [done | by apply benign_forall_no_create].
  - intros c t0 t res [Hc Ht0] [Hn Hres]. destruct (Hres res eq_refl) as (? & ? & _). split.
    + intros f Hf. simpl in Hf. destruct_or! Hf; simplify_eq; eauto.
    + by apply Forall_app.
Qed.

(** No descriptor has been opened; every one opened will be closed by [closedFd],
    and running the other closures opens none. *)
Definition nothing_opened (c : Cleanup) (t : trace) : Prop :=
  benign_closures c ∧
  ∀ fd, ¬ fd_opened fd t.

Definition closable (c : Cleanup) (t : trace) : Prop :=
  benign_closures c ∧
  ∀ fd, fd_opened fd t → ∃ f, closedFd c = Some f ∧ closes f fd.

Lemma fd_opened_app fd t1 t2 : fd_opened fd (t1 ++ t2) ↔ fd_opened fd t1 ∨ fd_opened fd t2.
Proof. unfold fd_opened. setoid_rewrite elem_of_app. naive_solver. Qed.

Lemma closable_inv : cleanup_inv nothing_opened closable.
Proof.
  split.
  - intros c t0 t [Hc Ht0] Ht. split; [done|]. intros fd [Hfd|Hfd]%fd_opened_app; [by eapply Ht0|].
    by apply (benign_not_opened fd t).
  - intros c t0 t [Hc Ht0] Ht. split; [done|]. intros fd [Hfd|Hfd]%fd_opened_app; [by apply Ht0|].
    by destruct (benign_not_opened fd t).
  - intros c t [Hc Ht]. split; [done|]. intros fd Hfd. by destruct (Ht fd).
  - intros c t0 t rb [Hc Ht0] Hrb Ht. split.
    + intros f Hf. simpl in Hf. destruct_or! Hf; simplify_eq; eauto.
    + intros fd [Hfd|Hfd]%fd_opened_app; [by apply Ht0|]. by destruct (benign_not_opened fd t).
  - intros c t0 t res [Hc Ht0] [Hn Hres]. destruct (Hres res eq_refl) as (? & ? & Hfds). split.
    + intros f Hf. simpl in Hf. destruct_or! Hf; simplify_eq; eauto.
    + intros fd [Hfd|Hfd]%fd_opened_app; [by destruct (Ht0 fd)|].
      exists res.1.1. split; [done | by apply Hfds].
Qed.

(** ** How a handler runs *)

(** The calls of a run end in [mount_cleanup] with the closures of [c]. *)
Definition cleaned {A} (cleanup : M A) (t : trace) : Prop :=
  ∃ e h, (run e h cleanup).2 = t.

Definition created_in (t : trace) (key : ObjectKey) : Prop :=
  ∃ ns p pod, Ev (PodCreate ns p) (Ok pod) ∈ t ∧ key = ObjectKeyFromObject (pod_Meta pod).

(** What [create_pods] did: every pod created is among the keys. *)
Definition pods_created (keys : list ObjectKey) (t : trace) : Prop :=
  (∀ key, created_in t key → key ∈ keys) ∧ ∀ fd, ¬ fd_opened fd t.

Lemma created_in_app t1 t2 key :
  created_in (t1 ++ t2) key ↔ created_in t1 key ∨ created_in t2 key.
Proof. unfold created_in. setoid_rewrite elem_of_app. naive_solver. Qed.

(** The pod an event created. *)
Definition pod_of (ev : event reply) : option Pod :=
  let '(Ev c r) := ev in
  match c return reply c → option Pod with
  | PodCreate _ _ => λ r, match r with Ok pod => Some pod | Err _ => None end
  | _ => λ _, None
  end r.

Lemma created_in_iff t key :
  created_in t key → ∃ ev pod, ev ∈ t ∧ pod_of ev = Some pod ∧
    key = ObjectKeyFromObject (pod_Meta pod).
Proof. intros (ns & p & pod & Hin & ->). by exists (Ev (PodCreate ns p) (Ok pod)), pod. Qed.

Lemma no_create_created t key :
  Forall (λ ev, no_create (ev_cmd ev)) t → ¬ created_in t key.
Proof.
  intros Ht (ns & p & pod & Hin & _). eapply Forall_forall in Ht; [|exact Hin]. done.
Qed.

Lemma create_pods_wp pods e h :
  wp e h (create_pods pods) (λ '(keys, err) t, pods_created keys t).
Proof.
  revert h. induction pods as [|p pods IH]; intros h; cbn [create_pods].
  { wp_step. split; [intros key (ns & q & pod & Hin & _); set_solver|].
    intros fd [q Hq]. set_solver. }
  do 2 wp_step. destruct r as [pod|err]; cbn [app].
  - unfold CreatePodDisruptionBudget. do 3 wp_step.
    eapply wp_mono; [|apply IH]. intros [keys err] t [Hk Hfd]. wp_step. rewrite app_nil_r.
    split.
    + intros key (ns & q & pod' & Hin & ->).
      apply elem_of_cons in Hin as [Hin|Hin].
      { apply (f_equal pod_of) in Hin. injection Hin as ->. set_solver. }
      apply elem_of_cons in Hin as [Hin|Hin]; [by apply (f_equal pod_of) in Hin|].
      apply elem_of_cons. right. apply Hk. by exists ns, q, pod'.
    + intros fd [q Hq]. apply elem_of_cons in Hq as [Hq|Hq]; [by apply (f_equal open_of) in Hq|].
      apply elem_of_cons in Hq as [Hq|Hq]; [by apply (f_equal open_of) in Hq|].
      apply (Hfd fd). by exists q.
  - wp_step. split.
    + intros key (ns & q & pod' & Hin & ->). apply list_elem_of_singleton in Hin.
      by apply (f_equal pod_of) in Hin.
    + intros fd [q Hq]. apply list_elem_of_singleton in Hq. by apply (f_equal open_of) in Hq.
Qed.

(** [R] holds of the calls when the handler goes on to its end. *)
Definition done_with {A} (R : trace → Prop) (r : Cleanup * outcome (Exit + A)) (t : trace) : Prop :=
  ∀ x, r.2 = Returns (inr x) → R t.

Lemma done_with_true {A} e h (p : M (Cleanup * outcome (Exit + A))) : wp e h p (done_with (λ _, True)).
Proof. eapply wp_mono; [|apply wp_true]. by intros r t _ x _. Qed.

Lemma bind_done {A B} (m : att A) (f : A → att B) c e h R :
  wp e h (att_bind m f c) (done_with R) →
  wp e h (m c) (λ r t, ∀ c' a, r = (c', Returns (inr a)) →
    wp e (h ++ t) (f a c') (done_with (λ t', R (t ++ t')))).
Proof.
  unfold att_bind, wp. rewrite run_bind. destruct (run e h (m c)) as [[c1 o] t].
  intros HR c' a [= -> ->]. by destruct (run e (h ++ t) (f a c')).
Qed.

(** An exit before the deferred rollback is registered. *)
Definition early (x : Exit) : Prop := ∃ resp err, x = (resp, Some err).

(** The shape of a run of [MountDevice] that does not panic; [R] is known of the
    part after the creation of the pods when it comes to its end. *)
Definition mount_run (I J : assertion) (R : trace → Prop) (x : Exit) (t : trace) : Prop :=
  (∃ c x0, early x0 ∧ x = respond x0 ∧ I c t) ∨
  (∃ c1 c keys x0 t1 t2 t3 t4, t = t1 ++ t2 ++ t3 ++ t4 ∧ x = respond x0 ∧
     (failed x0 ∨ succeeded x0 ∧ R t3) ∧ I c1 t1 ∧ pods_created keys t2 ∧ J c t3 ∧
     cleaned (mount_cleanup c x0.2 keys) t4).

Lemma MountDevice_run_with I J R s req e h :
  cleanup_inv I J → I no_cleanup [] → benign_registry →
  (∀ p keys err h, wp e h (mount_attempt once p keys err no_cleanup) (done_with R)) →
  wp e h (MountDevice registry once s req) (λ o t, ∀ x, o = Returns x → mount_run I J R x t).
Proof.
  intros Hinv HI Hreg HR. unfold MountDevice. wp_step.
  eapply wp_mono; [|apply (mount_prepare_ok I J Hinv early); [done | | |exact HI]];
    [|by intros err; do 2 eexists..].
  intros [c1 [[x0|p]|w]] t1; cbn [fst snd app].
  - intros [Hx Hc]. wp_step. intros x [= <-]. left. rewrite app_nil_r. eauto.
  - intros [Hp Hc1]. wp_step.
    eapply wp_mono; [|apply create_pods_wp]. intros [keys err] t2 Ht2. wp_step.
    eapply wp_mono; [|apply wp_and;
      [apply (mount_attempt_ok I J Hinv p keys err Hp no_cleanup [] HI)|apply HR]].
    intros [c o] t3 [Ht3 HR3]. cbn [fst snd app] in Ht3. wp_step.
    assert (∀ x0, exit_of o = Returns x0 → (failed x0 ∨ succeeded x0 ∧ R t3) ∧ J c t3) as Hx0.
    { destruct o as [[x|x]|w]; simpl; intros x0 [= <-]; naive_solver. }
    unfold wp at 1. destruct (run _ _ (mount_cleanup _ _ _)) as [u t4] eqn:Hr.
    wp_step. intros x Hx. destruct (exit_of o) as [x0|w] eqn:Ho; [|done].
    injection Hx as <-. destruct (Hx0 x0 eq_refl) as [Hfs HJ]. right.
    exists c1, c, keys, x0, t1, t2, t3, t4. rewrite app_nil_r. split_and!; try done.
    destruct x0 as [resp err']. cbn [pending_err snd] in *. eexists _, _. by rewrite Hr.
  - intros _. wp_step. done.
Qed.

Lemma MountDevice_run I J s req e h :
  cleanup_inv I J → I no_cleanup [] → benign_registry →
  wp e h (MountDevice registry once s req) (λ o t, ∀ x, o = Returns x →
    mount_run I J (λ _, True) x t).
Proof. intros. apply MountDevice_run_with; try done. intros. apply done_with_true. Qed.

(** The same for [UnMountDevice]. *)
Definition unmount_run (I J : assertion) (R : trace → Prop) (x : Exit) (t : trace) : Prop :=
  (∃ c x0, early x0 ∧ x = respond x0 ∧ I c t) ∨
  (∃ c x0 t1 t2, t = t1 ++ t2 ∧ x = respond x0 ∧ (failed x0 ∨ succeeded x0 ∧ R t1) ∧ J c t1 ∧
     cleaned (unmount_cleanup c x0.2) t2).

Lemma UnMountDevice_run_with I J R s req e h :
  cleanup_inv I J → I no_cleanup [] → benign_registry →
  wp e h (att_bind (unmount_prepare registry once s req) unmount_attempt no_cleanup) (done_with R) →
  wp e h (UnMountDevice registry once s req) (λ o t, ∀ x, o = Returns x → unmount_run I J R x t).
Proof.
  intros Hinv HI Hreg HR%bind_done. unfold UnMountDevice. wp_step.
  eapply wp_mono; [|apply wp_and; [apply (unmount_prepare_ok I J Hinv early); [done | | |exact HI]|exact HR]];
    [|by intros err; do 2 eexists..].
  intros [c1 [[x0|u]|w]] t1 [Hok HR1]; revert Hok; cbn [fst snd app].
  - intros [Hx Hc]. wp_step. intros x [= <-]. left. rewrite app_nil_r. eauto.
  - intros [Hu Hc1]. wp_step.
    eapply wp_mono; [|apply wp_and;
      [by apply (unmount_attempt_ok I J Hinv u Hu c1 t1)|by apply (HR1 c1 u)]].
    intros [c o] t3 [Ht3 HR3]. cbn [fst snd] in Ht3. wp_step.
    assert (∀ x0, exit_of o = Returns x0 →
      (failed x0 ∨ succeeded x0 ∧ R (t1 ++ t3)) ∧ J c (t1 ++ t3)) as Hx0.
    { destruct o as [[x|x]|w]; simpl; intros x0 [= <-]; naive_solver. }
    unfold wp at 1. destruct (run _ _ (unmount_cleanup _ _)) as [v t4] eqn:Hr.
    wp_step. intros x Hx. destruct (exit_of o) as [x0|w] eqn:Ho; [|done].
    injection Hx as <-. destruct (Hx0 x0 eq_refl) as [Hfs HJ]. right.
    exists c, x0, (t1 ++ t3), t4. rewrite app_nil_r, app_assoc. split_and!; try done.
    destruct x0 as [resp err']. cbn [pending_err snd] in *. eexists _, _. by rewrite Hr.
  - intros _. wp_step. done.
Qed.

Lemma UnMountDevice_run I J s req e h :
  cleanup_inv I J → I no_cleanup [] → benign_registry →
  wp e h (UnMountDevice registry once s req) (λ o t, ∀ x, o = Returns x →
    unmount_run I J (λ _, True) x t).
Proof. intros. apply UnMountDevice_run_with; try done. apply done_with_true. Qed.

(** ** Properties *)

Lemma respond_spec x :
  early x ∨ failed x ∨ succeeded x →
  ∃ resp, respond x = (Some resp, None) ∧
    (Result resp ≠ ResultCode_Success → x.2 ≠ None).
Proof.
  intros [(resp & err & ->)|[[err ->]|(resp & -> & Hr)]]; simpl.
  - destruct resp; eauto.
  - eauto.
  - exists resp. done.
Qed.

(** A trivial invariant. *)
Lemma true_inv : cleanup_inv (λ _ _, True) (λ _ _, True).
Proof. by split. Qed.

(** A handler that does not panic always answers with a response and never
    with a gRPC error, whatever fails. *)
Theorem handlers_respond s mreq ureq e h :
  benign_registry →
  wp e h (MountDevice registry once s mreq) (λ o _, ∀ x, o = Returns x →
    ∃ resp, x = (Some resp, None)) ∧
  wp e h (UnMountDevice registry once s ureq) (λ o _, ∀ x, o = Returns x →
    ∃ resp, x = (Some resp, None)).
Proof.
  intros Hreg. split.
  - eapply wp_mono; [|by apply (MountDevice_run _ _ s mreq e h true_inv)].
    intros o t Ho x Hx. destruct (Ho x Hx) as [(c & x0 & Hx0 & -> & _)|
      (c1 & c & keys & x0 & t1 & t2 & t3 & t4 & _ & -> & Hx0 & _)];
      destruct (respond_spec x0) as (resp & Hr & _); [tauto|eauto|tauto|eauto].
  - eapply wp_mono; [|by apply (UnMountDevice_run _ _ s ureq e h true_inv)].
    intros o t Ho x Hx. destruct (Ho x Hx) as [(c & x0 & Hx0 & -> & _)|
      (c & x0 & t1 & t2 & _ & -> & Hx0 & _)];
      destruct (respond_spec x0) as (resp & Hr & _); [tauto|eauto|tauto|eauto].
Qed.

(** The cleanup after an error deletes every key. *)
Lemma mount_cleanup_deletes c err keys t key :
  cleaned (mount_cleanup c (Some err) keys) t → key ∈ keys → ∃ derr, delete_answered key derr t.
Proof.
  intros (e & h & <-) Hkey.
  enough (wp e h (mount_cleanup c (Some err) keys) (λ _ t, ∃ derr, delete_answered key derr t))
    as Hw by (unfold wp in Hw; by destruct (run e h (mount_cleanup c (Some err) keys))).
  unfold mount_cleanup. wp_step. cbn beta iota. wp_step.
  eapply wp_mono; [|apply wp_true]. intros [] tf _. wp_step.
  eapply wp_mono; [|apply wp_true]. intros [] tr _. wp_step.
  eapply wp_mono; [|apply GarbageCollectionPods_wp]. intros failed tg (Hall & _). wp_step.
  eapply wp_mono; [|apply wp_true]. intros [] tc _. cbn beta.
  destruct (Hall key Hkey) as [derr Hd]. exists derr. unfold delete_answered in *.
  rewrite !elem_of_app. tauto.
Qed.

Lemma call_closure_calls P f :
  (∀ g, f = Some g → calls P g) → calls P (call_closure f).
Proof. intros Hf. destruct f as [g|]; simpl; [|apply calls_done]. calls_step; [by apply Hf | apply calls_done]. Qed.

Lemma mount_cleanup_benign c err keys :
  benign_closures c → calls benign (mount_cleanup c err keys).
Proof.
  intros Hc. unfold mount_cleanup. calls_step; [|apply call_closure_calls; auto].
  destruct err; [|apply calls_done].
  calls_step; [apply call_closure_calls; auto|]. calls_step; [apply call_closure_calls; auto|].
  calls_step; [apply GarbageCollectionPods_benign | apply calls_done].
Qed.

Lemma cleaned_calls {A} P (p : M A) t :
  calls P p → cleaned p t → Forall (λ ev, P (ev_cmd ev)) t.
Proof.
  intros Hp (e & h & <-). specialize (Hp e h). unfold wp in Hp. by destruct (run e h p).
Qed.

(** C8. No slave pod is leaked: if [MountDevice] answers with anything but
    success, every pod it created has been asked to be deleted, by name and uid,
    in the deferred cleanup. *)
Theorem MountDevice_no_leak s req e h :
  benign_registry →
  wp e h (MountDevice registry once s req) (λ o t, ∀ resp err,
    o = Returns (Some resp, err) → Result resp ≠ ResultCode_Success →
    ∀ key, created_in t key → ∃ derr, delete_answered key derr t).
Proof.
  intros Hreg.
  eapply wp_mono; [|apply (MountDevice_run _ _ s req e h clean_closures_inv); [|done]].
  2:{ split; [by apply no_cleanup_benign | constructor]. }
  intros o t Ho resp err Hx Hfail key Hkey.
  destruct (Ho _ Hx) as [(c & x0 & _ & _ & [_ Hn])|
    (c1 & c & keys & x0 & t1 & t2 & t3 & t4 & -> & Hresp & Hx0 & [_ Hn1] & [Hk _] & [Hcl Hn3] & Hc)].
  { by destruct (no_create_created t key Hn). }
  destruct (respond_spec x0) as (resp' & Hr & Herr); [tauto|]. rewrite Hr in Hresp.
  injection Hresp as -> ->. destruct x0 as [resp0 [err0|]]; [|by destruct (Herr Hfail)].
  rewrite !created_in_app in Hkey.
  enough (key ∈ keys) as Hin.
  { destruct (mount_cleanup_deletes c err0 keys t4 key Hc Hin) as [derr Hd]. exists derr.
    unfold delete_answered in *. rewrite !elem_of_app. tauto. }
  destruct_or! Hkey; [by destruct (no_create_created t1 key Hn1) | by apply Hk |
    by destruct (no_create_created t3 key Hn3) |].
  pose proof (cleaned_calls _ _ _ (mount_cleanup_benign c (Some err0) keys Hcl) Hc) as Hn4.
  by destruct (no_create_created t4 key (benign_forall_no_create t4 Hn4)).
Qed.

Lemma unmount_cleanup_benign c err : benign_closures c → calls benign (unmount_cleanup c err).
Proof.
  intros Hc. unfold unmount_cleanup. calls_step; [|apply call_closure_calls; auto].
  destruct err; [|apply calls_done]. calls_step; apply call_closure_calls; auto.
Qed.

(** Both cleanups end with [closedFd]. *)
Lemma cleanup_closes {A} (p : M A) c fd t :
  (∃ f, closedFd c = Some f ∧ closes f fd) →
  cleaned (prog_bind_fix (λ _, call_closure (closedFd c)) p) t → fd_closed fd t.
Proof.
  intros (f & Hf & Hcl) (e & h & <-).
  enough (wp e h (prog_bind_fix (λ _, call_closure (closedFd c)) p) (λ _ t, fd_closed fd t)) as Hw.
  { unfold wp in Hw. by destruct (run e h _). }
  wp_step. eapply wp_mono; [|apply wp_true]. intros a t _. rewrite Hf. cbn [call_closure].
  wp_step. eapply wp_mono; [|apply Hcl]. intros err t' [r Hr]. wp_step. exists r.
  rewrite !elem_of_app. tauto.
Qed.

Lemma benign_closed fd t1 t2 t3 :
  fd_opened fd (t1 ++ t2) → (∀ fd, ¬ fd_opened fd t2) →
  (fd_opened fd t1 → fd_closed fd t2) → fd_closed fd (t3 ++ t2).
Proof.
  intros [Ho|Ho]%fd_opened_app Hn Hc; [|by destruct (Hn fd)].
  destruct (Hc Ho) as [r Hr]. exists r. rewrite elem_of_app. tauto.
Qed.

(** C9. No descriptor is leaked: every directory a handler has opened for a rule
    change is closed by the time it answers. *)
Theorem handlers_close_fds s mreq ureq e h :
  benign_registry →
  wp e h (MountDevice registry once s mreq) (λ o t, ∀ x, o = Returns x →
    ∀ fd, fd_opened fd t → fd_closed fd t) ∧
  wp e h (UnMountDevice registry once s ureq) (λ o t, ∀ x, o = Returns x →
    ∀ fd, fd_opened fd t → fd_closed fd t).
Proof.
  intros Hreg. assert (nothing_opened no_cleanup []) as Hnone.
  { split; [by apply no_cleanup_benign|]. intros fd [p Hp]. set_solver. }
  split.
  - eapply wp_mono; [|by apply (MountDevice_run _ _ s mreq e h closable_inv)].
    intros o t Ho x Hx fd Hfd.
    destruct (Ho x Hx) as [(c & x0 & _ & _ & [_ Hn])|(c1 & c & keys & x0 & t1 & t2 & t3 & t4 &
      -> & _ & _ & [_ Hn1] & [_ Hn2] & Hc3 & Hc)]; [by destruct (Hn fd)|].
    assert (∀ fd, ¬ fd_opened fd t4) as Hn4.
    { intros fd'. apply benign_not_opened.
      eapply cleaned_calls; [apply mount_cleanup_benign; apply Hc3 | exact Hc]. }
    rewrite !app_assoc in *. apply (benign_closed fd _ t4 _ Hfd Hn4).
    intros [[Ho'|Ho']%fd_opened_app|Ho']%fd_opened_app;
      [by destruct (Hn1 fd) | by destruct (Hn2 fd) |].
    eapply cleanup_closes; [by apply Hc3 | exact Hc].
  - eapply wp_mono; [|by apply (UnMountDevice_run _ _ s ureq e h closable_inv)].
    intros o t Ho x Hx fd Hfd.
    destruct (Ho x Hx) as [(c & x0 & _ & _ & [_ Hn])|(c & x0 & t1 & t2 &
      -> & _ & _ & Hc1 & Hc)]; [by destruct (Hn fd)|].
    assert (∀ fd, ¬ fd_opened fd t2) as Hn2.
    { intros fd'. apply benign_not_opened.
      eapply cleaned_calls; [apply unmount_cleanup_benign; apply Hc1 | exact Hc]. }
    apply (benign_closed fd _ t2 _ Hfd Hn2). intros Ho'.
    eapply cleanup_closes; [by apply Hc1 | exact Hc].
Qed.

(** ** What a completed mount has done *)

Lemma act_step {A B} (S : outcome A → trace → Prop) m (f : A → att B) c e h R :
  wp e h m S →
  (∀ a t0, S (Returns a) t0 → wp e (h ++ t0) (f a c) (done_with (λ t, R (t0 ++ t)))) →
  wp e h (att_bind (run_act m) f c) (done_with R).
Proof.
  intros Hm Hf. unfold att_bind, run_act. do 2 wp_step.
  eapply wp_mono; [|exact Hm]. intros [a|w] t0 HS; wp_step; cbn beta iota.
  - rewrite !app_nil_r. by apply Hf.
  - by wp_step.
Qed.

Lemma skip_step {A B} (m : att A) (f : A → att B) c e h (R : trace → Prop) :
  (∀ t0 t, R t → R (t0 ++ t)) →
  (∀ a c h, wp e h (f a c) (done_with R)) →
  wp e h (att_bind m f c) (done_with R).
Proof.
  intros HR Hf. unfold att_bind. wp_step. eapply wp_mono; [|apply wp_true].
  intros [c' [[x|a]|w]] t0 _; cbn beta iota; [by wp_step| |by wp_step].
  eapply wp_mono; [|apply Hf]. intros r t Ht x Hx. apply HR. by eapply Ht.
Qed.

Lemma set_step {B} g (f : unit → att B) c e h R :
  wp e h (f tt (g c)) (done_with R) → wp e h (att_bind (set_cleanup g) f c) (done_with R).
Proof.
  intros Hf. unfold att_bind, set_cleanup. do 2 wp_step. cbn beta iota.
  rewrite app_nil_r. exact Hf.
Qed.

Lemma check_step {B} err (x : goerr → Exit) (f : unit → att B) c e h R :
  (err = None → wp e h (f tt c) (done_with R)) →
  wp e h (att_bind (match err with None => att_ret tt | Some err => stop (x err) end) f c)
    (done_with R).
Proof.
  intros Hf. unfold att_bind. destruct err as [err|]; unfold stop, att_ret; do 2 wp_step.
  - wp_step. intros y Hy. discriminate Hy.
  - cbn beta iota. rewrite app_nil_r. by apply Hf.
Qed.

(** The change of the rules of the devices [infos] in the container's cgroup [path]
    made calls that satisfy [S], and afterwards [command] was run in the container
    of [pid] for the devices that [sel] selects. *)
Definition staged (S : string → list DeviceInfo → trace → Prop) (command : DeviceInfo → string)
    (sel : DeviceInfo → bool) (t : trace) : Prop :=
  ∃ path infos pid ta tr tf tz, t = ta ++ tr ++ tf ++ tz ∧ S path infos tr ∧
    (pid ≠ 0%Z → execs tf = map (λ d, mount_sh pid (command d)) (filter sel infos)).

Lemma staged_app S command sel t0 t : staged S command sel t → staged S command sel (t0 ++ t).
Proof.
  intros (path & infos & pid & ta & tr & tf & tz & -> & Hr & Hf).
  exists path, infos, pid, (t0 ++ ta), tr, tf, tz. by rewrite <- app_assoc.
Qed.

Lemma staged_intro S command (sel : DeviceInfo → bool) path infos pid tr tf tz :
  S path infos tr →
  (pid ≠ 0%Z → execs tf = map (λ d, mount_sh pid (command d)) (filter sel infos)) →
  staged S command sel (tr ++ tf ++ tz).
Proof. intros Hr Hf. by exists path, infos, pid, [], tr, tf, tz. Qed.

Lemma wp_total {A} (p : M A) e h (Q : trace → Prop) :
  wp e h p (λ _ t, Q t) → wp e h (total p) (λ _ t, Q t).
Proof. intros Hp. unfold total. wp_step. eapply wp_mono; [|exact Hp]. intros o t Ht. wp_step. by rewrite app_nil_r. Qed.

(** A change of the device rules that reports no error. *)
Definition rules_wp (e : env) (S : string → list DeviceInfo → trace → Prop) : Prop :=
  ∀ path infos h, wp e h (DeviceRuleSetFunc once path (mkResources false (map di_Rule infos)))
    (λ o t, ∀ closed rollback, o = Returns (closed, rollback, None) → S path infos t).

Lemma CreateDeviceFiles_execs pid devs e h :
  wp e h (CreateDeviceFiles (Some (mount_config pid)) devs) (λ _ t,
    pid ≠ 0%Z → execs t =
      map (λ d, mount_sh pid (mknod_cmd d)) (filter (λ d, Allow (di_Rule d)) devs)).
Proof.
  unfold CreateDeviceFiles. destruct (decide (pid = 0%Z)) as [->|Hpid].
  { eapply wp_mono; [|apply wp_true]. naive_solver. }
  wp_step. eapply wp_mono; [|apply (for_files_execs _ (λ d, Allow (di_Rule d)) mknod_cmd pid)].
  - intros v t Ht. wp_step. by rewrite app_nil_r.
  - intros d e' h'. unfold AddDeviceFile. destruct (Allow (di_Rule d)); simpl; [|by wp_step].
    by apply sh_execs.
Qed.

Lemma mount_attempt_staged (e : env) S p keys err c h :
  rules_wp e S →
  wp e h (mount_attempt once p keys err c) (done_with (staged S mknod_cmd (λ d, Allow (di_Rule d)))).
Proof.
  intros HS. destruct p as [pod container ty m pods]. unfold mount_attempt.
  apply skip_step; [apply staged_app|]. intros _ c1 h1.
  apply skip_step; [apply staged_app|]. intros [[ready skip] werr] c2 h2.
  do 2 (apply skip_step; [apply staged_app|]; intros ???).
  apply skip_step; [apply staged_app|]. intros r5 c5 h5.
  apply skip_step; [apply staged_app|]. intros infos c6 h6.
  apply skip_step; [apply staged_app|]. intros r7 c7 h7.
  apply skip_step; [apply staged_app|]. intros [pids path] c8 h8.
  eapply act_step; [apply HS|]. intros [[closed rollback] rerr] tr Htr. cbn beta iota in *.
  apply set_step, check_step. intros ->. specialize (Htr _ _ eq_refl).
  eapply (act_step (λ _ t0, t0 = [])); [by wp_step|]. intros pid t1 ->.
  eapply (act_step (λ _ tf, pid ≠ 0%Z → execs tf =
    map (λ d, mount_sh pid (mknod_cmd d)) (filter (λ d, Allow (di_Rule d)) infos))).
  { apply wp_total, CreateDeviceFiles_execs. }
  intros files tf Hf. eapply wp_mono; [|apply wp_true]. intros r tz _ x _.
  exact (staged_intro S _ _ path infos pid tr tf tz Htr Hf).
Qed.

(** The rules were set without an error by the calls [t]. *)
Definition set_without_error (e : env) (path : string) (infos : list DeviceInfo) (t : trace) : Prop :=
  ∃ closed rollback h, run e h (DeviceRuleSetFunc once path (mkResources false (map di_Rule infos))) =
    (Returns (closed, rollback, None), t).

(** A mount that completes has set the rules of its devices without an
    error, and only then made the files of the allowed ones in the container. *)
Theorem mount_attempt_complete p keys err c e h :
  wp e h (mount_attempt once p keys err c)
    (done_with (staged (set_without_error e) mknod_cmd (λ d, Allow (di_Rule d)))).
Proof.
  apply mount_attempt_staged. intros path infos h'. unfold wp.
  destruct (run e h' _) as [o t] eqn:Hrun. intros closed rollback ->. by exists closed, rollback, h'.
Qed.

End Calls.

(** ** Witnesses *)

#[local] Instance w_client : ClientLib := bounded 4.
#[local] Instance w_client_laws : ClientLaws := bounded_laws 4.
#[local] Instance w_settings : Settings :=
  {| DeviceSlaveContainerImageTag := "alpine:latest";
     DeviceSlaveImagePullPolicy := "IfNotPresent"; CurrentCGroupDriver := "cgroupfs" |}.
#[local] Instance w_cgroup : CgroupLib :=
  {| GetPodQOS _ := "BestEffort"; ExpandSlice s := Ok ("/kubepods.slice/" +:+ s) |}.
#[local] Existing Instance toy_emulator.
#[local] Existing Instance no_json.
#[local] Instance w_quantity : QuantityLib := {| ParseQuantity _ := Ok (mkQuantity 1 false) |}.
#[local] Instance w_range : RangeLib := {| range V m := map_to_list m |}.

(** A mounter that asks for one slave pod, and sees process 99 on every device. *)
Definition w_mounter : DeviceMounter := {|
  GetDeviceType := "GPU";
  ValidateMountRequest _ _ _ _ _ _ := Done (Returns None);
  BuildSupportPodTemplates pod _ limits annos labels _ :=
    Done (Returns (Ok [NewDeviceSlavePod pod limits annos labels]));
  VerifySupportPodStatus _ := Done (Returns (Success, None));
  GetDeviceInfosToMount _ _ _ := Done (Returns (Ok
    [mkDeviceInfo (mkRule CharDevice 195 0 "rw" true) "GPU-0" "/dev/nvidia0"]));
  ExecutePostMountActions _ _ _ _ := Done (Returns (Some (PlainError "post mount failed")));
  GetDeviceInfosToUnmount _ _ _ := Done (Returns (Ok
    [mkDeviceInfo (mkRule CharDevice 195 0 "rw" false) "GPU-0" "/dev/nvidia0"]));
  GetDevicesActiveProcessIDs _ _ := Done (Returns (Ok [99%Z]));
  ExecutePostUnmountActions _ _ _ _ := Done (Returns None);
  GetPodsToCleanup _ _ _ := Done (Returns []) |}.

Definition w_registry : Registry := mkRegistry {["GPU" := w_mounter]} [].

Lemma w_registry_get type m : GetDeviceMounter w_registry type = Some m → m = w_mounter.
Proof.
  unfold GetDeviceMounter, w_registry. cbn [registerDeviceMounter].
  intros [_ ->]%lookup_singleton_Some. done.
Qed.

Lemma w_registry_benign : benign_registry w_registry.
Proof. intros type m ->%w_registry_get. split; intros; apply calls_done. Qed.

Definition w_pod : Pod :=
  mkPod (mkObjectMeta "cuda" "" "default" "u-1" "" None None [] false)
    (mkPodSpec "node-1" [] [mkPodContainer "main" "" "" [] [] [] ∅ None] None "" "" None "" None)
    (mkPodStatus PodRunning "" [] [mkContainerStatus "main" true "containerd://4a1f"] "Burstable" "").

Definition w_slave : Pod :=
  mkPod (mkObjectMeta "cuda-device-slave-x" "" "default" "u-2" "" None
    (Some {[DeviceTypeAnnotationKey := "GPU"]}) [] false) emptySpec emptyStatus.

(** A node with cgroup v2, a runc filter program and a running container. *)
Definition w_env : env := λ h c,
  match c return reply c with
  | PodGet _ _ _ => Ok w_pod
  | PodListerGet _ _ => Ok w_slave
  | PodListerList _ _ => Ok [w_slave]
  | NodeListerGet _ => Ok (mkNode "node-1" None ∅)
  | PodCreate _ _ => Ok w_slave
  | Stat _ => SysOk (mkFileInfo false false (Some 0%Z))
  | GetAllPids _ => Ok [42%Z]
  | UnixOpen _ => SysOk 7%Z
  | BpfProgQuery _ _ => mkQueryReply None 1 [41%Z]
  | NewProgramFromID _ => SysOk 10%Z
  | ProgInstructions _ => Ok (Some
      [JNE_Imm R2 2%Z; Mov_Imm32 R0 1%Z; Return_; Mov_Imm32 R0 0%Z; Return_])
  | NewProgram _ _ => Ok 11%Z
  | RawAttachProgram _ _ _ _ => SysOk tt
  | RawDetachProgram _ _ => SysOk tt
  | c => default_reply c
  end.

Definition w_server : DeviceMounterServer := mkDeviceMounterServer "node-1".
Definition w_mount_req : MountDeviceRequest :=
  mkMountDeviceRequest "cuda" "default" None (Some {["gpu" := "1"]}) None None "gpu" [].
Definition w_unmount_req : UnMountDeviceRequest :=
  mkUnMountDeviceRequest "cuda" "default" None "gpu" false.

Lemma handlers_respond_witness :
  wp w_env [] (MountDevice w_registry (Some true) w_server w_mount_req) (λ o _, ∀ x,
    o = Returns x → ∃ resp, x = (Some resp, None)) ∧
  wp w_env [] (UnMountDevice w_registry (Some true) w_server w_unmount_req) (λ o _, ∀ x,
    o = Returns x → ∃ resp, x = (Some resp, None)).
Proof.
  apply (handlers_respond w_registry (Some true) w_server w_mount_req w_unmount_req w_env []).
  apply w_registry_benign.
Defined.

Lemma MountDevice_no_leak_witness :
  (run w_env [] (MountDevice w_registry (Some true) w_server w_mount_req)).1 =
    Returns (Some (mkDeviceResponse ResultCode_Fail
      "failed to execute post mount actions: post mount failed"), None) ∧
  wp w_env [] (MountDevice w_registry (Some true) w_server w_mount_req) (λ o t, ∀ resp err,
    o = Returns (Some resp, err) → Result resp ≠ ResultCode_Success →
    ∀ key, created_in t key → ∃ derr, delete_answered key derr t).
Proof.
  split; [vm_compute; reflexivity|].
  apply (MountDevice_no_leak w_registry (Some true) w_server w_mount_req w_env []).
  apply w_registry_benign.
Defined.

Lemma handlers_close_fds_witness :
  wp w_env [] (MountDevice w_registry (Some true) w_server w_mount_req) (λ o t, ∀ x,
    o = Returns x → ∀ fd, fd_opened fd t → fd_closed fd t) ∧
  wp w_env [] (UnMountDevice w_registry (Some true) w_server w_unmount_req) (λ o t, ∀ x,
    o = Returns x → ∀ fd, fd_opened fd t → fd_closed fd t).
Proof.
  apply (handlers_close_fds w_registry (Some true) w_server w_mount_req w_unmount_req w_env []).
  apply w_registry_benign.
Defined.
