(* ===== verification/ErrorCodes.v ===== *)
(** * The codes of failures

    An answer is made from the error that ended the request, with the code of a
    [MounterError]. That a failure is never reported as a success rests on the
    errors themselves: the API server, the kernel and the libraries know nothing
    of [MounterError], and no step of the server makes one with the code of
    success. The methods of a mounter promise the same ([honest_mounter]). *)
From Stdlib Require Import ZArith Lia.
From stdpp Require Import base gmap strings list.
From S2P Require Import Prelude GoStrings Api Ebpf World Util Cgroup CgroupV2 Framework MounterUtil Server ServerFacts.

(** The answer made from the error does not report a success. *)
Definition honest_err (err : goerr) : Prop := Result (error_response err) ≠ ResultCode_Success.

Lemma honest_PlainError msg : honest_err (PlainError msg).
Proof. done. Qed.

Lemma honest_wrap prefix err : honest_err (wrap_err prefix err).
Proof. done. Qed.

Lemma honest_foreign err : is_MounterError err = false → honest_err err.
Proof. by destruct err. Qed.

Lemma honest_keep prefix err : honest_err err → honest_err (keep_mounter_error prefix err).
Proof. unfold keep_mounter_error. by destruct (is_MounterError err). Qed.

#[export] Hint Resolve honest_PlainError honest_wrap honest_foreign honest_keep : go.

(** ** Values without dishonest errors *)

Class Honest (A : Type) := honest : A → Prop.

#[export] Instance honest_any {A} : Honest A | 100 := λ _, True.
#[export] Instance honest_goerr : Honest goerr := honest_err.
#[export] Instance honest_option {A} `{Honest A} : Honest (option A) := λ o,
  match o with Some a => honest a | None => True end.
#[export] Instance honest_result {A} `{Honest A} : Honest (result A) := λ r,
  match r with Ok a => honest a | Err err => honest_err err end.
#[export] Instance honest_outcome {A} `{Honest A} : Honest (outcome A) := λ o,
  match o with Returns a => honest a | Panics _ => True end.
#[export] Instance honest_prod {A B} `{Honest A, Honest B} : Honest (A * B) := λ p,
  honest p.1 ∧ honest p.2.

(** A request that was given up: an error, with a code of its own. *)
Definition refused (x : Exit) : Prop :=
  ∃ resp err, x = (resp, Some err) ∧ honest_err err ∧
    match resp with Some resp => Result resp ≠ ResultCode_Success | None => True end.

#[export] Instance honest_exit {A} `{Honest A} : Honest (Exit + A) := λ x,
  match x with inl x => refused x | inr a => honest a end.

Lemma honest_Returns {A} `{Honest A} (a : A) : honest a → honest (Returns a).
Proof. done. Qed.

#[export] Hint Resolve honest_Returns : go.

(** The error in an answer of the environment. *)
Definition reply_err (c : cmd) : reply c → option goerr :=
  match c return reply c → option goerr with
  | PodGet _ _ _ | PodCreate _ _ | PodPatch _ _ _ _ | PodPatchData _ _ _ | PodListerGet _ _ => err_of
  | PodList _ _ _ | PodListerList _ _ => err_of
  | NodeListerGet _ => err_of
  | GetAllPids _ => err_of
  | CgroupReadFile _ _ => err_of
  | ProgInstructions _ => err_of
  | NewProgram _ _ => err_of
  | ExecCmdToPod _ _ _ _ | CopyToPod _ _ _ _ _ | WriteToPod _ _ _ _ _ => err_of
  | NvmlDeviceGetCount | NvmlHandleByIndex _ | NvmlHandleByUUID _ | NvmlMinorNumber _ => err_of
  | NvmlUUID _ => err_of
  | NvmlComputeProcesses _ | NvmlGraphicsProcesses _ => err_of
  | ListPodResources => err_of
  | ReadDir _ => err_of
  | OpenFile _ | Mmap _ _ => err_of
  | DevmanagerAutoInit => err_of
  | DcmiGetDeviceList => err_of
  | DcmiGetDevProcessInfo _ => err_of
  | PodDelete _ _ _ _ | PdbCreate _ _ | NodeJSONPatch _ _ | NodePatch _ _ _ => λ err, err
  | CgroupWriteFile _ _ _ | UnixClose _ | Munmap _ | UnlockKey _ => λ err, err
  | InitRunLogger | DcmiInit | DcmiShutDown | DcmiGetDeviceHealth _ => λ err, err
  | _ => λ _, None
  end.

(** The environment knows nothing of [MounterError]. *)
Definition foreign (e : env) : Prop :=
  ∀ h c err, reply_err c (e h c) = Some err → is_MounterError err = false.

#[export] Instance honest_reply c : Honest (reply c) := λ r,
  ∀ err, reply_err c r = Some err → honest_err err.

(** ** Programs *)

(** In every foreign environment the value satisfies [Q]. *)
Definition honestly {A} (Q : A → Prop) (p : M A) : Prop :=
  ∀ e, foreign e → ∀ h, wp e h p (λ a _, Q a).

Lemma honestly_done {A} (Q : A → Prop) a : Q a → honestly Q (Done a).
Proof. intros Ha e _ h. by wp_step. Qed.

Lemma honestly_bind {A B} `{Honest A} (Q : B → Prop) (p : M A) f :
  honestly honest p → (∀ a, honest a → honestly Q (f a)) → honestly Q (prog_bind_fix f p).
Proof.
  intros Hp Hf e He h. wp_step. eapply wp_mono; [|by apply Hp]. intros a t Ha. by apply Hf.
Qed.

Lemma honestly_mono {A} (Q Q' : A → Prop) p : (∀ a, Q a → Q' a) → honestly Q p → honestly Q' p.
Proof. intros HQ Hp e He h. eapply wp_mono; [|by apply Hp]. intros a t. apply HQ. Qed.

Lemma honestly_any {A} (p : M A) : honestly (λ _, True) p.
Proof. intros e _ h. apply wp_true. Qed.

Lemma honestly_any_value {A} (p : M A) : honestly (@honest A honest_any) p.
Proof. apply honestly_any. Qed.

#[export] Hint Resolve honestly_any_value : go.

Lemma honestly_call c (Q : reply c → Prop) : (∀ r, honest r → Q r) → honestly Q (call c).
Proof.
  intros HQ e He h. apply wp_vis_at, wp_done, HQ. intros err Herr. by eapply honest_foreign, He.
Qed.

Lemma honestly_vis {A} (Q : A → Prop) c (k : reply c → M A) :
  (∀ r, honest r → honestly Q (k r)) → honestly Q (Vis c k).
Proof.
  intros Hk. apply (honestly_bind Q (call c) k); [|done]. by apply honestly_call.
Qed.

Lemma honestly_try {A B} `{Honest A, Honest B} (p : M (result A)) (f : A → M (result B)) :
  honestly honest p → (∀ a, honest a → honestly honest (f a)) → honestly honest (try_bind p f).
Proof. intros Hp Hf. apply honestly_bind; [done|]. intros [a|err] Ha; [by apply Hf|by apply honestly_done]. Qed.

Lemma honestly_panic {A B} `{Honest A, Honest B} (p : act A) (f : A → act B) :
  honestly honest p → (∀ a, honest a → honestly honest (f a)) → honestly honest (panic_bind p f).
Proof. intros Hp Hf. apply honestly_bind; [done|]. intros [a|why] Ha; [by apply Hf|by apply honestly_done]. Qed.

Lemma honestly_panic_try {A B} `{Honest A, Honest B} (p : act (result A)) (f : A → act (result B)) :
  honestly honest p → (∀ a, honest a → honestly honest (f a)) → honestly honest (panic_try_bind p f).
Proof. intros Hp Hf. apply honestly_panic; [done|]. intros [a|err] Ha; [by apply Hf|by apply honestly_done]. Qed.

(** A step whose errors do not matter. *)
Lemma honestly_panic_any {A B} `{Honest B} (p : act A) (f : A → act B) :
  (∀ a, honestly honest (f a)) → honestly honest (panic_bind p f).
Proof.
  intros Hf. apply (@honestly_bind _ _ (λ _, True)); [apply honestly_any|].
  intros [a|why] _; [by apply Hf|by apply honestly_done].
Qed.

Lemma honestly_total {A} `{Honest A} (p : M A) : honestly honest p → honestly honest (total p).
Proof. intros Hp. apply honestly_bind; [done|]. intros a Ha. by apply honestly_done. Qed.

Lemma honestly_retry `{ClientLaws} {A} `{Honest A} retriable (fn : M (result A)) :
  honestly honest fn → honestly honest (retry_OnError retriable fn).
Proof. intros Hfn e He h. apply retry_wp; [by apply Hfn|done]. Qed.

(** Opens the cases of a program; the lemmas on the functions it calls are in the
    hint database. *)
Ltac honest_value :=
  repeat match goal with
  | |- honest ?x => is_var x; destruct x
  | |- honest ?t => match t with context [match ?x with _ => _ end] => destruct x end
  | |- honest (_, _) => split; cbn [fst snd]
  end;
  try solve [eauto with go];
  cbv [honest honest_result honest_option honest_outcome honest_prod honest_goerr honest_any err_of fst snd];
  repeat match goal with |- _ ∧ _ => split
  | |- match match ?x with _ => _ end with _ => _ end => destruct x
  | |- match ?x with _ => _ end => destruct x
  end;
  try solve [ exact I | apply honest_PlainError | apply honest_wrap | assumption | eauto with go | done
            | match goal with H : honest _ |- _ => apply H; (reflexivity || assumption) end
            | match goal with H : honest _ |- _ => apply H end ].
Ltac honest_step :=
  match goal with
  | |- honestly _ _ => solve [eauto with go]
  | |- honestly _ (prog_bind_fix _ _) => apply honestly_bind; [|intros ? ?]
  | |- honestly _ (try_bind _ _) => apply honestly_try; [|intros ? ?]
  | |- honestly _ (panic_bind (pure _) _) => apply honestly_panic_any; intros ?
  | |- honestly _ (panic_bind _ _) => apply honestly_panic; [|intros ? ?]
  | |- honestly _ (panic_try_bind _ _) => apply honestly_panic_try; [|intros ? ?]
  | |- honestly _ (total _) => apply honestly_total
  | |- honestly _ (Done _) => apply honestly_done
  | |- honestly _ (pure _) => apply honestly_done
  | |- honestly _ (call _) => apply honestly_call; intros ? ?
  | |- honestly _ (Vis _ _) => apply honestly_vis; intros ? ?
  | |- honestly _ (retry_OnError _ _) => apply honestly_retry
  | |- honestly _ (match ?x with _ => _ end) => destruct x
  | |- honestly _ (let _ := _ in _) => cbv zeta
  end.
Ltac honesty := repeat honest_step; try solve [eauto with go];
  try match goal with |- honest _ => honest_value end.

(** ** The server *)

(** The methods of a mounter make no dishonest errors. *)
Record honest_mounter (m : DeviceMounter) : Prop := {
  hm_validate node pod c r a l : honestly honest (ValidateMountRequest m node pod c r a l);
  hm_build pod c r a l ps : honestly honest (BuildSupportPodTemplates m pod c r a l ps);
  hm_verify p : honestly honest (VerifySupportPodStatus m p);
  hm_mount pod c ps : honestly honest (GetDeviceInfosToMount m pod c ps);
  hm_post_mount cfg pod c ps : honestly honest (ExecutePostMountActions m cfg pod c ps);
  hm_unmount pod c ps : honestly honest (GetDeviceInfosToUnmount m pod c ps);
  hm_active pids infos : honestly honest (GetDevicesActiveProcessIDs m pids infos);
  hm_post_unmount cfg pod c ps : honestly honest (ExecutePostUnmountActions m cfg pod c ps) }.

#[export] Instance honest_device_mounter : Honest DeviceMounter := honest_mounter.

Section Server.
Context `{ClientLib, Settings, CgroupLib, EmulatorLib, AsmLib, JsonLib, !ClientLaws}.

Lemma GetTargetPod_honest s n ns : honestly honest (GetTargetPod s n ns).
Proof. unfold GetTargetPod. honesty. Qed.

Lemma GetSlavePods_honest ty p c : honestly honest (GetSlavePods ty p c).
Proof. unfold GetSlavePods. honesty. Qed.

Lemma CheckPodContainer_honest pod cont : honest (CheckPodContainer pod cont).
Proof.
  destruct pod as [pod|]; [|done]. destruct cont as [cont|]; simpl; [|by repeat case_match].
  generalize 0%Z. induction (spec_Containers (pod_Spec pod)) as [|c l IH]; intros i; simpl; [done|].
  repeat case_match; done || apply IH.
Qed.

Lemma CheckPodContainerStatus_honest pod cont : honest (CheckPodContainerStatus pod cont).
Proof. unfold CheckPodContainerStatus. by case_match. Qed.

Lemma PatchPod_honest pod patches : honest (PatchPod pod patches).
Proof. unfold PatchPod. by repeat case_match. Qed.

Lemma get_slave_pod_honest k : honestly honest (get_slave_pod k).
Proof. unfold get_slave_pod. honesty. Qed.

Lemma try_path_honest p k : honestly honest k → honestly honest (try_path p k).
Proof. intros Hk. unfold try_path, PathIsNotExist. honesty. Qed.

Lemma convert_honest pod c f p : GetK8sPodCGroupPath pod c f = Returns p → honestly honest p.
Proof.
  unfold GetK8sPodCGroupPath, convertSystemdFullPath, convertCGroupfsFullPath.
  destruct (GetContainerStatus _ _); [|intros [= <-]; honesty].
  destruct (parseRuntime _) as [r i].
  case_decide; [|case_decide; [|intros [= <-]; honesty]].
  - destruct (ToSystemd _); [|done]. intros [= <-].
    repeat case_decide; repeat apply try_path_honest; honesty.
  - destruct (slice_get (NewPodCgroupName pod) _); [|done]. intros [= <-].
    repeat apply try_path_honest; honesty.
Qed.

Lemma GetContainerCGroupPathAndPids_honest pod c :
  honestly honest (GetContainerCGroupPathAndPids pod c).
Proof.
  unfold GetContainerCGroupPathAndPids, GetCGroupPath. honest_step; [|honesty].
  honest_step; [honesty|]. honest_step; [apply honestly_any|].
  destruct (GetK8sPodCGroupPath _ _ _) as [p|] eqn:Hp; [|honesty].
  apply honestly_total. by eapply convert_honest.
Qed.

Hint Resolve GetTargetPod_honest GetSlavePods_honest get_slave_pod_honest
  GetContainerCGroupPathAndPids_honest : go.

Section Mounter.
Context (m : DeviceMounter) (Hm : honest_mounter m).

Lemma wait_condition_honest keys s : honestly honest (wait_condition m keys s).
Proof.
  revert s. induction keys as [|k keys IH]; intros s; cbn [wait_condition]; [honesty|].
  honest_step; [honesty|]. destruct a as [pod|err]; [|honesty].
  honest_step; [apply Hm|]. destruct a as [code err].
  match goal with Hp : honest (_, _) |- _ => destruct Hp as [_ Herr]; simpl in Herr end.
  repeat case_decide; try apply IH; apply honestly_done; split; try exact I; try done.
  - by destruct err.
  - destruct err as [err|]; simpl; [|done]. by destruct (is_MounterError err).
Qed.

Lemma WaitSupportPodsReady_honest keys : honestly honest (WaitSupportPodsReady m keys).
Proof.
  unfold WaitSupportPodsReady. apply honestly_bind.
  - intros e He h. eapply wp_mono; [|apply (poll_wp _ _ _ _ (λ _, True) (λ s err, honest (s, err))); [exact I| |]].
    { by intros [s err] t. }
    2:{ intros [s [why|]] msg _; (split; [by split|apply honest_PlainError]). }
    intros s h' _. unfold poll_panic. wp_step. eapply wp_mono; [|by apply wait_condition_honest].
    intros [[s' [[]|err]]|why] t Ht; wp_step; try done. destruct Ht as [_ Ht]. by split.
  - intros [[s why] err] [_ Herr]. destruct why; honesty.
Qed.

End Mounter.

(** ** The handlers *)

Definition honest_att {A} `{Honest A} (m : att A) : Prop := ∀ c, honestly honest (m c).

Section Att.
Context {A : Type} `{Honest A}.

Lemma honest_att_ret (a : A) : honest a → honest_att (att_ret a).
Proof. intros Ha c. by apply honestly_done. Qed.

Lemma honest_stop x : refused x → honest_att (stop (A := A) x).
Proof. intros Hx c. by apply honestly_done. Qed.

Lemma honest_att_bind {B} `{Honest B} (m : att B) (f : B → att A) :
  honest_att m → (∀ b, honest b → honest_att (f b)) → honest_att (att_bind m f).
Proof.
  intros Hm Hf c. unfold att_bind. apply honestly_bind; [apply Hm|].
  intros [c' [[x|b]|why]] [_ Ha]; [by apply honestly_done|by apply Hf|by apply honestly_done].
Qed.

Lemma honest_run_act (m : act A) : honestly honest m → honest_att (run_act m).
Proof.
  intros Hm c. unfold run_act. apply honestly_bind; [done|]. intros [a|why] Ha; by apply honestly_done.
Qed.

Lemma honest_run_m (m : M A) : honestly honest m → honest_att (run_m m).
Proof. intros Hm. by apply honest_run_act, honestly_total. Qed.

(** A step whose errors are wrapped, or that has none. *)
Lemma honest_bind_any {B} (m : act B) (f : B → att A) :
  (∀ b, honest_att (f b)) → honest_att (att_bind (run_act m) f).
Proof.
  intros Hf c. unfold att_bind, run_act. apply (@honestly_bind _ _ (λ r, match r.2 with Returns (inl _) => False | _ => True end)).
  - intros e He h. wp_step. eapply wp_mono; [|apply wp_true]. intros [b|why] t _; by wp_step.
  - intros [c' [[x|b]|why]] Hr; [done|by apply Hf|by apply honestly_done].
Qed.

Lemma refused_err err : honest_err err → refused (None, Some err).
Proof. intros Herr. by exists None, err. Qed.

Lemma honest_check (r : result A) : honest r → honest_att (check r).
Proof. destruct r; intros Hr; [by apply honest_att_ret|]. by apply honest_stop, refused_err. Qed.

Lemma honest_check_found (r : result A) : honest r → honest_att (check_found r).
Proof.
  destruct r as [a|err]; intros Hr; [by apply honest_att_ret|]. simpl.
  destruct (IsNotFound err); apply honest_stop; [|by apply refused_err].
  by exists (Some (not_found_response err)), err.
Qed.

End Att.

Lemma honest_check_err (err : option goerr) : honest err → honest_att (check_err err).
Proof. destruct err; intros Hr; [by apply honest_stop, refused_err|by apply honest_att_ret]. Qed.

Lemma honest_set_cleanup f : honest_att (set_cleanup f).
Proof. intros c. by apply honestly_done. Qed.

Context `{QuantityLib, RangeLib}.

(** What the libraries' errors are not. *)
Definition foreign_quantities : Prop :=
  ∀ s err, ParseQuantity s = Err err → is_MounterError err = false.

Context (registry : Registry) (once : option bool).

Definition honest_registry : Prop :=
  ∀ type m, GetDeviceMounter registry type = Some m → honest_mounter m.

Context (Hquantities : foreign_quantities) (Hregistry : honest_registry).

Lemma parse_resources_honest l resources : honest (parse_resources l resources).
Proof.
  revert resources. induction l as [|[key val] l IH]; intros resources; simpl; [done|].
  destruct (ParseQuantity val) as [q|err] eqn:Hq; simpl; [apply IH|].
  by eapply honest_foreign, Hquantities.
Qed.

Lemma finish_templates_honest s ty c pod patches ps :
  honestly honest (finish_templates s ty c pod patches ps).
Proof.
  induction ps as [|p ps IH]; cbn [finish_templates]; [honesty|].
  pose proof (PatchPod_honest p patches) as Hp. destruct (PatchPod p patches); [|honesty].
  honest_step; [apply honestly_any|]. honest_step; [done|]. honesty.
Qed.

Hint Resolve parse_resources_honest finish_templates_honest : go.

Lemma find_mounter_honest ty req : honest_att (find_mounter registry ty req).
Proof.
  unfold find_mounter. destruct (GetDeviceMounter registry ty) as [m|] eqn:Hm.
  - apply honest_att_ret. by eapply Hregistry.
  - apply honest_stop, refused_err, honest_PlainError.
Qed.

Ltac att_step :=
  lazymatch goal with
  | |- honest_att (att_bind (run_act (DeviceRuleSetFunc _ _ _)) _) => apply honest_bind_any; intros ?
  | |- honest_att (att_bind (run_m (CreateDeviceFiles _ _)) _) => apply honest_bind_any; intros ?
  | |- honest_att (att_bind (run_m (DeleteDeviceFiles _ _)) _) => apply honest_bind_any; intros ?
  | |- honest_att (att_bind (run_act (GetPodsToCleanup _ _ _ _)) _) => apply honest_bind_any; intros ?
  | |- honest_att (att_bind (run_act (pure _)) _) => apply honest_bind_any; intros ?
  | |- honest_att (att_bind _ _) => apply honest_att_bind; [|intros ? ?]
  | |- honest_att (att_ret _) => apply honest_att_ret
  | |- honest_att (stop _) => apply honest_stop, refused_err
  | |- honest_att (run_act _) => apply honest_run_act
  | |- honest_att (run_m _) => apply honest_run_m
  | |- honest_att (check _) => apply honest_check
  | |- honest_att (check_err _) => apply honest_check_err
  | |- honest_att (check_found _) => apply honest_check_found
  | |- honest_att (set_cleanup _) => apply honest_set_cleanup
  | |- honest_att (find_mounter _ _ _) => apply find_mounter_honest
  | |- honest_att (match ?x with _ => _ end) => destruct x
  end.

Lemma find_target_honest s n ns cont ty : honest_att (find_target registry s n ns cont ty).
Proof.
  unfold find_target. repeat att_step; try done; auto using CheckPodContainer_honest,
    CheckPodContainerStatus_honest with go.
Qed.

#[export] Instance honest_prepared : Honest Prepared := λ p, honest_mounter (p_mounter p).
#[export] Instance honest_unmounting : Honest Unmounting := λ u, honest_mounter (u_mounter u).

(** The mounter that was found, with its promises. *)
Ltac with_mounter :=
  match goal with
  | H : honest ?t |- context [match ?t with _ => _ end] => destruct t as [[[? ?] ?] ?]; destruct H as [_ []]
  end.
Ltac attempt := repeat att_step; auto with go; try solve [honesty]; try honest_value.

Lemma mount_prepare_honest s req : honest_att (mount_prepare registry s req).
Proof.
  unfold mount_prepare. att_step; [att_step; unfold CheckMountDeviceRequest; by repeat case_match|].
  att_step; [apply find_target_honest|]. with_mounter.
  attempt.
Qed.

Lemma mount_attempt_honest p keys err :
  honest p → honest_att (mount_attempt once p keys err).
Proof.
  destruct p as [pod container ty m pods]. intros Hm. pose proof Hm as []. unfold mount_attempt.
  attempt; auto using WaitSupportPodsReady_honest.
Qed.

Lemma unmount_prepare_honest s req : honest_att (unmount_prepare registry once s req).
Proof.
  unfold unmount_prepare. att_step; [att_step; unfold CheckUnMountDeviceRequest; by repeat case_match|].
  att_step; [apply find_target_honest|]. with_mounter.
  attempt.
Qed.

Lemma unmount_attempt_honest u : honest u → honest_att (unmount_attempt u).
Proof.
  destruct u as [pod container ty m pods infos cfg err]. intros Hm. pose proof Hm as [].
  unfold unmount_attempt. attempt.
Qed.

(** ** Answers *)

(** The request was answered, and an answer that reports success comes with [R]. *)
Definition success_means (R : trace → Prop) (o : outcome Exit) (t : trace) : Prop :=
  ∀ x, o = Returns x → ∃ resp, x = (Some resp, None) ∧ (Result resp = ResultCode_Success → R t).

Lemma refused_answer R x t : refused x → success_means R (Returns (respond x)) t.
Proof.
  intros (resp & err & -> & Herr & Hresp) ? [= <-]. destruct resp as [resp|]; eexists; (split; [reflexivity|]).
  - by intros ?%Hresp.
  - by intros ?%Herr.
Qed.

Lemma attempt_answer (m : att Exit) c e h R :
  foreign e → honest_att m → ok_att (λ _ _, True) (λ _ _, True) (λ _ _, True) failed succeeded m →
  wp e h (m c) (done_with R) →
  wp e h (m c) (λ r t, ∀ x, exit_of r.2 = Returns x → success_means (λ _, R t) (Returns (respond x)) t).
Proof.
  intros He Hm Hok HR. eapply wp_mono; [|apply wp_and; [apply HR|apply wp_and; [by apply Hm|by apply (Hok c [])]]].
  intros [c' [[x|x]|why]] t (Hd & [_ Hh] & Hs) y [= <-].
  - by apply refused_answer.
  - destruct Hs as [(resp & -> & Hr) _]. intros ? [= <-]. exists resp. split; [done|].
    intros _. by eapply Hd.
Qed.

Lemma MountDevice_answer R s req e h :
  foreign e → benign_registry registry →
  (∀ t0 t t1, R t → R (t0 ++ t ++ t1)) →
  (∀ p keys err h, wp e h (mount_attempt once p keys err no_cleanup) (done_with R)) →
  wp e h (MountDevice registry once s req) (success_means R).
Proof.
  intros He Hreg Happ HR. unfold MountDevice. wp_step. eapply wp_mono; [|apply wp_and;
    [by apply mount_prepare_honest|apply (mount_prepare_ok registry _ _ true_inv (λ _, True)); done]].
  intros [c1 [[x|p]|why]] t1 [[_ Hx] Hok]; cbn [fst snd] in *.
  - wp_step. by apply refused_answer.
  - destruct Hok as [Hp _]. wp_step. eapply wp_mono; [|apply wp_true]. intros [keys err] t2 _. wp_step.
    eapply wp_mono; [|apply (attempt_answer _ _ _ _ R); [done|by apply mount_attempt_honest|
      by apply (mount_attempt_ok once _ _ true_inv)|apply HR]].
    intros [c o] t3 Ho. cbn [snd] in Ho. wp_step. eapply wp_mono; [|apply wp_true].
    intros u t4 _. wp_step. destruct (exit_of o) as [x|why]; [|by intros ? [=]].
    intros y Hy. destruct (Ho x eq_refl y Hy) as (resp & ? & Hs). exists resp. split; [done|].
    intros ?%Hs. rewrite app_nil_r, (app_assoc t1). by apply Happ.
  - wp_step. by intros ? [=].
Qed.

(** [R] is of the whole request here, as the rules are changed in its first part. *)
Lemma UnMountDevice_answer R s req e h :
  foreign e → benign_registry registry → (∀ t t1, R t → R (t ++ t1)) →
  wp e h (att_bind (unmount_prepare registry once s req) unmount_attempt no_cleanup) (done_with R) →
  wp e h (UnMountDevice registry once s req) (success_means R).
Proof.
  intros He Hreg Happ HR%bind_done. unfold UnMountDevice. wp_step. eapply wp_mono; [|apply wp_and; [exact HR|apply wp_and;
    [by apply unmount_prepare_honest|apply (unmount_prepare_ok registry once _ _ true_inv (λ _, True)); done]]].
  intros [c1 [[x|u]|why]] t1 (HR1 & [_ Hx] & Hok); cbn [fst snd] in *.
  - wp_step. by apply refused_answer.
  - destruct Hok as [Hu _]. wp_step.
    eapply wp_mono; [|apply (attempt_answer _ _ _ _ (λ t, R (t1 ++ t))); [done|by apply unmount_attempt_honest|
      by apply (unmount_attempt_ok _ _ true_inv)|by apply HR1]].
    intros [c o] t3 Ho. cbn [snd] in Ho. wp_step. eapply wp_mono; [|apply wp_true].
    intros v t4 _. wp_step. destruct (exit_of o) as [x|why]; [|by intros ? [=]].
    intros y Hy. destruct (Ho x eq_refl y Hy) as (resp & ? & Hs). exists resp. split; [done|].
    intros ?%Hs. rewrite app_nil_r, app_assoc. by apply Happ.
  - wp_step. by intros ? [=].
Qed.

End Server.
