(* ===== verification/NodeEffect.v ===== *)
(** * What a request leaves behind on the node

    Mounting and unmounting from the handler down to the kernel, under cgroup v2:
    [ServerFacts], [ErrorCodes] and [DeviceAccess] together. *)
From Stdlib Require Import ZArith Lia.
From stdpp Require Import base gmap strings list.
From S2P Require Import Prelude GoStrings Api Ebpf EbpfFacts World Util Cgroup CgroupV2 DeviceAccess Framework MounterUtil Server ServerFacts ErrorCodes.

Section Node.
Context `{ClientLib, Settings, CgroupLib, EmulatorLib, JsonLib, AsmLib, !AsmLaws, QuantityLib, RangeLib, !ClientLaws}.
Context (registry : Registry) (once : option bool).














End Node.

(** ** Witnesses *)

#[local] Existing Instance ServerFacts.w_client.
#[local] Existing Instance ServerFacts.w_client_laws.
#[local] Existing Instance ServerFacts.w_settings.
#[local] Existing Instance ServerFacts.w_cgroup.
#[local] Existing Instance toy_emulator.
#[local] Existing Instance no_json.
#[local] Existing Instance ServerFacts.w_quantity.
#[local] Existing Instance ServerFacts.w_range.











