(* ===== verification/Controller.v ===== *)
(** * The slave pod controller ([pkg/controller])

    The controller watches the slave pods of its node. [OnUpdate] remembers the
    metadata a pod had before somebody edited it in the [MetadataCache] and
    queues the pod; a worker ([processNextWorkItem] with [handleMetadataFix])
    puts the protected labels and annotations and the owner back. The cache is
    modelled twice: its four operations as functions on the map it keeps, and,
    in the handlers, as calls ([CacheSet], [CacheGet], [CacheDone],
    [CacheDelete]), because other goroutines use it between two calls of a
    handler. *)
From stdpp Require Import base gmap strings list pretty.
From Stdlib Require Import ZArith Lia Ascii.
From S2P Require Import Prelude GoStrings Api Ebpf World Util Cgroup CgroupV2 Framework MounterUtil.

(** ** Metadata as JSON *)

(** What [json.Unmarshal] makes of [json.Marshal]: [omitempty] drops an empty map
    or list, which comes back as nil. *)
Definition normal_map (m : gomap string) : gomap string :=
  match m with Some m => if decide (m = ∅) then None else Some m | None => None end.

Definition normal (md : Metadata) : Metadata :=
  mkMetadata (normal_map (md_Labels md)) (normal_map (md_Annotations md))
    (md_OwnerReferences md).

(** encoding/json on [Metadata]. [Utf8 md]: every string of [md] is valid UTF-8
    (other bytes are replaced by the encoder). *)
Class MetadataJson := {
  Utf8 : Metadata → Prop;
  Marshal_Metadata : Metadata → string;
  Unmarshal_Metadata : string → Metadata }.

(** Objects are written with their keys sorted, so the text depends on the
    encoded members only. *)
Class MetadataJsonLaws `{MetadataJson} : Prop := {
  Unmarshal_Marshal md : Utf8 md → Unmarshal_Metadata (Marshal_Metadata md) = normal md;
  Marshal_normal md md' : normal md = normal md' → Marshal_Metadata md = Marshal_Metadata md' }.

(** ** [pkg/controller/types.go] *)

(** The keys under which [sync.Map] finds entries are compared with their dynamic
    type: a string, or a namespaced name. *)
Inductive CacheKey :=
  | KeyString (s : string)
  | KeyObject (namespace name : string).

#[export] Instance CacheKey_eq_dec : EqDecision CacheKey.
Proof. solve_decision. Defined.
#[export] Instance CacheKey_countable : Countable CacheKey.
Proof.
  refine (inj_countable'
    (λ k, match k with KeyString s => inl s | KeyObject ns n => inr (ns, n) end)
    (λ x, match x with inl s => KeyString s | inr (ns, n) => KeyObject ns n end) _).
  by intros [].
Defined.

Definition MetadataCache : Type := gmap CacheKey string.

(** [client.ObjectKey] carries no UID. *)
Definition client_ObjectKey (namespace name : string) : ObjectKey :=
  mkObjectKey namespace name None.

Section Cache.
Context `{MetadataJson}.

Definition cache_Delete (key : ObjectKey) (cache : MetadataCache) : MetadataCache :=
  delete (KeyString (key_String key)) cache.

Definition cache_Done (key : ObjectKey) (metadata : Metadata) (cache : MetadataCache)
    : MetadataCache :=
  if decide (cache !! KeyString (key_String key) = Some (Marshal_Metadata metadata))
  then delete (KeyString (key_String key)) cache else cache.

Definition cache_Set (key : ObjectKey) (metadata : Metadata) (cache : MetadataCache)
    : MetadataCache :=
  let data := Marshal_Metadata metadata in
  match cache !! KeyString (key_String key) with
  | None => <[KeyString (key_String key) := data]> cache
  | Some _ => <[KeyObject (ok_Namespace key) (ok_Name key) := data]> cache
  end.

Definition cache_Get (key : ObjectKey) (cache : MetadataCache) : option Metadata :=
  Unmarshal_Metadata <$> cache !! KeyString (key_String key).

Inductive cache_op :=
  | OpSet (key : ObjectKey) (metadata : Metadata)
  | OpDone (key : ObjectKey) (metadata : Metadata)
  | OpDelete (key : ObjectKey).

Definition cache_step (cache : MetadataCache) (op : cache_op) : MetadataCache :=
  match op with
  | OpSet key md => cache_Set key md cache
  | OpDone key md => cache_Done key md cache
  | OpDelete key => cache_Delete key cache
  end.

End Cache.

(** The map underneath, for the lemmas on maps. *)
Ltac as_map := unfold cache_Set, cache_Done, cache_Delete, cache_Get, MetadataCache in *.

(** ** [pkg/controller/pod_controller.go] *)

Definition podLabelKeys : list string :=
  [OwnerNameLabelKey; OwnerUidLabelKey; CreatedByLabelKey; MountContainerLabelKey].
Definition podAnnoKeys : list string :=
  [DeviceTypeAnnotationKey; ContainerIdAnnotationKey].

(** The closure [containsKeys]. *)
Definition containsKeys (keys : list string) (maps : gomap string) : bool :=
  forallb (λ key, bool_decide (is_Some (map_get maps key))) keys.

(** [meta.Accessor] fails on a value without metadata: [None]. *)
Definition OnAdd (obj : option ObjectMeta) : M unit :=
  match obj with
  | None => Done tt
  | Some podObj =>
      if (map_len (meta_Labels podObj) =? 0)%nat || (map_len (meta_Annotations podObj) =? 0)%nat
      then Done tt else
      if negb (containsKeys podAnnoKeys (meta_Annotations podObj)) then Done tt else
      if negb (containsKeys podLabelKeys (meta_Labels podObj)) then Done tt else
      if negb (String.eqb (map_str (meta_Labels podObj) AppComponentLabelKey) CreateManagerBy)
      then Done tt else
      if negb (String.eqb (map_str (meta_Labels podObj) AppManagedByLabelKey) CreateManagerBy)
      then Done tt else
      call (QueueAdd podAddQueue (client_ObjectKey (meta_Namespace podObj) (meta_Name podObj)))
  end.

(** The metadata that [metadataFixEnqueue] collects: what changed, as it was. *)
Definition changed_metadata (oldPod newPod : ObjectMeta) : Metadata :=
  mkMetadata
    (if decide (meta_Labels oldPod = meta_Labels newPod) then None else meta_Labels oldPod)
    (if decide (meta_Annotations oldPod = meta_Annotations newPod) then None
     else meta_Annotations oldPod)
    (if decide (meta_OwnerReferences oldPod = meta_OwnerReferences newPod) then []
     else meta_OwnerReferences oldPod).

Definition emptyMetadata : Metadata := mkMetadata None None [].

Definition metadataFixEnqueue (oldPod newPod : ObjectMeta) : M unit :=
  if decide (meta_ResourceVersion oldPod = meta_ResourceVersion newPod) then Done tt else
  let metadata := changed_metadata oldPod newPod in
  if decide (metadata = emptyMetadata) then Done tt else
  let key := client_ObjectKey (meta_Namespace oldPod) (meta_Name oldPod) in
  _ <-- call (CacheSet key metadata) ;;
  call (QueueAdd metadataFixQueue key).

Definition OnUpdate (oldObj newObj : option ObjectMeta) : M unit :=
  match oldObj with
  | None => Done tt
  | Some oldPod =>
      if (map_len (meta_Labels oldPod) =? 0)%nat || (map_len (meta_Annotations oldPod) =? 0)%nat
      then Done tt else
      match newObj with
      | None => Done tt
      | Some newPod => metadataFixEnqueue oldPod newPod
      end
  end.

(** The dynamic types [OnDelete] tells apart; [Obj] is a pod or something else. *)
Inductive DeletedObject :=
  | DeletedFinalStateUnknown (Key : string) (Obj : option ObjectMeta)
  | DeletedPod (pod : ObjectMeta)
  | DeletedOther.

Definition OnDelete (obj : DeletedObject) : M unit :=
  match obj with
  | DeletedFinalStateUnknown _ (Some pod) | DeletedPod pod =>
      call (CacheDelete (client_ObjectKey (meta_Namespace pod) (meta_Name pod)))
  | DeletedFinalStateUnknown Key None =>
      match Split Key "/" with
      | [namespace; name] => call (CacheDelete (client_ObjectKey namespace name))
      | _ => Done tt
      end
  | DeletedOther => Done tt
  end.

(** [reconcile.Result]; the duration in nanoseconds. *)
Record reconcile_Result := mkResult { Requeue : bool; RequeueAfter : Z }.
Definition zeroResult : reconcile_Result := mkResult false 0.

(** A worker that panics unwinds to the deferred functions: the item is marked
    done, the panic is recovered and the loop goes on. *)
Definition processNextWorkItem (queue : Queue)
    (workerFunc : ObjectKey → act (reconcile_Result * option goerr)) : M bool :=
  obj <-- call (QueueGet queue) ;;
  match obj with
  | None => Done false
  | Some item =>
      _ <-- match item return M unit with
            | NotRequest => call (QueueForget queue item)
            | Request req =>
                r <-- workerFunc req ;;
                match r return M unit with
                | Panics _ => Done tt
                | Returns (_, Some _) => call (QueueAddRateLimited queue req)
                | Returns (result, None) =>
                    if (0 <? RequeueAfter result)%Z then
                      _ <-- call (QueueForget queue item) ;;
                      call (QueueAddAfter queue req (RequeueAfter result))
                    else if Requeue result then call (QueueAddRateLimited queue req)
                    else call (QueueForget queue item)
                end
            end ;;
      _ <-- call (QueueDone queue item) ;;
      Done true
  end.

(** A goroutine of [Start] after at most [n] items: whether its loop has ended. *)
Fixpoint worker (n : nat) (queue : Queue)
    (workerFunc : ObjectKey → act (reconcile_Result * option goerr)) : M bool :=
  match n with
  | O => Done false
  | S n' =>
      loop <-- processNextWorkItem queue workerFunc ;;
      if loop : bool then worker n' queue workerFunc else Done true
  end.

(** The goroutine of [Start] that waits for the context. *)
Definition shutDown : M unit :=
  _ <-- call (QueueShutDown podAddQueue) ;;
  call (QueueShutDown metadataFixQueue).

Definition handlePodAdd (req : ObjectKey) : act (reconcile_Result * option goerr) :=
  Done (Returns (zeroResult, None)).

(** The closure [comparableKeys], which fills an empty [result]. *)
Definition comparableKeys (old new : gomap string) (keys : list string) : gmap string string :=
  if (map_len old =? 0)%nat then ∅ else
  foldl (λ result key,
    match map_get old key with
    | None => result
    | Some val =>
        if bool_decide (new = None) || bool_decide (map_str new key ≠ val)
        then <[key := val]> result else result
    end) ∅ keys.

(** controller-runtime's [client.StrategicMergeFrom(pod).Data(newPod)], and what
    the API server makes of a pod by such a patch. *)
Class MergePatch := {
  StrategicMerge_Data : Pod → Pod → result string;
  apply_patch : string → Pod → Pod }.

(** The patch of two pods leads from the one to the other. *)
Class MergePatchLaws `{MergePatch} : Prop :=
  merge_patch_law old new data : StrategicMerge_Data old new = Ok data → apply_patch data old = new.

Section Fix.
Context `{MergePatch}.

Definition with_Meta (f : ObjectMeta → ObjectMeta) (pod : Pod) : Pod :=
  mkPod (f (pod_Meta pod)) (pod_Spec pod) (pod_Status pod).

(** The copy of the pod with its metadata repaired. *)
Definition repair (pod : Pod) (metadata : Metadata) : outcome Pod :=
  let labels := comparableKeys (md_Labels metadata) (pod_Labels pod) podLabelKeys in
  newLabels ← CopyMap (map_to_list labels) (pod_Labels pod);
  let annos := comparableKeys (md_Annotations metadata) (pod_Annotations pod) podAnnoKeys in
  newAnnos ← CopyMap (map_to_list annos) (pod_Annotations pod);
  Returns (with_Meta (λ m,
    mkObjectMeta (meta_Name m) (meta_GenerateName m) (meta_Namespace m) (meta_UID m)
      (meta_ResourceVersion m) newLabels newAnnos
      (match md_OwnerReferences metadata with
       | [] => meta_OwnerReferences m
       | refs => refs
       end) (meta_Deleting m)) pod).

(** From the deep copy to the final [return]: the value of [err] there. *)
Definition fix_pod (req : ObjectKey) (pod : Pod) (metadata : Metadata) : act (option goerr) :=
  match repair pod metadata with
  | Panics why => Done (Panics why)
  | Returns newPod =>
      if decide (pod_Meta pod = pod_Meta newPod) then Done (Returns None) else
      match StrategicMerge_Data pod newPod with
      | Err err => Done (Returns (Some err))
      | Ok patchData =>
          r <-- call (PodPatchData (ok_Namespace req) (ok_Name req) patchData) ;;
          Done (Returns match r with
                        | Ok _ => None
                        | Err err => if IsNotFound err then None else Some err
                        end)
      end
  end.

(** [err] is nil when [repair] panics, so the deferred function drops the entry
    of the cache in that case too. *)
Definition handleMetadataFix (req : ObjectKey) : act (reconcile_Result * option goerr) :=
  r <-- call (PodListerGet (ok_Namespace req) (ok_Name req)) ;;
  match r with
  | Err err => Done (Returns (zeroResult, if IsNotFound err then None else Some err))
  | Ok pod =>
      if meta_Deleting (pod_Meta pod) then Done (Returns (zeroResult, None)) else
      ok <-- call (CacheGet req) ;;
      match ok with
      | None => Done (Returns (zeroResult, None))
      | Some metadata =>
          o <-- fix_pod req pod metadata ;;
          _ <-- match o return M unit with
                | Returns (Some _) => Done tt
                | Returns None | Panics _ => call (CacheDone req metadata)
                end ;;
          Done (err ← o; Returns (zeroResult, err))
      end
  end.

End Fix.

(** ** Lemmas *)

Lemma normal_map_idem m : normal_map (normal_map m) = normal_map m.
Proof. destruct m as [m|]; simpl; [|done]. case_decide; simpl; by rewrite ?decide_False. Qed.

Lemma normal_idem md : normal (normal md) = normal md.
Proof. unfold normal. simpl. by rewrite !normal_map_idem. Qed.

Lemma normal_map_get m k : map_get (normal_map m) k = map_get m k.
Proof.
  destruct m as [m|]; simpl; [|done]. case_decide; subst; simpl; [|done].
  by rewrite lookup_empty.
Qed.

Lemma normal_map_str m k : map_str (normal_map m) k = map_str m k.
Proof. unfold map_str. by rewrite normal_map_get. Qed.

Lemma map_len_zero {V} (m : gomap V) k : map_len m = 0 → map_get m k = None.
Proof. destruct m as [m|]; simpl; [|done]. intros ->%map_size_empty_inv. apply lookup_empty. Qed.

Lemma comparableKeys_lookup old new keys k :
  comparableKeys old new keys !! k =
    if decide (k ∈ keys) then
      match map_get old k with
      | Some val => if bool_decide (new = None) || bool_decide (map_str new k ≠ val)
                    then Some val else None
      | None => None
      end
    else None.
Proof.
  unfold comparableKeys. destruct (map_len old =? 0)%nat eqn:Hlen.
  { apply Nat.eqb_eq in Hlen. rewrite lookup_empty, (map_len_zero old k Hlen). by case_decide. }
  induction keys as [|x keys IH] using rev_ind.
  - rewrite decide_False by set_solver. apply lookup_empty.
  - rewrite foldl_app. simpl. destruct (decide (k = x)) as [->|Hkx].
    + rewrite (decide_True (P := x ∈ keys ++ [x])) by set_solver.
      destruct (map_get old x) as [v|] eqn:Hv; [|rewrite IH; by case_decide].
      destruct (_ || _); [by rewrite lookup_insert_eq | rewrite IH; by case_decide].
    + destruct (map_get old x); [destruct (_ || _)|];
        rewrite ?lookup_insert_ne by done; rewrite IH; repeat case_decide; set_solver.
Qed.

Lemma CopyMap_union (m dst : gmap string string) :
  CopyMap (map_to_list m) (Some dst) = Returns (Some (m ∪ dst)).
Proof.
  rewrite CopyMap_foldl, foldl_insert_NoDup by apply NoDup_fst_map_to_list.
  by rewrite list_to_map_to_list.
Qed.

Lemma CopyMap_empty (dst : gomap string) : CopyMap (map_to_list (∅ : gmap string string)) dst = Returns dst.
Proof. by rewrite map_to_list_empty. Qed.

(** Copying what [comparableKeys] found puts the old values back. *)
Lemma comparableKeys_restores old n keys k :
  map_get (Some (comparableKeys old (Some n) keys ∪ n)) k =
    match map_get old k with
    | Some val => if decide (k ∈ keys ∧ map_str (Some n) k ≠ val) then Some val else n !! k
    | None => n !! k
    end.
Proof.
  simpl. rewrite lookup_union, comparableKeys_lookup.
  destruct (map_get old k) as [v|]; [|case_decide; by rewrite left_id_L by apply _].
  destruct (decide (k ∈ keys)); [|rewrite decide_False by tauto; by rewrite left_id_L by apply _].
  simpl. case_bool_decide.
  - rewrite decide_True by tauto. by destruct (n !! k).
  - rewrite decide_False by tauto. by rewrite left_id_L by apply _.
Qed.

Section CacheRefinement.
Context `{MetadataJsonLaws}.

(** *** What the cache promises: the first metadata of a key stays until it is
    done or deleted. *)
Abbreviation pending := (gmap string Metadata).

Definition pending_step (p : pending) (op : cache_op) : pending :=
  match op with
  | OpSet key md =>
      match p !! key_String key with
      | None => <[key_String key := normal md]> p
      | Some _ => p
      end
  | OpDone key md =>
      if decide (p !! key_String key = Some (normal md)) then delete (key_String key) p else p
  | OpDelete key => delete (key_String key) p
  end.

Definition utf8_op (op : cache_op) : Prop :=
  match op with OpSet _ md | OpDone _ md => Utf8 md | OpDelete _ => True end.

Definition represents (cache : MetadataCache) (p : pending) : Prop :=
  ∀ ks, match p !! ks with
        | Some v => ∃ md, Utf8 md ∧ v = normal md ∧ cache !! KeyString ks = Some (Marshal_Metadata md)
        | None => cache !! KeyString ks = None
        end.

Lemma Marshal_inj md md' :
  Utf8 md → Utf8 md' → Marshal_Metadata md = Marshal_Metadata md' ↔ normal md = normal md'.
Proof.
  intros H1 H2. split; [|apply Marshal_normal]. intros Heq.
  by rewrite <- !Unmarshal_Marshal, Heq.
Qed.

Lemma cache_step_refines cache p op :
  represents cache p → utf8_op op → represents (cache_step cache op) (pending_step p op).
Proof.
  intros Hr Hu. destruct op as [key md|key md|key]; simpl in *; intros ks;
    unfold represents in *; as_map; pose proof (Hr ks) as Hks.
  - pose proof (Hr (key_String key)) as Hkey. cbv zeta.
    destruct (p !! key_String key) as [v|] eqn:Hp.
    + destruct Hkey as (md' & _ & _ & ->). by rewrite lookup_insert_ne by done.
    + rewrite Hkey. destruct (decide (ks = key_String key)) as [->|Hne].
      * rewrite !lookup_insert_eq. eauto.
      * rewrite !lookup_insert_ne by congruence. done.
  - pose proof (Hr (key_String key)) as Hkey.
    destruct (p !! key_String key) as [v|] eqn:Hp.
    + destruct Hkey as (md' & Hmd' & -> & Hc). rewrite Hc.
      destruct (decide (normal md' = normal md)) as [Heq|Hne].
      * pose proof (Marshal_normal md' md Heq). rewrite !decide_True by congruence.
        destruct (decide (ks = key_String key)) as [->|].
        -- by rewrite !lookup_delete_eq.
        -- by rewrite !lookup_delete_ne by congruence.
      * assert (Marshal_Metadata md' ≠ Marshal_Metadata md) by (intros ?; by apply Hne, Marshal_inj).
        by rewrite !decide_False by congruence.
    + rewrite Hkey. by rewrite !decide_False by done.
  - destruct (decide (ks = key_String key)) as [->|].
    + by rewrite !lookup_delete_eq.
    + by rewrite !lookup_delete_ne by congruence.
Qed.

Lemma cache_steps_refine ops cache p :
  represents cache p → Forall utf8_op ops →
  represents (foldl cache_step cache ops) (foldl pending_step p ops).
Proof.
  intros Hr Hops. revert cache p Hr. induction Hops as [|op ops Hop _ IH]; intros; simpl; [done|].
  apply IH. by apply cache_step_refines.
Qed.

Lemma KeyObject_stays ops cache ns n :
  is_Some (cache !! KeyObject ns n) → is_Some (foldl cache_step cache ops !! KeyObject ns n).
Proof.
  revert cache. induction ops as [|op ops IH]; intros cache Hc; simpl; [done|]. apply IH.
  destruct op as [key md|key md|key]; simpl.
  - as_map. case_match; rewrite lookup_insert; case_decide; eauto.
  - as_map. case_decide; [|done]. by rewrite lookup_delete_ne.
  - as_map. by rewrite lookup_delete_ne.
Qed.

(** C16. After any sequence of operations the cache answers what a table of
    pending repairs would in which the first metadata set for a pod stays until
    it is done or deleted. A second [Set] before that is therefore not seen;
    its entry is stored under a key that no operation reads or deletes. *)
Theorem MetadataCache_refines ops :
  Forall utf8_op ops →
  (∀ key, cache_Get key (foldl cache_step ∅ ops) = foldl pending_step ∅ ops !! key_String key) ∧
  (∀ ops1 key md ops2, ops = ops1 ++ OpSet key md :: ops2 →
     is_Some (foldl pending_step ∅ ops1 !! key_String key) →
     is_Some (foldl cache_step ∅ ops !! KeyObject (ok_Namespace key) (ok_Name key))).
Proof.
  intros Hops. split.
  - intros key. pose proof (cache_steps_refine ops ∅ ∅) as Hr.
    specialize (Hr (λ ks, eq_refl) Hops (key_String key)). unfold cache_Get.
    destruct (foldl pending_step ∅ ops !! key_String key) as [v|]; [|by rewrite Hr].
    destruct Hr as (md & Hu & -> & ->). simpl. by rewrite Unmarshal_Marshal.
  - intros ops1 key md ops2 -> Hset. apply Forall_app in Hops as [Hops1 _].
    rewrite foldl_app. simpl. apply KeyObject_stays.
    pose proof (cache_steps_refine ops1 ∅ ∅ (λ ks, eq_refl) Hops1 (key_String key)) as Hr.
    destruct Hset as [v Hv]. rewrite Hv in Hr. destruct Hr as (md' & _ & _ & Hc).
    as_map. rewrite Hc, lookup_insert_eq. eauto.
Qed.

End CacheRefinement.

(** ** Repairing a pod *)

Section Repair.
Context `{MergePatch}.

(** The old value of a protected key comes back. *)
Definition restored (keys : list string) (old new fixed : gomap string) : Prop :=
  ∀ k, map_get fixed k =
    match map_get old k with
    | Some val => if decide (k ∈ keys ∧ map_str new k ≠ val) then Some val else map_get new k
    | None => map_get new k
    end.

Lemma restored_same keys old : restored keys old old old.
Proof.
  intros k. destruct (map_get old k) eqn:Hk; [|done].
  rewrite decide_False; [done|]. unfold map_str. rewrite Hk. simpl. tauto.
Qed.

Lemma CopyMap_restores keys old n :
  ∃ fixed, CopyMap (map_to_list (comparableKeys (normal_map old) (Some n) keys)) (Some n) =
             Returns (Some fixed) ∧ restored keys old (Some n) (Some fixed).
Proof.
  eexists. split; [apply CopyMap_union|]. intros k.
  rewrite comparableKeys_restores, normal_map_get. done.
Qed.

(** What the metadata that [metadataFixEnqueue] kept makes of the edited pod. *)
Lemma repair_changed old pod nl na :
  pod_Labels pod = Some nl → pod_Annotations pod = Some na →
  ∃ newPod, repair pod (normal (changed_metadata old (pod_Meta pod))) = Returns newPod ∧
    restored podLabelKeys (meta_Labels old) (pod_Labels pod) (pod_Labels newPod) ∧
    restored podAnnoKeys (meta_Annotations old) (pod_Annotations pod) (pod_Annotations newPod) ∧
    meta_OwnerReferences (pod_Meta newPod) =
      match meta_OwnerReferences old with
      | [] => meta_OwnerReferences (pod_Meta pod)
      | refs => refs
      end.
Proof.
  intros Hl Ha. unfold repair, normal, changed_metadata. simpl. unfold pod_Labels, pod_Annotations in *.
  rewrite Hl, Ha.
  set (ol := if decide (meta_Labels old = Some nl) then None else meta_Labels old).
  set (oa := if decide (meta_Annotations old = Some na) then None else meta_Annotations old).
  destruct (CopyMap_restores podLabelKeys ol nl) as (fl & Hfl & Hrl).
  destruct (CopyMap_restores podAnnoKeys oa na) as (fa & Hfa & Hra).
  rewrite Hfl. simpl. rewrite Hfa. simpl. eexists. split; [done|]. simpl. repeat split.
  - subst ol. intros k. specialize (Hrl k). case_decide as Hd; [|done].
    rewrite Hd. etransitivity; [exact Hrl | apply (restored_same podLabelKeys)].
  - subst oa. intros k. specialize (Hra k). case_decide as Hd; [|done].
    rewrite Hd. etransitivity; [exact Hra | apply (restored_same podAnnoKeys)].
  - case_decide as Hd; [rewrite Hd; by destruct (meta_OwnerReferences (pod_Meta pod))|done].
Qed.

(** Only metadata is repaired. *)
Lemma repair_metadata pod md newPod :
  repair pod md = Returns newPod →
  let m := pod_Meta pod in
  ∃ labels annos owners, newPod = mkPod
    (mkObjectMeta (meta_Name m) (meta_GenerateName m) (meta_Namespace m) (meta_UID m)
      (meta_ResourceVersion m) labels annos owners (meta_Deleting m)) (pod_Spec pod) (pod_Status pod).
Proof.
  unfold repair. intros (l & _ & (a & _ & Hn)%outcome_bind_Returns)%outcome_bind_Returns.
  apply (f_equal (λ o, match o with Returns p => p | Panics _ => pod end)) in Hn. cbn in Hn.
  subst newPod. unfold with_Meta. do 3 eexists. reflexivity.
Qed.

(** C17. An edit of a slave pod is undone. When [OnUpdate] sees a pod with labels
    and annotations change, it remembers what changed and queues the pod; a
    worker whose calls then succeed sends nothing if the edit touched nothing
    that is protected, and otherwise one patch, which makes of the edited pod
    one whose protected labels and annotations have their old values, whose
    other labels and annotations are as edited, and whose owner is the old one;
    and it drops the entry it has dealt with. *)
Theorem edit_is_undone `{!MergePatchLaws} old pod nl na (e : env) h h' :
  let key := client_ObjectKey (meta_Namespace old) (meta_Name old) in
  let md := changed_metadata old (pod_Meta pod) in
  meta_ResourceVersion old ≠ meta_ResourceVersion (pod_Meta pod) → md ≠ emptyMetadata →
  map_len (meta_Labels old) ≠ 0 → map_len (meta_Annotations old) ≠ 0 →
  pod_Labels pod = Some nl → pod_Annotations pod = Some na →
  meta_Deleting (pod_Meta pod) = false →
  (∀ h, e h (PodListerGet (ok_Namespace key) (ok_Name key)) = Ok pod) →
  (∀ h, e h (CacheGet key) = Some (normal md)) →
  (∀ newPod, repair pod (normal md) = Returns newPod → is_Ok (StrategicMerge_Data pod newPod) = true) →
  (∀ h data, is_Ok (e h (PodPatchData (ok_Namespace key) (ok_Name key) data)) = true) →
  (run e h (OnUpdate (Some old) (Some (pod_Meta pod)))).2 =
    [Ev (CacheSet key md) (e h (CacheSet key md));
     Ev (QueueAdd metadataFixQueue key)
       (e (h ++ [Ev (CacheSet key md) (e h (CacheSet key md))]) (QueueAdd metadataFixQueue key))] ∧
  ∃ newPod,
    restored podLabelKeys (meta_Labels old) (pod_Labels pod) (pod_Labels newPod) ∧
    restored podAnnoKeys (meta_Annotations old) (pod_Annotations pod) (pod_Annotations newPod) ∧
    meta_OwnerReferences (pod_Meta newPod) =
      match meta_OwnerReferences old with
      | [] => meta_OwnerReferences (pod_Meta pod) | refs => refs end ∧
    wp e h' (handleMetadataFix key) (λ o t, o = Returns (zeroResult, None) ∧
      ∃ patches,
        map ev_cmd t =
          [PodListerGet (ok_Namespace key) (ok_Name key); CacheGet key] ++
          map (PodPatchData (ok_Namespace key) (ok_Name key)) patches ++ [CacheDone key (normal md)] ∧
        if decide (pod_Meta newPod = pod_Meta pod) then patches = []
        else ∃ data, patches = [data] ∧ apply_patch data pod = newPod).
Proof.
  intros key md Hrv Hmd Hl Ha Hnl Hna Hdel Hget Hcache Hdata Hpatch. split.
  - unfold OnUpdate. apply Nat.eqb_neq in Hl, Ha. rewrite Hl, Ha. simpl.
    unfold metadataFixEnqueue. by rewrite decide_False, decide_False by done.
  - destruct (repair_changed old pod nl na Hnl Hna) as (newPod & Hrep & Hrl & Hra & Hro).
    exists newPod. do 3 (split; [done|]). specialize (Hdata newPod Hrep).
    unfold wp, handleMetadataFix. simpl.
    rewrite Hget, Hdel. simpl. rewrite Hcache. unfold fix_pod. subst md. rewrite Hrep.
    case_decide as Heq; simpl.
    + split; [done|]. exists []. split; [done|]. by rewrite decide_True.
    + destruct (StrategicMerge_Data pod newPod) as [data|] eqn:Hd; [|done]. simpl.
      match goal with |- context [e ?h (PodPatchData ?a ?b data)] =>
        pose proof (Hpatch h data) as Hok; change (PodPatchData (ok_Namespace key) (ok_Name key) data) with (PodPatchData a b data) in Hok;
        destruct (e h (PodPatchData a b data)) eqn:Hp end; [|done].
      simpl. split; [done|]. exists [data]. split; [done|]. rewrite decide_False by congruence.
      exists data. split; [done|]. by apply merge_patch_law.
Qed.

(** A pod stripped of all its labels is not repaired: when the cache holds a
    non-empty protected label for a pod without labels, the worker panics, the
    deferred function drops the entry all the same, and the item is neither
    forgotten nor queued again. No patch is sent, now or later. *)
Theorem stripped_pod_stays_broken (e : env) h key pod md k v :
  pod_Labels pod = None → meta_Deleting (pod_Meta pod) = false →
  k ∈ podLabelKeys → map_get (md_Labels md) k = Some v →
  (∀ h, e h (QueueGet metadataFixQueue) = Some (Request key)) →
  (∀ h, e h (PodListerGet (ok_Namespace key) (ok_Name key)) = Ok pod) →
  (∀ h, e h (CacheGet key) = Some md) →
  wp e h (processNextWorkItem metadataFixQueue handleMetadataFix) (λ loop t, loop = true ∧
    map ev_cmd t =
      [QueueGet metadataFixQueue; PodListerGet (ok_Namespace key) (ok_Name key); CacheGet key;
       CacheDone key md; QueueDone metadataFixQueue (Request key)]).
Proof.
  intros Hl Hdel Hk Hmd Hq Hget Hcache.
  assert (repair pod md = Panics "assignment to entry in nil map") as Hrep.
  { unfold repair. rewrite Hl, CopyMap_nil.
    pose proof (comparableKeys_lookup (md_Labels md) None podLabelKeys k) as Hck.
    rewrite decide_True, Hmd in Hck by done. simpl in Hck. apply elem_of_map_to_list in Hck.
    destruct (map_to_list _) as [|? ?]; [set_solver | done]. }
  unfold wp, processNextWorkItem. simpl. rewrite Hq. unfold handleMetadataFix. simpl.
  rewrite Hget, Hdel. simpl. rewrite Hcache. simpl. unfold fix_pod. by rewrite Hrep.
Qed.

End Repair.

(** ** The work queue *)

(** The calls of a run put together from the runs of its parts. *)
Ltac cmds := rewrite !map_app; simpl; rewrite <- ?app_assoc; simpl.

(** The calls on the queue that settle an item. *)
Definition settles (queue : Queue) (req : ObjectKey) (t : list cmd) : Prop :=
  t = [QueueForget queue (Request req)] ∨ t = [QueueAddRateLimited queue req] ∨
  ∃ d, (0 < d)%Z ∧ t = [QueueForget queue (Request req); QueueAddAfter queue req d].

Lemma processNextWorkItem_loop queue workerFunc e h :
  wp e h (processNextWorkItem queue workerFunc) (λ loop t,
    loop = false → t = [Ev (QueueGet queue) None]).
Proof.
  unfold processNextWorkItem. wp_step. wp_step. destruct r as [item|]; [|by wp_step].
  wp_step. eapply wp_mono; [|apply wp_true]. intros [] t _. do 2 wp_step. wp_step. done.
Qed.

(** The loop of a worker ends with the answer of a queue that has shut down. *)
Lemma worker_ends n queue workerFunc e h :
  wp e h (worker n queue workerFunc) (λ ended t,
    ended = true → ∃ t', t = t' ++ [Ev (QueueGet queue) None]).
Proof.
  revert h. induction n as [|n IH]; intros h; cbn [worker]; [by wp_step|].
  wp_step. eapply wp_mono; [|apply processNextWorkItem_loop]. intros [] t Ht.
  - eapply wp_mono; [|apply IH]. intros ended t' Hend He. destruct (Hend He) as (t'' & ->).
    exists (t ++ t''). by rewrite app_assoc.
  - wp_step. rewrite app_nil_r. intros _. exists []. auto.
Qed.

(** A worker stops only when the queue has shut down. Every request it takes
    is handed to its function once; unless that panics the item is then
    settled exactly once (queued again with a delay exactly when there is an
    error or a requeue is asked for), and in every case it is marked done at
    the end. *)
Theorem processNextWorkItem_settles queue workerFunc (e : env) h :
  wp e h (processNextWorkItem queue workerFunc) (λ loop t,
    match e h (QueueGet queue) with
    | None => loop = false ∧ map ev_cmd t = [QueueGet queue]
    | Some NotRequest => loop = true ∧
        map ev_cmd t = [QueueGet queue; QueueForget queue NotRequest; QueueDone queue NotRequest]
    | Some (Request req) => loop = true ∧
        ∃ o tw ts, run e (h ++ [Ev (QueueGet queue) (e h (QueueGet queue))]) (workerFunc req) = (o, tw) ∧
          map ev_cmd t =
            [QueueGet queue] ++ map ev_cmd tw ++ ts ++ [QueueDone queue (Request req)] ∧
          match o with
          | Panics _ => ts = []
          | Returns (result, err) =>
              settles queue req ts ∧
              (ts = [QueueForget queue (Request req)] ↔
               err = None ∧ Requeue result = false ∧ (RequeueAfter result ≤ 0)%Z)
          end
    end).
Proof.
  unfold wp, processNextWorkItem. simpl. destruct (e h (QueueGet queue)) as [[req|]|] eqn:Hq;
    [| by simpl | done]. simpl. rewrite !run_bind.
  destruct (run e _ (workerFunc req)) as [o tw] eqn:Hw.
  destruct o as [[result [err|]]|why]; simpl.
  - split; [done|]. exists (Returns (result, Some err)), tw, [QueueAddRateLimited queue req].
    cmds. do 2 (split; [done|]); split; [right; by left | naive_solver].
  - destruct (0 <? RequeueAfter result)%Z eqn:Ha; [|destruct (Requeue result) eqn:Hr]; simpl;
      (split; [done|]); exists (Returns (result, None)), tw.
    + exists [QueueForget queue (Request req); QueueAddAfter queue req (RequeueAfter result)].
      apply Z.ltb_lt in Ha. cmds.
      do 2 (split; [done|]); split; [right; right; eauto | split; [done | lia]].
    + exists [QueueAddRateLimited queue req]. cmds.
      do 2 (split; [done|]); split; [right; by left |].
      split; [done | intros (_ & ? & _); congruence].
    + exists [QueueForget queue (Request req)]. apply Z.ltb_ge in Ha. cmds.
      do 2 (split; [done|]); split; [by left |].
      by split.
  - split; [done|]. exists (Panics why), tw, []. rewrite !map_app. simpl. by rewrite app_nil_r.
Qed.

(** ** Slave pods *)

Lemma map_get_len {V} (m : gomap V) k v : map_get m k = Some v → map_len m ≠ 0.
Proof. intros Hk Hlen. by rewrite (map_len_zero m k Hlen) in Hk. Qed.

(** The controller recognises every pod that the mounter server creates: once
    [MutationPodFunc] has run, [OnAdd] queues the pod, whatever the request and
    its patches put into the pod's metadata. *)
Theorem slave_pods_recognised `{Settings} s devType container ownerPod mutaPod e h e' h' :
  wp e h (MutationPodFunc s devType container ownerPod mutaPod) (λ pod _,
    wp e' h' (OnAdd (Some (pod_Meta pod))) (λ _ t, map ev_cmd t =
      [QueueAdd podAddQueue (client_ObjectKey (pod_Namespace ownerPod) (pod_Name mutaPod))])).
Proof.
  unfold MutationPodFunc. do 3 wp_step.
  set (labels := set_all (meta_Labels _) _). set (annos := set_all (meta_Annotations _) _).
  pose proof (map_get_set_all _ _ : ∀ k, map_get labels k = _) as Hlabels.
  pose proof (map_get_set_all _ _ : ∀ k, map_get annos k = _) as Hannos.
  clearbody labels annos.
  assert (containsKeys podLabelKeys labels = true ∧ map_str labels AppComponentLabelKey = CreateManagerBy ∧
    map_str labels AppManagedByLabelKey = CreateManagerBy ∧ map_len labels ≠ 0) as (Hl & Hc & Hm & Hll).
  { unfold containsKeys, map_str. simpl. rewrite !Hlabels. repeat split.
    eapply (map_get_len _ CreatedByLabelKey). by rewrite Hlabels. }
  assert (containsKeys podAnnoKeys annos = true ∧ map_len annos ≠ 0) as (Ha & Hla).
  { unfold containsKeys. simpl. rewrite !Hannos. split; [done|].
    eapply (map_get_len _ DeviceTypeAnnotationKey). by rewrite Hannos. }
  unfold OnAdd. cbn [pod_Meta meta_Labels meta_Annotations meta_Namespace meta_Name].
  apply Nat.eqb_neq in Hll, Hla. rewrite Hll, Hla, Hl, Ha, Hc, Hm, !String.eqb_refl. cbn [orb negb].
  by wp_step.
Qed.

(** ** Witnesses *)

(** A codec for [Metadata]: the text is the binary form of a numbering. *)
#[export] Instance OwnerReference_countable : Countable OwnerReference.
Proof.
  refine (inj_countable' (λ r, (or_APIVersion r, or_Kind r, or_Name r, or_UID r,
      or_BlockOwnerDeletion r, or_Controller r))
    (λ '(a, k, n, u, b, c), mkOwnerReference a k n u b c) _).
  by intros [].
Defined.

#[export] Instance Metadata_countable : Countable Metadata.
Proof.
  refine (inj_countable' (λ md, (md_Labels md, md_Annotations md, md_OwnerReferences md))
    (λ '(l, a, o), mkMetadata l a o) _).
  by intros [].
Defined.

Fixpoint bits (p : positive) : string :=
  match p with
  | xH => ""
  | xO p => "0" +:+ bits p
  | xI p => "1" +:+ bits p
  end.

Fixpoint of_bits (s : string) : positive :=
  match s with
  | "" => xH
  | String c s => if Ascii.eqb c "0"%char then xO (of_bits s) else xI (of_bits s)
  end.

Lemma of_bits_bits p : of_bits (bits p) = p.
Proof. induction p; simpl; congruence. Qed.

Definition numbered_json : MetadataJson := {|
  Utf8 _ := True;
  Marshal_Metadata md := bits (encode (normal md));
  Unmarshal_Metadata s := default emptyMetadata (decode (of_bits s)) |}.

Lemma numbered_json_laws : @MetadataJsonLaws numbered_json.
Proof.
  split; simpl.
  - intros md _. by rewrite of_bits_bits, decode_encode.
  - by intros md md' ->.
Qed.

Definition w_key : ObjectKey := client_ObjectKey "default" "cuda-device-slave-x1".
Definition w_labels : gmap string string :=
  {[OwnerNameLabelKey := "cuda"; CreatedByLabelKey := "u-7"]}.
Definition w_metadata : Metadata := mkMetadata (Some w_labels) None [].
Definition w_later : Metadata := mkMetadata None (Some {["a" := "b"]}) [].
Definition w_ops : list cache_op := [OpSet w_key w_metadata; OpSet w_key w_later].

Lemma MetadataCache_refines_witness :
  (∀ key, @cache_Get numbered_json key (foldl (@cache_step numbered_json) ∅ w_ops) =
     foldl pending_step ∅ w_ops !! key_String key) ∧
  (∀ ops1 key md ops2, w_ops = ops1 ++ OpSet key md :: ops2 →
     is_Some (foldl pending_step ∅ ops1 !! key_String key) →
     is_Some (foldl (@cache_step numbered_json) ∅ w_ops !! KeyObject (ok_Namespace key) (ok_Name key))).
Proof.
  apply (@MetadataCache_refines numbered_json numbered_json_laws w_ops).
  repeat constructor.
Defined.

Definition w_meta (rv : string) (labels annos : gomap string) : ObjectMeta :=
  mkObjectMeta "cuda-device-slave-x1" "" "default" "u-9" rv labels annos [] false.
Definition w_old : ObjectMeta := w_meta "1" (Some w_labels) (Some {[DeviceTypeAnnotationKey := "NVIDIA_GPU"]}).
Definition w_edited : Pod :=
  mkPod (w_meta "2" (Some {["x" := "y"]}) (Some {[DeviceTypeAnnotationKey := "NVIDIA_GPU"]}))
    emptySpec emptyStatus.
Definition w_stripped : Pod := mkPod (w_meta "2" None None) emptySpec emptyStatus.

Definition w_env (pod : Pod) (md : Metadata) : env := λ _ c,
  match c return reply c with
  | PodListerGet _ _ => Ok pod
  | CacheGet _ => Some md
  | PodPatchData _ _ _ => Ok pod
  | QueueGet _ => Some (Request w_key)
  | c => default_reply c
  end.

(** Patches of metadata: the new labels, annotations and owners. *)
Definition set_metadata (md : Metadata) : Pod → Pod := with_Meta (λ m,
  mkObjectMeta (meta_Name m) (meta_GenerateName m) (meta_Namespace m) (meta_UID m)
    (meta_ResourceVersion m) (md_Labels md) (md_Annotations md) (md_OwnerReferences md) (meta_Deleting m)).
Definition metadata_of (pod : Pod) : Metadata :=
  mkMetadata (pod_Labels pod) (pod_Annotations pod) (meta_OwnerReferences (pod_Meta pod)).

#[local] Instance w_patch : MergePatch := {|
  StrategicMerge_Data old new :=
    if decide (set_metadata (metadata_of new) old = new) then Ok (bits (encode (metadata_of new)))
    else Err (PlainError "not a change of the metadata");
  apply_patch data := set_metadata (default emptyMetadata (decode (of_bits data))) |}.

#[local] Instance w_patch_laws : MergePatchLaws.
Proof.
  intros old new data. simpl. case_decide as Hd; [|done]. intros [= <-].
  by rewrite of_bits_bits, decode_encode.
Qed.

Lemma edit_is_undone_witness :
  let key := client_ObjectKey (meta_Namespace w_old) (meta_Name w_old) in
  let md := changed_metadata w_old (pod_Meta w_edited) in
  let e := w_env w_edited (normal md) in
  (run e [] (OnUpdate (Some w_old) (Some (pod_Meta w_edited)))).2 =
    [Ev (CacheSet key md) (e [] (CacheSet key md));
     Ev (QueueAdd metadataFixQueue key)
       (e ([] ++ [Ev (CacheSet key md) (e [] (CacheSet key md))]) (QueueAdd metadataFixQueue key))] ∧
  ∃ newPod,
    restored podLabelKeys (meta_Labels w_old) (pod_Labels w_edited) (pod_Labels newPod) ∧
    restored podAnnoKeys (meta_Annotations w_old) (pod_Annotations w_edited) (pod_Annotations newPod) ∧
    meta_OwnerReferences (pod_Meta newPod) = [] ∧
    wp e [] (handleMetadataFix key) (λ o t, o = Returns (zeroResult, None) ∧
      ∃ patches,
        map ev_cmd t =
          [PodListerGet (ok_Namespace key) (ok_Name key); CacheGet key] ++
          map (PodPatchData (ok_Namespace key) (ok_Name key)) patches ++ [CacheDone key (normal md)] ∧
        if decide (pod_Meta newPod = pod_Meta w_edited) then patches = []
        else ∃ data, patches = [data] ∧ apply_patch data w_edited = newPod).
Proof.
  apply (edit_is_undone w_old w_edited {["x" := "y"]} {[DeviceTypeAnnotationKey := "NVIDIA_GPU"]} _ [] []);
    [vm_compute; congruence..|reflexivity|reflexivity|reflexivity|reflexivity|reflexivity| |reflexivity].
  intros newPod Hn. unfold StrategicMerge_Data, w_patch. rewrite decide_True; [done|].
  apply repair_metadata in Hn as (l & a & o & ->). reflexivity.
Defined.

Lemma stripped_pod_stays_broken_witness :
  wp (w_env w_stripped w_metadata) []
    (processNextWorkItem metadataFixQueue (handleMetadataFix)) (λ loop t, loop = true ∧
    map ev_cmd t =
      [QueueGet metadataFixQueue; PodListerGet "default" "cuda-device-slave-x1"; CacheGet w_key;
       CacheDone w_key w_metadata; QueueDone metadataFixQueue (Request w_key)]).
Proof.
  apply (stripped_pod_stays_broken _ [] w_key w_stripped w_metadata OwnerNameLabelKey "cuda");
    try reflexivity. by repeat constructor.
Defined.
