(* ===== verification/Watchdog.v ===== *)
(** * The node labeller ([pkg/watchdog/node_labeller.go])

    The labeller keeps one scheduling label per registered device type on its
    node and takes them away when the mounter stops. It sends JSON patches;
    [apply_patch] says, after RFC 6901 and 6902, what a patch does to the labels. *)
From stdpp Require Import base gmap strings list.
From Stdlib Require Import ZArith Lia Ascii.
From S2P Require Import Prelude GoStrings Api Ebpf World Util.

Definition SchedulingLabelPrefix : string := "scheduling." +:+ Group.

(** The label of a device type. *)
Definition typeLabel (devType : string) : string :=
  ToLower (SchedulingLabelPrefix +:+ "/" +:+ devType).

(** [types] is the answer of [framework.GetDeviceMounterTypes]. *)
Definition ContainsDeviceTypes (types : list string) (labelKey : string) : bool :=
  existsb (λ devType, String.eqb labelKey (typeLabel devType)) types.

Definition labels_dir : string := "/metadata/labels/".

(** An operation on the label [key]. *)
Definition label_op (operation key : string) (value : option string) : Operation :=
  mkOperation operation (labels_dir +:+ ReplaceAll key "/" "~1") value.

Section Labeller.
Context `{ClientLib, RangeLib}.
(** The node of the labeller, [apierror.IsConflict], and the registered types. *)
Context (nodeName : string) (IsConflict : goerr → bool) (types : list string).

(** The keys of the node's scheduling labels, in the order they are visited. *)
Definition scheduling_keys (labels : gmap string string) : list string :=
  filter (λ labelKey, HasPrefix labelKey SchedulingLabelPrefix = true) (range labels).*1.

Definition patch_node (patches : list Operation) : M (result unit) :=
  match patches with
  | [] => Done (Ok tt)
  | _ =>
      err <-- call (NodeJSONPatch nodeName patches) ;;
      Done match err with None => Ok tt | Some err => Err err end
  end.

Definition cleanup_patches (labels : gomap string) : list Operation :=
  map (λ key, label_op "remove" key None) (scheduling_keys (default ∅ labels)).

Definition cleanupLabels : M (result unit) :=
  node <-! call (NodeListerGet nodeName) ;;
  patch_node (cleanup_patches (node_Labels node)).

Definition update_patches (labels : gomap string) : list Operation :=
  let labelKeys := scheduling_keys (default ∅ labels) in
  let removeKeys := filter (λ key, ContainsDeviceTypes types key = false) labelKeys in
  let wanted := map typeLabel types in
  let addKeys := filter (λ key, slices_Contains labelKeys key = false) wanted in
  let replaceKeys := filter (λ key, slices_Contains labelKeys key = true ∧
                                    map_str labels key ≠ "true") wanted in
  map (λ key, label_op "add" key (Some "true")) addKeys ++
  map (λ key, label_op "remove" key None) removeKeys ++
  map (λ key, label_op "replace" key (Some "true")) replaceKeys.

Definition updateLabels : M (result unit) :=
  node <-! call (NodeListerGet nodeName) ;;
  patch_node (update_patches (node_Labels node)).

(** [n] turns of the loop before the stop channel closes. The sleeps and the
    channel [stopped], on which [WaitForStop] waits, are left out. *)
Fixpoint Start (n : nat) : M unit :=
  match n with
  | O => _ <-- retry_OnError IsConflict cleanupLabels ;; Done tt
  | S n' => _ <-- updateLabels ;; Start n'
  end.

End Labeller.

(** ** JSON patches on the labels (RFC 6902, RFC 6901) *)

(** A reference token of a JSON pointer: [~1] is a slash, [~0] a tilde. *)
Fixpoint unescape (s : string) : string :=
  match s with
  | String "~" (String "1" t) => "/" +:+ unescape t
  | String "~" (String "0" t) => "~" +:+ unescape t
  | String c t => String c (unescape t)
  | EmptyString => EmptyString
  end.

(** The tokens of a pointer: what follows each slash, unescaped. *)
Definition pointer_tokens (path : string) : list string := map unescape (tail (Split path "/")).

(** [add], [remove] and [replace] of the member [key] of the labels; the last two
    fail on a missing member. A pointer to nothing in the labels, or into a
    label's value, cannot be applied. *)
Definition apply_op (labels : gmap string string) (op : Operation) : option (gmap string string) :=
  match pointer_tokens (op_Path op) with
  | ["metadata"; "labels"; key] =>
      match op_Value op with
      | None =>
          if String.eqb (op_Operation op) "remove" && bool_decide (is_Some (labels !! key))
          then Some (delete key labels) else None
      | Some v =>
          if String.eqb (op_Operation op) "add" then Some (<[key := v]> labels)
          else if String.eqb (op_Operation op) "replace" && bool_decide (is_Some (labels !! key))
          then Some (<[key := v]> labels) else None
      end
  | _ => None
  end.

Fixpoint apply_patch (labels : gmap string string) (ops : list Operation)
    : option (gmap string string) :=
  match ops with
  | [] => Some labels
  | op :: ops => labels' ← apply_op labels op; apply_patch labels' ops
  end.

(** ** Lemmas *)

Fixpoint escape (s : string) : string :=
  match s with
  | EmptyString => EmptyString
  | String c t => if Ascii.eqb c "/" then "~1" +:+ escape t else String c (escape t)
  end.

Lemma replace_escape cur s : Join (split_from "/" 0 cur s) "~1" = cur +:+ escape s.
Proof.
  revert cur. induction s as [|c s IH]; intros cur; [simpl; by rewrite string_app_nil_r|].
  cbn [split_from escape]. rewrite prefix_char. destruct (Ascii.eqb c "/").
  - destruct (split_from_cons "/" (String.length "/" - 1) EmptyString s) as (x & l & Hx).
    rewrite Hx, Join_cons, <- Hx. cbn [String.length Nat.sub]. rewrite IH.
    reflexivity.
  - rewrite IH. by rewrite <- string_app_assoc.
Qed.

Lemma unescape_char c t : c ≠ "~"%char → unescape (String c t) = String c (unescape t).
Proof. intros Hc. destruct c as [[] [] [] [] [] [] [] []]; try done; by destruct t. Qed.

Lemma unescape_escape s : char_free "~" s = true → unescape (escape s) = s.
Proof.
  induction s as [|c s IH]; cbn [char_free escape]; [done|].
  rewrite andb_true_iff, negb_true_iff. intros [Hc%Ascii.eqb_neq Hs].
  destruct (Ascii.eqb_spec c "/") as [->|Hne].
  - simpl. by rewrite IH.
  - rewrite unescape_char by done. by rewrite IH.
Qed.

Lemma escape_free s : char_free "/" (escape s) = true.
Proof.
  induction s as [|c s IH]; cbn [escape]; [done|]. destruct (Ascii.eqb c "/") eqn:Hc; [done|].
  cbn [char_free]. by rewrite Hc, IH.
Qed.

(** A pointer made for a label key has one token below the labels, the key. *)
Lemma pointer_tokens_label operation key v :
  char_free "~" key = true →
  pointer_tokens (op_Path (label_op operation key v)) = ["metadata"; "labels"; key].
Proof.
  intros Hk. unfold pointer_tokens, label_op, ReplaceAll, Split at 2. cbn [op_Path].
  rewrite replace_escape. change ("" +:+ escape key) with (escape key).
  change (labels_dir +:+ escape key) with (Join [""; "metadata"; "labels"; escape key] "/").
  rewrite Split_Join; [|done|].
  - cbn [tail map]. by rewrite unescape_escape.
  - repeat constructor. apply escape_free.
Qed.

Lemma apply_label_op labels operation key v :
  char_free "~" key = true →
  apply_op labels (label_op operation key v) =
    match v with
    | None => if String.eqb operation "remove" && bool_decide (is_Some (labels !! key))
              then Some (delete key labels) else None
    | Some v => if String.eqb operation "add" then Some (<[key := v]> labels)
                else if String.eqb operation "replace" && bool_decide (is_Some (labels !! key))
                then Some (<[key := v]> labels) else None
    end.
Proof.
  intros Hk. unfold apply_op. by rewrite pointer_tokens_label.
Qed.

Lemma apply_patch_app labels ops ops' :
  apply_patch labels (ops ++ ops') = labels' ← apply_patch labels ops; apply_patch labels' ops'.
Proof.
  revert labels. induction ops as [|op ops IH]; intros labels; simpl; [done|].
  destruct (apply_op labels op); simpl; [apply IH | done].
Qed.

Definition plain (key : string) : Prop := char_free "~" key = true.

Lemma plain_filter (P : string → Prop) `{∀ k, Decision (P k)} keys :
  Forall plain keys → Forall plain (filter P keys).
Proof. rewrite !Forall_forall. intros Hk k [_ Hin]%list_elem_of_filter. by apply Hk. Qed.

Lemma apply_adds keys labels :
  Forall plain keys →
  ∃ labels', apply_patch labels (map (λ key, label_op "add" key (Some "true")) keys) = Some labels' ∧
    ∀ k, labels' !! k = if decide (k ∈ keys) then Some "true" else labels !! k.
Proof.
  intros Hp. revert labels. induction Hp as [|key keys Hk Hp IH]; intros labels; cbn [map apply_patch].
  - exists labels. split; [done|]. intros k. rewrite decide_False; [done | set_solver].
  - rewrite apply_label_op by done. simpl. destruct (IH (<[key := "true"]> labels)) as (l' & -> & Hl).
    exists l'. split; [done|]. intros k. rewrite Hl. rewrite lookup_insert.
    repeat case_decide; set_solver.
Qed.

Lemma apply_replaces keys labels :
  Forall plain keys → (∀ k, k ∈ keys → is_Some (labels !! k)) →
  ∃ labels', apply_patch labels (map (λ key, label_op "replace" key (Some "true")) keys) = Some labels' ∧
    ∀ k, labels' !! k = if decide (k ∈ keys) then Some "true" else labels !! k.
Proof.
  intros Hp. revert labels. induction Hp as [|key keys Hk Hp IH]; intros labels Hs; cbn [map apply_patch].
  - exists labels. split; [done|]. intros k. rewrite decide_False; [done | set_solver].
  - rewrite apply_label_op by done. rewrite bool_decide_eq_true_2 by set_solver. simpl.
    destruct (IH (<[key := "true"]> labels)) as (l' & -> & Hl).
    { intros k Hin. rewrite lookup_insert. case_decide; [eauto|]. set_solver. }
    exists l'. split; [done|]. intros k. rewrite Hl. rewrite lookup_insert.
    repeat case_decide; set_solver.
Qed.

Lemma apply_removes keys labels :
  Forall plain keys → NoDup keys → (∀ k, k ∈ keys → is_Some (labels !! k)) →
  ∃ labels', apply_patch labels (map (λ key, label_op "remove" key None) keys) = Some labels' ∧
    ∀ k, labels' !! k = if decide (k ∈ keys) then None else labels !! k.
Proof.
  intros Hp. revert labels. induction Hp as [|key keys Hk Hp IH]; intros labels Hnd Hs; cbn [map apply_patch].
  - exists labels. split; [done|]. intros k. rewrite decide_False; [done | set_solver].
  - apply NoDup_cons in Hnd as [Hnin Hnd].
    rewrite apply_label_op by done. rewrite bool_decide_eq_true_2 by set_solver. simpl.
    destruct (IH (delete key labels)) as (l' & -> & Hl); [done| |].
    { intros k Hin. rewrite lookup_delete_ne by (intros ->; done). set_solver. }
    exists l'. split; [done|]. intros k. rewrite Hl. rewrite lookup_delete.
    repeat case_decide; set_solver.
Qed.

Lemma ToLower_app s t : ToLower (s +:+ t) = ToLower s +:+ ToLower t.
Proof. unfold ToLower. induction s as [|c s IH]; simpl; [done|]. by rewrite IH. Qed.

Lemma typeLabel_prefix devType : HasPrefix (typeLabel devType) SchedulingLabelPrefix = true.
Proof. unfold typeLabel. rewrite ToLower_app. apply HasPrefix_app. Qed.

Lemma ContainsDeviceTypes_elem types key :
  ContainsDeviceTypes types key = true ↔ key ∈ map typeLabel types.
Proof.
  unfold ContainsDeviceTypes. rewrite existsb_exists, list_elem_of_fmap.
  setoid_rewrite <- list_elem_of_In. split.
  - intros (t & Ht & Heq%String.eqb_eq). eauto.
  - intros (t & -> & Ht). exists t. split; [done|]. apply String.eqb_refl.
Qed.

Section LabellerFacts.
Context `{ClientLib} `{RangeLaws}.

Lemma scheduling_keys_elem m k :
  k ∈ scheduling_keys m ↔ HasPrefix k SchedulingLabelPrefix = true ∧ is_Some (m !! k).
Proof.
  unfold scheduling_keys. rewrite list_elem_of_filter, list_elem_of_fmap.
  apply and_iff_compat_l. split.
  - intros ([k' v] & -> & Hv%range_elem). eauto.
  - intros [v Hv]. exists (k, v). split; [done|]. by apply range_elem.
Qed.

Lemma scheduling_keys_NoDup m : NoDup (scheduling_keys m).
Proof.
  apply NoDup_filter. rewrite (range_law m). apply NoDup_fst_map_to_list.
Qed.

(** The labels a node should have. *)
Definition desired (types : list string) (m : gmap string string) (k : string) : option string :=
  if HasPrefix k SchedulingLabelPrefix then
    if decide (k ∈ map typeLabel types) then Some "true" else None
  else m !! k.

Section Update.
Context (types : list string) (m : gmap string string).

Notation labelKeys := (scheduling_keys m).
Notation wanted := (map typeLabel types).
Notation addKeys := (filter (λ key, slices_Contains labelKeys key = false) wanted).
Notation removeKeys := (filter (λ key, ContainsDeviceTypes types key = false) labelKeys).
Notation replaceKeys :=
  (filter (λ key, slices_Contains labelKeys key = true ∧ map_str (Some m) key ≠ "true") wanted).

Lemma wanted_prefix k : k ∈ wanted → HasPrefix k SchedulingLabelPrefix = true.
Proof. rewrite list_elem_of_fmap. intros (t & -> & _). apply typeLabel_prefix. Qed.

Lemma addKeys_elem k : k ∈ addKeys ↔ k ∈ wanted ∧ m !! k = None.
Proof.
  rewrite list_elem_of_filter, slices_Contains_false, scheduling_keys_elem, eq_None_not_Some.
  split; [|tauto]. intros [Hn Hk]. split; [done|]. intros Hs. apply Hn. split; [|done].
  by apply wanted_prefix.
Qed.

Lemma removeKeys_elem k :
  k ∈ removeKeys ↔ HasPrefix k SchedulingLabelPrefix = true ∧ is_Some (m !! k) ∧ k ∉ wanted.
Proof.
  rewrite list_elem_of_filter, scheduling_keys_elem, <- ContainsDeviceTypes_elem, not_true_iff_false.
  tauto.
Qed.

Lemma replaceKeys_elem k :
  k ∈ replaceKeys ↔ k ∈ wanted ∧ ∃ v, m !! k = Some v ∧ v ≠ "true".
Proof.
  rewrite list_elem_of_filter, slices_Contains_true, scheduling_keys_elem. unfold map_str. simpl.
  split.
  - intros (((_ & [v Hv]) & Hne) & Hk). rewrite Hv in Hne. eauto.
  - intros (Hk & v & Hv & Hne). rewrite Hv. simpl. split; [|done]. split; [|done].
    split; [by apply wanted_prefix | eauto].
Qed.

Lemma update_patches_nil : update_patches types (Some m) = [] ↔ ∀ k, m !! k = desired types m k.
Proof.
  unfold update_patches. change (default ∅ (Some m)) with m. split.
  - intros [Ha%fmap_nil_inv [Hr%fmap_nil_inv Hp%fmap_nil_inv]%app_nil]%app_nil k. unfold desired.
    destruct (HasPrefix k _) eqn:Hpre; [|done]. case_decide as Hk.
    + destruct (m !! k) as [v|] eqn:Hv.
      * destruct (decide (v = "true")) as [->|Hne]; [done|].
        assert (k ∈ replaceKeys) as Hin by (apply replaceKeys_elem; eauto).
        rewrite Hp in Hin. by apply elem_of_nil in Hin.
      * assert (k ∈ addKeys) as Hin by (by apply addKeys_elem).
        rewrite Ha in Hin. by apply elem_of_nil in Hin.
    + destruct (m !! k) as [v|] eqn:Hv; [|done].
      assert (k ∈ removeKeys) as Hin by (apply removeKeys_elem; eauto).
      rewrite Hr in Hin. by apply elem_of_nil in Hin.
  - intros Hd. assert (addKeys = [] ∧ removeKeys = [] ∧ replaceKeys = []) as (-> & -> & ->); [|done].
    repeat split; apply elem_of_nil_inv; intros k.
    + rewrite addKeys_elem. intros [Hk Hm]. specialize (Hd k). unfold desired in Hd.
      rewrite (wanted_prefix k Hk), decide_True in Hd by done. congruence.
    + rewrite removeKeys_elem. intros (Hpre & [v Hv] & Hk). specialize (Hd k). unfold desired in Hd.
      rewrite Hpre, decide_False in Hd by done. congruence.
    + rewrite replaceKeys_elem. intros (Hk & v & Hv & Hne). specialize (Hd k). unfold desired in Hd.
      rewrite (wanted_prefix k Hk), decide_True in Hd by done. congruence.
Qed.

Lemma apply_update_patches :
  (∀ k, is_Some (m !! k) → plain k) → Forall plain wanted →
  ∃ m', apply_patch m (update_patches types (Some m)) = Some m' ∧ ∀ k, m' !! k = desired types m k.
Proof.
  intros Hplain Hwanted. unfold update_patches. change (default ∅ (Some m)) with m. rewrite !apply_patch_app.
  destruct (apply_adds addKeys m) as (m1 & -> & Hm1); [by apply plain_filter|]. simpl.
  rewrite apply_patch_app. destruct (apply_removes removeKeys m1) as (m2 & -> & Hm2).
  { apply Forall_forall. intros k (_ & Hs & _)%removeKeys_elem. by apply Hplain. }
  { apply NoDup_filter, scheduling_keys_NoDup. }
  { intros k (_ & Hs & Hk)%removeKeys_elem. rewrite Hm1. case_decide; [eauto | done]. }
  simpl. destruct (apply_replaces replaceKeys m2) as (m3 & -> & Hm3); [by apply plain_filter| |].
  { intros k (Hk & v & Hv & _)%replaceKeys_elem. rewrite Hm2, Hm1.
    rewrite decide_False by (rewrite removeKeys_elem; tauto). case_decide; eauto. }
  exists m3. split; [done|]. intros k. rewrite Hm3, Hm2, Hm1. unfold desired.
  pose proof (addKeys_elem k). pose proof (removeKeys_elem k). pose proof (replaceKeys_elem k).
  destruct (HasPrefix k _) eqn:Hpre.
  - destruct (decide (k ∈ wanted)) as [Hk|Hk].
    + destruct (m !! k) as [v|] eqn:Hv; [destruct (decide (v = "true")) as [->|Hne]|];
        repeat case_decide; try done; exfalso; naive_solver.
    + destruct (m !! k) as [v|] eqn:Hv; repeat case_decide; try done; exfalso; naive_solver.
  - assert (k ∉ wanted) by (intros Hk; apply wanted_prefix in Hk; congruence).
    repeat case_decide; try done; exfalso; naive_solver.
Qed.

End Update.

(** ** Properties *)

Lemma patch_node_calls nodeName patches (e : env) h :
  wp e h (patch_node nodeName patches) (λ r t,
    map ev_cmd t = match patches with [] => [] | _ => [NodeJSONPatch nodeName patches] end ∧
    (patches = [] → r = Ok tt)).
Proof. destruct patches; simpl; [by wp_step|]. wp_step. by wp_step. Qed.

(** C18. One turn of the labeller brings the labels of its node to what they should
    be: the patch it sends is applicable and leaves exactly one label, with the
    value true, for every registered type, no other scheduling label, and all
    other labels as they were. It sends nothing exactly when the labels are
    already so; in particular a second turn on the result is silent. *)
Theorem updateLabels_converges nodeName types node m (e : env) h :
  node_Labels node = Some m → e h (NodeListerGet nodeName) = Ok node →
  (∀ k, is_Some (m !! k) → plain k) → Forall plain (map typeLabel types) →
  ∃ m', apply_patch m (update_patches types (Some m)) = Some m' ∧
    (∀ k, m' !! k = desired types m k) ∧
    (update_patches types (Some m) = [] ↔ m' = m) ∧
    update_patches types (Some m') = [] ∧
    wp e h (updateLabels nodeName types) (λ _ t, map ev_cmd t =
      NodeListerGet nodeName :: (if decide (m' = m) then []
                                 else [NodeJSONPatch nodeName (update_patches types (Some m))])).
Proof.
  intros Hm He Hplain Hwanted.
  destruct (apply_update_patches types m Hplain Hwanted) as (m' & Hm' & Hd).
  assert (update_patches types (Some m) = [] ↔ m' = m) as Hnil.
  { rewrite update_patches_nil. setoid_rewrite <- Hd. rewrite map_eq_iff.
    split; intros Heq k; by rewrite Heq. }
  exists m'. do 3 (split; [done|]). split.
  { apply update_patches_nil. intros k. rewrite Hd. unfold desired. rewrite Hd. unfold desired.
    by destruct (HasPrefix k _). }
  pose proof (patch_node_calls nodeName (update_patches types (Some m)) e
    (h ++ [Ev (NodeListerGet nodeName) (Ok node)])) as Hp.
  unfold wp in *. unfold updateLabels, try_bind. rewrite run_bind. simpl. rewrite He. simpl.
  rewrite Hm. destruct (run e _ (patch_node _ _)) as [r t]. destruct Hp as [Ht _].
  simpl. rewrite Ht. f_equal. destruct (update_patches types (Some m)) eqn:Hu.
  - rewrite decide_True; [done | by apply Hnil].
  - rewrite decide_False; [done|]. intros ->. destruct Hnil as [_ Hnil]. by specialize (Hnil eq_refl).
Qed.

(** On shutdown the labeller removes exactly the scheduling labels: its patch
    is applicable and leaves the other labels as they were. *)
Theorem cleanup_removes_labels m :
  (∀ k, is_Some (m !! k) → plain k) →
  ∃ m', apply_patch m (cleanup_patches (Some m)) = Some m' ∧
    ∀ k, m' !! k = if HasPrefix k SchedulingLabelPrefix then None else m !! k.
Proof.
  intros Hplain. unfold cleanup_patches. change (default ∅ (Some m)) with m.
  destruct (apply_removes (scheduling_keys m) m) as (m' & -> & Hd).
  - apply Forall_forall. intros k [_ Hs]%scheduling_keys_elem. by apply Hplain.
  - apply scheduling_keys_NoDup.
  - by intros k [_ Hs]%scheduling_keys_elem.
  - exists m'. split; [done|]. intros k. rewrite Hd. pose proof (scheduling_keys_elem m k) as Hk.
    destruct (HasPrefix k _) eqn:Hpre; case_decide as Hin; try done.
    + destruct (m !! k) eqn:Hmk; [|done]. exfalso. apply Hin, Hk. eauto.
    + exfalso. apply Hk in Hin as [? _]. congruence.
Qed.

End LabellerFacts.

(** ** Witnesses *)

#[local] Instance w_range : RangeLib := {| range V m := map_to_list m |}.
#[local] Instance w_range_laws : RangeLaws.
Proof. split. intros V m. unfold range_of. reflexivity. Qed.

Definition w_labels : gmap string string :=
  {["kubernetes.io/hostname" := "node-1"; "scheduling.device-mounter.io/ascend_npu" := "true"]}.
Definition w_node : Node := mkNode "node-1" (Some w_labels) ∅.
Definition w_types : list string := ["NVIDIA_GPU"].
Definition w_env : env := λ _ c,
  match c return reply c with
  | NodeListerGet _ => Ok w_node
  | c => default_reply c
  end.

Lemma w_plain k : is_Some (w_labels !! k) → plain k.
Proof.
  intros [v Hv]. unfold w_labels in Hv. rewrite lookup_insert, lookup_singleton in Hv.
  by repeat case_decide; subst; try (vm_compute; reflexivity).
Qed.

Lemma updateLabels_converges_witness :
  ∃ m', apply_patch w_labels (update_patches w_types (Some w_labels)) = Some m' ∧
    (∀ k, m' !! k = desired w_types w_labels k) ∧
    (update_patches w_types (Some w_labels) = [] ↔ m' = w_labels) ∧
    update_patches w_types (Some m') = [] ∧
    wp w_env [] (updateLabels "node-1" w_types) (λ _ t, map ev_cmd t =
      NodeListerGet "node-1" :: (if decide (m' = w_labels) then []
                                 else [NodeJSONPatch "node-1" (update_patches w_types (Some w_labels))])).
Proof.
  apply (updateLabels_converges "node-1" w_types w_node); [reflexivity | reflexivity | exact w_plain |].
  by repeat constructor.
Defined.

Lemma cleanup_removes_labels_witness :
  ∃ m', apply_patch w_labels (cleanup_patches (Some w_labels)) = Some m' ∧
    ∀ k, m' !! k = if HasPrefix k SchedulingLabelPrefix then None else w_labels !! k.
Proof. apply (cleanup_removes_labels w_labels). exact w_plain. Defined.
