(* ===== verification/MounterCommon.v ===== *)
(** * What the device mounters share

    The three packages of [pkg/devices] repeat some code and call the same
    helpers: the constants and control devices of the NVIDIA driver, the lookup of
    a minor number in NVML, the last touches to a template, the status of a slave
    pod that is not running, and the metadata patches of
    [pkg/client/kube_patch.go]. *)
From Stdlib Require Import ZArith Lia Ascii String.
From stdpp Require Import base gmap strings list pretty.
From S2P Require Import Prelude GoStrings Api Ebpf World Util.

(** ** Constants of the NVIDIA packages *)

Definition DEFAULT_NVIDIA_MAJOR_NUMBER : Z := 195.
Definition DEFAULT_NVIDIACTL_MINOR_NUMBER : Z := 255.
Definition DEFAULT_CGROUP_PERMISSION : string := "rw".
Definition NVIDIA_DEVICE_FILE_PREFIX : string := "/dev/nvidia".
Definition NVIDIA_NVIDIACTL_FILE_PATH : string := "/dev/nvidiactl".
Definition NVIDIA_NVIDIA_UVM_FILE_PATH : string := "/dev/nvidia-uvm".
Definition NVIDIA_NVIDIA_UVM_TOOLS_FILE_PATH : string := "/dev/nvidia-uvm-tools".
Definition NVIDIA_VISIBLE_DEVICES_ENV : string := "NVIDIA_VISIBLE_DEVICES".

(** ** NVML *)

(** [GetDeviceMinorByUUID] of the vGPU package and [SearchGPUMinorByUUID] of the
    GPU package. *)
Definition GetDeviceMinorByUUID (uuid : string) : M (result Z) :=
  rt <-- call NvmlInit ;;
  match rt with
  | Some rt => Done (Err (PlainError ("nvml Init error: " +:+ rt)))
  | None =>
      dev <-- call (NvmlHandleByUUID uuid) ;;
      r <-- match dev with
            | Err rt => Done (Err (wrap_err "nvml DeviceGetHandleByUUID error: " rt))
            | Ok dev =>
                minor <-- call (NvmlMinorNumber dev) ;;
                Done match minor with
                     | Err rt => Err (wrap_err "nvml DeviceGetMinorNumber error: " rt)
                     | Ok minor => Ok minor
                     end
            end ;;
      _ <-- call NvmlShutdown ;;
      Done r
  end.

(** ** Slave pods *)

(** [slavePod.Spec.Containers[0].Env = append(..., env)] and the other fields the
    mounters set on a template; an empty scheduler name leaves the template's. *)
Definition finish_template (env : EnvVar) (scheduler priorityClass : string) (pod : Pod) : Pod :=
  let spec := pod_Spec pod in
  mkPod (pod_Meta pod)
    (mkPodSpec (spec_NodeName spec) (spec_InitContainers spec)
       (match spec_Containers spec with
        | c :: rest =>
            mkPodContainer (ctr_Name c) (ctr_Image c) (ctr_ImagePullPolicy c) (ctr_Command c)
              (ctr_Args c) (ctr_Env c ++ [env]) (ctr_Limits c) (ctr_RestartPolicy c) :: rest
        | [] => []
        end)
       (spec_NodeSelector spec)
       (if str_empty scheduler then spec_SchedulerName spec else scheduler)
       priorityClass (spec_Priority spec) (spec_RestartPolicy spec)
       (spec_TerminationGracePeriodSeconds spec))
    (pod_Status pod).

(** What the three mounters make of a slave pod that is not running. *)
Definition verify_pending (slavePod : Pod) : StatusCode * option goerr :=
  let status := pod_Status slavePod in
  if String.eqb (status_Phase status) PodFailed then
    (Fail, Some (PlainError (if str_empty (status_Message status)
                             then "device slave container start failed"
                             else Errorf (status_Message status))))
  else match status_Conditions status with
       | [] => (Wait, None)
       | c :: _ =>
           if String.eqb (cond_Reason c) PodReasonUnschedulable ||
              String.eqb (cond_Reason c) PodReasonSchedulerError
           then (Unschedulable, Some (MounterError ResultCode_Insufficient (cond_Message c)))
           else (Wait, None)
       end.

(** [client.PatchMetadata]: empty maps are left out of the patch. *)
Record PatchMetadata := mkPatchMetadata {
  pm_Annotations : gmap string string;
  pm_Labels : gmap string string }.

(** On success the pod object in memory is replaced by the server's answer. *)
Definition PatchPodMetadata (pod : Pod) (patchMetadata : PatchMetadata) : M (Pod * option goerr) :=
  r <-- call (PodPatch (pod_Namespace pod) (pod_Name pod) (pm_Labels patchMetadata)
                (pm_Annotations patchMetadata)) ;;
  Done match r with Ok rsPod => (rsPod, None) | Err err => (pod, Some err) end.

Definition PatchPodAnnotations (pod : Pod) (annotations : gmap string string)
    : M (Pod * option goerr) := PatchPodMetadata pod (mkPatchMetadata annotations ∅).

Definition PatchNodeMetadata (nodeName : string) (patchMetadata : PatchMetadata) : M (option goerr) :=
  call (NodePatch nodeName (pm_Labels patchMetadata) (pm_Annotations patchMetadata)).

(** ** Devices and processes *)

(** [sets.Int]: the elements in the order of [List]. *)
Fixpoint int_Insert (x : Z) (l : list Z) : list Z :=
  match l with
  | [] => [x]
  | y :: rest =>
      if (x =? y)%Z then l else if (x <? y)%Z then x :: l else y :: int_Insert x rest
  end.

Definition int_set (l : list Z) : list Z := foldl (λ s x, int_Insert x s) [] l.

Definition char_device (id path : string) (major minor : Z) (perm : string) (allow : bool)
    : DeviceInfo :=
  mkDeviceInfo (mkRule CharDevice major minor perm allow) id path.

Section Driver.
Context `{UnixLib}.

(** The driver's control devices: nvidiactl, nvidia-uvm and nvidia-uvm-tools. *)
Definition driver_infos : M (result (list DeviceInfo)) :=
  let info path mm := char_device "" path mm.1 mm.2 DEFAULT_CGROUP_PERMISSION true in
  uvm <-! GetDeviceFileVersion NVIDIA_NVIDIA_UVM_FILE_PATH ;;
  tools <-! GetDeviceFileVersion NVIDIA_NVIDIA_UVM_TOOLS_FILE_PATH ;;
  Done (Ok [info NVIDIA_NVIDIACTL_FILE_PATH
              (DEFAULT_NVIDIA_MAJOR_NUMBER, DEFAULT_NVIDIACTL_MINOR_NUMBER);
            info NVIDIA_NVIDIA_UVM_FILE_PATH uvm;
            info NVIDIA_NVIDIA_UVM_TOOLS_FILE_PATH tools]).

End Driver.
