(* ===== verification/VgpuCache.v ===== *)
(** * Volcano vGPU: device annotations and the shared cache
    ([pkg/devices/volcano/vgpu/util.go] and the cache edits of [device_info.go])

    A container with vGPUs shares a file with the interception library: the
    region [sharedRegionT], with the limits of up to sixteen devices. The edits
    of the region are state-passing functions; a write out of the sixteen slots
    panics and leaves the region as it was changed until then. The bytes of a
    Go string are the codes of its characters; device identifiers are ASCII, so
    that a [range] over one visits its bytes. *)
From Stdlib Require Import ZArith Lia Ascii String.
From stdpp Require Import base gmap strings list pretty.
From S2P Require Import Prelude GoStrings Api Ebpf World Util.

(** ** Devices of a pod *)

Record Device := mkDevice {
  CtrIdx : Z;
  UUID : string;
  Type_name : string;
  Usedmem : Z;
  Usedcores : Z }.

#[export] Instance Device_eq_dec : EqDecision Device.
Proof. solve_decision. Defined.

(** The body of the loop of [decodeContainerDevices] on one element; the element
    may have fewer than five fields. A number that does not parse reads as 0,
    one out of range as the bound. *)
Definition decode_device (val : string) : outcome Device :=
  let tmpstr := Split val "," in
  idx ← slice_get tmpstr 0;
  uuid ← slice_get tmpstr 1;
  type ← slice_get tmpstr 2;
  devmem ← slice_get tmpstr 3;
  devcores ← slice_get tmpstr 4;
  Returns (mkDevice (wrapU 32 (ParseInt idx 32).1) uuid type
             (wrapS 32 (ParseInt devmem 32).1) (wrapS 32 (ParseInt devcores 32).1)).

Fixpoint decode_devices (cd : list string) : outcome (list Device) :=
  match cd with
  | [] => Returns []
  | val :: rest =>
      if Contains val "," then
        tmpdev ← decode_device val; contdev ← decode_devices rest; Returns (tmpdev :: contdev)
      else decode_devices rest
  end.

Definition decodeContainerDevices (str : string) : outcome (list Device) :=
  if str_empty str then Returns [] else decode_devices (Split str ":").

Fixpoint decode_all (l : list string) : outcome (list (list Device)) :=
  match l with
  | [] => Returns []
  | s :: rest => cd ← decodeContainerDevices s; pd ← decode_all rest; Returns (cd :: pd)
  end.

Definition decodePodDevices (str : string) : outcome (list (list Device)) :=
  if str_empty str then Returns [] else decode_all (Split str ";").

(** [sets.String]: [Insert] into the sorted list that [List] returns. *)
Fixpoint set_Insert (x : string) (l : list string) : list string :=
  match l with
  | [] => [x]
  | y :: rest =>
      match String.compare x y with
      | Eq => l
      | Lt => x :: l
      | Gt => y :: set_Insert x rest
      end
  end.

Definition getDevicesUUID (podDevices : list (list Device)) (container : Container) : list string :=
  foldl (λ usedUUID device,
    if (CtrIdx device =? Index container)%Z then set_Insert (UUID device) usedUUID else usedUUID)
    [] (concat podDevices).

Definition AssignedIDsAnnotations : string := "volcano.sh/vgpu-ids-new".

Definition GetPodDevMap (pod : Pod) : outcome (gmap string Device) :=
  podDevices ← decodePodDevices (map_str (pod_Annotations pod) AssignedIDsAnnotations);
  Returns (foldl (λ devMap dev, <[UUID dev := dev]> devMap) ∅ (concat podDevices)).

(** ** The shared region *)

Definition MAX_SLOTS : nat := 16.
Definition UUID_BYTES : nat := 96.

(** The [n] bytes of a string. *)
Definition string_bytes (s : string) : list Z :=
  map (λ c, Z.of_nat (nat_of_ascii c)) (list_ascii_of_string s).
Definition bytes_string (l : list Z) : string :=
  string_of_list_ascii (map (λ b, ascii_of_nat (Z.to_nat b)) l).

(** The writes of [ConvertUUID] go out of range from the 97th byte on, and so does
    the terminating zero of a string of 96 bytes. *)
Definition ConvertUUID (devuuid : string) : outcome (list Z) :=
  if decide (String.length devuuid < UUID_BYTES) then
    Returns (string_bytes devuuid ++ replicate (UUID_BYTES - String.length devuuid) 0%Z)
  else Panics "index out of range".

(** [string(cache.uuids[i].uuid[:])[0:40]]. *)
Definition slot_uuid (cache : sharedRegionT) (i : nat) : outcome string :=
  row ← slice_get (uuids cache) i;
  Returns (bytes_string (take 40 row)).

(** [uint64(dev.Usedcores)] and [uint64(dev.Usedmem) << 20]. *)
Definition dev_cores (dev : Device) : Z := wrapU 64 (Usedcores dev).
Definition dev_memory (dev : Device) : Z := wrapU 64 (Z.shiftl (wrapU 64 (Usedmem dev)) 20).

Definition set_limits (cache : sharedRegionT) (i : nat) (memory cores : Z) : sharedRegionT :=
  mkSharedRegion (num cache) (uuids cache) (<[i := memory]> (limit cache))
    (<[i := cores]> (smLimit cache)).

Definition set_uuid (cache : sharedRegionT) (i : nat) (row : list Z) : sharedRegionT :=
  mkSharedRegion (num cache) (<[i := row]> (uuids cache)) (limit cache) (smLimit cache).

Definition set_num (cache : sharedRegionT) (n : Z) : sharedRegionT :=
  mkSharedRegion (wrapU 64 n) (uuids cache) (limit cache) (smLimit cache).

(** A loop [for i := 0; i < cache.num; i++] from [i] on. The access to [uuids]
    panics at the slot after the last, so that seventeen turns are enough
    ([for_slots_enough]). *)
Fixpoint for_slots {S} (cache_of : S → sharedRegionT) (body : nat → string → S → S)
    (fuel i : nat) (s : S) : S * outcome unit :=
  match fuel with
  | O => (s, Panics "out of fuel")
  | S fuel' =>
      if (Z.of_nat i <? num (cache_of s))%Z then
        match slot_uuid (cache_of s) i with
        | Panics why => (s, Panics why)
        | Returns devuuid => for_slots cache_of body fuel' (i + 1) (body i devuuid s)
        end
      else (s, Returns tt)
  end.

(** The change of the limits of one slot by [addVGPUResource] and [subVGPUResource]. *)
Definition shift_limits (sign : Z) (devMap : gmap string Device) (i : nat) (devuuid : string)
    (cache : sharedRegionT) : sharedRegionT :=
  match devMap !! devuuid with
  | Some dev =>
      set_limits cache i
        (wrapU 64 (default 0%Z (limit cache !! i) + sign * dev_memory dev))
        (wrapU 64 (default 0%Z (smLimit cache !! i) + sign * dev_cores dev))
  | None => cache
  end.

Definition add_resources (devMap : gmap string Device) (cache : sharedRegionT)
    : sharedRegionT * outcome unit :=
  for_slots id (shift_limits 1 devMap) (S MAX_SLOTS) 0 cache.

Definition sub_resources (devMap : gmap string Device) (cache : sharedRegionT)
    : sharedRegionT * outcome unit :=
  for_slots id (shift_limits (-1) devMap) (S MAX_SLOTS) 0 cache.

(** The two loops of the closure that [ExecutePostMountActions] passes for a
    container that already has vGPUs: the first consumes from [devMap]. *)
Definition overwrite_slot (i : nat) (devuuid : string) (s : sharedRegionT * gmap string Device)
    : sharedRegionT * gmap string Device :=
  let '(cache, devMap) := s in
  match devMap !! devuuid with
  | Some dev => (set_limits cache i (dev_memory dev) (dev_cores dev), delete devuuid devMap)
  | None => s
  end.

(** One iteration of the second loop. [tail] is a uint64, used as an index before
    it is incremented. *)
Definition append_device (devuuid : string) (dev : Device) (cache : sharedRegionT)
    : sharedRegionT * outcome unit :=
  match ConvertUUID devuuid with
  | Panics why => (cache, Panics why)
  | Returns row =>
      if (num cache <? Z.of_nat (length (uuids cache)))%Z then
        let tail := Z.to_nat (num cache) in
        (set_num (set_limits (set_uuid cache tail row) tail (dev_memory dev) (dev_cores dev))
           (num cache + 1), Returns tt)
      else (cache, Panics "index out of range")
  end.

Fixpoint append_devices (l : list (string * Device)) (cache : sharedRegionT)
    : sharedRegionT * outcome unit :=
  match l with
  | [] => (cache, Returns tt)
  | (devuuid, dev) :: rest =>
      match append_device devuuid dev cache with
      | (cache, Returns _) => append_devices rest cache
      | (cache, Panics why) => (cache, Panics why)
      end
  end.

Section Attach.
Context `{RangeLib}.

Definition attach_devices (devMap : gmap string Device) (cache : sharedRegionT)
    : sharedRegionT * outcome unit :=
  match for_slots fst overwrite_slot (S MAX_SLOTS) 0 (cache, devMap) with
  | ((cache, devMap), Returns _) => append_devices (range devMap) cache
  | ((cache, _), Panics why) => (cache, Panics why)
  end.

End Attach.

(** The loop of [ExecutePostUnmountActions], from slot [n - 1] down. *)
Definition remove_slot (devMap : gmap string Device) (i : nat) (cache : sharedRegionT)
    : sharedRegionT * outcome unit :=
  match slot_uuid cache i with
  | Panics why => (cache, Panics why)
  | Returns devuuid =>
      (match devMap !! devuuid with
       | Some _ => set_num (set_uuid (set_limits cache i 0 0) i (replicate UUID_BYTES 0%Z))
                     (num cache - 1)
       | None => cache
       end, Returns tt)
  end.

Fixpoint remove_slots (devMap : gmap string Device) (n : nat) (cache : sharedRegionT)
    : sharedRegionT * outcome unit :=
  match n with
  | O => (cache, Returns tt)
  | S i =>
      match remove_slot devMap i cache with
      | (cache, Returns _) => remove_slots devMap i cache
      | (cache, Panics why) => (cache, Panics why)
      end
  end.

(** The first index is [int64(cache.num) - 1], with both wraps. If it is beyond the
    array, its access panics; this is decided without counting down to it. *)
Definition remove_devices (devMap : gmap string Device) (cache : sharedRegionT)
    : sharedRegionT * outcome unit :=
  let i := wrapS 64 (wrapS 64 (num cache) - 1) in
  if (i <? 0)%Z then (cache, Returns tt)
  else if (i <? Z.of_nat (length (uuids cache)))%Z then remove_slots devMap (S (Z.to_nat i)) cache
  else (cache, Panics "index out of range").

(** ** The annotation format *)

(** A device is five fields separated by commas; the devices of a container end
    in a colon each, and containers are separated by semicolons. *)
Definition encode_device (d : Device) : string :=
  Join [Itoa (CtrIdx d); UUID d; Type_name d; Itoa (Usedmem d); Itoa (Usedcores d)] ",".
Definition encode_container (l : list Device) : string :=
  match l with [] => "" | _ => Join (map encode_device l ++ [""]) ":" end.
Definition encode_pod (pds : list (list Device)) : string := Join (map encode_container pds) ";".

Definition no_separator (s : string) : Prop :=
  char_free "," s = true ∧ char_free ":" s = true ∧ char_free ";" s = true.

Definition wf_device (d : Device) : Prop :=
  (0 ≤ CtrIdx d < 2 ^ 31)%Z ∧ no_separator (UUID d) ∧ no_separator (Type_name d) ∧
  (- 2 ^ 31 ≤ Usedmem d < 2 ^ 31)%Z ∧ (- 2 ^ 31 ≤ Usedcores d < 2 ^ 31)%Z.

Lemma Itoa_no_separator z : no_separator (Itoa z).
Proof. repeat split; by apply char_free_pretty. Qed.

Lemma char_free_Join c sep l :
  Forall (λ s, char_free c s = true) l → char_free c sep = true → char_free c (Join l sep) = true.
Proof.
  intros Hl Hsep. induction Hl as [|x l Hx Hl IH]; [done|]. destruct l as [|y l]; [done|].
  rewrite Join_cons, !char_free_app, Hx, Hsep. done.
Qed.

Lemma encode_device_free c d :
  c = ":"%char ∨ c = ";"%char → wf_device d → char_free c (encode_device d) = true.
Proof.
  intros Hc (_ & (_ & Hu1 & Hu2) & (_ & Ht1 & Ht2) & _).
  pose proof (Itoa_no_separator (CtrIdx d)) as (_ & ? & ?).
  pose proof (Itoa_no_separator (Usedmem d)) as (_ & ? & ?).
  pose proof (Itoa_no_separator (Usedcores d)) as (_ & ? & ?).
  apply char_free_Join; destruct Hc as [-> | ->]; by repeat constructor.
Qed.

Lemma Contains_app_r s t sub : Contains t sub = true → Contains (s +:+ t) sub = true.
Proof. induction s as [|c s IH]; [done|]. intros Ht. simpl. rewrite IH by done. apply orb_true_r. Qed.

Lemma Contains_encode_device d : Contains (encode_device d) "," = true.
Proof. unfold encode_device. rewrite Join_cons. apply Contains_app_r.
  cbn [String.append Contains]. by rewrite prefix_char. Qed.

Lemma decode_encode_device d : wf_device d → decode_device (encode_device d) = Returns d.
Proof.
  intros (Hi & (Hu & _) & (Ht & _) & Hm & Hc). unfold decode_device, encode_device.
  rewrite Split_Join; [|done|].
  - simpl. rewrite !ParseInt_Itoa by (simpl; lia). simpl.
    rewrite wrapU_small, !wrapS_small by (simpl; lia). by destruct d.
  - pose proof (Itoa_no_separator (CtrIdx d)) as (? & _).
    pose proof (Itoa_no_separator (Usedmem d)) as (? & _).
    pose proof (Itoa_no_separator (Usedcores d)) as (? & _). by repeat constructor.
Qed.

Lemma decode_encode_devices l :
  Forall wf_device l → decode_devices (map encode_device l ++ [""]) = Returns l.
Proof.
  induction 1 as [|d l Hd Hl IH]; [done|]. cbn [map app decode_devices].
  rewrite Contains_encode_device, decode_encode_device by done. simpl. by rewrite IH.
Qed.

Lemma encode_container_nonempty d l : encode_container (d :: l) ≠ "".
Proof.
  intros Heq. unfold encode_container, encode_device in Heq. cbn [map app] in Heq.
  destruct (map _ l ++ [""]) as [|x rest] eqn:Hl; [by destruct (map _ l)|].
  rewrite !Join_cons in Heq. unfold Itoa in Heq.
  assert (∀ s t, s +:+ String "," t ≠ "") as Hne by (by intros [|c s] t). 
  apply (f_equal String.length) in Heq. rewrite !string_app_length in Heq. simpl in Heq. lia.
Qed.

Lemma decode_encode_container l :
  Forall wf_device l → decodeContainerDevices (encode_container l) = Returns l.
Proof.
  intros Hl. destruct l as [|d l]; [done|]. unfold decodeContainerDevices, str_empty.
  rewrite bool_decide_eq_false_2 by apply encode_container_nonempty.
  unfold encode_container. rewrite Split_Join; [by apply decode_encode_devices | done |].
  apply Forall_app. split; [|by repeat constructor].
  apply Forall_fmap. eapply Forall_impl; [exact Hl|]. intros x Hx. apply encode_device_free; auto.
Qed.

Lemma encode_container_free l : Forall wf_device l → char_free ";" (encode_container l) = true.
Proof.
  intros Hl. destruct l as [|d l]; [done|]. apply char_free_Join; [|done].
  apply Forall_app. split; [|by repeat constructor].
  apply Forall_fmap. eapply Forall_impl; [exact Hl|]. intros x Hx. apply encode_device_free; auto.
Qed.

Lemma decode_all_encode pds :
  Forall (Forall wf_device) pds → decode_all (map encode_container pds) = Returns pds.
Proof.
  induction 1 as [|l pds Hl Hpds IH]; [done|]. cbn [map decode_all].
  rewrite decode_encode_container by done. simpl. by rewrite IH.
Qed.

(** The devices that the scheduler writes into the annotation of a pod are
    read back as they are, for any number of containers and devices. The one
    list that is not is a single container without devices, whose encoding is
    the empty annotation of a pod without containers. *)
Theorem decodePodDevices_roundtrip pds :
  Forall (Forall wf_device) pds → pds ≠ [[]] → decodePodDevices (encode_pod pds) = Returns pds.
Proof.
  intros Hpds Hne. unfold decodePodDevices, str_empty. case_bool_decide as He.
  - destruct pds as [|l [|l' pds]]; [done| |].
    + destruct l as [|d l]; [done|]. by apply encode_container_nonempty in He.
    + unfold encode_pod in He. cbn [map] in He. rewrite Join_cons in He.
      apply (f_equal String.length) in He. rewrite !string_app_length in He. simpl in He. lia.
  - unfold encode_pod. rewrite Split_Join.
    + by apply decode_all_encode.
    + intros Hnil. apply He. unfold encode_pod. by rewrite Hnil.
    + apply Forall_fmap. eapply Forall_impl; [exact Hpds|]. apply encode_container_free.
Qed.

(** ** Witnesses *)

Definition w_pods : list (list Device) :=
  [[mkDevice 0 "GPU-1a" "NVIDIA" 4096 50; mkDevice 0 "GPU-2b" "NVIDIA" 4096 100]; []].

Lemma decodePodDevices_roundtrip_witness : decodePodDevices (encode_pod w_pods) = Returns w_pods.
Proof.
  apply (decodePodDevices_roundtrip w_pods).
  - repeat constructor; simpl; lia.
  - discriminate.
Defined.
