(* ===== verification/VgpuFacts.v ===== *)
(** * Theorems about the shared vGPU cache

    A region in good shape ([wf_region]) has its sixteen slots; the slots below
    [num] are in use, and the device in slot [i] is [name_at cache i]. *)
From Stdlib Require Import ZArith Lia Ascii String.
From stdpp Require Import base gmap strings list pretty.
From S2P Require Import Prelude GoStrings Api Ebpf World Util VgpuCache.

(** ** The shape of the region *)

Record wf_region (cache : sharedRegionT) : Prop := {
  wr_num : (0 ≤ num cache ≤ 16)%Z;
  wr_uuids : length (uuids cache) = MAX_SLOTS;
  wr_limit : length (limit cache) = MAX_SLOTS;
  wr_smLimit : length (smLimit cache) = MAX_SLOTS }.

(** The number of slots in use. *)
Definition used (cache : sharedRegionT) : nat := Z.to_nat (num cache).

Definition row_name (row : list Z) : string := bytes_string (take 40 row).
Definition name_at (cache : sharedRegionT) (i : nat) : string :=
  row_name (default [] (uuids cache !! i)).

Definition limit_at (cache : sharedRegionT) (i : nat) : Z := default 0%Z (limit cache !! i).
Definition sm_at (cache : sharedRegionT) (i : nat) : Z := default 0%Z (smLimit cache !! i).

Lemma wf_used cache : wf_region cache → used cache ≤ MAX_SLOTS.
Proof. intros [Hn _ _ _]. unfold used, MAX_SLOTS. lia. Qed.

Lemma slot_uuid_name cache i :
  wf_region cache → i < MAX_SLOTS → slot_uuid cache i = Returns (name_at cache i).
Proof.
  intros Hwf Hi. unfold slot_uuid, name_at. rewrite <- (wr_uuids _ Hwf) in Hi.
  destruct (slice_get_lt _ _ Hi) as (row & -> & ->). done.
Qed.

Lemma slot_uuid_out cache i :
  length (uuids cache) = MAX_SLOTS → MAX_SLOTS ≤ i → slot_uuid cache i = Panics "index out of range".
Proof.
  intros Hlen Hi. unfold slot_uuid, slice_get. by rewrite lookup_ge_None_2 by lia.
Qed.

(** ** Loops over the slots in use *)

Section Slots.
Context {S : Type} (cache_of : S → sharedRegionT) (body : nat → string → S → S).

(** The body changes neither which slots are in use nor their names. *)
Hypothesis body_num : ∀ i name s, num (cache_of (body i name s)) = num (cache_of s).
Hypothesis body_uuids : ∀ i name s, uuids (cache_of (body i name s)) = uuids (cache_of s).


(** The loop folds the body over the slots in use. *)
Lemma for_slots_fold n fuel i s :
  length (uuids (cache_of s)) = MAX_SLOTS → Z.of_nat (i + n) = num (cache_of s) →
  i + n ≤ MAX_SLOTS → n < fuel →
  for_slots cache_of body fuel i s =
    (foldl (λ s j, body j (name_at (cache_of s) j) s) s (seq i n), Returns tt).
Proof.
  revert fuel i s. induction n as [|n IH]; intros fuel i s Hlen Hnum Hi Hfuel;
    (destruct fuel as [|fuel]; [lia|]); cbn [for_slots seq foldl].
  - destruct (Z.ltb_spec (Z.of_nat i) (num (cache_of s))); [lia | done].
  - destruct (Z.ltb_spec (Z.of_nat i) (num (cache_of s))); [|lia].
    unfold slot_uuid, name_at. assert (i < length (uuids (cache_of s))) as Hlt by lia.
    destruct (slice_get_lt _ _ Hlt) as (row & -> & ->). cbn [mbind outcome_bind default].
    rewrite Nat.add_1_r, IH; [done | by rewrite body_uuids | rewrite body_num; lia | lia | lia].
Qed.

(** Sixteen slots bound every loop: with seventeen turns less [i] from slot [i]
    on, the fuel is never what ends it, whatever count the region holds. *)
Lemma for_slots_enough fuel i s :
  length (uuids (cache_of s)) = MAX_SLOTS → i ≤ MAX_SLOTS → MAX_SLOTS < fuel + i →
  (for_slots cache_of body fuel i s).2 =
    if (16 <? num (cache_of s))%Z then Panics "index out of range" else Returns tt.
Proof.
  revert i s. induction fuel as [|fuel IH]; intros i s Hlen Hi Hfuel; cbn [for_slots]; [lia|].
  destruct (Z.ltb_spec (Z.of_nat i) (num (cache_of s))) as [Hlt|Hge].
  - destruct (decide (i = MAX_SLOTS)) as [->|Hne].
    + rewrite slot_uuid_out by done. unfold MAX_SLOTS in *.
      by destruct (Z.ltb_spec 16 (num (cache_of s))); [|lia].
    + unfold slot_uuid. assert (i < length (uuids (cache_of s))) as Hl by lia.
      destruct (slice_get_lt _ _ Hl) as (row & -> & _). cbn [mbind outcome_bind].
      rewrite IH by (rewrite ?body_uuids; lia). by rewrite body_num.
  - unfold MAX_SLOTS in *. by destruct (Z.ltb_spec 16 (num (cache_of s))); [lia|].
Qed.

End Slots.

(** ** Single writes *)

Lemma limit_at_set cache i m k j :
  wf_region cache → i < MAX_SLOTS →
  limit_at (set_limits cache i m k) j = if decide (j = i) then m else limit_at cache j.
Proof.
  intros Hwf Hi. unfold limit_at, set_limits. simpl. case_decide as Hj.
  - subst. by rewrite list_lookup_insert_eq by (by rewrite wr_limit).
  - by rewrite list_lookup_insert_ne by done.
Qed.

Lemma sm_at_set cache i m k j :
  wf_region cache → i < MAX_SLOTS →
  sm_at (set_limits cache i m k) j = if decide (j = i) then k else sm_at cache j.
Proof.
  intros Hwf Hi. unfold sm_at, set_limits. simpl. case_decide as Hj.
  - subst. by rewrite list_lookup_insert_eq by (by rewrite wr_smLimit).
  - by rewrite list_lookup_insert_ne by done.
Qed.

Lemma wf_set_limits cache i m k : wf_region cache → wf_region (set_limits cache i m k).
Proof. intros []. by split; simpl; rewrite ?length_insert. Qed.

#[export] Hint Resolve wf_set_limits : go.

Lemma name_at_set_limits cache i m k j : name_at (set_limits cache i m k) j = name_at cache j.
Proof. done. Qed.

(** Regions with the same contents are equal. *)
Lemma region_ext c c' :
  wf_region c → wf_region c' → num c = num c' → uuids c = uuids c' →
  (∀ i, i < MAX_SLOTS → limit_at c i = limit_at c' i ∧ sm_at c i = sm_at c' i) → c = c'.
Proof.
  intros Hc Hc' Hn Hu Hl. destruct c as [n u l sm], c' as [n' u' l' sm']. simpl in *. subst. f_equal.
  - apply list_eq_same_length with MAX_SLOTS; [apply (wr_limit _ Hc')|apply (wr_limit _ Hc)|].
    intros i x y Hi Hx Hy. destruct (Hl i Hi) as [H _]. unfold limit_at in H. simpl in H.
    by rewrite Hx, Hy in H.
  - apply list_eq_same_length with MAX_SLOTS; [apply (wr_smLimit _ Hc')|apply (wr_smLimit _ Hc)|].
    intros i x y Hi Hx Hy. destruct (Hl i Hi) as [_ H]. unfold sm_at in H. simpl in H.
    by rewrite Hx, Hy in H.
Qed.

(** ** Expansion and its rollback *)

Section Shift.
Context (sign : Z) (devMap : gmap string Device).

(** The limits of a slot with device [name] after the change. *)
Definition shifted_limit (name : string) (z : Z) : Z :=
  match devMap !! name with Some dev => wrapU 64 (z + sign * dev_memory dev) | None => z end.
Definition shifted_sm (name : string) (z : Z) : Z :=
  match devMap !! name with Some dev => wrapU 64 (z + sign * dev_cores dev) | None => z end.

Lemma shift_limits_spec i name cache :
  wf_region cache → i < MAX_SLOTS →
  let cache' := shift_limits sign devMap i name cache in
  wf_region cache' ∧ num cache' = num cache ∧ uuids cache' = uuids cache ∧
  ∀ j, limit_at cache' j = (if decide (j = i) then shifted_limit name (limit_at cache j) else limit_at cache j) ∧
       sm_at cache' j = (if decide (j = i) then shifted_sm name (sm_at cache j) else sm_at cache j).
Proof.
  intros Hwf Hi. unfold shift_limits, shifted_limit, shifted_sm.
  destruct (devMap !! name) as [dev|]; cbn zeta.
  - split; [by apply wf_set_limits|]. do 2 (split; [done|]). intros j.
    rewrite limit_at_set, sm_at_set by done. case_decide; subst; done.
  - do 3 (split; [done|]). intros j. by case_decide.
Qed.

Lemma shift_fold n i cache :
  wf_region cache → i + n ≤ MAX_SLOTS →
  let cache' := foldl (λ s j, shift_limits sign devMap j (name_at (id s) j) s) cache (seq i n) in
  wf_region cache' ∧ num cache' = num cache ∧ uuids cache' = uuids cache ∧
  ∀ j, let here := decide (i ≤ j < i + n) in
    limit_at cache' j = (if here then shifted_limit (name_at cache j) (limit_at cache j) else limit_at cache j) ∧
    sm_at cache' j = (if here then shifted_sm (name_at cache j) (sm_at cache j) else sm_at cache j).
Proof.
  revert i cache. induction n as [|n IH]; intros i cache Hwf Hi; cbn [seq foldl].
  - do 3 (split; [done|]). intros j. cbn zeta. by rewrite !decide_False by lia.
  - destruct (shift_limits_spec i (name_at cache i) cache Hwf ltac:(lia)) as (Hwf1 & Hn1 & Hu1 & Hl1).
    destruct (IH (S i) _ Hwf1 ltac:(lia)) as (Hwf2 & Hn2 & Hu2 & Hl2).
    split; [exact Hwf2|]. split; [exact (eq_trans Hn2 Hn1)|]. split; [exact (eq_trans Hu2 Hu1)|].
    intros j. cbn zeta. change (id cache) with cache.
    destruct (Hl2 j) as [Hl Hs]. destruct (Hl1 j) as [Hl' Hs'].
    assert (name_at (shift_limits sign devMap i (name_at cache i) cache) j = name_at cache j) as Hname
      by (unfold name_at at 1; by rewrite Hu1).
    rewrite Hname, Hl' in Hl. rewrite Hname, Hs' in Hs. rewrite Hl, Hs.
    repeat case_decide; subst; try lia; done.
Qed.

Lemma shift_loop cache :
  wf_region cache →
  ∃ cache', for_slots id (shift_limits sign devMap) (S MAX_SLOTS) 0 cache = (cache', Returns tt) ∧
    wf_region cache' ∧ num cache' = num cache ∧ uuids cache' = uuids cache ∧
    ∀ j, let here := decide (j < used cache) in
      limit_at cache' j = (if here then shifted_limit (name_at cache j) (limit_at cache j) else limit_at cache j) ∧
      sm_at cache' j = (if here then shifted_sm (name_at cache j) (sm_at cache j) else sm_at cache j).
Proof.
  intros Hwf. pose proof (wf_used _ Hwf) as Hu. destruct Hwf as [Hn Hlu Hll Hls].
  eexists. split; [apply (for_slots_fold id _) with (n := used cache)|].
  - intros i name s. unfold shift_limits. by destruct (devMap !! name).
  - intros i name s. unfold shift_limits. by destruct (devMap !! name).
  - done.
  - unfold used. cbn [id]. lia.
  - lia.
  - lia.
  - destruct (shift_fold (used cache) 0 cache) as (? & ? & ? & Hl); [by split|lia|].
    do 3 (split; [done|]). intros j. destruct (Hl j) as [Hl1 Hl2]. cbn zeta in *.
    rewrite Hl1, Hl2. by repeat case_decide; try lia.
Qed.

End Shift.

(** The limits in memory are 64-bit words. *)
Definition word_limits (cache : sharedRegionT) : Prop :=
  ∀ i, i < MAX_SLOTS → (0 ≤ limit_at cache i < 2 ^ 64)%Z ∧ (0 ≤ sm_at cache i < 2 ^ 64)%Z.

(** C37. The rollback of an expansion undoes it: subtracting the resources of the
    slave pod after adding them gives the region back bit by bit, also when a
    sum wrapped around 2^64. *)
Theorem expansion_rollback devMap cache :
  wf_region cache → word_limits cache →
  ∃ expanded, add_resources devMap cache = (expanded, Returns tt) ∧
    (∀ i dev, i < used cache → devMap !! name_at cache i = Some dev →
       limit_at expanded i = wrapU 64 (limit_at cache i + dev_memory dev) ∧
       sm_at expanded i = wrapU 64 (sm_at cache i + dev_cores dev)) ∧
    sub_resources devMap expanded = (cache, Returns tt).
Proof.
  intros Hwf Hw. destruct (shift_loop 1 devMap cache Hwf) as (c1 & Hadd & Hwf1 & Hn1 & Hu1 & Hl1).
  exists c1. split; [exact Hadd|]. split.
  - intros i dev Hi Hdev. destruct (Hl1 i) as [-> ->]. rewrite !decide_True by done.
    unfold shifted_limit, shifted_sm. rewrite Hdev. by rewrite !Z.mul_1_l.
  - destruct (shift_loop (-1) devMap c1 Hwf1) as (c2 & Hsub & Hwf2 & Hn2 & Hu2 & Hl2).
    unfold sub_resources. rewrite Hsub. f_equal. apply region_ext; [done..|congruence|congruence|].
    intros i Hi. destruct (Hl2 i) as [-> ->]. destruct (Hl1 i) as [-> ->].
    assert (used c1 = used cache) as -> by (unfold used; congruence).
    assert (name_at c1 i = name_at cache i) as -> by (unfold name_at; by rewrite Hu1).
    destruct (Hw i Hi) as [Hlim Hsm]. unfold shifted_limit, shifted_sm.
    case_decide; [|done]. destruct (devMap !! name_at cache i) as [dev|]; [|done].
    split; rewrite Z.mul_1_l; [set (d := dev_memory dev)|set (d := dev_cores dev)];
      replace (-1 * d)%Z with (- d)%Z by lia; rewrite Z.add_opp_r; by apply wrapU_add_sub.
Qed.

(** ** Attaching devices *)

(** The devices in use, in the order of their slots. *)
Definition visible (cache : sharedRegionT) : list string :=
  map (name_at cache) (seq 0 (used cache)).

Lemma visible_elem cache k : k ∈ visible cache ↔ ∃ i, i < used cache ∧ name_at cache i = k.
Proof.
  unfold visible. rewrite list_elem_of_fmap. setoid_rewrite elem_of_seq.
  split; intros (i & ? & ?); exists i; intuition (lia || congruence).
Qed.

Lemma bytes_string_bytes k : bytes_string (string_bytes k) = k.
Proof.
  unfold bytes_string, string_bytes. rewrite map_map.
  rewrite (map_ext _ id); [by rewrite map_id, string_of_list_ascii_of_string|].
  intros c. rewrite Nat2Z.id. apply ascii_nat_embedding.
Qed.

Lemma string_bytes_length k : length (string_bytes k) = String.length k.
Proof. unfold string_bytes. rewrite length_map. induction k; simpl; congruence. Qed.

Lemma row_name_ConvertUUID k row :
  String.length k = 40 → ConvertUUID k = Returns row → row_name row = k.
Proof.
  intros Hk. unfold ConvertUUID. case_decide; [|done]. intros [= <-]. unfold row_name.
  rewrite take_app_length' by (by rewrite string_bytes_length). apply bytes_string_bytes.
Qed.

(** The values that the device map gives a slot named [name]. *)
Definition given_limit (devMap : gmap string Device) (name : string) (z : Z) : Z :=
  match devMap !! name with Some dev => dev_memory dev | None => z end.
Definition given_sm (devMap : gmap string Device) (name : string) (z : Z) : Z :=
  match devMap !! name with Some dev => dev_cores dev | None => z end.

Lemma overwrite_slot_spec i name cache dm :
  wf_region cache → i < MAX_SLOTS →
  let s' := overwrite_slot i name (cache, dm) in
  wf_region s'.1 ∧ num s'.1 = num cache ∧ uuids s'.1 = uuids cache ∧ s'.2 = delete name dm ∧
  ∀ j, limit_at s'.1 j = (if decide (j = i) then given_limit dm name (limit_at cache j) else limit_at cache j) ∧
       sm_at s'.1 j = (if decide (j = i) then given_sm dm name (sm_at cache j) else sm_at cache j).
Proof.
  intros Hwf Hi. unfold overwrite_slot, given_limit, given_sm.
  destruct (dm !! name) as [dev|] eqn:Hd; cbn [fst snd].
  - split; [by apply wf_set_limits|]. do 3 (split; [done|]). intros j.
    rewrite limit_at_set, sm_at_set by done. case_decide; subst; done.
  - do 3 (split; [done|]). split; [by rewrite delete_id|]. intros j. by case_decide.
Qed.

Lemma overwrite_fold n i cache dm :
  wf_region cache → i + n ≤ MAX_SLOTS → NoDup (map (name_at cache) (seq i n)) →
  let s' := foldl (λ s j, overwrite_slot j (name_at s.1 j) s) (cache, dm) (seq i n) in
  wf_region s'.1 ∧ num s'.1 = num cache ∧ uuids s'.1 = uuids cache ∧
  (∀ k, s'.2 !! k = if decide (k ∈ map (name_at cache) (seq i n)) then None else dm !! k) ∧
  ∀ j, let here := decide (i ≤ j < i + n) in
    limit_at s'.1 j = (if here then given_limit dm (name_at cache j) (limit_at cache j) else limit_at cache j) ∧
    sm_at s'.1 j = (if here then given_sm dm (name_at cache j) (sm_at cache j) else sm_at cache j).
Proof.
  revert i cache dm. induction n as [|n IH]; intros i cache dm Hwf Hi Hnd; cbn [seq foldl].
  - do 3 (split; [done|]). split; [intros k; by rewrite decide_False by set_solver|].
    intros j. cbn zeta. by rewrite !decide_False by lia.
  - cbn [seq map] in Hnd. apply NoDup_cons in Hnd as [Hnin Hnd]. change ((cache, dm).1) with cache.
    destruct (overwrite_slot_spec i (name_at cache i) cache dm Hwf ltac:(lia))
      as (Hwf1 & Hn1 & Hu1 & Hd1 & Hl1).
    destruct (overwrite_slot i (name_at cache i) (cache, dm)) as [c1 dm1] eqn:Hs1. cbn [fst snd] in *.
    assert (∀ j, name_at c1 j = name_at cache j) as Hname by (intros; unfold name_at; by rewrite Hu1).
    assert (map (name_at c1) (seq (S i) n) = map (name_at cache) (seq (S i) n)) as Hmap
      by (by apply map_ext).
    destruct (IH (S i) c1 dm1 Hwf1 ltac:(lia) ltac:(by rewrite Hmap)) as (Hwf2 & Hn2 & Hu2 & Hd2 & Hl2).
    split; [done|]. split; [congruence|]. split; [congruence|]. split.
    + intros k. rewrite Hd2, Hmap, Hd1. rewrite lookup_delete.
      repeat case_decide; set_solver.
    + intros j. cbn zeta. destruct (Hl2 j) as [-> ->]. destruct (Hl1 j) as [-> ->]. rewrite Hname.
      destruct (decide (j = i)) as [->|Hne]; [by repeat case_decide; try lia|].
      assert (S i ≤ j < S i + n → given_limit dm1 (name_at cache j) (limit_at cache j) =
                given_limit dm (name_at cache j) (limit_at cache j) ∧
              given_sm dm1 (name_at cache j) (sm_at cache j) =
                given_sm dm (name_at cache j) (sm_at cache j)) as Hgiven.
      { intros Hj. unfold given_limit, given_sm. rewrite Hd1, lookup_delete_ne; [done|].
        intros Heq. apply Hnin. rewrite Heq. apply list_elem_of_fmap. exists j. split; [done|].
        apply elem_of_seq. lia. }
      repeat case_decide; try lia; tauto.
Qed.

Lemma append_device_spec k dev cache :
  wf_region cache → String.length k = 40 → used cache < MAX_SLOTS →
  ∃ cache', append_device k dev cache = (cache', Returns tt) ∧ wf_region cache' ∧
    used cache' = S (used cache) ∧
    name_at cache' (used cache) = k ∧ limit_at cache' (used cache) = dev_memory dev ∧
    sm_at cache' (used cache) = dev_cores dev ∧
    ∀ j, j ≠ used cache → name_at cache' j = name_at cache j ∧
      limit_at cache' j = limit_at cache j ∧ sm_at cache' j = sm_at cache j.
Proof.
  intros [Hn Hlu Hll Hls] Hk Hused. unfold append_device.
  destruct (ConvertUUID k) as [row|] eqn:Hrow.
  2:{ unfold ConvertUUID in Hrow. rewrite decide_True in Hrow by (rewrite Hk; unfold UUID_BYTES; lia). done. }
  pose proof (row_name_ConvertUUID k row Hk Hrow) as Hname. unfold used, MAX_SLOTS in *.
  rewrite Hlu. destruct (Z.ltb_spec (num cache) (Z.of_nat 16)); [|lia].
  assert (wrapU 64 (num cache + 1) = num cache + 1)%Z as Hwrap by (apply wrapU_small; lia).
  eexists. split; [done|]. unfold name_at, limit_at, sm_at, set_num, set_limits, set_uuid.
  cbn [num uuids limit smLimit]. rewrite Hwrap. split.
  { split; cbn [num uuids limit smLimit]; rewrite ?length_insert; done || lia. }
  split; [lia|]. rewrite !list_lookup_insert_eq by lia. do 3 (split; [done|]).
  intros j Hj. by rewrite !list_lookup_insert_ne by done.
Qed.

Lemma append_devices_spec l cache :
  wf_region cache → Forall (λ '(k, _), String.length k = 40) l → used cache + length l ≤ MAX_SLOTS →
  ∃ cache', append_devices l cache = (cache', Returns tt) ∧ wf_region cache' ∧
    used cache' = used cache + length l ∧
    (∀ j k dev, l !! j = Some (k, dev) → name_at cache' (used cache + j) = k ∧
       limit_at cache' (used cache + j) = dev_memory dev ∧ sm_at cache' (used cache + j) = dev_cores dev) ∧
    ∀ j, j < used cache → name_at cache' j = name_at cache j ∧
      limit_at cache' j = limit_at cache j ∧ sm_at cache' j = sm_at cache j.
Proof.
  intros Hwf Hl. revert cache Hwf. induction Hl as [|[k dev] l Hk Hl IH]; intros cache Hwf Hlen; simpl in *.
  { exists cache. split; [done|]. split; [done|]. split; [lia|]. done. }
  destruct (append_device_spec k dev cache Hwf Hk ltac:(lia)) as (c1 & -> & Hwf1 & Hu1 & Hn1 & Hl1 & Hs1 & Ho1).
  destruct (IH c1 Hwf1 ltac:(lia)) as (c2 & Happ & Hwf2 & Hu2 & Hnew2 & Hold2).
  exists c2. split; [done|]. split; [done|]. split; [lia|]. split.
  - intros [|j] k' dev' Hj; simpl in Hj.
    + injection Hj as <- <-. rewrite Nat.add_0_r. destruct (Hold2 (used cache) ltac:(lia)) as (-> & -> & ->). done.
    + replace (used cache + S j) with (used c1 + j) by lia. by apply Hnew2.
  - intros j Hj. destruct (Hold2 j ltac:(lia)) as (-> & -> & ->). apply Ho1. lia.
Qed.

Lemma append_devices_full l cache :
  wf_region cache → Forall (λ '(k, _), String.length k = 40) l → MAX_SLOTS < used cache + length l →
  (append_devices l cache).2 = Panics "index out of range".
Proof.
  intros Hwf Hl. revert cache Hwf. induction Hl as [|[k dev] l Hk Hl IH]; intros cache Hwf Hlen; simpl in *.
  { pose proof (wf_used _ Hwf). lia. }
  destruct (decide (used cache < MAX_SLOTS)) as [Hlt|Hge].
  - destruct (append_device_spec k dev cache Hwf Hk Hlt) as (c1 & -> & Hwf1 & Hu1 & _).
    apply IH; [done | lia].
  - unfold append_device, ConvertUUID. rewrite decide_True by (rewrite Hk; unfold UUID_BYTES; lia).
    rewrite (wr_uuids _ Hwf). pose proof (wr_num _ Hwf). unfold used, MAX_SLOTS in *.
    by destruct (Z.ltb_spec (num cache) (Z.of_nat 16)); [lia|].
Qed.

Section Attach.
Context `{RangeLaws}.

(** The devices of the slave pod that the region does not show yet. *)
Definition fresh (cache : sharedRegionT) (devMap : gmap string Device) : gmap string Device :=
  filter (λ '(k, _), k ∉ visible cache) devMap.

Lemma range_length {V} (m : gmap string V) : length (range m) = size m.
Proof. rewrite (range_law m). apply length_map_to_list. Qed.

Lemma fresh_lookup cache devMap k :
  fresh cache devMap !! k = if decide (k ∈ visible cache) then None else devMap !! k.
Proof.
  unfold fresh. rewrite map_lookup_filter. destruct (devMap !! k); simpl; [|by case_decide].
  repeat case_decide; simpl; try done.
Qed.

(** Identifiers of NVIDIA devices have forty characters. *)
Definition device_ids (devMap : gmap string Device) : Prop :=
  ∀ k, is_Some (devMap !! k) → String.length k = 40.

Lemma fresh_ids cache devMap :
  device_ids devMap → Forall (λ '(k, _), String.length k = 40) (range (fresh cache devMap)).
Proof.
  intros Hids. apply Forall_forall. intros [k dev] Hk%range_elem. rewrite fresh_lookup in Hk.
  case_decide; [done|]. apply Hids. eauto.
Qed.

(** The first loop: the limits of the devices that are already there. *)
Lemma overwrite_loop cache devMap :
  wf_region cache → NoDup (visible cache) →
  ∃ c1, for_slots fst overwrite_slot (S MAX_SLOTS) 0 (cache, devMap) =
      ((c1, fresh cache devMap), Returns tt) ∧
    wf_region c1 ∧ used c1 = used cache ∧ (∀ i, name_at c1 i = name_at cache i) ∧
    ∀ i, i < used cache → limit_at c1 i = given_limit devMap (name_at cache i) (limit_at cache i) ∧
      sm_at c1 i = given_sm devMap (name_at cache i) (sm_at cache i).
Proof.
  intros Hwf Hnd. pose proof (wf_used _ Hwf) as Hu.
  destruct (overwrite_fold (used cache) 0 cache devMap Hwf Hu Hnd) as (Hwf1 & Hn1 & Hu1 & Hd1 & Hl1).
  set (s' := foldl _ _ _) in *. exists s'.1. split; [|split; [done|split; [unfold used; congruence|split]]].
  - rewrite (for_slots_fold fst overwrite_slot) with (n := used cache); cbn [fst];
      [|by intros i name [c dm]; simpl; destruct (dm !! name)..|apply (wr_uuids _ Hwf)| |lia|lia].
    + fold s'. destruct s' as [c1 dm1]. cbn [fst snd] in *. do 2 f_equal. apply map_eq. intros k.
      by rewrite Hd1, fresh_lookup.
    + pose proof (wr_num _ Hwf). unfold used. lia.
  - intros i. unfold name_at. by rewrite Hu1.
  - intros i Hi. destruct (Hl1 i) as [-> ->]. by rewrite !decide_True by lia.
Qed.

(** C14. Attaching devices to a container with vGPUs. When the new devices fit into
    the sixteen slots, every device of the slave pod is in exactly one slot with
    the limits it was given, no other slot in use changes, and the new ones
    follow the old; otherwise the write out of range panics. *)
Theorem attach_devices_spec devMap cache :
  wf_region cache → NoDup (visible cache) → device_ids devMap →
  if decide (used cache + size (fresh cache devMap) ≤ MAX_SLOTS) then
    ∃ cache', attach_devices devMap cache = (cache', Returns tt) ∧
      wf_region cache' ∧ NoDup (visible cache') ∧
      used cache' = used cache + size (fresh cache devMap) ∧
      (∀ k dev, devMap !! k = Some dev → ∃ i, i < used cache' ∧ name_at cache' i = k ∧
         limit_at cache' i = dev_memory dev ∧ sm_at cache' i = dev_cores dev) ∧
      (∀ i, i < used cache → name_at cache' i = name_at cache i ∧
         (devMap !! name_at cache i = None →
            limit_at cache' i = limit_at cache i ∧ sm_at cache' i = sm_at cache i))
  else (attach_devices devMap cache).2 = Panics "index out of range".
Proof.
  intros Hwf Hnd Hids. destruct (overwrite_loop cache devMap Hwf Hnd) as (c1 & Hloop & Hwf1 & Hu1 & Hn1 & Hl1).
  unfold attach_devices. rewrite Hloop. pose proof (fresh_ids cache devMap Hids) as Hlens.
  rewrite <- range_length. case_decide as Hfit.
  2:{ apply append_devices_full; [done | done | lia]. }
  destruct (append_devices_spec _ c1 Hwf1 Hlens ltac:(lia)) as (c2 & -> & Hwf2 & Hu2 & Hnew & Hold).
  exists c2. split; [done|]. split; [done|].
  assert (visible c2 = visible cache ++ (range (fresh cache devMap)).*1) as Hvis.
  { unfold visible. rewrite Hu2, Hu1, seq_app, map_app. f_equal.
    - apply map_ext_in. intros i [_ Hi]%in_seq. destruct (Hold i ltac:(lia)) as (-> & _). apply Hn1.
    - apply list_eq. intros i. rewrite !list_lookup_fmap.
      destruct (range (fresh cache devMap) !! i) as [[k dev]|] eqn:Hi; simpl.
      + apply lookup_lt_Some in Hi as Hlt. rewrite lookup_seq_lt by done. simpl. f_equal.
        rewrite <- Hu1. by apply (Hnew i k dev).
      + apply lookup_ge_None in Hi. by rewrite lookup_seq_ge. }
  split.
  { rewrite Hvis. apply NoDup_app. split; [done|]. split.
    - intros k Hk ([k' dev] & -> & Hin)%list_elem_of_fmap. apply range_elem in Hin.
      rewrite fresh_lookup, decide_True in Hin by done. done.
    - rewrite (range_law (fresh cache devMap)). apply NoDup_fst_map_to_list. }
  split; [lia|]. split.
  - intros k dev Hk. destruct (decide (k ∈ visible cache)) as [Hin|Hnin].
    + apply visible_elem in Hin as (i & Hi & <-). exists i.
      destruct (Hold i ltac:(lia)) as (-> & -> & ->). destruct (Hl1 i Hi) as [-> ->].
      unfold given_limit, given_sm. rewrite Hk, Hn1. split; [lia | done].
    + assert ((k, dev) ∈ range (fresh cache devMap)) as [j Hj]%list_elem_of_lookup.
      { apply range_elem. by rewrite fresh_lookup, decide_False. }
      apply lookup_lt_Some in Hj as Hlt. exists (used c1 + j). split; [lia | by apply Hnew].
  - intros i Hi. destruct (Hold i ltac:(lia)) as (-> & -> & ->). destruct (Hl1 i Hi) as [-> ->].
    split; [apply Hn1|]. unfold given_limit, given_sm. by intros ->.
Qed.

End Attach.

(** ** Unmounting *)

(** The slots of the removed devices. *)
Definition is_removed (devMap : gmap string Device) (cache : sharedRegionT) (i : nat) : bool :=
  bool_decide (is_Some (devMap !! name_at cache i)).

Definition zero_row : list Z := replicate UUID_BYTES 0%Z.

Definition row_at (cache : sharedRegionT) (i : nat) : list Z := default [] (uuids cache !! i).

Lemma remove_slot_spec devMap i cache :
  wf_region cache → i < MAX_SLOTS → (is_removed devMap cache i = true → (0 < num cache)%Z) →
  ∃ cache', remove_slot devMap i cache = (cache', Returns tt) ∧ wf_region cache' ∧
    num cache' = (num cache - if is_removed devMap cache i then 1 else 0)%Z ∧
    ∀ j, let gone := bool_decide (j = i) && is_removed devMap cache i in
      row_at cache' j = (if gone then zero_row else row_at cache j) ∧
      limit_at cache' j = (if gone then 0%Z else limit_at cache j) ∧
      sm_at cache' j = (if gone then 0%Z else sm_at cache j).
Proof.
  intros Hwf Hi Hpos. unfold remove_slot. rewrite slot_uuid_name by done.
  unfold is_removed in *. destruct (devMap !! name_at cache i) as [dev|] eqn:Hd.
  - rewrite bool_decide_eq_true_2 in * by eauto. specialize (Hpos eq_refl).
    eexists. split; [done|]. destruct Hwf as [Hn Hlu Hll Hls].
    assert (wrapU 64 (num cache - 1) = num cache - 1)%Z as Hwrap by (apply wrapU_small; lia).
    unfold row_at, limit_at, sm_at, set_num, set_uuid, set_limits. cbn [num uuids limit smLimit].
    rewrite Hwrap. split.
    { split; cbn [num uuids limit smLimit]; rewrite ?length_insert; done || lia. }
    split; [done|]. intros j. cbn zeta. rewrite andb_true_r. case_bool_decide as Hj.
    + subst j. by rewrite !list_lookup_insert_eq by lia.
    + by rewrite !list_lookup_insert_ne by done.
  - rewrite bool_decide_eq_false_2 by (by intros []). exists cache. split; [done|]. split; [done|].
    split; [lia|]. intros j. cbn zeta. by rewrite andb_false_r.
Qed.

(** How many of the first [n] slots hold removed devices. *)
Definition removed_below (devMap : gmap string Device) (cache : sharedRegionT) (n : nat) : nat :=
  length (filter (λ i, is_removed devMap cache i = true) (seq 0 n)).

Lemma removed_below_S devMap cache n :
  removed_below devMap cache (S n) =
    removed_below devMap cache n + if is_removed devMap cache n then 1 else 0.
Proof.
  unfold removed_below. rewrite seq_S, filter_app, length_app. f_equal. change (0 + n) with n.
  destruct (is_removed devMap cache n) eqn:Hr.
  - by rewrite filter_cons_True.
  - by rewrite filter_cons_False by congruence.
Qed.

Lemma removed_below_ext devMap c c' n :
  (∀ i, i < n → row_at c i = row_at c' i) → removed_below devMap c n = removed_below devMap c' n.
Proof.
  intros Hrows. induction n as [|n IH]; [done|]. rewrite !removed_below_S, IH by auto with lia.
  f_equal. unfold is_removed, name_at. unfold row_at in Hrows. by rewrite Hrows by lia.
Qed.

Lemma remove_slots_spec devMap n cache :
  wf_region cache → n ≤ MAX_SLOTS → (Z.of_nat (removed_below devMap cache n) ≤ num cache)%Z →
  ∃ cache', remove_slots devMap n cache = (cache', Returns tt) ∧ wf_region cache' ∧
    num cache' = (num cache - Z.of_nat (removed_below devMap cache n))%Z ∧
    ∀ j, let gone := bool_decide (j < n) && is_removed devMap cache j in
      row_at cache' j = (if gone then zero_row else row_at cache j) ∧
      limit_at cache' j = (if gone then 0%Z else limit_at cache j) ∧
      sm_at cache' j = (if gone then 0%Z else sm_at cache j).
Proof.
  revert cache. induction n as [|n IH]; intros cache Hwf Hn Hnum; simpl.
  { exists cache. split; [done|]. split; [done|]. split; [unfold removed_below; simpl; lia|]. done. }
  rewrite removed_below_S in *.
  destruct (remove_slot_spec devMap n cache Hwf ltac:(lia)) as (c1 & -> & Hwf1 & Hn1 & Hr1).
  { intros Hr. rewrite Hr in Hnum. lia. }
  assert (∀ i, i < n → row_at cache i = row_at c1 i) as Hrows.
  { intros i Hi. destruct (Hr1 i) as (-> & _). by rewrite bool_decide_eq_false_2 by lia. }
  assert (∀ i, i < n → is_removed devMap c1 i = is_removed devMap cache i) as Hrem.
  { intros i Hi. unfold is_removed, name_at. fold (row_at c1 i) (row_at cache i).
    by rewrite Hrows by done. }
  rewrite (removed_below_ext devMap cache c1 n Hrows) in *.
  destruct (IH c1 Hwf1 ltac:(lia)) as (c2 & Hs2 & Hwf2 & Hn2 & Hr2).
  { rewrite Hn1. destruct (is_removed devMap cache n); lia. }
  exists c2. split; [done|]. split; [done|].
  split; [rewrite Hn2, Hn1; destruct (is_removed devMap cache n); lia|].
  intros j. destruct (Hr2 j) as (-> & -> & ->). destruct (Hr1 j) as (-> & -> & ->). cbn zeta.
  destruct (decide (j < n)) as [Hj|Hj]; [|destruct (decide (j = n)) as [->|Hne]].
  - rewrite (bool_decide_eq_true_2 (j < n)), (bool_decide_eq_true_2 (j < S n)), Hrem by lia.
    rewrite (bool_decide_eq_false_2 (j = n)) by lia. simpl. by destruct (is_removed devMap cache j).
  - rewrite (bool_decide_eq_false_2 (n < n)), (bool_decide_eq_true_2 (n < S n)) by lia.
    rewrite bool_decide_eq_true_2 by done. done.
  - rewrite (bool_decide_eq_false_2 (j < n)), (bool_decide_eq_false_2 (j < S n)) by lia.
    by rewrite bool_decide_eq_false_2 by done.
Qed.

(** With a sound count the loop starts at the last slot in use. *)
Lemma remove_devices_small devMap cache :
  wf_region cache → remove_devices devMap cache = remove_slots devMap (used cache) cache.
Proof.
  intros Hwf. pose proof (wf_used _ Hwf) as Hu. pose proof (wr_num _ Hwf) as Hn.
  pose proof (wr_uuids _ Hwf) as Hl. unfold remove_devices, used, MAX_SLOTS in *.
  rewrite (wrapS_small 64 (num cache)), wrapS_small by (simpl; lia).
  destruct (Z.ltb_spec (num cache - 1) 0).
  - by replace (Z.to_nat (num cache)) with 0 by lia.
  - rewrite Hl. destruct (Z.ltb_spec (num cache - 1) (Z.of_nat 16)); [|lia]. f_equal. lia.
Qed.

(** C38. Unmounting takes the devices out of their slots and lowers the count, but
    leaves a hole: the devices that stay keep their slots. One that stays in
    the last slot in use is therefore out of sight (not below the new count) as
    soon as another device is removed. *)
Theorem remove_devices_leaves_holes devMap cache :
  wf_region cache →
  ∃ cache', remove_devices devMap cache = (cache', Returns tt) ∧ wf_region cache' ∧
    used cache' = used cache - removed_below devMap cache (used cache) ∧
    (∀ i, i < used cache → is_removed devMap cache i = true →
       row_at cache' i = zero_row ∧ limit_at cache' i = 0%Z ∧ sm_at cache' i = 0%Z) ∧
    (∀ i, is_removed devMap cache i = false →
       row_at cache' i = row_at cache i ∧ limit_at cache' i = limit_at cache i ∧
       sm_at cache' i = sm_at cache i) ∧
    (∀ i last, i < used cache → is_removed devMap cache i = true →
       used cache = S last → is_removed devMap cache last = false → used cache' ≤ last).
Proof.
  intros Hwf. pose proof (wf_used _ Hwf) as Hu. pose proof (wr_num _ Hwf) as Hn.
  assert (removed_below devMap cache (used cache) ≤ used cache) as Hle.
  { unfold removed_below. etrans; [apply length_filter|]. by rewrite length_seq. }
  rewrite (remove_devices_small devMap cache Hwf).
  destruct (remove_slots_spec devMap (used cache) cache Hwf Hu) as (c1 & Hs & Hwf1 & Hn1 & Hr1).
  { unfold used in *. lia. }
  exists c1. split; [done|]. split; [done|].
  assert (used c1 = used cache - removed_below devMap cache (used cache)) as Hu1 by (unfold used in *; lia).
  split; [done|]. split; [|split].
  - intros i Hi Hrem. specialize (Hr1 i). cbn zeta in Hr1. by rewrite Hrem, bool_decide_eq_true_2 in Hr1 by done.
  - intros i Hrem. specialize (Hr1 i). cbn zeta in Hr1. by rewrite Hrem, andb_false_r in Hr1.
  - intros i last Hi Hrem Hlast _. rewrite Hu1.
    assert (0 < removed_below devMap cache (used cache)); [|lia].
    unfold removed_below. assert (i ∈ filter (λ i, is_removed devMap cache i = true) (seq 0 (used cache))) as Hin.
    { apply list_elem_of_filter. split; [done|]. apply elem_of_seq. lia. }
    destruct (filter _ _); [by apply elem_of_nil in Hin | simpl; lia].
Qed.

(** ** Termination *)

Lemma remove_slots_in_range devMap n cache :
  n ≤ length (uuids cache) → (remove_slots devMap n cache).2 = Returns tt.
Proof.
  revert cache. induction n as [|n IH]; intros cache Hn; simpl; [done|].
  unfold remove_slot, slot_uuid, slice_get.
  destruct (lookup_lt_is_Some_2 (uuids cache) n ltac:(lia)) as [row ->]. cbn.
  apply IH. case_match; cbn; [rewrite length_insert|]; lia.
Qed.

(** [int64(cache.num) - 1]. *)
Lemma first_index n :
  (0 ≤ n < 2 ^ 64)%Z →
  wrapS 64 (wrapS 64 n - 1) = if (n <=? 2 ^ 63)%Z then (n - 1)%Z else (n - 1 - 2 ^ 64)%Z.
Proof.
  intros Hn. destruct (Z.leb_spec n (2 ^ 63)) as [Hle|Hgt].
  - destruct (decide (n = 2 ^ 63)%Z) as [->|]; [done|].
    by rewrite (wrapS_small 64 n), wrapS_small by (simpl; lia).
  - assert (wrapS 64 n = n - 2 ^ 64)%Z as ->; [|rewrite wrapS_small by (simpl; lia); lia].
    unfold wrapS. replace (n + 2 ^ (64 - 1))%Z with (n - 2 ^ 63 + 1 * 2 ^ 64)%Z by lia.
    rewrite Z.mod_add, Z.mod_small by lia. lia.
Qed.

Lemma remove_devices_verdict devMap cache :
  length (uuids cache) = MAX_SLOTS → (0 ≤ num cache < 2 ^ 64)%Z →
  (remove_devices devMap cache).2 =
    if (16 <? num cache)%Z && (num cache <=? 2 ^ 63)%Z then Panics "index out of range" else Returns tt.
Proof.
  intros Hlen Hn. unfold remove_devices, MAX_SLOTS in *. rewrite Hlen.
  rewrite first_index by done.
  destruct (Z.leb_spec (num cache) (2 ^ 63)); [rewrite andb_true_r|rewrite andb_false_r].
  - destruct (Z.ltb_spec (num cache - 1) 0); [by rewrite (proj2 (Z.ltb_ge _ _)) by lia|].
    destruct (Z.ltb_spec (num cache - 1) (Z.of_nat 16)), (Z.ltb_spec 16 (num cache)); try lia; [|done].
    apply remove_slots_in_range. lia.
  - by rewrite (proj2 (Z.ltb_lt _ _)) by lia.
Qed.

(** C39. The loops over a region terminate whatever count a corrupt file holds: up
    to sixteen they visit the slots in use, and beyond sixteen they panic at
    the seventeenth access; the bound on their turns is never reached. The loop
    of an unmount counts down in a signed variable: beyond sixteen it panics at its first
    access, and for a count over 2^63 it does not turn at all. *)
Theorem region_loops_terminate devMap cache :
  length (uuids cache) = MAX_SLOTS →
  let verdict := if (16 <? num cache)%Z then Panics "index out of range" else Returns tt in
  (add_resources devMap cache).2 = verdict ∧ (sub_resources devMap cache).2 = verdict ∧
  (for_slots fst overwrite_slot (S MAX_SLOTS) 0 (cache, devMap)).2 = verdict ∧
  ((0 ≤ num cache < 2 ^ 64)%Z → (remove_devices devMap cache).2 =
     if (16 <? num cache)%Z && (num cache <=? 2 ^ 63)%Z then Panics "index out of range" else Returns tt).
Proof.
  intros Hlen. cbn zeta. unfold add_resources, sub_resources.
  split; [|split; [|split; [|by apply remove_devices_verdict]]];
    apply for_slots_enough; try (done || (unfold MAX_SLOTS; lia)).
  all: try (intros i name s; unfold shift_limits; by destruct (devMap !! name)).
  all: intros i name [c dm]; simpl; by destruct (dm !! name).
Qed.

(** ** Witnesses *)

#[local] Instance w_range : RangeLib := {| range V m := map_to_list m |}.
#[local] Instance w_range_laws : RangeLaws.
Proof. split. intros V m. unfold range_of. reflexivity. Qed.

Definition id_a : string := "GPU-aaaaaaaa-0000-0000-0000-000000000000".
Definition id_b : string := "GPU-bbbbbbbb-0000-0000-0000-000000000000".
Definition id_c : string := "GPU-cccccccc-0000-0000-0000-000000000000".

Definition row_of (k : string) : list Z :=
  match ConvertUUID k with Returns row => row | Panics _ => [] end.

(** Two devices in use. *)
Definition w_region : sharedRegionT :=
  mkSharedRegion 2 (row_of id_a :: row_of id_b :: replicate 14 zero_row)
    (1073741824 :: 1073741824 :: replicate 14 0)%Z (50 :: 50 :: replicate 14 0)%Z.

Lemma w_region_wf : wf_region w_region.
Proof. by split. Qed.

Definition w_device (k : string) : Device := mkDevice 0 k "NVIDIA" 1024 30.
Definition w_devMap : gmap string Device := {[id_a := w_device id_a]}.
Definition w_both : gmap string Device := {[id_b := w_device id_b; id_c := w_device id_c]}.

Lemma expansion_rollback_witness :
  ∃ expanded, add_resources w_devMap w_region = (expanded, Returns tt) ∧
    (∀ i dev, i < used w_region → w_devMap !! name_at w_region i = Some dev →
       limit_at expanded i = wrapU 64 (limit_at w_region i + dev_memory dev) ∧
       sm_at expanded i = wrapU 64 (sm_at w_region i + dev_cores dev)) ∧
    sub_resources w_devMap expanded = (w_region, Returns tt).
Proof.
  apply (expansion_rollback w_devMap w_region w_region_wf).
  intros i Hi. unfold MAX_SLOTS in Hi.
  do 16 (destruct i as [|i]; [by vm_compute|]). lia.
Defined.

Lemma attach_devices_spec_witness :
  if decide (used w_region + size (fresh w_region w_both) ≤ MAX_SLOTS) then
    ∃ cache', attach_devices w_both w_region = (cache', Returns tt) ∧
      wf_region cache' ∧ NoDup (visible cache') ∧
      used cache' = used w_region + size (fresh w_region w_both) ∧
      (∀ k dev, w_both !! k = Some dev → ∃ i, i < used cache' ∧ name_at cache' i = k ∧
         limit_at cache' i = dev_memory dev ∧ sm_at cache' i = dev_cores dev) ∧
      (∀ i, i < used w_region → name_at cache' i = name_at w_region i ∧
         (w_both !! name_at w_region i = None →
            limit_at cache' i = limit_at w_region i ∧ sm_at cache' i = sm_at w_region i))
  else (attach_devices w_both w_region).2 = Panics "index out of range".
Proof.
  apply (attach_devices_spec w_both w_region w_region_wf).
  - by vm_compute; repeat constructor; set_solver.
  - intros k [dev Hk]. unfold w_both in Hk. rewrite lookup_insert, lookup_singleton in Hk.
    by repeat case_decide; subst.
Defined.

Lemma remove_devices_leaves_holes_witness :
  ∃ cache', remove_devices w_devMap w_region = (cache', Returns tt) ∧ wf_region cache' ∧
    used cache' = used w_region - removed_below w_devMap w_region (used w_region) ∧
    (∀ i, i < used w_region → is_removed w_devMap w_region i = true →
       row_at cache' i = zero_row ∧ limit_at cache' i = 0%Z ∧ sm_at cache' i = 0%Z) ∧
    (∀ i, is_removed w_devMap w_region i = false →
       row_at cache' i = row_at w_region i ∧ limit_at cache' i = limit_at w_region i ∧
       sm_at cache' i = sm_at w_region i) ∧
    (∀ i last, i < used w_region → is_removed w_devMap w_region i = true →
       used w_region = S last → is_removed w_devMap w_region last = false → used cache' ≤ last).
Proof. exact (remove_devices_leaves_holes w_devMap w_region w_region_wf). Defined.

(** The second device is out of sight after the first was unmounted. *)
Example hole : visible (remove_devices w_devMap w_region).1 ≠ [id_b] ∧
  name_at (remove_devices w_devMap w_region).1 1 = id_b.
Proof. by vm_compute. Qed.

Lemma region_loops_terminate_witness :
  let verdict := if (16 <? num w_region)%Z then Panics "index out of range" else Returns tt in
  (add_resources w_devMap w_region).2 = verdict ∧ (sub_resources w_devMap w_region).2 = verdict ∧
  (for_slots fst overwrite_slot (S MAX_SLOTS) 0 (w_region, w_devMap)).2 = verdict ∧
  ((0 ≤ num w_region < 2 ^ 64)%Z → (remove_devices w_devMap w_region).2 =
     if (16 <? num w_region)%Z && (num w_region <=? 2 ^ 63)%Z then Panics "index out of range" else Returns tt).
Proof. apply (region_loops_terminate w_devMap w_region). reflexivity. Defined.
