(* ===== verification/Vgpu.v ===== *)
(** * The Volcano vGPU mounter ([pkg/devices/volcano/vgpu])

    The methods of [VolcanoVGPUMounter] over the annotation decoder and the cache
    edits of [VgpuCache]. The cache file is mapped into memory and shared with
    the processes of the container, so a mutation reads the region
    ([LoadRegion]) and writes it back ([StoreRegion]) while the key mutex of its
    directory is held; what a mutation wrote before it panicked is written back
    too. *)
From Stdlib Require Import ZArith Lia Ascii String.
From stdpp Require Import base gmap strings list pretty.
From S2P Require Import Prelude GoStrings Api Ebpf World Util Cgroup Framework MounterCommon VgpuCache.

(** ** Constants *)

Definition PluginName : string := "VOLCANO_VGPU".
Definition InitVGPUAnnotations : string := Group +:+ "/initVGPU".
Definition GPUNoUseUUID : string := "nvidia.com/nouse-gpuuuid".
Definition GPUUseUUID : string := "nvidia.com/use-gpuuuid".
Definition VolcanoVGPUNumber : string := "volcano.sh/vgpu-number".
Definition VolcanoVGPUMemory : string := "volcano.sh/vgpu-memory".
Definition VolcanoVGPUCores : string := "volcano.sh/vgpu-cores".
Definition VolcanoVGPUMemoryPercentage : string := "volcano.sh/vgpu-memory-percentage".
Definition NVIDIA_SMI_FILE_PATH : string := "/usr/bin/nvidia-smi".
Definition VGPU_DIR_PATH : string := "/usr/local/vgpu".
Definition VGPU_LIBFILE_PATH : string := VGPU_DIR_PATH +:+ "/libvgpu.so".
Definition VGPU_PRELOAD_PATH : string := VGPU_DIR_PATH +:+ "/ld.so.preload".
(** ** The size of the region: [unsafe.Sizeof] on a 64-bit machine *)

(** Size and alignment of a type. *)
Definition layout : Type := Z * Z.
Definition align_up (off a : Z) : Z := ((off + a - 1) / a * a)%Z.
Definition word (bytes : Z) : layout := (bytes, bytes).
Definition array (n : Z) (t : layout) : layout := ((n * t.1)%Z, t.2).
(** Every field starts at a multiple of its alignment, and so does the struct. *)
Definition struct (fields : list layout) : layout :=
  let '(off, al) := foldl (λ '(off, al) f, (align_up off f.2 + f.1, Z.max al f.2)%Z)
                      (0, 1)%Z fields in
  (align_up off al, al).

Definition deviceMemory_layout : layout :=
  struct [word 8; word 8; word 8; word 8; word 8; array 3 (word 8)].
Definition deviceUtilization_layout : layout := struct [word 8; word 8; word 8; array 3 (word 8)].
Definition shrregProcSlotT_layout : layout :=
  struct [word 4; word 4; array 16 deviceMemory_layout; array 16 (word 8);
          array 16 deviceUtilization_layout; word 4; array 3 (word 8)].
Definition sharedRegionT_layout : layout :=
  struct [word 4; word 4; word 4; word 4; word 4; struct [array 32 (word 1)]; word 8;
          array 16 (struct [array 96 (word 1)]); array 16 (word 8); array 16 (word 8);
          array 1024 shrregProcSlotT_layout; word 4; word 4; word 4; word 4; word 8;
          array 4 (word 8)].
Definition sizeof_sharedRegionT : Z := sharedRegionT_layout.1.

(** ** The cache file *)

Definition mmapVGPUCacheFile (filePath : string) : M (result Z) :=
  f <-- call (OpenFile filePath) ;;
  match f with
  | Err err => Done (Err (PlainError ("open file " +:+ filePath +:+ " err: " +:+ Error err)))
  | Ok fd =>
      ss <-- call (FileSize fd) ;;
      if (ss <? sizeof_sharedRegionT)%Z then
        _ <-- call (CloseFile fd) ;;
        Done (Err (PlainError ("cache file " +:+ filePath +:+ " size " +:+ Itoa ss +:+
                               " is less than " +:+ Itoa sizeof_sharedRegionT)))
      else
        data <-- call (Mmap fd sizeof_sharedRegionT) ;;
        _ <-- call (CloseFile fd) ;;
        Done match data with
             | Err err => Err (PlainError ("mmap file " +:+ filePath +:+ " err: " +:+ Error err))
             | Ok addr => Ok addr
             end
  end.

(** The first cache file of the directory that can be mapped. *)
Fixpoint first_cache (cacheDir : string) (files : list string) : M (result Z) :=
  match files with
  | [] => Done (Err (PlainError "cannot find vgpu cache file"))
  | file :: rest =>
      if negb (Contains file ".cache") then first_cache cacheDir rest else
      r <-- mmapVGPUCacheFile (cacheDir +:+ "/" +:+ file) ;;
      match r with
      | Err _ => first_cache cacheDir rest
      | Ok addr => Done (Ok addr)
      end
  end.

Definition mmapVGPUCacheConfig (cacheDir : string) : M (result Z) :=
  files <-! call (ReadDir cacheDir) ;;
  first_cache cacheDir files.

(** The result is that of [mutationFunc]: what the deferred function assigns to
    [err] is not returned. *)
Definition MutationCacheFunc (cacheDir : string)
    (mutationFunc : sharedRegionT → sharedRegionT * outcome unit) : act (option goerr) :=
  r <-- mmapVGPUCacheConfig cacheDir ;;
  match r with
  | Err err => Done (Returns (Some err))
  | Ok addr =>
      _ <-- call (LockKey cacheDir) ;;
      cache <-- call (LoadRegion addr) ;;
      let '(cache', o) := mutationFunc cache in
      _ <-- call (StoreRegion addr cache') ;;
      _ <-- call (UnlockKey cacheDir) ;;
      _ <-- call (Munmap addr) ;;
      Done (_ ← o; Returns None)
  end.

(** ** NVML *)

(** The processes [f] is called on, and the error. *)
Definition DeviceRunningProcessFunc (uuid : string) : M (list Z * option goerr) :=
  rt <-- call NvmlInit ;;
  match rt with
  | Some rt => Done ([], Some (PlainError ("nvml Init error: " +:+ rt)))
  | None =>
      dev <-- call (NvmlHandleByUUID uuid) ;;
      r <-- match dev with
            | Err rt => Done ([], Some (wrap_err "nvml DeviceGetHandleByUUID error: " rt))
            | Ok dev =>
                processes <-- call (NvmlComputeProcesses dev) ;;
                match processes with
                | Err rt =>
                    Done ([], Some (wrap_err "nvml DeviceGetComputeRunningProcesses error: " rt))
                | Ok compute =>
                    processes <-- call (NvmlGraphicsProcesses dev) ;;
                    Done match processes with
                         | Err rt =>
                             (compute, Some (wrap_err "nvml DeviceGetGraphicsRunningProcesses error: " rt))
                         | Ok graphics => (compute ++ graphics, None)
                         end
                end
            end ;;
      _ <-- call NvmlShutdown ;;
      Done r
  end.

(** ** Helpers *)

(** [c.Resources.Limits[VolcanoVGPUNumber]] of the container with that index. *)
Definition HasVGPU (pod : Pod) (container : Container) : outcome bool :=
  c ← slice_get (spec_Containers (pod_Spec pod)) (Z.to_nat (Index container));
  Returns match ctr_Limits c !! VolcanoVGPUNumber with
          | Some q => negb (IsZero q)
          | None => false
          end.

Definition GetVGPUCacheFileDir (pod : Pod) (container : Container) : string :=
  "/tmp/vgpu/containers/" +:+ pod_UID pod +:+ "_" +:+ Name container.

(** [devMap] in the order it is visited. *)
Definition GetVGPUEnvs (devMap : list (string * Device)) : list string :=
  let smPolicy :=
    if existsb (λ '(_, dev), (0 <? Usedcores dev)%Z && (Usedcores dev <? 100)%Z) devMap
    then "FORCE" else "DISABLE" in
  imap (λ index '(_, dev),
    "CUDA_DEVICE_SM_LIMIT_" +:+ Itoa (Z.of_nat index) +:+ "=" +:+ Itoa (Usedcores dev)) devMap ++
  imap (λ index '(_, dev),
    "CUDA_DEVICE_MEMORY_LIMIT_" +:+ Itoa (Z.of_nat index) +:+ "=" +:+ Itoa (Usedmem dev) +:+ "m")
    devMap ++
  ["GPU_CORE_UTILIZATION_POLICY=" +:+ smPolicy;
   NVIDIA_VISIBLE_DEVICES_ENV +:+ "=" +:+ Join devMap.*1 ","].

Definition nl : string := String "010" "".

Definition GetInitVGPUShell (envs : list string) : string :=
  foldl (λ initShell env, initShell +:+ "export " +:+ env +:+ nl) ("#!/bin/sh" +:+ nl) envs
  +:+ NVIDIA_SMI_FILE_PATH.

Definition exec_in (pod : Pod) (container : Container) (cmd : list string) : M (option goerr) :=
  r <-- call (ExecCmdToPod (pod_Namespace pod) (pod_Name pod) (Name container) cmd) ;;
  Done (err_of r).

Definition execNvidiaSMI (ownerPod : Pod) (container : Container) : M (option goerr) :=
  err <-- exec_in ownerPod container ["nvidia-smi"] ;;
  err <-- match err with
          | Some _ => exec_in ownerPod container ["sh"; "-c"; "nvidia-smi"]
          | None => Done None
          end ;;
  match err with
  | Some _ => exec_in ownerPod container ["bash"; "-c"; "nvidia-smi"]
  | None => Done None
  end.

Definition addVGPUResource (cacheFile : string) (devMap : gmap string Device) : act (option goerr) :=
  MutationCacheFunc cacheFile (add_resources devMap).

Definition subVGPUResource (cacheFile : string) (devMap : gmap string Device) : act (option goerr) :=
  MutationCacheFunc cacheFile (sub_resources devMap).

(** The returned closure and error; the callers ignore the closure. *)
Definition ExpansionVGPUDevice (ownerPod : Pod) (container : Container) (devMap : gmap string Device)
    : act (act (option goerr) * option goerr) :=
  _ <-- execNvidiaSMI ownerPod container ;;
  let cacheFile := GetVGPUCacheFileDir ownerPod container in
  err <-? addVGPUResource cacheFile devMap ;;
  Done (Returns match err with
                | Some err => (Done (Returns None), Some err)
                | None => (subVGPUResource cacheFile devMap, None)
                end).

(** ** The methods of the mounter *)

Section Mounter.
Context `{Settings, UnixLib, RangeLib}.

Definition checkDeviceEnvironment : M bool :=
  rt <-- call NvmlInit ;;
  match rt with
  | Some _ => Done false
  | None => _ <-- call NvmlShutdown ;; Done true
  end.

Definition init_names (pod : Pod) : string :=
  map_str (pod_Annotations pod) InitVGPUAnnotations.

Definition ValidateMountRequest_vgpu (node : Node) (ownerPod : Pod) (container : Container)
    (request : gmap string Quantity) (annotations _labels : gomap string) : act (option goerr) :=
  if negb (CheckResourcesInSlice request (range request) [VolcanoVGPUNumber]
             [VolcanoVGPUMemory; VolcanoVGPUCores; VolcanoVGPUMemoryPercentage])
  then Done (Returns (Some (MounterError ResultCode_Fail "Request for resources error"))) else
  if negb (CheckResourcesInNode (Some node) [(VolcanoVGPUNumber, qty_get request VolcanoVGPUNumber)])
  then Done (Returns (Some (MounterError ResultCode_Insufficient "Insufficient node resources"))) else
  let expansion := AnnoIsExpansion annotations in
  match map_get (pod_Annotations ownerPod) AssignedIDsAnnotations, expansion with
  | Some devs, true =>
      podDevices <-? pure (decodePodDevices devs) ;;
      let usedUUIDs := getDevicesUUID podDevices container in
      Done (Returns
        (if (Z.of_nat (length usedUUIDs) <? Value (qty_get request VolcanoVGPUNumber))%Z
         then Some (MounterError ResultCode_Fail "The requested resource count exceeds the target container resource count and cannot be expanded")
         else None))
  | None, true =>
      r <-- call (Stat (GetVGPUCacheFileDir ownerPod container)) ;;
      Done (Returns match r with
                    | SysErr _ _ => Some (MounterError ResultCode_Fail "The target container does not have vGPU resources and cannot be expanded")
                    | SysOk _ => None
                    end)
  | _, false =>
      let ctrNames := Split (TrimSpace (init_names ownerPod)) "," in
      Done (Returns
        (if slices_Contains ctrNames (Name container)
         then Some (MounterError ResultCode_Fail "The target container has initialized the vGPU and cannot be mounted again")
         else None))
  end.

(** The devices in the annotations of some slave pods. *)
Fixpoint slave_devices (slavePods : list Pod) : outcome (list (list Device)) :=
  match slavePods with
  | [] => Returns []
  | slavePod :: rest =>
      devs ← decodePodDevices (map_str (pod_Annotations slavePod) AssignedIDsAnnotations);
      more ← slave_devices rest;
      Returns (devs ++ more)
  end.

(** The annotations of the template, by what is to be mounted. *)
Definition template_annotations (ownerPod : Pod) (container : Container)
    (request : gmap string Quantity) (annotations : gomap string) (slavePods : list Pod)
    : outcome (result (gomap string)) :=
  let expansion := AnnoIsExpansion annotations in
  podDevices ← decodePodDevices (map_str (pod_Annotations ownerPod) AssignedIDsAnnotations);
  match map_get (pod_Annotations ownerPod) AssignedIDsAnnotations, expansion with
  | Some _, true =>
      let usedUUIDs := getDevicesUUID podDevices container in
      annos ← map_put annotations GPUUseUUID (Join usedUUIDs ",");
      Returns (Ok annos)
  | None, true =>
      more ← slave_devices slavePods;
      let usedUUIDs := getDevicesUUID (podDevices ++ more) (mkContainer 0 "") in
      if decide (usedUUIDs = []) then
        Returns (Err (PlainError "Unable to find scalable vGPU devices"))
      else if (Z.of_nat (length usedUUIDs) <? Value (qty_get request VolcanoVGPUNumber))%Z then
        Returns (Err (PlainError ("The number of requested devices [" +:+ VolcanoVGPUNumber +:+
                                  "] exceeds the number of expandable devices")))
      else annos ← map_put annotations GPUUseUUID (Join usedUUIDs ","); Returns (Ok annos)
  | _, false =>
      more ← slave_devices slavePods;
      let usedUUIDs := getDevicesUUID (podDevices ++ more) container in
      if decide (usedUUIDs = []) then Returns (Ok annotations)
      else annos ← map_put annotations GPUNoUseUUID (Join usedUUIDs ","); Returns (Ok annos)
  end.

Definition BuildSupportPodTemplates_vgpu (ownerPod : Pod) (container : Container)
    (request : gmap string Quantity) (annotations labels : gomap string) (slavePods : list Pod)
    : act (result (list Pod)) :=
  annotations <-?! pure (template_annotations ownerPod container request annotations slavePods) ;;
  let slavePod := NewDeviceSlavePod ownerPod request annotations labels in
  Done (Returns (Ok [finish_template (mkEnvVar NVIDIA_VISIBLE_DEVICES_ENV "none") "volcano"
                       (spec_PriorityClassName (pod_Spec ownerPod)) slavePod])).

Definition VerifySupportPodStatus_vgpu (slavePod : Pod) : act (StatusCode * option goerr) :=
  if String.eqb (status_Phase (pod_Status slavePod)) PodRunning then
    podDevices <-? pure (decodePodDevices (map_str (pod_Annotations slavePod) AssignedIDsAnnotations)) ;;
    Done (Returns match podDevices with
                  | [] => (Fail, Some (PlainError "vGPU device allocation error"))
                  | _ => (Success, None)
                  end)
  else Done (Returns (verify_pending slavePod)).

(** One entry per device; the first NVML error ends the loop. *)
Fixpoint gpu_infos (allow : bool) (devs : list Device) : M (result (list DeviceInfo)) :=
  match devs with
  | [] => Done (Ok [])
  | dev :: rest =>
      minor <-! GetDeviceMinorByUUID (UUID dev) ;;
      deviceInfos <-! gpu_infos allow rest ;;
      Done (Ok (char_device (UUID dev) (NVIDIA_DEVICE_FILE_PREFIX +:+ Itoa minor)
                  DEFAULT_NVIDIA_MAJOR_NUMBER minor DEFAULT_CGROUP_PERMISSION allow
                :: deviceInfos))
  end.

(** The outer loop: the annotation of a pod is decoded when its turn comes. *)
Fixpoint slave_infos (allow skipExpansion : bool) (slavePods : list Pod)
    : act (result (list DeviceInfo)) :=
  match slavePods with
  | [] => Done (Returns (Ok []))
  | slavePod :: rest =>
      if skipExpansion && AnnoIsExpansion (pod_Annotations slavePod)
      then slave_infos allow skipExpansion rest else
      podDevices <-? pure (decodePodDevices (map_str (pod_Annotations slavePod) AssignedIDsAnnotations)) ;;
      infos <-?! total (gpu_infos allow (concat podDevices)) ;;
      more <-?! slave_infos allow skipExpansion rest ;;
      Done (Returns (Ok (infos ++ more)))
  end.

Definition GetDeviceInfosToMount_vgpu (ownerPod : Pod) (container : Container)
    (slavePods : list Pod) : act (result (list DeviceInfo)) :=
  first <-? pure (slice_get slavePods 0) ;;
  if AnnoIsExpansion (pod_Annotations first) then Done (Returns (Ok [])) else
  deviceInfos <-?! slave_infos true false slavePods ;;
  has <-? pure (HasVGPU ownerPod container) ;;
  if has : bool then Done (Returns (Ok deviceInfos)) else
  more <-?! total driver_infos ;;
  Done (Returns (Ok (deviceInfos ++ more))).

Definition GetDeviceInfosToUnmount_vgpu (_ownerPod : Pod) (_container : Container)
    (slavePods : list Pod) : act (result (list DeviceInfo)) :=
  slave_infos false true slavePods.

Fixpoint active_pids (containerPids : list Z) (deviceInfos : list DeviceInfo)
    : M (result (list Z)) :=
  match deviceInfos with
  | [] => Done (Ok [])
  | info :: rest =>
      r <-- DeviceRunningProcessFunc (DeviceID info) ;;
      match r with
      | (_, Some err) => Done (Err err)
      | (pids, None) =>
          more <-! active_pids containerPids rest ;;
          Done (Ok (filter (λ pid, slices_Contains containerPids pid = true) pids ++ more))
      end
  end.

Definition GetDevicesActiveProcessIDs_vgpu (containerPids : list Z) (deviceInfos : list DeviceInfo)
    : act (result (list Z)) := total (active_pids containerPids deviceInfos).

(** Commands in the container whose result is dropped. *)
Fixpoint sh_all (cfg : Config) (cmds : list string) : M unit :=
  match cmds with
  | [] => Done tt
  | cmd :: rest => _ <-- sh cfg cmd ;; sh_all cfg rest
  end.

(** The branch for a container without vGPUs: the library is copied into it and
    initialised; each failure removes what was put there before. *)
Definition init_container (cfg : Config) (ownerPod : Pod) (container : Container)
    (devMap : gmap string Device) : M (Pod * option goerr) :=
  let ns := pod_Namespace ownerPod in
  let name := pod_Name ownerPod in
  let rm_lib := "rm -f " +:+ VGPU_LIBFILE_PATH in
  let rm_preload := "rm -f /etc/ld.so.preload" in
  let failed msg err := (ownerPod, Some (PlainError (msg +:+ ": " +:+ err))) in
  lib <-- call (Stat VGPU_LIBFILE_PATH) ;;
  match lib with
  | SysErr _ err => Done (failed ("Failed to detect file [" +:+ VGPU_LIBFILE_PATH +:+ "]") err)
  | SysOk _ =>
  preload <-- call (Stat VGPU_PRELOAD_PATH) ;;
  match preload with
  | SysErr _ err => Done (failed ("Failed to detect file [" +:+ VGPU_PRELOAD_PATH +:+ "]") err)
  | SysOk _ =>
  _ <-- sh_all cfg ["rm -f /tmp/cudevshr.cache"; "rm -rf /tmp/vgpu"; "mkdir -p /tmp/vgpu";
                    "mkdir -p " +:+ VGPU_DIR_PATH] ;;
  r <-- call (CopyToPod ns name (Name container) VGPU_LIBFILE_PATH VGPU_LIBFILE_PATH) ;;
  match r with
  | Err err => Done (failed ("Copying file [" +:+ VGPU_LIBFILE_PATH +:+ "] to container [" +:+
                             VGPU_LIBFILE_PATH +:+ "] failed") (Error err))
  | Ok _ =>
  r <-- call (CopyToPod ns name (Name container) VGPU_PRELOAD_PATH "/etc/ld.so.preload") ;;
  match r with
  | Err err =>
      _ <-- sh_all cfg [rm_lib] ;;
      Done (failed ("Copying file [" +:+ VGPU_PRELOAD_PATH +:+
                    "] to container [/etc/ld.so.preload] failed") (Error err))
  | Ok _ =>
  let shell := GetInitVGPUShell (GetVGPUEnvs (range devMap)) in
  r <-- call (WriteToPod ns name (Name container) shell
                ["sh"; "-c"; "cat > /initVGPU.sh && chmod +x /initVGPU.sh && /initVGPU.sh"]) ;;
  match r with
  | Err err =>
      _ <-- sh_all cfg [rm_lib; rm_preload] ;;
      Done (failed "Failed to initialize vGPU" (Error err))
  | Ok _ =>
  let names := TrimSpace (init_names ownerPod) in
  let contNames := if str_empty names then [] else Split names "," in
  if slices_Contains contNames (Name container) then Done (ownerPod, None) else
  r <-- PatchPodAnnotations ownerPod
          {[InitVGPUAnnotations := Join (contNames ++ [Name container]) ","]} ;;
  match r with
  | (pod, None) => Done (pod, None)
  | (_, Some err) =>
      _ <-- sh_all cfg ["rm -f /initVGPU.sh"; "rm -f /tmp/cudevshr.cache"; "rm -rf /tmp/vgpu";
                        rm_lib; rm_preload] ;;
      Done (failed ("Failed to patch pod annotation [" +:+ InitVGPUAnnotations +:+ "]") (Error err))
  end end end end end end.

(** One iteration over the slave pods; [ownerPod] is the object in memory. *)
Definition post_mount (cfg : Config) (ownerPod : Pod) (container : Container) (slavePod : Pod)
    : act (Pod * option goerr) :=
  devMap <-? pure (GetPodDevMap slavePod) ;;
  fileErr <-- call (Stat (GetVGPUCacheFileDir ownerPod container)) ;;
  if AnnoIsExpansion (pod_Annotations slavePod) then
    r <-? ExpansionVGPUDevice ownerPod container devMap ;;
    Done (Returns (ownerPod, r.2))
  else
    has <-? pure (HasVGPU ownerPod container) ;;
    if (has : bool) || match fileErr with SysOk _ => true | SysErr _ _ => false end then
      _ <-- execNvidiaSMI ownerPod container ;;
      err <-? MutationCacheFunc (GetVGPUCacheFileDir ownerPod container) (attach_devices devMap) ;;
      Done (Returns (ownerPod, err))
    else total (init_container cfg ownerPod container devMap).

Fixpoint ExecutePostMountActions_vgpu (cfg : Config) (ownerPod : Pod) (container : Container)
    (slavePods : list Pod) : act (option goerr) :=
  match slavePods with
  | [] => Done (Returns None)
  | slavePod :: rest =>
      r <-? post_mount cfg ownerPod container slavePod ;;
      match r with
      | (_, Some err) => Done (Returns (Some err))
      | (ownerPod, None) => ExecutePostMountActions_vgpu cfg ownerPod container rest
      end
  end.

(** The union of the device maps of the slave pods, later pods first. *)
Fixpoint merge_devices (slavePods : list Pod) (devMap : gmap string Device)
    : outcome (gmap string Device) :=
  match slavePods with
  | [] => Returns devMap
  | slavePod :: rest => tmpMap ← GetPodDevMap slavePod; merge_devices rest (tmpMap ∪ devMap)
  end.

Definition not_expansion (slavePods : list Pod) : list Pod :=
  filter (λ slavePod, AnnoIsExpansion (pod_Annotations slavePod) = false) slavePods.

Definition ExecutePostUnmountActions_vgpu (cfg : Config) (ownerPod : Pod) (container : Container)
    (slavePods : list Pod) : act (option goerr) :=
  let tmpSlavePods := not_expansion slavePods in
  let cacheFile := GetVGPUCacheFileDir ownerPod container in
  st <-- call (Stat cacheFile) ;;
  _ <-? match st, tmpSlavePods with
        | SysOk _, _ :: _ =>
            devMap <-? pure (merge_devices tmpSlavePods ∅) ;;
            MutationCacheFunc cacheFile (remove_devices devMap)
        | _, _ => Done (Returns None)
        end ;;
  let names := TrimSpace (init_names ownerPod) in
  if str_empty names then Done (Returns None) else
  let oldNames := Split names "," in
  new <-? pure (DeleteSliceFunc (Some oldNames) (λ s, negb (String.eqb s (Name container)))) ;;
  let newNames := default [] new.1 in
  if decide (length oldNames = length newNames) then Done (Returns None) else
  r <-- PatchPodAnnotations ownerPod {[InitVGPUAnnotations := Join newNames ","]} ;;
  match r with
  | (_, Some err) =>
      Done (Returns (Some (PlainError ("Failed to patch pod annotation [" +:+ InitVGPUAnnotations +:+
                                       "]: " +:+ Error err))))
  | (_, None) =>
      _ <-- sh_all cfg ["rm -f /tmp/cudevshr.cache"; "rm -f " +:+ VGPU_LIBFILE_PATH;
                        "rm -f /etc/ld.so.preload"] ;;
      Done (Returns None)
  end.

Definition GetPodsToCleanup_vgpu (_ownerPod : Pod) (_container : Container) (slavePods : list Pod)
    : act (list ObjectKey) :=
  Done (Returns (map (λ slavePod, ObjectKeyFromObject (pod_Meta slavePod)) (not_expansion slavePods))).

Definition VolcanoVGPUMounter : DeviceMounter := {|
  GetDeviceType := PluginName;
  ValidateMountRequest := ValidateMountRequest_vgpu;
  BuildSupportPodTemplates := BuildSupportPodTemplates_vgpu;
  VerifySupportPodStatus := VerifySupportPodStatus_vgpu;
  GetDeviceInfosToMount := GetDeviceInfosToMount_vgpu;
  ExecutePostMountActions := ExecutePostMountActions_vgpu;
  GetDeviceInfosToUnmount := GetDeviceInfosToUnmount_vgpu;
  GetDevicesActiveProcessIDs := GetDevicesActiveProcessIDs_vgpu;
  ExecutePostUnmountActions := ExecutePostUnmountActions_vgpu;
  GetPodsToCleanup := GetPodsToCleanup_vgpu |}.

Definition NewVolcanoVGPUMounter : CreateMounterFunc :=
  ok <-- checkDeviceEnvironment ;;
  Done (if ok : bool then Ok VolcanoVGPUMounter else
        Err (PlainError "The current node environment does not have the operating conditions for VolcanoVGPUMounter")).

End Mounter.
