(* ===== verification/Gpu.v ===== *)
(** * The NVIDIA GPU mounter ([pkg/devices/nvidia/gpu])

    The collector keeps a list of the GPUs it has seen, with the container each
    is allocated to. [UpdateGPUStatus] replaces the allocations by those that the
    kubelet lists. The operations on the list are state-passing functions; the
    methods of the mounter read and write the list that all requests share.

    The source hands out pointers into the list. Their users read only the
    identifier, the device file and the minor number, which no operation changes
    ([Gpu.identity] below), so a value stands for the pointer. *)
From Stdlib Require Import ZArith Lia Ascii String.
From stdpp Require Import base gmap strings list sorting.
From S2P Require Import Prelude GoStrings Api Ebpf World Util Cgroup Framework MounterCommon.

Definition PluginName : string := "NVIDIA_GPU".
Definition ResourceName : string := "nvidia.com/gpu".

(** ** The collector ([collector.go]) *)

Definition New (minorNumber : Z) (uuid : string) : NvidiaGPU :=
  mkNvidiaGPU minorNumber (NVIDIA_DEVICE_FILE_PREFIX +:+ Itoa minorNumber) uuid GPU_FREE_STATE "" "" "".

Definition ResetState (gpu : NvidiaGPU) : NvidiaGPU :=
  mkNvidiaGPU (MinorNumber gpu) (gpu_DeviceFilePath gpu) (gpu_UUID gpu) GPU_FREE_STATE "" "" "".

(** The four assignments of [UpdateGPUStatus] to a GPU. *)
Definition allocate (podName podNamespace containerName : string) (gpu : NvidiaGPU) : NvidiaGPU :=
  mkNvidiaGPU (MinorNumber gpu) (gpu_DeviceFilePath gpu) (gpu_UUID gpu) GPU_ALLOCATED_STATE
    podName podNamespace containerName.

(** [GPUCollector.GPUList]; the mutex is [GPUCollectorMutex]. *)
Definition GPUCollector : Type := list NvidiaGPU.

Definition resetGPUStatus (c : GPUCollector) : GPUCollector := map ResetState c.

(** The first GPU with that identifier, by its place in the list. *)
Fixpoint GetGPUByUUID (c : GPUCollector) (uuid : string) : option nat :=
  match c with
  | [] => None
  | gpuDev :: rest =>
      if String.eqb (gpu_UUID gpuDev) uuid then Some 0 else S <$> GetGPUByUUID rest uuid
  end.

Definition SearchGPUMinorByUUID (uuid : string) : M (result Z) := GetDeviceMinorByUUID uuid.

(** The loop of [initGPUInfo] over the indices [i], ..., [i + n - 1]. *)
Fixpoint init_from (n : nat) (i : Z) (c : GPUCollector) : M (result GPUCollector) :=
  match n with
  | O => Done (Ok c)
  | S n' =>
      dev <-- call (NvmlHandleByIndex i) ;;
      match dev with
      | Err rt => Done (Err (wrap_err "nvml DeviceGetHandleByIndex error: " rt))
      | Ok dev =>
      minorNum <-- call (NvmlMinorNumber dev) ;;
      match minorNum with
      | Err rt => Done (Err (wrap_err "nvml DeviceGetMinorNumber error: " rt))
      | Ok minorNum =>
      uuid <-- call (NvmlUUID dev) ;;
      match uuid with
      | Err rt => Done (Err (wrap_err "nvml DeviceGetUUID error: " rt))
      | Ok uuid => init_from n' (i + 1)%Z (c ++ [New minorNum uuid])
      end end end
  end.

Definition initGPUInfo (c : GPUCollector) : M (result GPUCollector) :=
  rt <-- call NvmlInit ;;
  match rt with
  | Some rt => Done (Err (PlainError ("nvml Init error: " +:+ rt)))
  | None =>
      num <-- call NvmlDeviceGetCount ;;
      r <-- match num with
            | Err rt => Done (Err (wrap_err "nvml DeviceGetCount error: " rt))
            | Ok num => init_from (Z.to_nat num) 0 c
            end ;;
      _ <-- call NvmlShutdown ;;
      Done r
  end.

(** One turn of the innermost loop of [UpdateGPUStatus]: a GPU the collector does
    not know is looked up, and skipped if NVML does not know it either. *)
Definition update_uuid (podName podNamespace containerName : string) (c : GPUCollector) (uuid : string)
    : M GPUCollector :=
  match GetGPUByUUID c uuid with
  | None =>
      minor <-- SearchGPUMinorByUUID uuid ;;
      Done match minor with
           | Err _ => c
           | Ok minor => c ++ [allocate podName podNamespace containerName (New minor uuid)]
           end
  | Some i => Done (alter (allocate podName podNamespace containerName) i c)
  end.

(** A [for _, x := range l] whose body changes [s]. *)
Fixpoint for_each {S X} (body : S → X → M S) (s : S) (l : list X) : M S :=
  match l with
  | [] => Done s
  | x :: rest => s <-- body s x ;; for_each body s rest
  end.

Definition update_device (pod : PodResources) (container : ContainerResources) (c : GPUCollector)
    (dev : ContainerDevices) : M GPUCollector :=
  if String.eqb (Api.ResourceName dev) ResourceName
  then for_each (update_uuid (pr_Name pod) (pr_Namespace pod) (cr_Name container)) c (DeviceIds dev)
  else Done c.

Definition update_container (pod : PodResources) (c : GPUCollector) (container : ContainerResources)
    : M GPUCollector := for_each (update_device pod container) c (cr_Devices container).

Definition update_pod (c : GPUCollector) (pod : PodResources) : M GPUCollector :=
  for_each (update_container pod) c (pr_Containers pod).

(** What [UpdateGPUStatus] does to the list while it holds the mutex. *)
Definition update_status (c : GPUCollector) : M (GPUCollector * option goerr) :=
  resp <-- call ListPodResources ;;
  match resp with
  | Err err => Done (c, Some err)
  | Ok pods => c <-- for_each update_pod (resetGPUStatus c) pods ;; Done (c, None)
  end.

Definition UpdateGPUStatus : closure :=
  _ <-- call (Lock GPUCollectorMutex) ;;
  c <-- call LoadGPUList ;;
  r <-- update_status c ;;
  _ <-- call (StoreGPUList r.1) ;;
  _ <-- call (Unlock GPUCollectorMutex) ;;
  Done r.2.

Definition NewGPUCollector : M (result GPUCollector) :=
  c <-! initGPUInfo [] ;;
  _ <-- call (StoreGPUList c) ;;
  err <-- UpdateGPUStatus ;;
  Done match err with Some err => Err err | None => Ok c end.

Definition of_pod (podName podNamespace : string) (gpuDev : NvidiaGPU) : bool :=
  String.eqb (PodName gpuDev) podName && String.eqb (PodNamespace gpuDev) podNamespace.

(** The list is read after the mutex has been released. *)
Definition GetPodGPUResources (podName podNamespace : string) : M (result (list NvidiaGPU)) :=
  err <-- UpdateGPUStatus ;;
  match err with
  | Some err => Done (Err err)
  | None =>
      c <-- call LoadGPUList ;;
      Done (Ok (filter (λ gpuDev, of_pod podName podNamespace gpuDev = true) c))
  end.

Definition GetContainerGPUResources (podName podNamespace containerName : string)
    : M (result (list NvidiaGPU)) :=
  err <-- UpdateGPUStatus ;;
  match err with
  | Some err => Done (Err err)
  | None =>
      c <-- call LoadGPUList ;;
      Done (Ok (filter (λ gpuDev, of_pod podName podNamespace gpuDev &&
                                  String.eqb (ContainerName gpuDev) containerName = true) c))
  end.

(** The process ids of [GetRunningProcess], graphics before compute. *)
Definition GetRunningProcess (uuid : string) : M (result (list Z)) :=
  rt <-- call NvmlInit ;;
  match rt with
  | Some rt => Done (Err (PlainError ("nvml Init error: " +:+ rt)))
  | None =>
      handle <-- call (NvmlHandleByUUID uuid) ;;
      r <-- match handle with
            | Err rt => Done (Err (wrap_err "nvml DeviceGetHandleByUUID error: " rt))
            | Ok handle =>
                graphics <-- call (NvmlGraphicsProcesses handle) ;;
                match graphics with
                | Err rt =>
                    Done (Err (wrap_err "nvml DeviceGetGraphicsRunningProcesses error: " rt))
                | Ok graphicsProcesses =>
                    compute <-- call (NvmlComputeProcesses handle) ;;
                    Done match compute with
                         | Err rt =>
                             Err (wrap_err "nvml DeviceGetComputeRunningProcesses error: " rt)
                         | Ok computeProcesses => Ok (graphicsProcesses ++ computeProcesses)
                         end
                end
            end ;;
      _ <-- call NvmlShutdown ;;
      Done r
  end.

(** ** The mounter ([device_info.go]) *)

Section Mounter.
Context `{Settings, UnixLib, RangeLib}.

Definition checkDeviceEnvironment : M bool :=
  rt <-- call NvmlInit ;;
  match rt with
  | Some _ => Done false
  | None => _ <-- call NvmlShutdown ;; Done true
  end.

Definition ValidateMountRequest_gpu (node : Node) (_ownerPod : Pod) (_container : Container)
    (request : gmap string Quantity) (_annotations _labels : gomap string) : act (option goerr) :=
  Done (Returns
    (if negb (CheckResourcesInSlice request (range request) [ResourceName] [])
     then Some (MounterError ResultCode_Fail "Request for resources error")
     else if negb (CheckResourcesInNode (Some node) (range request))
     then Some (MounterError ResultCode_Insufficient "Insufficient node resources")
     else None)).

(** [resource.MustParse("1")]. *)
Definition one : Quantity := mkQuantity 1 false.

(** A template for each GPU that is requested. *)
Definition BuildSupportPodTemplates_gpu (ownerPod : Pod) (_container : Container)
    (request : gmap string Quantity) (annotations labels : gomap string) (_slavePods : list Pod)
    : act (result (list Pod)) :=
  let gpuNumber := Value (qty_get request ResourceName) in
  let slavePod :=
    finish_template (mkEnvVar NVIDIA_VISIBLE_DEVICES_ENV "none") ""
      (spec_PriorityClassName (pod_Spec ownerPod))
      (NewDeviceSlavePod ownerPod {[ResourceName := one]} annotations labels) in
  Done (Returns (Ok (replicate (Z.to_nat gpuNumber) slavePod))).

Definition VerifySupportPodStatus_gpu (slavePod : Pod) : act (StatusCode * option goerr) :=
  Done (Returns
    (if String.eqb (status_Phase (pod_Status slavePod)) PodRunning then (Success, None)
     else verify_pending slavePod)).

(** The GPUs of the slave pods; the status is updated for every pod. *)
Fixpoint slave_gpus (slavePods : list Pod) : M (result (list NvidiaGPU)) :=
  match slavePods with
  | [] => Done (Ok [])
  | slavePod :: rest =>
      resources <-! GetPodGPUResources (pod_Name slavePod) (pod_Namespace slavePod) ;;
      gpus <-! slave_gpus rest ;;
      Done (Ok (resources ++ gpus))
  end.

Definition gpu_info (allow : bool) (gpu : NvidiaGPU) : DeviceInfo :=
  char_device (gpu_UUID gpu) (gpu_DeviceFilePath gpu) DEFAULT_NVIDIA_MAJOR_NUMBER (MinorNumber gpu)
    DEFAULT_CGROUP_PERMISSION allow.

(** The error of [GetContainerGPUResources] is dropped with its result. *)
Definition GetDeviceInfosToMount_gpu (ownerPod : Pod) (container : Container)
    (slavePods : list Pod) : act (result (list DeviceInfo)) :=
  total (
    gpus <-! slave_gpus slavePods ;;
    let deviceInfos := map (gpu_info true) gpus in
    owner <-- GetContainerGPUResources (pod_Name ownerPod) (pod_Namespace ownerPod) (Name container) ;;
    match owner with
    | Ok (_ :: _) => Done (Ok deviceInfos)
    | _ => more <-! driver_infos ;; Done (Ok (deviceInfos ++ more))
    end).

Definition ExecutePostMountActions_gpu (_cfg : Config) (_ownerPod : Pod) (_container : Container)
    (_slavePods : list Pod) : act (option goerr) := Done (Returns None).

Definition GetDeviceInfosToUnmount_gpu (_ownerPod : Pod) (_container : Container)
    (slavePods : list Pod) : act (result (list DeviceInfo)) :=
  total (gpus <-! slave_gpus slavePods ;; Done (Ok (map (gpu_info false) gpus))).

(** The processes on the devices of the list, those whose query fails left out. *)
Fixpoint device_processes (deviceInfos : list DeviceInfo) : M (list Z) :=
  match deviceInfos with
  | [] => Done []
  | gpuInfo :: rest =>
      if str_empty (DeviceID gpuInfo) then device_processes rest else
      c <-- call LoadGPUList ;;
      procs <-- match GetGPUByUUID c (DeviceID gpuInfo) with
                | None => Done []
                | Some _ =>
                    procs <-- GetRunningProcess (DeviceID gpuInfo) ;;
                    Done match procs with Ok procs => procs | Err _ => [] end
                end ;;
      processInfos <-- device_processes rest ;;
      Done (procs ++ processInfos)
  end.

Definition GetDevicesActiveProcessIDs_gpu (containerPids : list Z) (deviceInfos : list DeviceInfo)
    : act (result (list Z)) :=
  total (
    err <-- UpdateGPUStatus ;;
    match err with
    | Some err => Done (Err err)
    | None =>
        processInfos <-- device_processes deviceInfos ;;
        Done (Ok (int_set (filter (λ pid, slices_Contains containerPids pid = true) processInfos)))
    end).

Definition ExecutePostUnmountActions_gpu (_cfg : Config) (_ownerPod : Pod) (_container : Container)
    (_slavePods : list Pod) : act (option goerr) := Done (Returns None).

Definition GetPodsToCleanup_gpu (_ownerPod : Pod) (_container : Container) (slavePods : list Pod)
    : act (list ObjectKey) :=
  Done (Returns (map (λ slavePod, ObjectKeyFromObject (pod_Meta slavePod)) slavePods)).

Definition NvidiaGPUMounter : DeviceMounter := {|
  GetDeviceType := PluginName;
  ValidateMountRequest := ValidateMountRequest_gpu;
  BuildSupportPodTemplates := BuildSupportPodTemplates_gpu;
  VerifySupportPodStatus := VerifySupportPodStatus_gpu;
  GetDeviceInfosToMount := GetDeviceInfosToMount_gpu;
  ExecutePostMountActions := ExecutePostMountActions_gpu;
  GetDeviceInfosToUnmount := GetDeviceInfosToUnmount_gpu;
  GetDevicesActiveProcessIDs := GetDevicesActiveProcessIDs_gpu;
  ExecutePostUnmountActions := ExecutePostUnmountActions_gpu;
  GetPodsToCleanup := GetPodsToCleanup_gpu |}.

Definition NewNvidiaGPUMounter : CreateMounterFunc :=
  ok <-- checkDeviceEnvironment ;;
  if ok : bool then
    _ <-! NewGPUCollector ;;
    Done (Ok NvidiaGPUMounter)
  else Done (Err (PlainError "The current node environment does not have the operating conditions for NvidiaGPUMounter")).

End Mounter.
