(* ===== verification/GpuFacts.v ===== *)
(** * Theorems about the GPU collector

    [UpdateGPUStatus] against its specification: the kubelet's answer, flattened
    into a list of allocations in the order of the loops, gives each GPU the
    last container it is listed for. *)
From Stdlib Require Import ZArith Lia Ascii String.
From stdpp Require Import base gmap strings list.
From S2P Require Import Prelude GoStrings Api Ebpf World Util MounterCommon Gpu.

(** ** Loops *)

(** An invariant over the elements visited and the calls made. *)
Lemma for_each_wp {S X} (body : S → X → M S) e (I : list X → S → trace → Prop) l :
  (∀ pre x s h t, I pre s t → wp e h (body s x) (λ s' t', I (pre ++ [x]) s' (t ++ t'))) →
  ∀ pre s h t, I pre s t → wp e h (for_each body s l) (λ s' t', I (pre ++ l) s' (t ++ t')).
Proof.
  intros Hbody. induction l as [|x l IH]; intros pre s h t HI; cbn [for_each].
  - wp_step. by rewrite !app_nil_r.
  - wp_step. eapply wp_mono; [|apply (Hbody pre x s h t HI)]. intros s' t' HI'. cbn beta.
    eapply wp_mono; [|apply (IH (pre ++ [x]) _ _ _ HI')]. intros s'' t''. cbn beta.
    by rewrite <- !app_assoc.
Qed.

(** The same, over what the elements expand to. *)
Lemma for_each_flat_wp {S X Y} (body : S → X → M S) (f : X → list Y) e
    (I : list Y → S → trace → Prop) l :
  (∀ pre x s h t, I pre s t → wp e h (body s x) (λ s' t', I (pre ++ f x) s' (t ++ t'))) →
  ∀ pre s h t, I pre s t →
  wp e h (for_each body s l) (λ s' t', I (pre ++ (l ≫= f)) s' (t ++ t')).
Proof.
  intros Hbody pre s h t HI.
  eapply wp_mono; [|apply (for_each_wp _ _ (λ vis s t, I (pre ++ (vis ≫= f)) s t) l) with (pre := [])].
  - intros s' t'. by rewrite app_nil_l.
  - intros vis x s' h' t' HI'. eapply wp_mono; [|apply (Hbody _ x _ h' _ HI')]. intros s'' t''. cbn beta.
    rewrite bind_app, <- app_assoc. simpl. by rewrite app_nil_r.
  - simpl. by rewrite app_nil_r.
Qed.

Lemma map_as_bind {X Y} (f : X → Y) l : map f l = l ≫= λ x, [f x].
Proof. induction l as [|x l IH]; [done|]. simpl. by rewrite IH. Qed.

(** ** Allocations *)

(** Pod, namespace and container. *)
Definition holder : Type := string * string * string.
Definition alloc : Type := string * holder.

Definition device_allocs (pod : PodResources) (container : ContainerResources)
    (dev : ContainerDevices) : list alloc :=
  if String.eqb (Api.ResourceName dev) ResourceName
  then map (λ uuid, (uuid, (pr_Name pod, pr_Namespace pod, cr_Name container))) (DeviceIds dev)
  else [].
Definition container_allocs pod container : list alloc :=
  cr_Devices container ≫= device_allocs pod container.
Definition pod_allocs pod : list alloc := pr_Containers pod ≫= container_allocs pod.
Definition allocs (pods : list PodResources) : list alloc := pods ≫= pod_allocs.

(** The last one wins. *)
Fixpoint holder_of (l : list alloc) (uuid : string) : option holder :=
  match l with
  | [] => None
  | (u, who) :: rest =>
      match holder_of rest uuid with
      | Some w => Some w
      | None => if String.eqb u uuid then Some who else None
      end
  end.

Lemma holder_of_snoc l u who uuid :
  holder_of (l ++ [(u, who)]) uuid = if String.eqb u uuid then Some who else holder_of l uuid.
Proof.
  induction l as [|[u' w'] l IH]; simpl; [done|]. rewrite IH. by destruct (String.eqb u uuid).
Qed.

(** The GPU records that such a holder. *)
Definition recorded (gpu : NvidiaGPU) (o : option holder) : Prop :=
  match o with
  | None => State gpu = GPU_FREE_STATE ∧ PodName gpu = "" ∧ PodNamespace gpu = "" ∧ ContainerName gpu = ""
  | Some (p, ns, c) =>
      State gpu = GPU_ALLOCATED_STATE ∧ PodName gpu = p ∧ PodNamespace gpu = ns ∧ ContainerName gpu = c
  end.

(** What never changes of a GPU. *)
Definition identity (gpu : NvidiaGPU) : Z * string * string :=
  (MinorNumber gpu, gpu_DeviceFilePath gpu, gpu_UUID gpu).

(** A list in which identifiers are unique and files follow from minor numbers. *)
Definition wf_collector (c : GPUCollector) : Prop :=
  NoDup (map gpu_UUID c) ∧
  Forall (λ gpu, gpu_DeviceFilePath gpu = NVIDIA_DEVICE_FILE_PREFIX +:+ Itoa (MinorNumber gpu)) c.

(** A query of NVML failed. *)
Definition lookup_failed (ev : event reply) : Prop :=
  match ev with
  | Ev c rep =>
      match c return reply c → Prop with
      | NvmlInit => λ x, x ≠ None
      | NvmlHandleByUUID _ | NvmlMinorNumber _ => λ x, is_Ok x = false
      | _ => λ _, False
      end rep
  end.

(** The collector after the allocations [done], from [c0] and with the calls [t]. *)
Record updated (c0 : GPUCollector) (done : list alloc) (c : GPUCollector) (t : trace) : Prop := {
  up_wf : wf_collector c;
  up_kept : map identity c0 `prefix_of` map identity c;
  up_recorded : Forall (λ gpu, recorded gpu (holder_of done (gpu_UUID gpu))) c;
  up_complete : ∀ uuid, uuid ∈ done.*1 →
    uuid ∈ map gpu_UUID c ∨ Exists lookup_failed t }.

Lemma GetGPUByUUID_Some c uuid i :
  GetGPUByUUID c uuid = Some i → ∃ gpu, c !! i = Some gpu ∧ gpu_UUID gpu = uuid.
Proof.
  revert i. induction c as [|g c IH]; intros i; simpl; [done|].
  destruct (String.eqb_spec (gpu_UUID g) uuid) as [He|]; [intros [= <-]; eauto|].
  destruct (GetGPUByUUID c uuid) as [j|]; [|done]. intros [= <-]. simpl. auto.
Qed.

Lemma GetGPUByUUID_None c uuid : GetGPUByUUID c uuid = None ↔ uuid ∉ map gpu_UUID c.
Proof.
  induction c as [|g c IH]; simpl; [by split; [intros _ ?%elem_of_nil|]|].
  rewrite not_elem_of_cons. destruct (String.eqb_spec (gpu_UUID g) uuid) as [He|Hne].
  - split; [done|]. intros [? _]. by subst.
  - rewrite fmap_None, IH. split; [intros ?; split; congruence | tauto].
Qed.

Lemma map_alter_same {A B} (f : A → A) (g : A → B) i l :
  (∀ x, g (f x) = g x) → map g (alter f i l) = map g l.
Proof.
  intros Hf. revert i. induction l as [|x l IH]; intros [|i]; simpl; try done.
  - by rewrite Hf.
  - f_equal. apply IH.
Qed.

Lemma allocate_uuid p ns c gpu : gpu_UUID (allocate p ns c gpu) = gpu_UUID gpu.
Proof. done. Qed.

Lemma identity_uuid gpu1 gpu2 : identity gpu1 = identity gpu2 → gpu_UUID gpu1 = gpu_UUID gpu2.
Proof. by intros [=]. Qed.

Lemma recorded_snoc done gpu u who :
  gpu_UUID gpu ≠ u → recorded gpu (holder_of done (gpu_UUID gpu)) →
  recorded gpu (holder_of (done ++ [(u, who)]) (gpu_UUID gpu)).
Proof. intros Hne. rewrite holder_of_snoc. destruct (String.eqb_spec u (gpu_UUID gpu)); [congruence|done]. Qed.

Lemma recorded_allocate done gpu p ns ctr :
  recorded (allocate p ns ctr gpu) (holder_of (done ++ [(gpu_UUID gpu, (p, ns, ctr))]) (gpu_UUID gpu)).
Proof. by rewrite holder_of_snoc, String.eqb_refl. Qed.

(** A known GPU is updated in place. *)
Lemma updated_known c0 done c t i gpu p ns ctr :
  updated c0 done c t → c !! i = Some gpu →
  updated c0 (done ++ [(gpu_UUID gpu, (p, ns, ctr))]) (alter (allocate p ns ctr) i c) t.
Proof.
  intros [[Hnd Hfile] Hkept Hrec Hcomp] Hi.
  pose proof (map_alter_same (allocate p ns ctr) gpu_UUID i c (λ _, eq_refl)) as Huuid.
  unfold GPUCollector in *.
  split.
  - split; [by rewrite Huuid|]. apply Forall_alter; [done|]. intros x Hx Hp. exact Hp.
  - by rewrite map_alter_same.
  - apply Forall_lookup. intros j g Hj. destruct (decide (i = j)) as [<-|Hne].
    + rewrite list_lookup_alter, decide_True, Hi in Hj by done. simpl in Hj. injection Hj as <-.
      apply (recorded_allocate done gpu).
    + rewrite list_lookup_alter, decide_False in Hj by done. apply recorded_snoc.
      * intros Heq. apply Hne. eapply NoDup_lookup; [exact Hnd|..].
        -- apply list_lookup_fmap_Some. eauto.
        -- apply list_lookup_fmap_Some. eauto.
      * by eapply Forall_lookup in Hrec.
  - rewrite Huuid. intros u. rewrite fmap_app, elem_of_app. intros [Hu|Hu]; [auto|]. left.
    apply list_elem_of_singleton in Hu as ->.
    apply list_elem_of_fmap. exists gpu. split; [done|]. by eapply list_elem_of_lookup_2.
Qed.

(** An unknown GPU is appended. *)
Lemma updated_new c0 done c t minor uuid p ns ctr :
  updated c0 done c t → uuid ∉ map gpu_UUID c →
  updated c0 (done ++ [(uuid, (p, ns, ctr))]) (c ++ [allocate p ns ctr (New minor uuid)]) t.
Proof.
  intros [[Hnd Hfile] Hkept Hrec Hcomp] Hu. split.
  - split.
    + rewrite map_app. apply NoDup_app. split_and!; [done| |apply NoDup_singleton]. set_solver.
    + apply Forall_app. split; [done|]. by constructor.
  - rewrite map_app. by apply prefix_app_r.
  - apply Forall_app. split.
    + apply Forall_forall. intros g Hg. apply recorded_snoc; [set_solver|].
      by eapply Forall_forall in Hrec.
    + constructor; [|constructor]. apply (recorded_allocate done (New minor uuid)).
  - intros u. rewrite fmap_app, map_app. set_solver.
Qed.

(** A GPU that NVML does not know is left out. *)
Lemma updated_skip c0 done c t uuid who :
  updated c0 done c t → uuid ∉ map gpu_UUID c → Exists lookup_failed t →
  updated c0 (done ++ [(uuid, who)]) c t.
Proof.
  intros [Hwf Hkept Hrec Hcomp] Hu Hf. split; [done|done| |auto].
  apply Forall_forall. intros g Hg. apply recorded_snoc; [set_solver|].
  by eapply Forall_forall in Hrec.
Qed.

Lemma updated_trace c0 done c t t' : updated c0 done c t → updated c0 done c (t ++ t').
Proof.
  intros [Hwf Hkept Hrec Hcomp]. split; [done..|]. intros u Hu. rewrite Exists_app.
  destruct (Hcomp u Hu); auto.
Qed.

Lemma SearchGPUMinorByUUID_wp uuid e h :
  wp e h (SearchGPUMinorByUUID uuid) (λ r t, is_Ok r = true ∨ Exists lookup_failed t).
Proof.
  unfold SearchGPUMinorByUUID, GetDeviceMinorByUUID. wp_step. wp_step. destruct r as [rt|]; cbn beta iota.
  { wp_step. right. by repeat constructor. }
  wp_step. wp_step. destruct r as [dev|rt]; cbn beta iota; repeat wp_step; cbn beta.
  - destruct r as [minor|rt]; [by left|]. right. simpl. rewrite !Exists_cons. simpl. auto.
  - right. simpl. rewrite !Exists_cons. simpl. auto.
Qed.

Lemma update_uuid_wp c0 p ns ctr e done uuid c h t :
  updated c0 done c t →
  wp e h (update_uuid p ns ctr c uuid)
    (λ c' t', updated c0 (done ++ [(uuid, (p, ns, ctr))]) c' (t ++ t')).
Proof.
  intros Hup. unfold update_uuid. destruct (GetGPUByUUID c uuid) as [i|] eqn:Hget.
  - apply GetGPUByUUID_Some in Hget as (gpu & Hi & <-). wp_step. rewrite app_nil_r.
    by apply updated_known.
  - apply GetGPUByUUID_None in Hget. wp_step.
    eapply wp_mono; [|apply SearchGPUMinorByUUID_wp]. intros [minor|err] t' Ht'; cbn beta iota; wp_step.
    + rewrite app_nil_r. apply updated_trace. by apply updated_new.
    + destruct Ht' as [|Hf]; [done|]. rewrite app_nil_r. apply updated_skip; [by apply updated_trace|done|].
      apply Exists_app. auto.
Qed.

Lemma update_pod_wp c0 e done pod c h t :
  updated c0 done c t →
  wp e h (update_pod c pod) (λ c' t', updated c0 (done ++ pod_allocs pod) c' (t ++ t')).
Proof.
  unfold update_pod. revert done c h t. apply (for_each_flat_wp _ _ _ (updated c0)).
  intros done ctr c h t. unfold update_container. revert done c h t.
  apply (for_each_flat_wp _ _ _ (updated c0)). intros done dev c h t Hup.
  unfold update_device, device_allocs. destruct (String.eqb _ _); [|wp_step; by rewrite !app_nil_r].
  rewrite map_as_bind.
  revert done c h t Hup. apply (for_each_flat_wp _ _ _ (updated c0)).
  intros done uuid c h t. apply update_uuid_wp.
Qed.

Lemma updated_reset c : wf_collector c → updated c [] (resetGPUStatus c) [].
Proof.
  intros [Hnd Hfile]. unfold resetGPUStatus.
  assert (map gpu_UUID (map ResetState c) = map gpu_UUID c) as Hu by (by rewrite map_map).
  split.
  - split; [by rewrite Hu|]. by apply Forall_fmap.
  - by rewrite map_map.
  - apply Forall_fmap. apply Forall_true. done.
  - intros u Hu'. by apply elem_of_nil in Hu'.
Qed.

Lemma of_pod_recorded p ns gpu o :
  p ≠ "" → recorded gpu o → of_pod p ns gpu = true ↔ ∃ ctr, o = Some (p, ns, ctr).
Proof.
  intros Hp Hr. unfold of_pod. rewrite andb_true_iff, !String.eqb_eq.
  destruct o as [[[p' ns'] ctr]|]; simpl in Hr.
  - destruct Hr as (_ & -> & -> & _). split; [intros [-> ->]; eauto | intros (? & [= -> -> ->]); done].
  - destruct Hr as (_ & -> & -> & _). split; [intros [? _]; congruence | intros (? & ?); done].
Qed.

(** C15. A status update implements the replacement of the allocations. If the
    kubelet does not answer, the list stays as it was. Otherwise every GPU of
    the list is recorded as held by the last container the answer lists it for,
    and as free if there is none, so that looking up a pod finds exactly the
    GPUs it holds. No GPU is forgotten, reordered or changed in identifier,
    device file or minor number, no identifier occurs twice, and every GPU the
    kubelet lists is in the list unless a query of NVML failed. *)
Theorem GPU_status_refines c e h :
  wf_collector c →
  wp e h (update_status c) (λ '(c', err) t,
    match err with
    | Some _ => c' = c
    | None => ∃ pods t',
        t = Ev ListPodResources (Ok pods) :: t' ∧
        wf_collector c' ∧
        map identity c `prefix_of` map identity c' ∧
        (∀ gpu, gpu ∈ c' → recorded gpu (holder_of (allocs pods) (gpu_UUID gpu))) ∧
        (∀ gpu p ns, gpu ∈ c' → p ≠ "" →
           of_pod p ns gpu = true ↔
           ∃ ctr, holder_of (allocs pods) (gpu_UUID gpu) = Some (p, ns, ctr)) ∧
        (∀ uuid, uuid ∈ (allocs pods).*1 → uuid ∈ map gpu_UUID c' ∨ Exists lookup_failed t')
    end).
Proof.
  intros Hwf. unfold update_status. wp_step. wp_step. destruct r as [pods|err]; cbn beta iota; [|by wp_step].
  wp_step. eapply wp_mono; [|apply (for_each_flat_wp _ pod_allocs e (updated c) pods) with (pre := []) (t := [])].
  - intros c' t' [Hwf' Hkept Hrec Hcomp]. cbn beta. wp_step. exists pods, t'.
    rewrite Forall_forall in Hrec. rewrite app_nil_r. split_and!; try done.
    intros gpu p ns Hgpu Hp. by apply of_pod_recorded, Hrec.
  - intros done pod c' h' t'. apply update_pod_wp.
  - by apply updated_reset.
Qed.

(** ** Witnesses *)

(** Two GPUs are known; the kubelet lists the second for a pod, and a third one. *)
Definition w_gpus : GPUCollector := [New 0 "GPU-a"; New 1 "GPU-b"].

Definition w_kubelet : list PodResources :=
  [mkPodResources "train" "ml"
     [mkContainerResources "main" [mkContainerDevices ResourceName ["GPU-b"; "GPU-c"]]]].

Definition w_env : env := λ _ c,
  match c return reply c with
  | ListPodResources => Ok w_kubelet
  | NvmlHandleByUUID _ => Ok 7%Z
  | NvmlMinorNumber _ => Ok 2%Z
  | c => default_reply c
  end.

Example w_update :
  (run w_env [] (update_status w_gpus)).1 =
  ([New 0 "GPU-a"; allocate "train" "ml" "main" (New 1 "GPU-b");
    allocate "train" "ml" "main" (New 2 "GPU-c")], None).
Proof. reflexivity. Qed.

Lemma GPU_status_refines_witness :
  wp w_env [] (update_status w_gpus) (λ '(c', err) t,
    match err with
    | Some _ => c' = w_gpus
    | None => ∃ pods t',
        t = Ev ListPodResources (Ok pods) :: t' ∧
        wf_collector c' ∧
        map identity w_gpus `prefix_of` map identity c' ∧
        (∀ gpu, gpu ∈ c' → recorded gpu (holder_of (allocs pods) (gpu_UUID gpu))) ∧
        (∀ gpu p ns, gpu ∈ c' → p ≠ "" →
           of_pod p ns gpu = true ↔
           ∃ ctr, holder_of (allocs pods) (gpu_UUID gpu) = Some (p, ns, ctr)) ∧
        (∀ uuid, uuid ∈ (allocs pods).*1 → uuid ∈ map gpu_UUID c' ∨ Exists lookup_failed t')
    end).
Proof.
  apply (GPU_status_refines w_gpus). split.
  - by apply (bool_decide_unpack _).
  - by repeat constructor.
Defined.
