(* ===== verification/Npu.v ===== *)
(** * The Ascend NPU mounter ([pkg/devices/ascend/npu])

    The collector finds the devices of a slave pod in the annotations that
    Volcano and the device plugin write, or in the kubelet's list. The helpers of
    Ascend-device-plugin ([common]) are not part of the repository: their
    constants and functions are the class [AscendLib]. The device manager is
    reached through calls; its type, fixed when it is opened, is an argument of
    the mounter. *)
From Stdlib Require Import ZArith Lia Ascii String.
From stdpp Require Import base gmap strings list.
From S2P Require Import Prelude GoStrings Api Ebpf World Util Cgroup Framework MounterCommon.

(** [Ascend-device-plugin/pkg/common]; [GetDeviceListID] is taken at its second
    result, [CheckErrorMessage] at [DeviceNotReadyErrCodeStr]. *)
Class AscendLib := {
  ResourceNamePrefix : string;
  Pod2kl : string;
  PodRealAlloc : string;
  CommaSepDev : string;
  MiddelLine : string;
  AiCoreResourceName : string;
  VirtualDev : string;
  Ascend910 : string;
  Ascend910B : string;
  Ascend910A3 : string;
  Ascend310P : string;
  Ascend310 : string;
  Ascend310B : string;
  IsVirtualDev : string → bool;
  GetDeviceListID : list string → string → result (list Z);
  GetPodAnnotationByDeviceType : Pod → string → result string;
  CheckErrorMessage : option goerr → bool }.

(** ** Constants ([util.go]) *)

Definition PluginName : string := "ASCEND_NPU".
Definition InitNPUAnnotations : string := Group +:+ "/initNPU".
Definition AscendRuntimeOptionsEnv : string := "ASCEND_RUNTIME_OPTIONS".
Definition ASCEND_DEVICE_FILE_PREFIX : string := "/dev/davinci".
Definition ASCEND_DAVINCI_MANAGER_PATH : string := "/dev/davinci_manager".
Definition ASCEND_DEVMM_SVM_FILE_PATH : string := "/dev/devmm_svm".
Definition ASCEND_HISI_HDC_FILE_PATH : string := "/dev/hisi_hdc".
Definition ASCEND_VDEVICE_FILE_PREFIX : string := "/dev/vdavinci".
Definition VNPU_DEVICE_INDEX_START : Z := 100.
Definition NPU_CGROUP_PERMISSION : string := "rwm".

Definition IsVirtDev (devId : Z) : bool := (VNPU_DEVICE_INDEX_START <=? devId)%Z.

Section Npu.
Context `{AscendLib, Settings, UnixLib, RangeLib}.

Definition HasNPU (pod : Pod) (container : Container) : outcome bool :=
  c ← slice_get (spec_Containers (pod_Spec pod)) (Z.to_nat (Index container));
  Returns (existsb (λ '(name, _), HasPrefix name ResourceNamePrefix) (range (ctr_Limits c))).

(** ** Requests ([ascend910.go], [dynamic.go]) *)

Definition resources910 : list string :=
  map (λ suffix, ResourceNamePrefix +:+ suffix)
    ["Ascend910"; "Ascend910-2c"; "Ascend910-4c"; "Ascend910-8c"; "Ascend910-16c"].

Definition CheckRequest910Resources (request : gmap string Quantity) : bool :=
  existsb (λ resource, CheckResourcesInSlice request (range request) [resource] []) resources910.

Definition DynamicResourceName : string := ResourceNamePrefix +:+ AiCoreResourceName.

Definition CheckRequestDynamicResources (request : gmap string Quantity) (_annotations : gomap string)
    : bool := CheckResourcesInSlice request (range request) [DynamicResourceName] [].

(** ** The collector ([collector.go]) *)

(** The resources of the kubelet's answer that match, in order, until [f] fails
    or panics. *)
Fixpoint for_resources {S} (matchFunc : PodResources → option nat)
    (f : S → PodResources → nat → act (S * option goerr)) (s : S) (l : list PodResources)
    : act (S * option goerr) :=
  match l with
  | [] => Done (Returns (s, None))
  | resources :: rest =>
      match matchFunc resources with
      | None => for_resources matchFunc f s rest
      | Some idx =>
          r <-? f s resources idx ;;
          match r with
          | (s, Some err) => Done (Returns (s, Some err))
          | (s, None) => for_resources matchFunc f s rest
          end
      end
  end.

(** The deferred unlock runs when [f] panics, too. *)
Definition GetPodNPUResourcesFunc {S} (matchFunc : PodResources → option nat)
    (f : S → PodResources → nat → act (S * option goerr)) (s : S) : act (S * option goerr) :=
  _ <-- call (Lock NPUCollectorMutex) ;;
  resp <-- call ListPodResources ;;
  r <-- match resp with
        | Err err => Done (Returns (s, Some err))
        | Ok pods => for_resources matchFunc f s pods
        end ;;
  _ <-- call (Unlock NPUCollectorMutex) ;;
  Done r.

(** The kubelet's allocation is read from [pod] again after the refresh. *)
Definition GetRealDeviceForAnnotations (pod : Pod) : M (list string) :=
  let kltDev := map_get (pod_Annotations pod) (ResourceNamePrefix +:+ Pod2kl) in
  let realDev := map_get (pod_Annotations pod) (ResourceNamePrefix +:+ PodRealAlloc) in
  realDev <-- match kltDev, realDev with
              | Some _, Some _ => Done realDev
              | _, _ =>
                  newPod <-- call (PodGet (pod_Namespace pod) (pod_Name pod) "") ;;
                  Done match newPod with
                       | Ok newPod => map_get (pod_Annotations newPod) (ResourceNamePrefix +:+ PodRealAlloc)
                       | Err _ => None
                       end
              end ;;
  Done match kltDev, realDev with
       | Some kltDevStr, Some realDevStr =>
           if String.eqb kltDevStr realDevStr then [] else Split realDevStr CommaSepDev
       | _, _ => []
       end.

Definition convertDevType (devType : string) : string :=
  if bool_decide (devType = Ascend910) || bool_decide (devType = Ascend910B) ||
     bool_decide (devType = Ascend910A3) then Ascend910
  else if bool_decide (devType = Ascend310P) then Ascend310P
  else if bool_decide (devType = Ascend310) || bool_decide (devType = Ascend310B) then Ascend310
  else "".

(** How the loop over the devices of a container ends: with the devices it found
    (none if no annotation was there), or by leaving [loadFunc] with what it
    appended or an error. *)
Inductive Found :=
  | FoundDevices (ctrDevices : list ContainerDevices)
  | LeaveLoad (r : result (list ContainerDevices)).

(** [matchFunc] gives the place of the slave pod. *)
Fixpoint match_pod (slavePods : list Pod) (res : PodResources) : option nat :=
  match slavePods with
  | [] => None
  | pod :: rest =>
      if String.eqb (pr_Name res) (pod_Name pod) && String.eqb (pr_Namespace res) (pod_Namespace pod)
      then Some 0 else S <$> match_pod rest res
  end.

Section Collector.
Context (devType : string).

Fixpoint find_devices (pod : Pod) (devices : list ContainerDevices) : act Found :=
  match devices with
  | [] => Done (Returns (FoundDevices []))
  | dev :: rest =>
      let name := Api.ResourceName dev in
      if negb (HasPrefix name ResourceNamePrefix) then find_devices pod rest else
      suffix <-? pure (slice_get (Split name "/") 1) ;;
      match GetPodAnnotationByDeviceType pod suffix with
      | Err _ => find_devices pod rest
      | Ok annotation =>
          if Contains name AiCoreResourceName then
            let deviceInfos := Split annotation MiddelLine in
            if (1 <? length deviceInfos)%nat then
              realDevs <-- GetRealDeviceForAnnotations pod ;;
              Done (Returns (LeaveLoad
                match realDevs with
                | [] => Err (PlainError "Unable to determine the actual device allocated by Volcano")
                | _ => Ok [mkContainerDevices ResourceNamePrefix realDevs]
                end))
            else
              first <-? pure (slice_get deviceInfos 0) ;;
              let phyDevs := map (λ id, convertDevType devType +:+ "-" +:+ id) (Split first CommaSepDev) in
              Done (Returns (FoundDevices [mkContainerDevices name phyDevs]))
          else Done (Returns (FoundDevices [mkContainerDevices name (Split annotation CommaSepDev)]))
      end
  end.

(** The first container with devices; the kubelet's list if no annotation helps. *)
Fixpoint load_containers (pod : Pod) (containers : list ContainerResources)
    : act (result (list ContainerDevices)) :=
  match containers with
  | [] => Done (Returns (Ok []))
  | containerResources :: rest =>
      match cr_Devices containerResources with
      | [] => load_containers pod rest
      | devices =>
          r <-? find_devices pod devices ;;
          Done (Returns match r with
                        | LeaveLoad r => r
                        | FoundDevices [] => Ok devices
                        | FoundDevices ctrDevices => Ok ctrDevices
                        end)
      end
  end.

Definition loadFunc (slavePods : list Pod) (containerDevices : list ContainerDevices)
    (resources : PodResources) (idx : nat) : act (list ContainerDevices * option goerr) :=
  pod <-? pure (slice_get slavePods idx) ;;
  realDevs <-- GetRealDeviceForAnnotations pod ;;
  match realDevs with
  | _ :: _ =>
      Done (Returns (containerDevices ++ [mkContainerDevices ResourceNamePrefix realDevs], None))
  | [] =>
      r <-? load_containers pod (pr_Containers resources) ;;
      Done (Returns match r with
                    | Ok l => (containerDevices ++ l, None)
                    | Err err => (containerDevices, Some err)
                    end)
  end.

(** The device numbers behind the names. *)
Fixpoint visible_devices (containerDevices : list ContainerDevices) : result (list Z) :=
  match containerDevices with
  | [] => Ok []
  | device :: rest =>
      if negb (HasPrefix (Api.ResourceName device) ResourceNamePrefix) then visible_devices rest else
      let ascendRuntimeOptions := if existsb IsVirtualDev (DeviceIds device) then VirtualDev else "" in
      ids ← GetDeviceListID (DeviceIds device) ascendRuntimeOptions;
      more ← visible_devices rest;
      Ok (ids ++ more)
  end.

Fixpoint device_infos (f : Z → M (result DeviceInfo)) (ids : list Z) : M (result (list DeviceInfo)) :=
  match ids with
  | [] => Done (Ok [])
  | deviceId :: rest =>
      info <-! f deviceId ;;
      deviceInfos <-! device_infos f rest ;;
      Done (Ok (info :: deviceInfos))
  end.

Definition GetSlavePodsDeviceInfo (slavePods : list Pod) (f : Z → M (result DeviceInfo))
    : act (result (list DeviceInfo)) :=
  r <-? GetPodNPUResourcesFunc (match_pod slavePods) (loadFunc slavePods) [] ;;
  match r with
  | (_, Some err) => Done (Returns (Err err))
  | (containerDevices, None) =>
      match visible_devices containerDevices with
      | Err err => Done (Returns (Err err))
      | Ok visibleDevices => total (device_infos f visibleDevices)
      end
  end.

End Collector.

(** The processes of the devices that are ready. *)
Fixpoint device_processes (logicIds : list Z) : M (result (list DevProcessInfo)) :=
  match logicIds with
  | [] => Done (Ok [])
  | logicId :: rest =>
      err <-- call (DcmiGetDeviceHealth logicId) ;;
      if CheckErrorMessage err then device_processes rest else
      processInfo <-! call (DcmiGetDevProcessInfo logicId) ;;
      processInfos <-! device_processes rest ;;
      Done (Ok (option_list processInfo ++ processInfos))
  end.

Definition GetRunningProcess : M (result (list DevProcessInfo)) :=
  err <-- call DcmiInit ;;
  match err with
  | Some err => Done (Err err)
  | None =>
      r <-- (logicIds <-! call DcmiGetDeviceList ;; device_processes logicIds) ;;
      _ <-- call DcmiShutDown ;;
      Done r
  end.

(** ** The mounter ([device_info.go]) *)

Definition ValidateMountRequest_npu (node : Node) (ownerPod : Pod) (container : Container)
    (resources : gmap string Quantity) (annotations _labels : gomap string) : act (option goerr) :=
  let condition1 := CheckRequest910Resources resources in
  let condition2 := CheckRequestDynamicResources resources annotations in
  Done (Returns
    (if negb condition1 && negb condition2
     then Some (MounterError ResultCode_Fail "Request for resources error: unsupported resource types")
     else if negb (CheckResourcesInNode (Some node) (range resources))
     then Some (MounterError ResultCode_Insufficient "Insufficient node resources")
     else
       let ctrNames := Split (TrimSpace (map_str (pod_Annotations ownerPod) InitNPUAnnotations)) "," in
       if slices_Contains ctrNames (Name container)
       then Some (MounterError ResultCode_Fail "The target container has initialized the NPU and cannot be mounted again")
       else None)).

Definition BuildSupportPodTemplates_npu (ownerPod : Pod) (_container : Container)
    (request : gmap string Quantity) (annotations labels : gomap string) (_slavePods : list Pod)
    : act (result (list Pod)) :=
  let slavePod := NewDeviceSlavePod ownerPod request annotations labels in
  Done (Returns (Ok [finish_template (mkEnvVar AscendRuntimeOptionsEnv "NODRV") ""
                       (spec_PriorityClassName (pod_Spec ownerPod)) slavePod])).

Definition VerifySupportPodStatus_npu (slavePod : Pod) : act (StatusCode * option goerr) :=
  Done (Returns
    (if String.eqb (status_Phase (pod_Status slavePod)) PodRunning then (Success, None)
     else verify_pending slavePod)).

Definition file_info (allow : bool) (id path : string) : M (result DeviceInfo) :=
  v <-! GetDeviceFileVersionV2 path ;;
  let '(major, minor, devType) := v in
  Done (Ok (mkDeviceInfo (mkRule devType major minor NPU_CGROUP_PERMISSION allow) id path)).

(** [getDevInfoFunc]. *)
Definition npu_info (allow : bool) (devId : Z) : M (result DeviceInfo) :=
  let deviceId := Itoa devId in
  let prefix := if IsVirtDev devId then ASCEND_VDEVICE_FILE_PREFIX else ASCEND_DEVICE_FILE_PREFIX in
  file_info allow deviceId (prefix +:+ deviceId).

Definition mgrDevice : list string :=
  [ASCEND_DAVINCI_MANAGER_PATH; ASCEND_DEVMM_SVM_FILE_PATH; ASCEND_HISI_HDC_FILE_PATH].

Fixpoint file_infos (allow : bool) (files : list string) : M (result (list DeviceInfo)) :=
  match files with
  | [] => Done (Ok [])
  | deviceFile :: rest =>
      info <-! file_info allow "" deviceFile ;;
      deviceInfos <-! file_infos allow rest ;;
      Done (Ok (info :: deviceInfos))
  end.

Section Mounter.
Context (devType : string).

Definition GetDeviceInfosToMount_npu (ownerPod : Pod) (container : Container)
    (slavePods : list Pod) : act (result (list DeviceInfo)) :=
  deviceInfos <-?! GetSlavePodsDeviceInfo devType slavePods (npu_info true) ;;
  has <-? pure (HasNPU ownerPod container) ;;
  if has : bool then Done (Returns (Ok deviceInfos)) else
  more <-?! total (file_infos true mgrDevice) ;;
  Done (Returns (Ok (deviceInfos ++ more))).

Definition GetDeviceInfosToUnmount_npu (ownerPod : Pod) (container : Container)
    (slavePods : list Pod) : act (result (list DeviceInfo)) :=
  has <-? pure (HasNPU ownerPod container) ;;
  if has : bool
  then Done (Returns (Err (PlainError "Currently not supported for uninstalling Ascend NPUs"))) else
  devInfos <-?! GetSlavePodsDeviceInfo devType slavePods (npu_info false) ;;
  more <-?! total (file_infos false mgrDevice) ;;
  Done (Returns (Ok (devInfos ++ more))).

End Mounter.

Definition patch_names (ownerPod : Pod) (names : list string) : M (option goerr) :=
  r <-- PatchPodAnnotations ownerPod {[InitNPUAnnotations := Join names ","]} ;;
  Done match r.2 with
       | Some err => Some (PlainError ("Failed to patch pod annotation [" +:+ InitNPUAnnotations +:+
                                       "]: " +:+ Error err))
       | None => None
       end.

Definition ExecutePostMountActions_npu (_cfg : Config) (ownerPod : Pod) (container : Container)
    (_slavePods : list Pod) : act (option goerr) :=
  has <-? pure (HasNPU ownerPod container) ;;
  if has : bool then Done (Returns None) else
  let names := TrimSpace (map_str (pod_Annotations ownerPod) InitNPUAnnotations) in
  let contNames := if str_empty names then [] else Split names "," in
  if slices_Contains contNames (Name container) then Done (Returns None)
  else total (patch_names ownerPod (contNames ++ [Name container])).

(** The process ids of one device: the array is read up to [ProcNum]. *)
Fixpoint read_procs (n : nat) (i : nat) (info : DevProcessInfo) : outcome (list Z) :=
  match n with
  | O => Returns []
  | S n' =>
      pid ← slice_get (DevProcArray info) i;
      more ← read_procs n' (S i) info;
      Returns (pid :: more)
  end.

Fixpoint all_procs (infos : list DevProcessInfo) : outcome (list Z) :=
  match infos with
  | [] => Returns []
  | info :: rest =>
      pids ← read_procs (Z.to_nat (ProcNum info)) 0 info;
      more ← all_procs rest;
      Returns (pids ++ more)
  end.

Definition GetDevicesActiveProcessIDs_npu (containerPids : list Z) (_infos : list DeviceInfo)
    : act (result (list Z)) :=
  processInfos <-?! total GetRunningProcess ;;
  pids <-? pure (all_procs processInfos) ;;
  Done (Returns (Ok (int_set (filter (λ pid, slices_Contains containerPids pid = true) pids)))).

Definition ExecutePostUnmountActions_npu (_cfg : Config) (ownerPod : Pod) (container : Container)
    (_slavePods : list Pod) : act (option goerr) :=
  let names := TrimSpace (map_str (pod_Annotations ownerPod) InitNPUAnnotations) in
  if str_empty names then Done (Returns None) else
  let oldNames := Split names "," in
  new <-? pure (DeleteSliceFunc (Some oldNames) (λ s, negb (String.eqb s (Name container)))) ;;
  let newNames := default [] new.1 in
  if decide (length oldNames = length newNames) then Done (Returns None)
  else total (patch_names ownerPod newNames).

Definition GetPodsToCleanup_npu (_ownerPod : Pod) (_container : Container) (slavePods : list Pod)
    : act (list ObjectKey) :=
  Done (Returns (map (λ slavePod, ObjectKeyFromObject (pod_Meta slavePod)) slavePods)).

Definition AscendNPUMounter (devType : string) : DeviceMounter := {|
  GetDeviceType := PluginName;
  ValidateMountRequest := ValidateMountRequest_npu;
  BuildSupportPodTemplates := BuildSupportPodTemplates_npu;
  VerifySupportPodStatus := VerifySupportPodStatus_npu;
  GetDeviceInfosToMount := GetDeviceInfosToMount_npu devType;
  ExecutePostMountActions := ExecutePostMountActions_npu;
  GetDeviceInfosToUnmount := GetDeviceInfosToUnmount_npu devType;
  GetDevicesActiveProcessIDs := GetDevicesActiveProcessIDs_npu;
  ExecutePostUnmountActions := ExecutePostUnmountActions_npu;
  GetPodsToCleanup := GetPodsToCleanup_npu |}.

(** The options handed to the device plugin's [common] package are left out. *)
Definition NewAscendNPUMounter : CreateMounterFunc :=
  err <-- call InitRunLogger ;;
  match err with
  | Some err => Done (Err (wrap_err "hwlog init failed, error is " err))
  | None =>
      dmgr <-- call DevmanagerAutoInit ;;
      Done match dmgr with
           | Err _ => Err (PlainError "The current node environment does not have the operating conditions for AscendNPUMounter")
           | Ok devType => Ok (AscendNPUMounter devType)
           end
  end.

End Npu.
