(* ===== verification/Mounters.v ===== *)
(** * The registered mounters ([pkg/devices/factory.go])

    What holds of all three mounters, and of the registry that the program
    builds from them: the interfaces that the theorems about the server assume
    ([ServerFacts.benign_mounter]) are met. *)
From Stdlib Require Import ZArith Lia.
From stdpp Require Import base gmap strings list.
From S2P Require Import Prelude GoStrings Api Ebpf World Resources Util Cgroup CgroupV2 Framework MounterUtil Server ServerFacts MounterCommon VgpuCache Vgpu Gpu Npu.

(** ** Safe programs *)

(** Every run releases what it acquires, creates no pod and opens no cgroup
    directory; panics included. *)
Abbreviation safe := (bal benign).

Record safe_mounter (m : DeviceMounter) : Prop := {
  sm_validate node pod c r a l : safe (ValidateMountRequest m node pod c r a l);
  sm_build pod c r a l ps : safe (BuildSupportPodTemplates m pod c r a l ps);
  sm_verify p : safe (VerifySupportPodStatus m p);
  sm_mount pod c ps : safe (GetDeviceInfosToMount m pod c ps);
  sm_post_mount cfg pod c ps : safe (ExecutePostMountActions m cfg pod c ps);
  sm_unmount pod c ps : safe (GetDeviceInfosToUnmount m pod c ps);
  sm_active pids infos : safe (GetDevicesActiveProcessIDs m pids infos);
  sm_post_unmount cfg pod c ps : safe (ExecutePostUnmountActions m cfg pod c ps);
  sm_cleanup pod c ps : safe (GetPodsToCleanup m pod c ps) }.

(** *** Shared code *)

Lemma GetDeviceMinorByUUID_safe uuid : safe (GetDeviceMinorByUUID uuid).
Proof. unfold GetDeviceMinorByUUID. balance. Qed.

Lemma PatchPodAnnotations_safe pod annos : safe (PatchPodAnnotations pod annos).
Proof. unfold PatchPodAnnotations, PatchPodMetadata. balance. Qed.

Lemma driver_infos_safe `{UnixLib} : safe driver_infos.
Proof. unfold driver_infos, GetDeviceFileVersion. balance. Qed.

Lemma sh_safe cfg cmd : safe (sh cfg cmd).
Proof. unfold sh, Execute, ExecuteContext. balance. Qed.

Lemma sh_all_safe cfg cmds : safe (sh_all cfg cmds).
Proof. induction cmds; cbn [sh_all]; balance. apply sh_safe. Qed.

#[local] Hint Resolve GetDeviceMinorByUUID_safe PatchPodAnnotations_safe driver_infos_safe sh_safe
  sh_all_safe : go.

(** *** Volcano vGPU *)

(** A mapping is handed out with the result. *)
Definition mapping (r : result Z) : Resource → Z :=
  match r with Ok addr => one_of (Mapping addr) | Err _ => nothing end.

Lemma mmapVGPUCacheFile_leaves path : leaves benign nothing mapping (mmapVGPUCacheFile path).
Proof. unfold mmapVGPUCacheFile. balance. Qed.

Lemma first_cache_leaves dir files : leaves benign nothing mapping (first_cache dir files).
Proof.
  induction files as [|file files IH]; cbn [first_cache]; [balance|].
  destruct (negb _); [done|]. eapply leaves_bind_with; [apply mmapVGPUCacheFile_leaves|].
  intros [addr|err]; [balance|]. intros e h. eapply wp_mono; [|apply IH].
  intros a t [HP Ht]. split; [done|]. intros r. rewrite <- (Ht r). simpl. unfold nothing. lia.
Qed.

Lemma MutationCacheFunc_safe dir f : safe (MutationCacheFunc dir f).
Proof.
  unfold MutationCacheFunc. eapply (leaves_bind_with _ _ _ mapping).
  - unfold mmapVGPUCacheConfig, try_bind. balance. apply first_cache_leaves.
  - intros [addr|err]; balance.
Qed.

Lemma DeviceRunningProcessFunc_safe uuid : safe (DeviceRunningProcessFunc uuid).
Proof. unfold DeviceRunningProcessFunc. balance. Qed.

Lemma execNvidiaSMI_safe pod c : safe (execNvidiaSMI pod c).
Proof. unfold execNvidiaSMI, exec_in. balance. Qed.

#[local] Hint Resolve MutationCacheFunc_safe DeviceRunningProcessFunc_safe execNvidiaSMI_safe : go.

Section Vgpu.
Context `{Settings, UnixLib, RangeLib}.

Lemma gpu_infos_safe allow devs : safe (gpu_infos allow devs).
Proof. induction devs; cbn [gpu_infos]; balance. Qed.
#[local] Hint Resolve gpu_infos_safe : go.

Lemma slave_infos_safe allow skip pods : safe (slave_infos allow skip pods).
Proof. induction pods; cbn [slave_infos]; balance. Qed.
#[local] Hint Resolve slave_infos_safe : go.

Lemma active_pids_safe pids infos : safe (active_pids pids infos).
Proof. induction infos; cbn [active_pids]; balance. Qed.
#[local] Hint Resolve active_pids_safe : go.

Lemma init_container_safe cfg pod c devMap : safe (init_container cfg pod c devMap).
Proof. unfold init_container. balance. Qed.

Lemma ExpansionVGPUDevice_safe pod c devMap : safe (ExpansionVGPUDevice pod c devMap).
Proof. unfold ExpansionVGPUDevice, addVGPUResource. balance. Qed.
#[local] Hint Resolve init_container_safe ExpansionVGPUDevice_safe : go.

Lemma ExecutePostMountActions_vgpu_safe cfg pod c ps : safe (ExecutePostMountActions_vgpu cfg pod c ps).
Proof.
  revert pod. induction ps as [|p ps IH]; intros pod; cbn [ExecutePostMountActions_vgpu];
    unfold post_mount; balance.
Qed.
#[local] Hint Resolve ExecutePostMountActions_vgpu_safe : go.

Lemma VolcanoVGPUMounter_safe : safe_mounter VolcanoVGPUMounter.
Proof.
  split; intros; cbn [VolcanoVGPUMounter ValidateMountRequest BuildSupportPodTemplates
    VerifySupportPodStatus GetDeviceInfosToMount ExecutePostMountActions GetDeviceInfosToUnmount
    GetDevicesActiveProcessIDs ExecutePostUnmountActions GetPodsToCleanup];
  unfold ValidateMountRequest_vgpu, BuildSupportPodTemplates_vgpu, VerifySupportPodStatus_vgpu,
    GetDeviceInfosToMount_vgpu, GetDeviceInfosToUnmount_vgpu, GetDevicesActiveProcessIDs_vgpu,
    ExecutePostUnmountActions_vgpu, GetPodsToCleanup_vgpu; balance.
Qed.

End Vgpu.

(** *** NVIDIA GPU *)

Lemma for_each_safe {S X} (body : S → X → M S) s l :
  (∀ s x, safe (body s x)) → safe (for_each body s l).
Proof. intros Hb. revert s. induction l as [|x l IH]; intros s; cbn [for_each]; balance. Qed.

Lemma update_status_safe c : safe (update_status c).
Proof.
  unfold update_status, update_pod, update_container, update_device, update_uuid, SearchGPUMinorByUUID.
  balance. repeat (apply for_each_safe; intros); balance. apply for_each_safe. intros. balance.
Qed.
#[local] Hint Resolve update_status_safe : go.

Lemma UpdateGPUStatus_safe : safe UpdateGPUStatus.
Proof. unfold UpdateGPUStatus. balance. Qed.
#[local] Hint Resolve UpdateGPUStatus_safe : go.

Lemma init_from_safe n i c : safe (init_from n i c).
Proof. revert i c. induction n; intros i c; cbn [init_from]; balance. Qed.
#[local] Hint Resolve init_from_safe : go.

Lemma NewGPUCollector_safe : safe NewGPUCollector.
Proof. unfold NewGPUCollector, initGPUInfo. balance. Qed.

Lemma GPU_GetRunningProcess_safe uuid : safe (Gpu.GetRunningProcess uuid).
Proof. unfold Gpu.GetRunningProcess. balance. Qed.
#[local] Hint Resolve GPU_GetRunningProcess_safe : go.

Lemma slave_gpus_safe ps : safe (slave_gpus ps).
Proof. induction ps; cbn [slave_gpus]; unfold GetPodGPUResources; balance. Qed.

Lemma GPU_device_processes_safe infos : safe (Gpu.device_processes infos).
Proof. induction infos; cbn [Gpu.device_processes]; balance. Qed.
#[local] Hint Resolve slave_gpus_safe GPU_device_processes_safe : go.

Section Gpu.
Context `{Settings, UnixLib, RangeLib}.

Lemma NvidiaGPUMounter_safe : safe_mounter NvidiaGPUMounter.
Proof.
  split; intros; cbn [NvidiaGPUMounter ValidateMountRequest BuildSupportPodTemplates
    VerifySupportPodStatus GetDeviceInfosToMount ExecutePostMountActions GetDeviceInfosToUnmount
    GetDevicesActiveProcessIDs ExecutePostUnmountActions GetPodsToCleanup];
  unfold ValidateMountRequest_gpu, BuildSupportPodTemplates_gpu, VerifySupportPodStatus_gpu,
    GetDeviceInfosToMount_gpu, GetContainerGPUResources, GetDeviceInfosToUnmount_gpu,
    GetDevicesActiveProcessIDs_gpu, ExecutePostMountActions_gpu, ExecutePostUnmountActions_gpu,
    GetPodsToCleanup_gpu; balance.
Qed.

End Gpu.

(** *** Ascend NPU *)

Section Npu.
Context `{AscendLib, Settings, UnixLib, RangeLib}.

Lemma GetRealDeviceForAnnotations_safe pod : safe (GetRealDeviceForAnnotations pod).
Proof. unfold GetRealDeviceForAnnotations. balance. Qed.
#[local] Hint Resolve GetRealDeviceForAnnotations_safe : go.

Lemma find_devices_safe ty pod devs : safe (find_devices ty pod devs).
Proof. induction devs; cbn [find_devices]; balance. Qed.
#[local] Hint Resolve find_devices_safe : go.

Lemma load_containers_safe ty pod l : safe (load_containers ty pod l).
Proof. induction l; cbn [load_containers]; balance. Qed.
#[local] Hint Resolve load_containers_safe : go.

Lemma for_resources_safe {S} m (f : S → PodResources → nat → act (S * option goerr)) s l :
  (∀ s x i, safe (f s x i)) → safe (for_resources m f s l).
Proof. intros Hf. revert s. induction l; intros s; cbn [for_resources]; balance. Qed.

Lemma device_infos_safe f ids : (∀ id, safe (f id)) → safe (device_infos f ids).
Proof. intros Hf. induction ids; cbn [device_infos]; balance. Qed.
#[local] Hint Resolve device_infos_safe : go.

Lemma GetSlavePodsDeviceInfo_safe ty ps f :
  (∀ id, safe (f id)) → safe (GetSlavePodsDeviceInfo ty ps f).
Proof.
  intros Hf. unfold GetSlavePodsDeviceInfo, GetPodNPUResourcesFunc. balance.
  apply for_resources_safe. intros. unfold loadFunc. balance.
Qed.

Lemma npu_info_safe allow id : safe (npu_info allow id).
Proof. unfold npu_info, file_info, GetDeviceFileVersionV2. balance. Qed.

Lemma file_infos_safe allow files : safe (file_infos allow files).
Proof. induction files; cbn [file_infos]; unfold file_info, GetDeviceFileVersionV2; balance. Qed.

Lemma patch_names_safe pod names : safe (patch_names pod names).
Proof. unfold patch_names. balance. Qed.

Lemma NPU_device_processes_safe ids : safe (device_processes ids).
Proof. induction ids; cbn [device_processes]; balance. Qed.

Lemma NPU_GetRunningProcess_safe : safe GetRunningProcess.
Proof. unfold GetRunningProcess. balance. apply NPU_device_processes_safe. Qed.

#[local] Hint Resolve GetSlavePodsDeviceInfo_safe npu_info_safe file_infos_safe patch_names_safe
  NPU_GetRunningProcess_safe : go.

Lemma AscendNPUMounter_safe ty : safe_mounter (AscendNPUMounter ty).
Proof.
  split; intros; cbn [AscendNPUMounter ValidateMountRequest BuildSupportPodTemplates
    VerifySupportPodStatus GetDeviceInfosToMount ExecutePostMountActions GetDeviceInfosToUnmount
    GetDevicesActiveProcessIDs ExecutePostUnmountActions GetPodsToCleanup];
  unfold ValidateMountRequest_npu, BuildSupportPodTemplates_npu, VerifySupportPodStatus_npu,
    GetDeviceInfosToMount_npu, GetDeviceInfosToUnmount_npu, GetDevicesActiveProcessIDs_npu,
    ExecutePostMountActions_npu, ExecutePostUnmountActions_npu, GetPodsToCleanup_npu; balance.
Qed.

End Npu.

(** ** The registry *)

Lemma safe_mounter_benign m : safe_mounter m → benign_mounter m.
Proof. intros []. split; intros; by apply bal_calls. Qed.

Section Factory.
Context `{AscendLib, Settings, UnixLib, RangeLib}.

(** [init]. *)
Definition factory_init (s : Registry) : Registry :=
  AddDeviceMounterFuncs (Some NewAscendNPUMounter)
    (AddDeviceMounterFuncs (Some NewVolcanoVGPUMounter)
       (AddDeviceMounterFuncs (Some NewNvidiaGPUMounter) s)).

(** A constructor that is safe and gives the mounter of a type. *)
Definition safe_constructor (type : string) (f : CreateMounterFunc) : Prop :=
  ∀ e h, wp e h f (λ r t, balanced t ∧
    ∀ m, r = Ok m → ToUpper (GetDeviceType m) = type ∧ safe_mounter m).

Lemma safe_constructor_intro type f :
  safe f → (∀ e h, wp e h f (λ r _, ∀ m, r = Ok m → ToUpper (GetDeviceType m) = type ∧ safe_mounter m)) →
  safe_constructor type f.
Proof. intros Hf Hm e h. apply wp_and; [by eapply bal_balanced | apply Hm]. Qed.

Lemma NewNvidiaGPUMounter_safe : safe_constructor "NVIDIA_GPU" NewNvidiaGPUMounter.
Proof.
  apply safe_constructor_intro; intros; unfold NewNvidiaGPUMounter.
  - unfold Gpu.checkDeviceEnvironment. balance; apply NewGPUCollector_safe.
  - wp_step. eapply wp_mono; [|apply wp_true]. intros [] t _; cbn beta iota; [|by wp_step].
    wp_step. eapply wp_mono; [|apply wp_true]. intros [c|err] t' _; cbn beta iota; wp_step; [|done].
    intros m [= <-]. split; [done | apply NvidiaGPUMounter_safe].
Qed.

Lemma NewVolcanoVGPUMounter_safe : safe_constructor "VOLCANO_VGPU" NewVolcanoVGPUMounter.
Proof.
  apply safe_constructor_intro; intros; unfold NewVolcanoVGPUMounter.
  - unfold Vgpu.checkDeviceEnvironment. balance.
  - wp_step. eapply wp_mono; [|apply wp_true]. intros [] t _; cbn beta iota; wp_step; [|done].
    intros m [= <-]. split; [done | apply VolcanoVGPUMounter_safe].
Qed.

Lemma NewAscendNPUMounter_safe : safe_constructor "ASCEND_NPU" NewAscendNPUMounter.
Proof.
  apply safe_constructor_intro; intros; unfold NewAscendNPUMounter.
  - balance.
  - wp_step. wp_step. destruct r; cbn beta iota; [by wp_step|].
    wp_step. wp_step. destruct r; cbn beta iota; wp_step; [|done].
    intros m [= <-]. split; [done | apply AscendNPUMounter_safe].
Qed.

(** Only safe mounters of the listed types get into the map. *)
Lemma register_mounters_safe types funcs m e h :
  Forall2 safe_constructor types funcs →
  wp e h (register_mounters funcs m) (λ m' t, balanced t ∧
    ∀ k mounter, m' !! k = Some mounter →
      m !! k = Some mounter ∨ (k ∈ types ∧ ToUpper (GetDeviceType mounter) = k ∧ safe_mounter mounter)).
Proof.
  intros Hf. revert m h. induction Hf as [|type f types funcs Hf _ IH]; intros m h; cbn [register_mounters].
  { wp_step. split; [by intros r|]. auto. }
  wp_step. eapply wp_mono; [|apply Hf]. intros [mounter|err] t [Ht Hm]; cbn beta iota.
  - destruct (Hm mounter eq_refl) as [Hty Hsafe].
    eapply wp_mono; [|apply IH]. intros m' t' [Ht' Hm']. split.
    { intros r. by rewrite held_app, Ht, Ht'. }
    intros k mounter' Hk. destruct (Hm' k mounter' Hk) as [Hl|(? & ? & ?)]; [|set_solver].
    rewrite lookup_insert in Hl. case_decide; [|auto]. simplify_eq. right. set_solver.
  - eapply wp_mono; [|apply IH]. intros m' t' [Ht' Hm']. split.
    { intros r. by rewrite held_app, Ht, Ht'. }
    intros k mounter' Hk. destruct (Hm' k mounter' Hk) as [?|(? & ? & ?)]; [auto|]. set_solver.
Qed.

(** C11. The registry the program starts with keeps what the handlers assume of it.
    Whatever the node answers while the mounters are constructed, a device type
    looked up afterwards gives a mounter of that type whose methods all release
    every file, mapping, mutex, NVML and DCMI session they acquire - also when
    they fail or panic - create no pods and open no cgroup directory; so the
    registry is benign, and constructing it releases everything, too. *)
Theorem factory_mounters_safe e h :
  wp e h (RegisrtyDeviceMounter (factory_init emptyRegistry)) (λ '(s, err) t,
    err = None ∧ balanced t ∧ benign_registry s ∧
    ∀ devType m, GetDeviceMounter s devType = Some m →
      devType ∈ ["NVIDIA_GPU"; "VOLCANO_VGPU"; "ASCEND_NPU"] ∧
      ToUpper (GetDeviceType m) = devType ∧ safe_mounter m).
Proof.
  unfold RegisrtyDeviceMounter. wp_step. cbn [factory_init emptyRegistry AddDeviceMounterFuncs
    registerDeviceMounter addDeviceMounterFuncs app].
  eapply wp_mono; [|apply (register_mounters_safe ["NVIDIA_GPU"; "VOLCANO_VGPU"; "ASCEND_NPU"])].
  - intros m t [Ht Hm]. wp_step. rewrite app_nil_r.
    assert (∀ k mounter, m !! k = Some mounter → k ∈ ["NVIDIA_GPU"; "VOLCANO_VGPU"; "ASCEND_NPU"] ∧
      ToUpper (GetDeviceType mounter) = k ∧ safe_mounter mounter) as Hm'.
    { intros k mounter Hk. destruct (Hm k mounter Hk) as [Hl|]; [|done]. by rewrite lookup_empty in Hl. }
    split; [done|]. split; [done|]. split; [|exact Hm'].
    intros k mounter Hk. apply safe_mounter_benign. by destruct (Hm' k mounter Hk) as (_ & _ & ?).
  - repeat constructor; [apply NewNvidiaGPUMounter_safe | apply NewVolcanoVGPUMounter_safe |
      apply NewAscendNPUMounter_safe].
Qed.

End Factory.
