(* ===== verification/MounterErrors.v ===== *)
(** * The errors of the registered mounters

    No method of the three mounters, and so of any mounter in the registry that
    the program builds, fails with the code of success: what
    [ErrorCodes.honest_registry] asks. *)
From Stdlib Require Import ZArith Lia.
From stdpp Require Import base gmap strings list.
From S2P Require Import Prelude GoStrings Api Ebpf World Resources Util Cgroup CgroupV2 Framework MounterUtil Server ServerFacts ErrorCodes MounterCommon VgpuCache Vgpu Gpu Npu Mounters.

(** *** Shared code *)

Lemma GetDeviceMinorByUUID_honest uuid : honestly honest (GetDeviceMinorByUUID uuid).
Proof. unfold GetDeviceMinorByUUID. honesty. Qed.

Lemma PatchPodAnnotations_honest pod annos : honestly honest (PatchPodAnnotations pod annos).
Proof. unfold PatchPodAnnotations, PatchPodMetadata. honesty. Qed.

Lemma driver_infos_honest `{UnixLib} : honestly honest driver_infos.
Proof. unfold driver_infos, GetDeviceFileVersion. honesty. Qed.

Lemma verify_pending_honest p : honest (verify_pending p).
Proof. unfold verify_pending. repeat case_match; by split. Qed.

Lemma sh_honest cfg cmd : honestly honest (sh cfg cmd).
Proof. unfold sh, Execute, ExecuteContext. honesty. Qed.

Lemma sh_all_honest cfg cmds : honestly honest (sh_all cfg cmds).
Proof. induction cmds; cbn [sh_all]; honesty. Qed.

#[local] Hint Resolve GetDeviceMinorByUUID_honest PatchPodAnnotations_honest driver_infos_honest
  verify_pending_honest sh_honest sh_all_honest : go.

(** *** Volcano vGPU *)

Lemma mmapVGPUCacheFile_honest path : honestly honest (mmapVGPUCacheFile path).
Proof. unfold mmapVGPUCacheFile. honesty. Qed.
#[local] Hint Resolve mmapVGPUCacheFile_honest : go.

Lemma first_cache_honest dir files : honestly honest (first_cache dir files).
Proof. induction files as [|file files IH]; cbn [first_cache]; honesty. Qed.
#[local] Hint Resolve first_cache_honest : go.

Lemma MutationCacheFunc_honest dir f : honestly honest (MutationCacheFunc dir f).
Proof. unfold MutationCacheFunc, mmapVGPUCacheConfig, mbind, outcome_bind. honesty. Qed.

Lemma DeviceRunningProcessFunc_honest uuid : honestly honest (DeviceRunningProcessFunc uuid).
Proof. unfold DeviceRunningProcessFunc. honesty. Qed.

Lemma execNvidiaSMI_honest pod c : honestly honest (execNvidiaSMI pod c).
Proof. unfold execNvidiaSMI, exec_in. honesty. Qed.

#[local] Hint Resolve MutationCacheFunc_honest DeviceRunningProcessFunc_honest execNvidiaSMI_honest : go.

(** The methods, unfolded to their programs. *)
Ltac methods := split; intros; cbn [ValidateMountRequest BuildSupportPodTemplates
  VerifySupportPodStatus GetDeviceInfosToMount ExecutePostMountActions GetDeviceInfosToUnmount
  GetDevicesActiveProcessIDs ExecutePostUnmountActions GetPodsToCleanup].

Section Vgpu.
Context `{Settings, UnixLib, RangeLib}.

Lemma gpu_infos_honest allow devs : honestly honest (gpu_infos allow devs).
Proof. induction devs; cbn [gpu_infos]; honesty. Qed.
#[local] Hint Resolve gpu_infos_honest : go.

Lemma slave_infos_honest allow skip pods : honestly honest (slave_infos allow skip pods).
Proof. induction pods; cbn [slave_infos]; honesty. Qed.
#[local] Hint Resolve slave_infos_honest : go.

Lemma active_pids_honest pids infos : honestly honest (active_pids pids infos).
Proof. induction infos; cbn [active_pids]; honesty. Qed.
#[local] Hint Resolve active_pids_honest : go.

Lemma init_container_honest cfg pod c devMap : honestly honest (init_container cfg pod c devMap).
Proof. unfold init_container. honesty. Qed.

Lemma ExpansionVGPUDevice_honest pod c devMap : honestly honest (ExpansionVGPUDevice pod c devMap).
Proof. unfold ExpansionVGPUDevice, addVGPUResource. honesty. Qed.
#[local] Hint Resolve init_container_honest ExpansionVGPUDevice_honest : go.

Lemma post_mount_honest cfg pod c p : honestly honest (post_mount cfg pod c p).
Proof. unfold post_mount. honesty. Qed.
#[local] Hint Resolve post_mount_honest : go.

Lemma ExecutePostMountActions_vgpu_honest cfg pod c ps :
  honestly honest (ExecutePostMountActions_vgpu cfg pod c ps).
Proof. revert pod. induction ps as [|p ps IH]; intros pod; cbn [ExecutePostMountActions_vgpu]; honesty. Qed.
#[local] Hint Resolve ExecutePostMountActions_vgpu_honest : go.

Lemma template_annotations_honest pod c r annos ps : honest (template_annotations pod c r annos ps).
Proof.
  unfold template_annotations, mbind, outcome_bind. repeat (case_match; simplify_eq/=); honest_value.
Qed.
#[local] Hint Resolve template_annotations_honest : go.

Lemma VolcanoVGPUMounter_honest : honest_mounter VolcanoVGPUMounter.
Proof.
  unfold VolcanoVGPUMounter. methods; unfold ValidateMountRequest_vgpu, BuildSupportPodTemplates_vgpu,
    VerifySupportPodStatus_vgpu, GetDeviceInfosToMount_vgpu, GetDeviceInfosToUnmount_vgpu,
    GetDevicesActiveProcessIDs_vgpu, ExecutePostUnmountActions_vgpu; honesty.
Qed.

End Vgpu.

(** *** NVIDIA GPU *)

Lemma update_status_honest c : honestly honest (update_status c).
Proof. unfold update_status. honesty. Qed.
#[local] Hint Resolve update_status_honest : go.

Lemma UpdateGPUStatus_honest : honestly honest UpdateGPUStatus.
Proof. unfold UpdateGPUStatus. honesty. Qed.
#[local] Hint Resolve UpdateGPUStatus_honest : go.

Lemma slave_gpus_honest ps : honestly honest (slave_gpus ps).
Proof. induction ps; cbn [slave_gpus]; unfold GetPodGPUResources; honesty. Qed.
#[local] Hint Resolve slave_gpus_honest : go.

Section Gpu.
Context `{Settings, UnixLib, RangeLib}.

Lemma NvidiaGPUMounter_honest : honest_mounter NvidiaGPUMounter.
Proof.
  unfold NvidiaGPUMounter. methods; unfold ValidateMountRequest_gpu, BuildSupportPodTemplates_gpu,
    VerifySupportPodStatus_gpu, GetDeviceInfosToMount_gpu, GetContainerGPUResources,
    GetDeviceInfosToUnmount_gpu, GetDevicesActiveProcessIDs_gpu, ExecutePostMountActions_gpu,
    ExecutePostUnmountActions_gpu; honesty.
Qed.

End Gpu.

(** *** Ascend NPU *)

Section Npu.
Context `{AscendLib, Settings, UnixLib, RangeLib}.

(** What the errors of the device plugin's package are not. *)
Definition foreign_ascend : Prop :=
  ∀ ids options err, GetDeviceListID ids options = Err err → is_MounterError err = false.

Context (Hascend : foreign_ascend).

Lemma for_resources_honest {S} m (f : S → PodResources → nat → act (S * option goerr)) s l :
  (∀ s x i, honestly honest (f s x i)) → honestly honest (for_resources m f s l).
Proof. intros Hf. revert s. induction l; intros s; cbn [for_resources]; honesty. Qed.

#[local] Instance honest_found : Honest Found := λ r,
  match r with FoundDevices _ => True | LeaveLoad r => honest r end.

Lemma find_devices_honest ty pod devs : honestly honest (find_devices ty pod devs).
Proof. induction devs; cbn [find_devices]; honesty. Qed.
#[local] Hint Resolve find_devices_honest : go.

Lemma load_containers_honest ty pod l : honestly honest (load_containers ty pod l).
Proof.
  induction l as [|r l IH]; cbn [load_containers]; [by apply honestly_done|].
  destruct (cr_Devices r); [exact IH|]. honest_step; [auto with go|]. honesty.
Qed.
#[local] Hint Resolve load_containers_honest : go.

Lemma visible_devices_honest l : honest (visible_devices l).
Proof.
  induction l as [|d l IH]; simpl; [done|]. destruct (negb _); [done|].
  destruct (GetDeviceListID _ _) as [ids|err] eqn:Hids; simpl; [|by eapply honest_foreign, Hascend].
  by destruct (visible_devices l).
Qed.

Lemma device_infos_honest f ids : (∀ id, honestly honest (f id)) → honestly honest (device_infos f ids).
Proof. intros Hf. induction ids; cbn [device_infos]; honesty. Qed.

Lemma GetSlavePodsDeviceInfo_honest ty ps f :
  (∀ id, honestly honest (f id)) → honestly honest (GetSlavePodsDeviceInfo ty ps f).
Proof.
  intros Hf. unfold GetSlavePodsDeviceInfo, GetPodNPUResourcesFunc. honest_step.
  - honesty. apply for_resources_honest. intros l r i. unfold loadFunc. honesty.
  - destruct a as [l [err|]]; [honesty|]. pose proof (visible_devices_honest l) as Hv.
    destruct (visible_devices l); honesty. by apply device_infos_honest.
Qed.

Lemma npu_info_honest allow id : honestly honest (npu_info allow id).
Proof. unfold npu_info, file_info, GetDeviceFileVersionV2. honesty. Qed.

Lemma file_infos_honest allow files : honestly honest (file_infos allow files).
Proof. induction files; cbn [file_infos]; unfold file_info, GetDeviceFileVersionV2; honesty. Qed.

Lemma patch_names_honest pod names : honestly honest (patch_names pod names).
Proof. unfold patch_names. honesty. Qed.

Lemma device_processes_honest ids : honestly honest (device_processes ids).
Proof. induction ids; cbn [device_processes]; honesty. Qed.
#[local] Hint Resolve device_processes_honest : go.

Lemma GetRunningProcess_honest : honestly honest GetRunningProcess.
Proof. unfold GetRunningProcess. honesty. Qed.

#[local] Hint Resolve GetSlavePodsDeviceInfo_honest npu_info_honest file_infos_honest patch_names_honest
  GetRunningProcess_honest : go.

Lemma AscendNPUMounter_honest ty : honest_mounter (AscendNPUMounter ty).
Proof.
  unfold AscendNPUMounter. methods; unfold ValidateMountRequest_npu, BuildSupportPodTemplates_npu,
    VerifySupportPodStatus_npu, GetDeviceInfosToMount_npu, GetDeviceInfosToUnmount_npu,
    GetDevicesActiveProcessIDs_npu, ExecutePostMountActions_npu, ExecutePostUnmountActions_npu; honesty.
Qed.

(** ** The registry *)

(** Constructors of honest mounters fill the registry with honest mounters. *)
Lemma register_mounters_honest funcs m e h :
  Forall (λ f : CreateMounterFunc, ∀ e h, wp e h f (λ r _, ∀ m, r = Ok m → honest_mounter m)) funcs →
  map_Forall (λ _, honest_mounter) m →
  wp e h (register_mounters funcs m) (λ m' _, map_Forall (λ _, honest_mounter) m').
Proof.
  intros Hf. revert m h. induction Hf as [|f funcs Hf _ IH]; intros m h Hm; cbn [register_mounters]; [by wp_step|].
  wp_step. eapply wp_mono; [|apply Hf]. intros [mounter|err] t Ht; cbn beta iota.
  - eapply wp_mono; [|apply IH; by apply map_Forall_insert_2; [apply Ht|]]. done.
  - eapply wp_mono; [|by apply IH]. done.
Qed.

(** The registry the program starts with is honest, whatever the node answers
    while the mounters are constructed. *)
Lemma factory_mounters_honest e h :
  wp e h (RegisrtyDeviceMounter (factory_init emptyRegistry)) (λ r _, honest_registry r.1).
Proof.
  unfold RegisrtyDeviceMounter. wp_step. cbn [factory_init emptyRegistry AddDeviceMounterFuncs
    registerDeviceMounter addDeviceMounterFuncs app].
  eapply wp_mono; [|apply register_mounters_honest].
  - intros m t Hm. wp_step. intros type mounter Hl. by apply (Hm type).
  - repeat constructor; intros e' h'; unfold NewNvidiaGPUMounter, NewVolcanoVGPUMounter, NewAscendNPUMounter.
    + wp_step. eapply wp_mono; [|apply wp_true]. intros [] t _; cbn beta iota; [|by wp_step].
      wp_step. eapply wp_mono; [|apply wp_true]. intros [c|err] t' _; cbn beta iota; wp_step; [|done].
      intros m [= <-]. apply NvidiaGPUMounter_honest.
    + wp_step. eapply wp_mono; [|apply wp_true]. intros [] t _; cbn beta iota; wp_step; [|done].
      intros m [= <-]. apply VolcanoVGPUMounter_honest.
    + wp_step. wp_step. destruct r; cbn beta iota; [by wp_step|].
      wp_step. wp_step. destruct r; cbn beta iota; wp_step; [|done].
      intros m [= <-]. apply AscendNPUMounter_honest.
  - apply map_Forall_empty.
Qed.

End Npu.
