(* ===== verification/ServerBusy.v ===== *)
(** * A device in use

    What [UnMountDevice] does before the mounter has found no process on the
    devices. The mounters enter through the interface [looking_mounter], that the
    three mounters of the program implement. *)
From Stdlib Require Import ZArith Lia.
From stdpp Require Import base gmap strings list.
From S2P Require Import Prelude GoStrings Api Ebpf World Resources Util Cgroup CgroupV2 Framework MounterUtil Server ServerFacts MounterCommon VgpuCache Vgpu Gpu Npu Mounters.

(** A mounter that only looks while it is asked about devices. *)
Definition looking_mounter (m : DeviceMounter) : Prop :=
  (∀ pod c ps, calls reading (GetDeviceInfosToUnmount m pod c ps)) ∧
  (∀ pids infos, calls reading (GetDevicesActiveProcessIDs m pids infos)).

Definition looking_registry (registry : Registry) : Prop :=
  ∀ type m, GetDeviceMounter registry type = Some m → looking_mounter m.

Abbreviation looked := (Forall (λ ev, reading (ev_cmd ev))).

Section Busy.
Context `{ClientLib, Settings, CgroupLib, EmulatorLib, AsmLib, JsonLib, !ClientLaws}.
Context (registry : Registry) (once : option bool) (e : env) (h : trace).

(** ** Runs inside a handler *)

(** The calls [t] of a handler that started after [h] contain a run of [p] that
    returned [a], after calls that only looked. *)
Definition seen {A} (t : trace) (p : act A) (a : A) : Prop :=
  ∃ t1 t2 t3, t = t1 ++ t2 ++ t3 ∧ looked t1 ∧ run e (h ++ t1) p = (Returns a, t2).

Lemma seen_app {A} t t' (p : act A) a : seen t p a → seen (t ++ t') p a.
Proof. intros (t1 & t2 & t3 & -> & Hp). exists t1, t2, (t3 ++ t'). by rewrite <- !app_assoc. Qed.

(** The mounter of the request has named the devices of the container's slave pods
    and then found that no process of the container uses one of them. *)
Definition found_idle (req : UnMountDeviceRequest) (t : trace) : Prop :=
  ∃ m pod container slavePods infos pids path,
    GetDeviceMounter registry (ToUpper (ur_DeviceType req)) = Some m ∧
    seen t (total (GetSlavePods (ToUpper (ur_DeviceType req)) pod container)) (Ok slavePods) ∧
    seen t (GetDeviceInfosToUnmount m pod container slavePods) (Ok infos) ∧
    seen t (GetContainerCGroupPathAndPids pod container) (Ok (pids, path)) ∧
    seen t (GetDevicesActiveProcessIDs m pids infos) (Ok []).

Lemma found_idle_app req t t' : found_idle req t → found_idle req (t ++ t').
Proof.
  intros (m & pod & c & ps & infos & pids & path & Hp). exists m, pod, c, ps, infos, pids, path.
  destruct Hp as (? & ? & ? & ? & ?). split_and!; auto using seen_app.
Qed.

Context (req : UnMountDeviceRequest).

(** From calls that only looked and satisfy [I], [m] only looks and goes on with
    [V], unless the mounter finds the devices idle. *)
(** Kept by more calls. *)
Class Persistent (I : trace → Prop) : Prop := persistent t t' : I t → I (t ++ t').

#[local] Instance true_persistent : Persistent (λ _, True).
Proof. done. Qed.

#[local] Instance seen_persistent {A} (p : act A) a : Persistent (λ t, seen t p a).
Proof. intros t t'. apply seen_app. Qed.

#[local] Instance and_persistent I J `{!Persistent I, !Persistent J} : Persistent (λ t, I t ∧ J t).
Proof. intros t t' [HI HJ]. split; by apply persistent. Qed.

Definition cautious {A} (I : trace → Prop) (V : A → trace → Prop) (m : att A) : Prop :=
  ∀ c t0, I t0 → looked t0 → wp e (h ++ t0) (m c) (λ r t,
    (looked (t0 ++ t) ∧ ∀ a, r.2 = Returns (inr a) → V a (t0 ++ t)) ∨ found_idle req (t0 ++ t)).

Lemma cautious_bind {A B} I V W (m : att A) (f : A → att B) :
  cautious I V m → (∀ a, cautious (V a) W (f a)) → cautious I W (att_bind m f).
Proof.
  intros Hm Hf c t0 HI Ht0. unfold att_bind. wp_step. eapply wp_mono; [|by apply Hm].
  intros [c' o] t [[Ht HV]|Hidle]; cbn [snd] in *.
  - destruct o as [[x|a]|why]; [wp_step; rewrite app_nil_r; by left| |wp_step; rewrite app_nil_r; by left].
    rewrite <- app_assoc. eapply wp_mono; [|apply Hf; [by apply HV | done]].
    intros r t'. cbn. by rewrite app_assoc.
  - eapply wp_mono; [|apply wp_true]. intros r t' _. right. rewrite app_assoc. by apply found_idle_app.
Qed.

Lemma cautious_ret {A} (I : trace → Prop) (V : A → trace → Prop) a :
  (∀ t, I t → V a t) → cautious I V (att_ret a).
Proof.
  intros HV c t0 HI Ht0. unfold att_ret. wp_step. left. rewrite app_nil_r. split; [done|].
  intros a' [= <-]. auto.
Qed.

Lemma cautious_stop {A} I (V : A → trace → Prop) x : cautious I V (stop x).
Proof. intros c t0 HI Ht0. unfold stop. wp_step. left. by rewrite app_nil_r. Qed.

(** A premise that does not depend on the calls. *)
Lemma cautious_pure {A} (φ : Prop) I (V : A → trace → Prop) m :
  (φ → cautious I V m) → cautious (λ t, φ ∧ I t) V m.
Proof. intros Hm c t0 [Hφ HI] Ht0. by apply Hm. Qed.

(** Once the devices are known to be idle, anything may happen. *)
Lemma cautious_idle {A} (I : trace → Prop) (V : A → trace → Prop) m :
  (∀ t, I t → found_idle req t) → cautious I V m.
Proof.
  intros HI c t0 Hc Ht0. eapply wp_mono; [|apply wp_true]. intros r t _. right.
  by apply found_idle_app, HI.
Qed.

(** An action that only looks is remembered with its result. *)
Lemma cautious_act {A} I `{!Persistent I} (m : act A) :
  calls reading m → cautious I (λ a t, seen t m a ∧ I t) (run_act m).
Proof.
  intros Hm c t0 Hc Ht0. unfold run_act. specialize (Hm e (h ++ t0)). wp_step.
  unfold wp in *. destruct (run e (h ++ t0) m) as [o t] eqn:Hr. cbn. rewrite app_nil_r.
  left. split; [by apply Forall_app|]. intros a Ha. destruct o; simplify_eq.
  split; [|by apply persistent]. exists t0, t, []. by rewrite app_nil_r.
Qed.

(** ** The steps of the handler *)

Lemma bind_seen {A B} I `{!Persistent I} (m : act A) (f : A → att B) W :
  calls reading m → (∀ a, cautious (λ t, seen t m a ∧ I t) W (f a)) →
  cautious I W (att_bind (run_act m) f).
Proof. intros Hm Hf. eapply cautious_bind; [by apply cautious_act | exact Hf]. Qed.

Lemma cautious_forget {A} (I J : trace → Prop) (V : A → trace → Prop) m :
  (∀ t, J t → I t) → cautious I V m → cautious J V m.
Proof. intros HJ Hm c t0 Hc. apply Hm. auto. Qed.

Lemma bind_skip {A B} I `{!Persistent I} (m : act A) (f : A → att B) W :
  calls reading m → (∀ a, cautious I W (f a)) → cautious I W (att_bind (run_act m) f).
Proof.
  intros Hm Hf. apply bind_seen; [done..|]. intros a. eapply cautious_forget; [|apply Hf]. by intros t [_ ?].
Qed.

Lemma bind_ret {A B} I (a : A) (f : A → att B) W :
  cautious I W (f a) → cautious I W (att_bind (att_ret a) f).
Proof. intros Hf. apply (cautious_bind I (λ a' t, a' = a ∧ I t)); [by apply cautious_ret|].
  intros a'. by apply cautious_pure; intros ->. Qed.

Lemma bind_stop {A B} I x (f : A → att B) W : cautious I W (att_bind (stop x) f).
Proof. apply (cautious_bind I (λ _ _, False)); [apply cautious_stop|]. intros a c t0 Hf. destruct Hf. Qed.

Lemma bind_bind {A B C} I (m : att A) (f : A → att B) (g : B → att C) W :
  cautious I W (att_bind m (λ a, att_bind (f a) g)) → cautious I W (att_bind (att_bind m f) g).
Proof.
  intros Hm c t0 HI Ht0. specialize (Hm c t0 HI Ht0). unfold att_bind, wp in *.
  rewrite !run_bind in *. destruct (run e (h ++ t0) (m c)) as [[c' [[x|a]|w]] t]; cbn in *;
    rewrite ?app_nil_r in *; [done| |done].
  rewrite !run_bind in *. destruct (run e ((h ++ t0) ++ t) (f a c')) as [[c'' [[x|b]|w]] t']; cbn in *;
    rewrite ?app_nil_r, ?app_assoc in *; try done.
  destruct (run e _ (g b c'')) as [o t'']. by rewrite <- (app_assoc t).
Qed.

(** The handler up to the change of the device rules never gets there without
    finding the devices idle. *)
Ltac caution :=
  lazymatch goal with
  | |- cautious _ _ (att_bind (att_bind _ _) _) => apply bind_bind
  | |- cautious _ _ (att_bind (att_ret _) _) => apply bind_ret
  | |- cautious _ _ (att_bind (stop _) _) => apply bind_stop
  | |- cautious _ _ (stop _) => apply cautious_stop
  | |- cautious _ _ (att_bind (run_m _) _) => unfold run_m
  | |- cautious _ _ (att_bind (check ?r) _) => unfold check at 1; destruct r eqn:?
  | |- cautious _ _ (att_bind (check_err ?r) _) => unfold check_err at 1; destruct r eqn:?
  | |- cautious _ _ (att_bind (check_found ?r) _) => unfold check_found at 1; destruct r eqn:?
  | |- cautious _ _ (att_bind (match ?x with _ => _ end) _) => destruct x eqn:?
  end.

Lemma unmount_prepare_cautious s req0 :
  looking_registry registry → CheckUnMountDeviceRequest req0 = Ok req → ur_Force req = false →
  cautious (λ _, True) (λ _ _, False) (unmount_prepare registry once s req0).
Proof.
  intros Hreg Hreq Hforce. unfold unmount_prepare. rewrite Hreq. unfold check at 1.
  caution. unfold find_target. caution. caution.
  apply bind_skip; [apply _ | apply calls_total, GetTargetPod_reading|]. intros r.
  repeat caution. unfold find_mounter. repeat caution.
  destruct (Hreg _ _ Heqo0) as [Hinfos Hactive].
  apply bind_seen; [apply _ | apply calls_total, GetSlavePods_reading|]. intros slaves. repeat caution.
  apply bind_seen; [apply _ | apply Hinfos|]. intros infos. repeat caution.
  apply bind_seen; [apply _ | apply GetContainerCGroupPathAndPids_reading|]. intros pids. repeat caution.
  subst. match goal with path : list Z * string |- _ => destruct path as [ids path] end.
  apply bind_skip; [apply _ | apply calls_done|]. intros pid.
  apply bind_seen; [apply _ | apply Hactive|]. intros [[|p procs]|err].
  - apply cautious_idle. intros t (Hseen & Hpids & Hdevs & Hslaves & _).
    do 7 eexists. split_and!; eassumption.
  - apply bind_ret. rewrite Hforce, bool_decide_eq_true_2 by done. apply bind_stop.
  - apply bind_stop.
Qed.

End Busy.

(** ** The mounters of the program *)

Abbreviation looks := (calls reading).

Lemma GetDeviceMinorByUUID_looks uuid : looks (GetDeviceMinorByUUID uuid).
Proof. unfold GetDeviceMinorByUUID. solve_calls. Qed.

Lemma DeviceRunningProcessFunc_looks uuid : looks (DeviceRunningProcessFunc uuid).
Proof. unfold DeviceRunningProcessFunc. solve_calls. Qed.

#[local] Hint Resolve GetDeviceMinorByUUID_looks DeviceRunningProcessFunc_looks : go.

Section Mounters.
Context `{AscendLib, Settings, UnixLib, RangeLib}.

Lemma driver_infos_looks : looks driver_infos.
Proof. unfold driver_infos, GetDeviceFileVersion. calling. Qed.
#[local] Hint Resolve driver_infos_looks : go.

Lemma gpu_infos_looks allow devs : looks (gpu_infos allow devs).
Proof. induction devs; cbn [gpu_infos]; calling. Qed.
#[local] Hint Resolve gpu_infos_looks : go.

Lemma slave_infos_looks allow skip pods : looks (slave_infos allow skip pods).
Proof. induction pods; cbn [slave_infos]; calling. Qed.

Lemma active_pids_looks pids infos : looks (active_pids pids infos).
Proof. induction infos; cbn [active_pids]; calling. Qed.
#[local] Hint Resolve slave_infos_looks active_pids_looks : go.

Lemma VolcanoVGPUMounter_looks : looking_mounter VolcanoVGPUMounter.
Proof.
  split; intros; cbn [VolcanoVGPUMounter GetDeviceInfosToUnmount GetDevicesActiveProcessIDs];
    unfold GetDeviceInfosToUnmount_vgpu, GetDevicesActiveProcessIDs_vgpu; calling.
Qed.

Lemma for_each_looks {S X} (body : S → X → M S) s l : (∀ s x, looks (body s x)) → looks (for_each body s l).
Proof. intros Hb. revert s. induction l as [|x l IH]; intros s; cbn [for_each]; calling. Qed.

Lemma update_status_looks c : looks (update_status c).
Proof.
  unfold update_status, update_pod, update_container, update_device, update_uuid, SearchGPUMinorByUUID.
  calling. all: repeat (apply for_each_looks; intros); calling. apply for_each_looks. intros. calling.
Qed.
#[local] Hint Resolve update_status_looks : go.

Lemma UpdateGPUStatus_looks : looks UpdateGPUStatus.
Proof. unfold UpdateGPUStatus. calling. Qed.
#[local] Hint Resolve UpdateGPUStatus_looks : go.

Lemma slave_gpus_looks ps : looks (slave_gpus ps).
Proof. induction ps; cbn [slave_gpus]; unfold GetPodGPUResources; calling. Qed.

Lemma GPU_device_processes_looks infos : looks (Gpu.device_processes infos).
Proof. induction infos; cbn [Gpu.device_processes]; unfold Gpu.GetRunningProcess; calling. Qed.
#[local] Hint Resolve slave_gpus_looks GPU_device_processes_looks : go.

Lemma NvidiaGPUMounter_looks : looking_mounter NvidiaGPUMounter.
Proof.
  split; intros; cbn [NvidiaGPUMounter GetDeviceInfosToUnmount GetDevicesActiveProcessIDs];
    unfold GetDeviceInfosToUnmount_gpu, GetDevicesActiveProcessIDs_gpu; calling.
Qed.

Lemma GetRealDeviceForAnnotations_looks pod : looks (GetRealDeviceForAnnotations pod).
Proof. unfold GetRealDeviceForAnnotations. calling. Qed.
#[local] Hint Resolve GetRealDeviceForAnnotations_looks : go.

Lemma find_devices_looks ty pod devs : looks (find_devices ty pod devs).
Proof. induction devs; cbn [find_devices]; calling. Qed.
#[local] Hint Resolve find_devices_looks : go.

Lemma load_containers_looks ty pod l : looks (load_containers ty pod l).
Proof. induction l; cbn [load_containers]; calling. Qed.
#[local] Hint Resolve load_containers_looks : go.

Lemma for_resources_looks {S} m (f : S → PodResources → nat → act (S * option goerr)) s l :
  (∀ s x i, looks (f s x i)) → looks (for_resources m f s l).
Proof. intros Hf. revert s. induction l; intros s; cbn [for_resources]; calling. Qed.

Lemma device_infos_looks f ids : (∀ id, looks (f id)) → looks (device_infos f ids).
Proof. intros Hf. induction ids; cbn [device_infos]; calling. Qed.
#[local] Hint Resolve device_infos_looks : go.

Lemma npu_info_looks allow id : looks (npu_info allow id).
Proof. unfold npu_info, file_info, GetDeviceFileVersionV2. calling. Qed.

Lemma file_infos_looks allow files : looks (file_infos allow files).
Proof. induction files; cbn [file_infos]; unfold file_info, GetDeviceFileVersionV2; calling. Qed.

Lemma GetSlavePodsDeviceInfo_looks ty ps f :
  (∀ id, looks (f id)) → looks (GetSlavePodsDeviceInfo ty ps f).
Proof.
  intros Hf. unfold GetSlavePodsDeviceInfo, GetPodNPUResourcesFunc. calling.
  apply for_resources_looks. intros. unfold loadFunc. calling.
Qed.

Lemma NPU_device_processes_looks ids : looks (device_processes ids).
Proof. induction ids; cbn [device_processes]; calling. Qed.
#[local] Hint Resolve npu_info_looks file_infos_looks GetSlavePodsDeviceInfo_looks
  NPU_device_processes_looks : go.

Lemma AscendNPUMounter_looks ty : looking_mounter (AscendNPUMounter ty).
Proof.
  split; intros; cbn [AscendNPUMounter GetDeviceInfosToUnmount GetDevicesActiveProcessIDs];
    unfold GetDeviceInfosToUnmount_npu, GetDevicesActiveProcessIDs_npu, GetRunningProcess; calling.
Qed.

(** Only mounters that a constructor gives get into the map. *)
Lemma register_mounters_Forall (P : DeviceMounter → Prop) funcs m e h :
  Forall (λ f, ∀ e h, wp e h f (λ r _, ∀ mounter, r = Ok mounter → P mounter)) funcs →
  map_Forall (λ _, P) m →
  wp e h (register_mounters funcs m) (λ m' _, map_Forall (λ _, P) m').
Proof.
  intros Hf. revert m h. induction Hf as [|f funcs Hf _ IH]; intros m h Hm; cbn [register_mounters];
    [by wp_step|]. wp_step. eapply wp_mono; [|apply Hf]. intros [mounter|err] t Hr; cbn beta iota;
    apply IH; [|done]. apply map_Forall_insert_2; auto.
Qed.

(** Whatever the node answers while the mounters are constructed, the registry of
    the program has mounters that only look. *)
Lemma factory_looking e h :
  wp e h (RegisrtyDeviceMounter (factory_init emptyRegistry)) (λ '(s, _) _, looking_registry s).
Proof.
  unfold RegisrtyDeviceMounter. wp_step.
  eapply wp_mono; [|apply (register_mounters_Forall looking_mounter)].
  - intros m t Hm. wp_step. intros type mounter Hl. by eapply Hm.
  - repeat constructor; intros e' h'.
    + unfold NewNvidiaGPUMounter. wp_step. eapply wp_mono; [|apply wp_true].
      intros [] t _; cbn beta iota; [|by wp_step]. wp_step. eapply wp_mono; [|apply wp_true].
      intros [c|err] t' _; cbn beta iota; wp_step; [|done]. intros m [= <-]. apply NvidiaGPUMounter_looks.
    + unfold NewVolcanoVGPUMounter. wp_step. eapply wp_mono; [|apply wp_true].
      intros [] t _; cbn beta iota; wp_step; [|done]. intros m [= <-]. apply VolcanoVGPUMounter_looks.
    + unfold NewAscendNPUMounter. wp_step. wp_step. destruct r; cbn beta iota; [by wp_step|].
      wp_step. wp_step. destruct r; cbn beta iota; wp_step; [|done].
      intros m [= <-]. apply AscendNPUMounter_looks.
  - apply map_Forall_empty.
Qed.

End Mounters.
Section Busy.
Context `{ClientLib, Settings, CgroupLib, EmulatorLib, AsmLib, JsonLib, !ClientLaws}.

(** C10. A device in use is not touched. Take any registry of mounters that only
    look while they are asked about devices, and a request without the force
    flag. Whatever the node answers, the handler makes no call that could change
    anything - no command in the container, no rule change, no deletion - unless
    the mounter of the requested type has before answered, without an error,
    that no process of the container uses the devices of its slave pods. The
    registry of the program is one of these ([factory_looking]). This
    also holds when the handler panics. *)
Theorem UnMountDevice_busy_untouched registry once s req e h :
  looking_registry registry → ur_Force req = false →
  wp e h (UnMountDevice registry once s req) (λ _ t, looked t ∨
    ∃ req', CheckUnMountDeviceRequest req = Ok req' ∧ found_idle registry e h req' t).
Proof.
  intros Hreg Hforce. unfold UnMountDevice. wp_step.
  destruct (CheckUnMountDeviceRequest req) as [req'|err] eqn:Hreq.
  2:{ unfold unmount_prepare, check, stop, att_bind. rewrite Hreq. wp_step. wp_step. wp_step. by left. }
  assert (ur_Force req' = false) as Hforce'.
  { revert Hreq. unfold CheckUnMountDeviceRequest. destruct (_ ++ _); [by intros [= <-] | done]. }
  eapply wp_mono; [|pose proof (unmount_prepare_cautious registry once e h req' s req Hreg Hreq Hforce'
    no_cleanup [] I ltac:(constructor)) as Hp; rewrite app_nil_r in Hp; exact Hp].
  intros [c [[x|u]|w]] t [[Ht Hu]|Hidle]; cbn [app] in *.
  - wp_step. rewrite app_nil_r. by left.
  - eapply wp_mono; [|apply wp_true]. intros o t' _. right. eauto using found_idle_app.
  - by destruct (Hu u eq_refl).
  - eapply wp_mono; [|apply wp_true]. intros o t' _. right. eauto using found_idle_app.
  - wp_step. rewrite app_nil_r. by left.
  - wp_step. rewrite app_nil_r. right. eauto.
Qed.

End Busy.

(** ** Witnesses *)

#[local] Existing Instance ServerFacts.w_client.
#[local] Existing Instance ServerFacts.w_client_laws.
#[local] Existing Instance ServerFacts.w_settings.
#[local] Existing Instance ServerFacts.w_cgroup.
#[local] Existing Instance toy_emulator.
#[local] Existing Instance no_json.

Lemma w_registry_looking : looking_registry w_registry.
Proof. intros type m ->%w_registry_get. split; intros; apply calls_done. Qed.

Lemma UnMountDevice_busy_untouched_witness :
  (run w_env [] (UnMountDevice w_registry (Some true) w_server w_unmount_req)).1 =
    Returns (Some (mkDeviceResponse ResultCode_DeviceBusy
      "The device is in use and cannot be uninstalled"), None) ∧
  wp w_env [] (UnMountDevice w_registry (Some true) w_server w_unmount_req) (λ _ t, looked t ∨
    ∃ req', CheckUnMountDeviceRequest w_unmount_req = Ok req' ∧ found_idle w_registry w_env [] req' t).
Proof.
  split; [vm_compute; reflexivity|].
  apply (UnMountDevice_busy_untouched w_registry (Some true) w_server w_unmount_req w_env []).
  - apply w_registry_looking.
  - reflexivity.
Defined.
