(* ===== verification/MounterSymmetry.v ===== *)
(** * What unmounting takes back

    Mounting and unmounting make the same queries, so that in the same
    circumstances the one list of devices determines the other. [related] runs
    two programs side by side. *)
From Stdlib Require Import ZArith Lia.
From stdpp Require Import base gmap strings list.
From S2P Require Import Prelude GoStrings Api Ebpf World Util MounterCommon VgpuCache Vgpu Gpu Npu.

(** ** Programs side by side *)

(** The same calls, and results in [R]. *)
Definition related {A B} (R : A → B → Prop) (p : M A) (q : M B) : Prop :=
  ∀ e h, R (run e h p).1 (run e h q).1 ∧ (run e h p).2 = (run e h q).2.

Lemma related_done {A B} (R : A → B → Prop) a b : R a b → related R (Done a) (Done b).
Proof. by split. Qed.

Lemma related_refl {A} (p : M A) : related eq p p.
Proof. by split. Qed.

Lemma related_bind {A B A' B'} (R : A → B → Prop) (R' : A' → B' → Prop) p q
    (f : A → M A') (g : B → M B') :
  related R p q → (∀ a b, R a b → related R' (f a) (g b)) →
  related R' (prog_bind_fix f p) (prog_bind_fix g q).
Proof.
  intros Hp Hf e h. rewrite !run_bind. destruct (Hp e h) as [HR Ht].
  destruct (run e h p) as [a t], (run e h q) as [b t']. cbn [fst snd] in *. subst t'.
  destruct (Hf a b HR e (h ++ t)) as [HR' Ht'].
  destruct (run e (h ++ t) (f a)), (run e (h ++ t) (g b)). cbn [fst snd] in *. by subst.
Qed.

Lemma related_same {A A' B'} (R' : A' → B' → Prop) (p : M A) (f : A → M A') (g : A → M B') :
  (∀ a, related R' (f a) (g a)) → related R' (prog_bind_fix f p) (prog_bind_fix g p).
Proof. intros Hf. eapply related_bind; [apply related_refl|]. by intros a _ <-. Qed.

(** Results of programs that may fail, and of those that may panic. *)
Definition on_ok {A B} (R : A → B → Prop) (r : result A) (s : result B) : Prop :=
  match r, s with Ok a, Ok b => R a b | Err x, Err y => x = y | _, _ => False end.
Definition on_return {A B} (R : A → B → Prop) (r : outcome A) (s : outcome B) : Prop :=
  match r, s with Returns a, Returns b => R a b | Panics x, Panics y => x = y | _, _ => False end.

Lemma related_try {A B A' B'} (R : A → B → Prop) (R' : A' → B' → Prop) p q
    (f : A → M (result A')) (g : B → M (result B')) :
  related (on_ok R) p q → (∀ a b, R a b → related (on_ok R') (f a) (g b)) →
  related (on_ok R') (try_bind p f) (try_bind q g).
Proof.
  intros Hp Hf. eapply related_bind; [exact Hp|]. intros [a|x] [b|y] HR; simpl in HR; try done;
    solve [by apply Hf | by apply related_done].
Qed.

Lemma related_panic_try {A B A' B'} (R : A → B → Prop) (R' : A' → B' → Prop) p q
    (f : A → act (result A')) (g : B → act (result B')) :
  related (on_return (on_ok R)) p q → (∀ a b, R a b → related (on_return (on_ok R')) (f a) (g b)) →
  related (on_return (on_ok R')) (panic_try_bind p f) (panic_try_bind q g).
Proof.
  intros Hp Hf. eapply related_bind; [exact Hp|]. intros [[a|x]|w] [[b|y]|v] HR; simpl in HR; try done;
    solve [by apply Hf | by apply related_done].
Qed.

Lemma related_panic {A A' B'} (R' : A' → B' → Prop) (p : act A) (f : A → act A') (g : A → act B') :
  (∀ a, related (on_return R') (f a) (g a)) →
  related (on_return R') (panic_bind p f) (panic_bind p g).
Proof. intros Hf. apply related_same. intros [a|w]; [apply Hf | by apply related_done]. Qed.

Lemma related_total {A B} (R : A → B → Prop) p q :
  related R p q → related (on_return R) (total p) (total q).
Proof. intros Hp. eapply related_bind; [exact Hp|]. intros a b HR. by apply related_done. Qed.

(** ** Device lists *)

(** The second list denies what the first allows. *)
Definition revoked (infos infos' : list DeviceInfo) : Prop := infos' = map (set_Allow false) infos.
Definition revoked_info (info info' : DeviceInfo) : Prop := info' = set_Allow false info.

Lemma revoked_cons info info' l l' :
  revoked_info info info' → revoked l l' → revoked (info :: l) (info' :: l').
Proof. unfold revoked, revoked_info. by intros -> ->. Qed.

Lemma revoked_app l1 l1' l2 l2' : revoked l1 l1' → revoked l2 l2' → revoked (l1 ++ l2) (l1' ++ l2').
Proof. unfold revoked. intros -> ->. by rewrite map_app. Qed.

Section Npu.
Context `{AscendLib, UnixLib, RangeLib}.

Lemma file_info_related id path :
  related (on_ok revoked_info) (file_info true id path) (file_info false id path).
Proof.
  unfold file_info. eapply related_try; [|intros [[ma mi] ty] ? <-; by apply related_done].
  intros e h. split; [|done]. by destruct (run e h _).1.
Qed.

Lemma file_infos_related files :
  related (on_ok revoked) (file_infos true files) (file_infos false files).
Proof.
  induction files as [|f files IH]; cbn [file_infos]; [by apply related_done|].
  eapply related_try; [apply file_info_related|]. intros info info' Hi.
  eapply related_try; [exact IH|]. intros l l' Hl. apply related_done. by apply revoked_cons.
Qed.

Lemma device_infos_related ids :
  related (on_ok revoked) (device_infos (npu_info true) ids) (device_infos (npu_info false) ids).
Proof.
  induction ids as [|id ids IH]; cbn [device_infos]; [by apply related_done|].
  eapply related_try; [apply file_info_related|]. intros info info' Hi.
  eapply related_try; [exact IH|]. intros l l' Hl. apply related_done. by apply revoked_cons.
Qed.

Lemma GetSlavePodsDeviceInfo_related ty ps :
  related (on_return (on_ok revoked)) (GetSlavePodsDeviceInfo ty ps (npu_info true))
    (GetSlavePodsDeviceInfo ty ps (npu_info false)).
Proof.
  apply related_panic. intros [devs [err|]]; [by apply related_done|].
  destruct (visible_devices devs) as [ids|]; [|by apply related_done].
  apply related_total, device_infos_related.
Qed.

Lemma npu_related ty pod c ps :
  HasNPU pod c = Returns false →
  related (on_return (on_ok revoked)) (GetDeviceInfosToMount_npu ty pod c ps)
    (GetDeviceInfosToUnmount_npu ty pod c ps).
Proof.
  intros Hhas. unfold GetDeviceInfosToMount_npu, GetDeviceInfosToUnmount_npu. rewrite Hhas.
  cbn [pure panic_bind prog_bind_fix]. eapply related_panic_try; [apply GetSlavePodsDeviceInfo_related|].
  intros l l' Hl. cbn [pure panic_bind prog_bind_fix].
  eapply related_panic_try; [apply related_total, file_infos_related|].
  intros m m' Hm. apply related_done. by apply revoked_app.
Qed.

End Npu.

(** ** The NVIDIA mounters keep the control devices *)

(** The second list denies a prefix of the first; the rest are control devices. *)
Definition revoked_but_driver (infos infos' : list DeviceInfo) : Prop :=
  ∃ devs ctl, infos = devs ++ ctl ∧ Forall (λ d, DeviceID d = "") ctl ∧ revoked devs infos'.

Lemma revoked_but_driver_none infos infos' : revoked infos infos' → revoked_but_driver infos infos'.
Proof. intros Hr. exists infos, []. by rewrite app_nil_r. Qed.

Section Nvidia.
Context `{UnixLib, RangeLib}.

Lemma driver_infos_run e h ctl :
  (run e h driver_infos).1 = Ok ctl → Forall (λ d, DeviceID d = "") ctl.
Proof.
  unfold driver_infos, try_bind. rewrite !run_bind. destruct (run e h _) as [[uvm|] t]; [|done].
  rewrite run_bind. destruct (run e _ _) as [[tools|] t']; [|done].
  cbn. intros [= <-]. by repeat constructor.
Qed.

Lemma slave_gpus_revoked gpus : revoked (map (gpu_info true) gpus) (map (gpu_info false) gpus).
Proof. unfold revoked. by rewrite map_map. Qed.

Lemma gpu_infos_related devs :
  related (on_ok revoked) (gpu_infos true devs) (gpu_infos false devs).
Proof.
  induction devs as [|d devs IH]; cbn [gpu_infos]; [by apply related_done|].
  apply related_same. intros [minor|err]; [|by apply related_done].
  eapply related_try; [exact IH|]. intros l l' Hl. apply related_done. by apply revoked_cons.
Qed.

Lemma slave_infos_related ps :
  Forall (λ p, AnnoIsExpansion (pod_Annotations p) = false) ps →
  related (on_return (on_ok revoked)) (slave_infos true false ps) (slave_infos false true ps).
Proof.
  induction 1 as [|p ps Hp Hps IH]; cbn [slave_infos]; [by apply related_done|].
  rewrite Hp. cbn [andb]. apply related_panic. intros devs.
  eapply related_panic_try; [apply related_total, gpu_infos_related|]. intros l l' Hl.
  eapply related_panic_try; [exact IH|]. intros m m' Hm. apply related_done. by apply revoked_app.
Qed.

(** If the mount succeeds, so does the unmount, with a list in [R]. *)
Definition gives_back (R : list DeviceInfo → list DeviceInfo → Prop)
    (mount unmount : act (result (list DeviceInfo))) : Prop :=
  ∀ e h infos, (run e h mount).1 = Returns (Ok infos) →
    ∃ infos', (run e h unmount).1 = Returns (Ok infos') ∧ R infos infos'.

Lemma related_gives_back R mount unmount :
  related (on_return (on_ok R)) mount unmount → gives_back R mount unmount.
Proof.
  intros Hr e h infos Hm. destruct (Hr e h) as [HR _]. rewrite Hm in HR.
  destruct (run e h unmount).1 as [[infos'|]|]; simpl in HR; [eauto | done..].
Qed.

Lemma gpu_gives_back pod c ps :
  gives_back revoked_but_driver (GetDeviceInfosToMount_gpu pod c ps)
    (GetDeviceInfosToUnmount_gpu pod c ps).
Proof.
  intros e h infos. unfold GetDeviceInfosToMount_gpu, GetDeviceInfosToUnmount_gpu, total, try_bind.
  rewrite !run_bind. destruct (run e h (slave_gpus ps)) as [[gpus|err] t]; [|done].
  pose proof (slave_gpus_revoked gpus) as Hrev. rewrite run_bind.
  destruct (run e (h ++ t) (GetContainerGPUResources _ _ _)) as [[[|g gs]|err] t'].
  2:{ cbn. intros [= <-]. eexists. split; [done|]. by apply revoked_but_driver_none. }
  all: rewrite run_bind; pose proof (driver_infos_run e ((h ++ t) ++ t')) as Hd.
  all: destruct (run _ _ driver_infos) as [[ctl|err1] t1]; cbn; [|done]; intros [= <-].
  all: eexists; split; [done|]; exists (map (gpu_info true) gpus), ctl; auto.
Qed.

Lemma vgpu_gives_back pod c ps :
  Forall (λ p, AnnoIsExpansion (pod_Annotations p) = false) ps →
  gives_back revoked_but_driver (GetDeviceInfosToMount_vgpu pod c ps)
    (GetDeviceInfosToUnmount_vgpu pod c ps).
Proof.
  intros Hps e h infos. unfold GetDeviceInfosToMount_vgpu, GetDeviceInfosToUnmount_vgpu.
  destruct ps as [|p ps]; [done|]. cbn [slice_get lookup list_lookup pure panic_bind prog_bind_fix].
  inversion_clear Hps as [|? ? Hp Hps']. rewrite Hp.
  destruct (slave_infos_related (p :: ps) (ltac:(by constructor)) e h) as [HR _].
  unfold panic_try_bind at 1. unfold panic_bind at 1. rewrite run_bind.
  destruct (run e h (slave_infos true false (p :: ps))) as [[[devs|err]|w] t]; [|done..].
  destruct (run e h (slave_infos false true (p :: ps))).1 as [[infos'|]|]; simpl in HR; [|done..].
  destruct (HasVGPU pod c) as [[]|]; cbn [pure panic_bind prog_bind_fix].
  - cbn. intros [= <-]. eexists. split; [done|]. by apply revoked_but_driver_none.
  - unfold panic_try_bind, panic_bind, total. rewrite !run_bind.
    pose proof (driver_infos_run e (h ++ t)) as Hd.
    destruct (run _ _ driver_infos) as [[ctl|err] t1]; cbn; [|done]. intros [= <-].
    eexists. split; [done|]. exists devs, ctl. auto.
  - done.
Qed.

End Nvidia.

(** ** The three mounters *)

Section Symmetry.
Context `{AscendLib, UnixLib, RangeLib}.

(** C12. In the same circumstances (the same answers from the node), the devices that
    an unmount denies are those that the mount allows. The Ascend mounter takes
    the management devices back as well - in a container without NPUs of its
    own, the only case in which it unmounts at all. The NVIDIA mounters leave
    the control devices of the driver in place, and deny exactly the GPUs. *)
Theorem unmount_revokes_mount devType pod c ps :
  (HasNPU pod c = Returns false →
   gives_back revoked (GetDeviceInfosToMount_npu devType pod c ps)
     (GetDeviceInfosToUnmount_npu devType pod c ps)) ∧
  gives_back revoked_but_driver (GetDeviceInfosToMount_gpu pod c ps)
    (GetDeviceInfosToUnmount_gpu pod c ps) ∧
  (Forall (λ p, AnnoIsExpansion (pod_Annotations p) = false) ps →
   gives_back revoked_but_driver (GetDeviceInfosToMount_vgpu pod c ps)
     (GetDeviceInfosToUnmount_vgpu pod c ps)).
Proof.
  split; [|split].
  - intros Hhas. by apply related_gives_back, npu_related.
  - apply gpu_gives_back.
  - apply vgpu_gives_back.
Qed.

End Symmetry.

(** ** Witnesses *)

#[local] Instance w_ascend : AscendLib := {|
  ResourceNamePrefix := "huawei.com/"; Pod2kl := "kltDev"; PodRealAlloc := "AscendReal";
  CommaSepDev := ","; MiddelLine := "-"; AiCoreResourceName := "npu-core"; VirtualDev := "VIRTUAL";
  Ascend910 := "Ascend910"; Ascend910B := "Ascend910B"; Ascend910A3 := "Ascend910A3";
  Ascend310P := "Ascend310P"; Ascend310 := "Ascend310"; Ascend310B := "Ascend310B";
  IsVirtualDev name := (3 <=? length (Split name "-"))%nat;
  GetDeviceListID names _ :=
    Ok (map (λ name, (ParseInt (default "" (Split name "-" !! 1)) 32).1) names);
  GetPodAnnotationByDeviceType _ _ := Err (PlainError "no annotation");
  CheckErrorMessage _ := false |}.
#[local] Instance w_unix : UnixLib := {| unix_Major z := (z / 256)%Z; unix_Minor z := (z mod 256)%Z |}.
#[local] Instance w_range : RangeLib := {| range V m := map_to_list m |}.

Definition w_pod (name : string) : Pod :=
  mkPod (mkObjectMeta name "" "ml" "uid" "1" None None [] false)
    (mkPodSpec "node" [] [mkPodContainer "main" "" "" [] [] [] ∅ None] None "" "" None "" None) emptyStatus.

Definition w_slaves : list Pod := [w_pod "slave"].

(** The kubelet lists NPU 1 and a GPU for the slave pod; every file is a device. *)
Definition w_env : env := λ _ c,
  match c return reply c with
  | ListPodResources => Ok [mkPodResources "slave" "ml"
      [mkContainerResources "device-container"
         [mkContainerDevices "huawei.com/Ascend910" ["Ascend910-1"]]]]
  | LoadGPUList => [allocate "slave" "ml" "device-container" (New 3 "GPU-3")]
  | Stat _ => SysOk (mkFileInfo true true (Some (236 * 256 + 1)%Z))
  | c => default_reply c
  end.

Example w_npu_mount :
  (run w_env [] (GetDeviceInfosToMount_npu "Ascend910B" (w_pod "train") (mkContainer 0 "main") w_slaves)).1 =
  Returns (Ok (map (λ '(id, path), mkDeviceInfo (mkRule CharDevice 236 1 "rwm" true) id path)
    [("1", "/dev/davinci1"); ("", "/dev/davinci_manager"); ("", "/dev/devmm_svm"); ("", "/dev/hisi_hdc")])).
Proof. vm_compute. reflexivity. Qed.

Example w_gpu_mount :
  (run w_env [] (GetDeviceInfosToMount_gpu (w_pod "train") (mkContainer 0 "main") w_slaves)).1 =
  Returns (Ok (map (λ '(id, path, ma, mi), mkDeviceInfo (mkRule CharDevice ma mi "rw" true) id path)
    [("GPU-3", "/dev/nvidia3", 195, 3); ("", "/dev/nvidiactl", 195, 255);
     ("", "/dev/nvidia-uvm", 236, 1); ("", "/dev/nvidia-uvm-tools", 236, 1)]%Z)).
Proof. vm_compute. reflexivity. Qed.

Lemma unmount_revokes_mount_witness :
  let pod := w_pod "train" in
  let c := mkContainer 0 "main" in
  HasNPU pod c = Returns false ∧
  ((HasNPU pod c = Returns false →
    gives_back revoked (GetDeviceInfosToMount_npu "Ascend910B" pod c w_slaves)
      (GetDeviceInfosToUnmount_npu "Ascend910B" pod c w_slaves)) ∧
   gives_back revoked_but_driver (GetDeviceInfosToMount_gpu pod c w_slaves)
     (GetDeviceInfosToUnmount_gpu pod c w_slaves) ∧
   (Forall (λ p, AnnoIsExpansion (pod_Annotations p) = false) w_slaves →
    gives_back revoked_but_driver (GetDeviceInfosToMount_vgpu pod c w_slaves)
      (GetDeviceInfosToUnmount_vgpu pod c w_slaves))).
Proof.
  split; [reflexivity|].
  apply (unmount_revokes_mount "Ascend910B" (w_pod "train") (mkContainer 0 "main") w_slaves).
Defined.
