(* ===== verification/AuthConfig.v ===== *)
(** * The authentication headers ([pkg/authConfig])

    The aggregation layer of Kubernetes publishes in a config map which request
    headers carry the user, the groups and the extra fields, and which
    certificates sign its requests. [reader] caches the decoded config map under
    its revision. The other components use it through the interface [Reader],
    here the class [ReaderOps]: the state of a reader is passed along. *)
From Stdlib Require Import ZArith Lia.
From stdpp Require Import base gmap strings list.
From S2P Require Import Prelude GoStrings Api Ebpf World Util.

(** crypto/x509, client-go's [cert] and the JSON decoder, at the types used. *)
Class AuthLib := {
  x509Certificate : Type;
  ParseCertsPEM : string → result (list x509Certificate);
  UnmarshalStrings : string → result (list string) }.

(** [type Reader interface]; [Stop] ends the informer. *)
Class ReaderOps `{AuthLib} (R : Type) := {
  GetUserHeaders : R → M (R * result (list string));
  GetGroupHeaders : R → M (R * result (list string));
  GetExtraHeaderPrefixes : R → M (R * result (list string));
  GetClientCA : R → M (R * result (option (list x509Certificate))) }.

(** What a client may rely on: asking for the configuration does nothing but read
    config maps. *)
Definition reads_config (c : cmd) : Prop := match c with GetConfigMap _ => True | _ => False end.

Class ReaderLaws `{ReaderOps R} : Prop := {
  user_reads r : calls reads_config (GetUserHeaders r);
  group_reads r : calls reads_config (GetGroupHeaders r);
  extra_reads r : calls reads_config (GetExtraHeaderPrefixes r);
  ca_reads r : calls reads_config (GetClientCA r) }.

Definition DefaultUserHeader : string := "X-Remote-User".
Definition DefaultGroupHeader : string := "X-Remote-Group".
Definition DefaultExtraHeaderPrefix : string := "X-Remote-Extra-".
Definition configMapNamespace : string := "kube-system".
Definition configMapName : string := "extension-apiserver-authentication".
Definition usernameHeadersKey : string := "requestheader-username-headers".
Definition groupHeadersKey : string := "requestheader-group-headers".
Definition extraPrefixHeadersKey : string := "requestheader-extra-headers-prefix".
Definition clientCaKey : string := "requestheader-client-ca-file".

Section AuthConfig.
Context `{AuthLib}.

(** [type reader struct]; a nil pool is [None]. *)
Record reader := mkReader {
  lastRevision : string;
  userHeaders : list string;
  groupHeaders : list string;
  extraPrefixHeaders : list string;
  clientCa : option (list x509Certificate) }.

Definition newReader : reader := mkReader "" [] [] [] None.

(** [createReaderFromListerWatcher]: an informer is started and its cache filled;
    the resync period is left to it. *)
Definition CreateReader : M (result reader) :=
  err <-- call ProbeConfigMaps ;;
  match err with
  | Some err => Done (Err (wrap_err "error probing the ConfigMap resource: " err))
  | None =>
      _ <-- call StartInformer ;;
      synced <-- call WaitForCacheSync ;;
      if synced : bool then Done (Ok newReader)
      else
        _ <-- call StopInformer ;;
        Done (Err (PlainError "timed out waiting for caches to sync"))
  end.

(** The informer's goroutine is told to stop and waited for. *)
Definition Stop (r : reader) : M unit := call StopInformer.

Definition key : string := configMapNamespace +:+ "/" +:+ configMapName.

Definition getConfigMap : M (result ConfigMap) :=
  r <-- call (GetConfigMap key) ;;
  Done match r with
       | Err err => Err err
       | Ok None => Err (PlainError ("configmap " +:+ key +:+ " not found"))
       | Ok (Some configMap) => Ok configMap
       end.

Definition getStringsFromConfigMap (configMap : ConfigMap) (k : string) : result (list string) :=
  match map_get (cm_Data configMap) k with
  | None => Err (PlainError (k +:+ " not found in configmap " +:+ key))
  | Some data => if str_empty data then Ok [] else UnmarshalStrings data
  end.

(** The part of [refreshCache] after the comparison of revisions: all is decoded
    before a field is assigned. *)
Definition decode (configMap : ConfigMap) : result reader :=
  user ← getStringsFromConfigMap configMap usernameHeadersKey;
  group ← getStringsFromConfigMap configMap groupHeadersKey;
  extra ← getStringsFromConfigMap configMap extraPrefixHeadersKey;
  match map_get (cm_Data configMap) clientCaKey with
  | None => Err (PlainError ("requestheader-client-ca-file not found in configmap " +:+ key))
  | Some requestHeaderClientCA =>
      pool ← ParseCertsPEM requestHeaderClientCA;
      Ok (mkReader (cm_ResourceVersion configMap) (user ++ [DefaultUserHeader])
            (group ++ [DefaultGroupHeader]) (extra ++ [DefaultExtraHeaderPrefix]) (Some pool))
  end.

Definition refreshCache (r : reader) : M (reader * option goerr) :=
  cm <-- getConfigMap ;;
  Done match cm with
       | Err err => (r, Some err)
       | Ok configMap =>
           if String.eqb (lastRevision r) (cm_ResourceVersion configMap) then (r, None) else
           match decode configMap with
           | Err err => (r, Some err)
           | Ok r' => (r', None)
           end
       end.

(** The four getters: refresh, then a field. *)
Definition get_field {A} (field : reader → A) (r : reader) : M (reader * result A) :=
  s <-- refreshCache r ;;
  Done match s with
       | (r, Some err) => (r, Err err)
       | (r, None) => (r, Ok (field r))
       end.

#[export] Instance reader_ops : ReaderOps reader := {|
  GetUserHeaders := get_field userHeaders;
  GetGroupHeaders := get_field groupHeaders;
  GetExtraHeaderPrefixes := get_field extraPrefixHeaders;
  GetClientCA := get_field clientCa |}.

Lemma refreshCache_reads r : calls reads_config (refreshCache r).
Proof. unfold refreshCache, getConfigMap. solve_calls. Qed.

Lemma get_field_reads {A} (field : reader → A) r : calls reads_config (get_field field r).
Proof. unfold get_field. calls_step; [apply refreshCache_reads | solve_calls]. Qed.

#[export] Instance reader_laws : ReaderLaws.
Proof. split; intros; apply get_field_reads. Qed.

(** ** Snapshots *)

(** The reader holds what this config map says. *)
Definition snapshot (r : reader) (configMap : ConfigMap) : Prop := decode configMap = Ok r.

(** The reader is fresh, or holds what one of the config maps read so far says. *)
Definition consistent (t : trace) (r : reader) : Prop :=
  r = newReader ∨
  ∃ configMap, Ev (GetConfigMap key) (Ok (Some configMap)) ∈ t ∧ snapshot r configMap.

Lemma snapshot_revision r configMap : snapshot r configMap → lastRevision r = cm_ResourceVersion configMap.
Proof.
  unfold snapshot, decode, mbind, result_bind. intros Hd.
  destruct (getStringsFromConfigMap configMap usernameHeadersKey); [|done].
  destruct (getStringsFromConfigMap configMap groupHeadersKey); [|done].
  destruct (getStringsFromConfigMap configMap extraPrefixHeadersKey); [|done].
  destruct (map_get _ _); [|done]. destruct (ParseCertsPEM _); [|done]. by simplify_eq.
Qed.

Lemma consistent_app t t' r : consistent t r → consistent (t ++ t') r.
Proof. intros [->|(cm & Hcm & Hs)]; [by left|]. right. exists cm. rewrite elem_of_app. auto. Qed.

(** C28. The cache is never a mixture of two revisions. A reader that has been
    consistent stays so through every getter, whatever the informer answers: an
    error (no config map, a key that is missing, a list or certificate that does
    not parse) leaves all fields as they were, and a getter that succeeds
    answers with its field of a config map that the informer has returned and
    that has the revision of the current one - or of the fresh reader, if that
    revision is the empty string. *)
Theorem getters_consistent {A} (field : reader → A) r t0 e h :
  consistent t0 r →
  wp e h (get_field field r) (λ '(r', res) t,
    consistent (t0 ++ t) r' ∧
    match res with
    | Err _ => r' = r
    | Ok v => v = field r' ∧ ∃ configMap,
        t = [Ev (GetConfigMap key) (Ok (Some configMap))] ∧
        lastRevision r' = cm_ResourceVersion configMap ∧
        (lastRevision r ≠ cm_ResourceVersion configMap → snapshot r' configMap)
    end).
Proof.
  intros Hr. unfold get_field, refreshCache, getConfigMap. do 3 wp_step. wp_step.
  destruct r0 as [[cm|]|err]; wp_step; cbn [app]; wp_step; cbn [app];
    try (split; [by apply consistent_app | done]).
  destruct (String.eqb_spec (lastRevision r) (cm_ResourceVersion cm)) as [Heq|Hne].
  { split; [by apply consistent_app|]. split; [done|]. exists cm. split; [done|]. by split. }
  destruct (decode cm) as [r'|err] eqn:Hd; [|split; [by apply consistent_app | done]].
  split; [right; exists cm; split; [set_solver | done]|]. split; [done|]. exists cm.
  split; [done|]. split; [by apply snapshot_revision | done].
Qed.

End AuthConfig.

(** ** Witnesses *)

#[local] Instance w_auth : AuthLib := {|
  x509Certificate := string;
  ParseCertsPEM s := if str_empty s then Err (PlainError "no certificates") else Ok [s];
  UnmarshalStrings s := Ok (Split s " ") |}.

Definition w_configMap : ConfigMap :=
  mkConfigMap "42" (Some (<[usernameHeadersKey := "X-User"]> (<[groupHeadersKey := ""]>
    (<[extraPrefixHeadersKey := ""]> {[clientCaKey := "ca"]})))).

Definition w_env : env := λ _ c,
  match c return reply c with
  | GetConfigMap _ => Ok (Some w_configMap)
  | c => default_reply c
  end.

Example w_headers :
  (run w_env [] (GetUserHeaders newReader)).1 =
  (mkReader "42" ["X-User"; "X-Remote-User"] ["X-Remote-Group"] ["X-Remote-Extra-"] (Some ["ca"]),
   Ok ["X-User"; "X-Remote-User"]).
Proof. reflexivity. Qed.

Lemma getters_consistent_witness :
  wp w_env [] (get_field userHeaders newReader) (λ '(r', res) t,
    consistent ([] ++ t) r' ∧
    match res with
    | Err _ => r' = newReader
    | Ok v => v = userHeaders r' ∧ ∃ configMap,
        t = [Ev (GetConfigMap key) (Ok (Some configMap))] ∧
        lastRevision r' = cm_ResourceVersion configMap ∧
        (lastRevision newReader ≠ cm_ResourceVersion configMap → snapshot r' configMap)
    end).
Proof. apply (getters_consistent userHeaders newReader [] w_env []). by left. Defined.
