(* ===== verification/FakeReader.v ===== *)
(** * The fake reader ([pkg/authConfig/fake])

    A reader for tests, made of functions that may be absent; a call of an absent
    one panics. What [NewFakeReader] sets agrees with the reader of [AuthConfig]. *)
From Stdlib Require Import ZArith Lia.
From stdpp Require Import base gmap strings list.
From S2P Require Import Prelude GoStrings Api Ebpf World Resources AuthConfig.

Section Fake.
Context `{AuthLib}.

Record FakeReader := mkFakeReader {
  GetUserHeadersFunc : option (M (result (list string)));
  GetGroupHeadersFunc : option (M (result (list string)));
  GetExtraHeaderPrefixesFunc : option (M (result (list string)));
  GetClientCAFunc : option (M (result (option (list x509Certificate)))) }.

Definition NewFakeReader : FakeReader := {|
  GetUserHeadersFunc := Some (Done (Ok [DefaultUserHeader]));
  GetGroupHeadersFunc := Some (Done (Ok [DefaultGroupHeader]));
  GetExtraHeaderPrefixesFunc := Some (Done (Ok [DefaultExtraHeaderPrefix]));
  GetClientCAFunc := None |}.

(** The shape of the four methods. *)
Definition expect {A} (method : string) (func : option (M A)) : act A :=
  match func with
  | None => Done (Panics ("Unexpected call to " +:+ method))
  | Some func => total func
  end.

Definition fake_GetUserHeaders (f : FakeReader) : act (result (list string)) :=
  expect "GetUserHeaders" (GetUserHeadersFunc f).
Definition fake_GetGroupHeaders (f : FakeReader) : act (result (list string)) :=
  expect "GetGroupHeaders" (GetGroupHeadersFunc f).
Definition fake_GetExtraHeaderPrefixes (f : FakeReader) : act (result (list string)) :=
  expect "GetExtraHeaderPrefixes" (GetExtraHeaderPrefixesFunc f).
Definition fake_GetClientCA (f : FakeReader) : act (result (option (list x509Certificate))) :=
  expect "GetClientCA" (GetClientCAFunc f).

Definition fake_Stop (f : FakeReader) : M unit := Done tt.

(** A config map that names no headers of its own. *)
Definition no_headers (configMap : ConfigMap) : Prop :=
  Forall (λ k, getStringsFromConfigMap configMap k = Ok [])
    [usernameHeadersKey; groupHeadersKey; extraPrefixHeadersKey].

(** A fresh fake answers like a reader of such a config map, without a call, and
    has no certificates. *)
Lemma NewFakeReader_agrees r configMap e h :
  snapshot r configMap → no_headers configMap →
  run e h (fake_GetUserHeaders NewFakeReader) = (Returns (Ok (userHeaders r)), []) ∧
  run e h (fake_GetGroupHeaders NewFakeReader) = (Returns (Ok (groupHeaders r)), []) ∧
  run e h (fake_GetExtraHeaderPrefixes NewFakeReader) = (Returns (Ok (extraPrefixHeaders r)), []) ∧
  run e h (fake_GetClientCA NewFakeReader) = (Panics "Unexpected call to GetClientCA", []).
Proof.
  unfold snapshot, decode, no_headers, mbind, result_bind. rewrite !Forall_cons.
  intros Hd (Hu & Hg & He & _). rewrite Hu, Hg, He in Hd.
  destruct (map_get _ _); [|done]. destruct (ParseCertsPEM _); [|done]. by simplify_eq.
Qed.

End Fake.
