(* ===== verification/ApiServer.v ===== *)
(** * The HTTP service ([pkg/server/apiserver])

    A request names a pod; the service finds the mounter on the node of that pod
    and forwards the request over gRPC. Requests and responses of go-restful are
    records with the fields that the source reads and writes. The reader of the
    authentication headers enters through its interface, [ReaderOps]. *)
From Stdlib Require Import ZArith Lia.
From stdpp Require Import base gmap strings list.
From S2P Require Import Prelude GoStrings Api Ebpf World Resources Util MounterUtil AuthConfig.

(** ** Requests and responses *)

(** [request.Request.Header] is a map from canonical names; [Body] is what
    [io.ReadAll] returns. *)
Record Request := mkRequest {
  PathParameters : gmap string string;
  QueryParameters : gmap string string;
  Header : gmap string (list string);
  Body : result string }.

Definition PathParameter (r : Request) (k : string) : string := default "" (PathParameters r !! k).
Definition QueryParameter (r : Request) (k : string) : string := default "" (QueryParameters r !! k).

Inductive Response :=
  | Written (message : string)
  | WrittenError (status : Z) (err : goerr).

Definition StatusBadRequest : Z := 400.
Definition StatusNotFound : Z := 404.
Definition StatusInternalServerError : Z := 500.

Record requestMountBody := mkRequestMountBody {
  Resources : gomap string;
  Annotations : gomap string;
  Labels : gomap string;
  Patches : list string }.

Record requestMountParams := mkMountParams {
  m_body : requestMountBody;
  m_container : string;
  m_deviceType : string;
  m_name : string;
  m_namespace : string;
  m_timeoutSeconds : Z }.

Record requestUnMountParams := mkUnMountParams {
  u_name : string;
  u_namespace : string;
  u_container : string;
  u_deviceType : string;
  u_timeoutSeconds : Z;
  u_force : bool }.

(** [json.Unmarshal] into the body, and [strconv.Quote] of the message of a number
    that does not parse. *)
Class BodyLib := {
  UnmarshalBody : string → result requestMountBody;
  Quote : string → string }.

(** ** Parameters *)

Definition NumError_text (e : NumError) : string :=
  match e with ErrSyntax => "invalid syntax" | ErrRange => "value out of range" end.

Definition getWaitTimeoutSecond `{BodyLib} (request : Request) : result Z :=
  let timeoutParam := QueryParameter request "wait_second" in
  if str_empty timeoutParam then Ok 10%Z else
  match ParseInt timeoutParam 32 with
  | (_, Some err) =>
      Err (PlainError ("failed to parse timeout: strconv.ParseInt: parsing " +:+ Quote timeoutParam
                         +:+ ": " +:+ NumError_text err))
  | (timeout, None) =>
      if (timeout <? 0)%Z
      then Err (PlainError "the timeout value can only be a positive integer") else Ok timeout
  end.

(** The part the two readers share: namespace, name, container and device type. *)
Definition read_target (request : Request) : result (string * string * string * string) :=
  let namespace := TrimSpace (PathParameter request "namespace") in
  let name := TrimSpace (PathParameter request "name") in
  if str_empty namespace || str_empty name
  then Err (PlainError "namespace and name parameters are required") else
  let container := TrimSpace (QueryParameter request "container") in
  let devType := TrimSpace (QueryParameter request "device_type") in
  if str_empty devType then Err (PlainError "device_type parameters are required")
  else Ok (namespace, name, container, devType).

Definition readMountRequestParameters `{BodyLib} (request : Request) : result requestMountParams :=
  '(namespace, name, container, devType) ← read_target request;
  timeout ← getWaitTimeoutSecond request;
  body ← Body request;
  reqBody ← UnmarshalBody body;
  Ok (mkMountParams reqBody container devType name namespace (wrapU 32 timeout)).

Definition readUnMountRequestParameters `{BodyLib} (request : Request) : result requestUnMountParams :=
  '(namespace, name, container, devType) ← read_target request;
  timeout ← getWaitTimeoutSecond request;
  let force := String.eqb (ToLower (QueryParameter request "force")) "true" in
  Ok (mkUnMountParams name namespace container devType (wrapU 32 timeout) force).

(** ** The service *)

Record service := mkService {
  targetServerPort : string;
  targetNamespace : string;
  labelSelector : string }.

(** An empty selector is refused. *)
Definition NewService (mounterPort mounterNamespace : string) (mounterLabelSelector : option string)
    : result service :=
  match mounterLabelSelector with
  | None => Err (PlainError "The label selector of the device mounter cannot be empty")
  | Some selector =>
      if str_empty selector
      then Err (PlainError "The label selector of the device mounter cannot be empty")
      else Ok (mkService mounterPort mounterNamespace selector)
  end.

(** The loop of [GetMounterPodOnNodeName] over the listed pods. *)
Fixpoint find_mounter_pod (nodeName : string) (items : list Pod) : result (option Pod) :=
  match items with
  | [] => Ok None
  | mounterPod :: rest =>
      if String.eqb (spec_NodeName (pod_Spec mounterPod)) nodeName &&
         String.eqb (status_Phase (pod_Status mounterPod)) PodRunning
      then
        if forallb cs_Ready (status_ContainerStatuses (pod_Status mounterPod)) then Ok (Some mounterPod)
        else Err (PlainError ("the device mounter is not ready on the target node " +:+ nodeName))
      else find_mounter_pod nodeName rest
  end.

Definition GetMounterPodOnNodeName (s : service) (nodeName : string) : M (result Pod) :=
  podList <-- call (PodList (targetNamespace s) (labelSelector s) "0") ;;
  Done match podList with
       | Err err => Err (wrap_err "error getting device mounter Pod: " err)
       | Ok items =>
           match find_mounter_pod nodeName items with
           | Err err => Err err
           | Ok None => Err (PlainError ("there is no device mounter on the target node " +:+ nodeName))
           | Ok (Some mPod) =>
               if String.eqb (status_Phase (pod_Status mPod)) PodRunning then Ok mPod
               else Err (PlainError "target device mounter not in running state")
           end
       end.

(** [ParseLabelSelector] up to [labels.SelectorFromSet]: pieces without "=" are
    dropped, later ones overwrite. *)
Definition ParseLabelSelector (mounterSelector : string) : gmap string string :=
  foldl (λ set split,
    match Split (TrimSpace split) "=" with
    | k :: v :: _ => <[TrimSpace k := TrimSpace v]> set
    | _ => set
    end) ∅ (Split (TrimSpace mounterSelector) ",").

(** *** Authentication *)

Section Service.
Context `{AuthLib, RangeLib, BodyLib, R : Type, !ReaderOps R}.

(** The first header that is present with a value. *)
Fixpoint find_username (requestHeader : gmap string (list string)) (userHeaders : list string)
    : result string :=
  match userHeaders with
  | [] => Err (PlainError "a valid user header is required")
  | header :: rest =>
      match requestHeader !! header with
      | Some (username :: _) => Ok username
      | _ => find_username requestHeader rest
      end
  end.

Definition getAuthUsername (r : R) (requestHeader : gmap string (list string))
    : M (R * result string) :=
  s <-- GetUserHeaders r ;;
  Done match s with
       | (r, Err err) => (r, Err err)
       | (r, Ok userHeaders) => (r, find_username requestHeader userHeaders)
       end.

(** The groups and whether a header was found, which may be empty. *)
Definition collect_groups (requestHeader : gmap string (list string)) (groupHeaders : list string)
    : list string * bool :=
  foldl (λ '(groups, foundHeader) header,
    match requestHeader !! header with
    | Some vals => (groups ++ vals, true)
    | None => (groups, foundHeader)
    end) ([], false) groupHeaders.

Definition getAuthGroups (r : R) (requestHeader : gmap string (list string))
    : M (R * result (list string)) :=
  s <-- GetGroupHeaders r ;;
  Done match s with
       | (r, Err err) => (r, Err err)
       | (r, Ok groupHeaders) =>
           let '(groups, foundHeader) := collect_groups requestHeader groupHeaders in
           (r, if foundHeader : bool then Ok groups
               else Err (PlainError "a valid group header is required"))
       end.

(** A header goes under its name without the first prefix that fits. *)
Definition collect_extras (prefixes : list string) (headers : list (string * list string))
    : gmap string (list string) :=
  foldl (λ extras '(k, values),
    match List.find (λ prefix, HasPrefix k prefix) prefixes with
    | Some prefix => <[TrimPrefix k prefix := values]> extras
    | None => extras
    end) ∅ headers.

Definition getAuthExtraHeaders (r : R) (requestHeader : gmap string (list string))
    : M (R * result (gmap string (list string))) :=
  s <-- GetExtraHeaderPrefixes r ;;
  Done match s with
       | (r, Err err) => (r, Err err)
       | (r, Ok prefixes) => (r, Ok (collect_extras prefixes (range requestHeader)))
       end.

Definition check (r : R) (request : Request) : M (R * option goerr) :=
  user <-- getAuthUsername r (Header request) ;;
  match user with
  | (r, Err err) => Done (r, Some err)
  | (r, Ok _) =>
      groups <-- getAuthGroups r (Header request) ;;
      match groups with
      | (r, Err err) => Done (r, Some err)
      | (r, Ok _) =>
          extras <-- getAuthExtraHeaders r (Header request) ;;
          Done (extras.1, err_of extras.2)
      end
  end.

(** *** Handlers *)

Definition get_error (err : goerr) : Response :=
  if IsNotFound err then WrittenError StatusNotFound (wrap_err "target pod does not exist: " err)
  else WrittenError StatusInternalServerError (wrap_err "error getting Pod: " err).

(** [time.Duration(timeoutSeconds) * time.Second], an int64 of nanoseconds. *)
Definition timeout_of (timeoutSeconds : Z) : Z := wrapS 64 (timeoutSeconds * 1000000000).

(** From the check to the answer of the mounter; [invoke] is the method called. *)
Definition forward (s : service) (r : R) (request : Request) (namespace name : string)
    (invoke : Z → M (result DeviceResponse)) : M (R * Response) :=
  c <-- check r request ;;
  match c with
  | (r, Some err) => Done (r, WrittenError StatusBadRequest err)
  | (r, None) =>
  pod <-- call (PodGet namespace name "0") ;;
  match pod with
  | Err err => Done (r, get_error err)
  | Ok pod =>
  mPod <-- GetMounterPodOnNodeName s (spec_NodeName (pod_Spec pod)) ;;
  match mPod with
  | Err err => Done (r, WrittenError StatusInternalServerError err)
  | Ok mPod =>
  conn <-- call (GrpcDial (status_PodIP (pod_Status mPod) +:+ targetServerPort s)) ;;
  match conn with
  | Err err =>
      Done (r, WrittenError StatusInternalServerError
                 (wrap_err "failed to connect to device mounter: " err))
  | Ok conn =>
      resp <-- invoke conn ;;
      _ <-- call (GrpcClose conn) ;;
      Done (r, match resp with
               | Err err => WrittenError StatusInternalServerError err
               | Ok resp =>
                   if decide (Result resp = ResultCode_Success) then Written (resp_Message resp)
                   else WrittenError StatusBadRequest (PlainError (Errorf (resp_Message resp)))
               end)
  end end end end.

Definition container_of (name : string) : option Container :=
  if str_empty name then None else Some (mkContainer 0 name).

Definition mount_request (p : requestMountParams) : MountDeviceRequest :=
  mkMountDeviceRequest (m_name p) (m_namespace p) (container_of (m_container p))
    (Resources (m_body p)) (Annotations (m_body p)) (Labels (m_body p)) (m_deviceType p)
    (Patches (m_body p)).

Definition MountDevice (s : service) (r : R) (request : Request) : M (R * Response) :=
  match readMountRequestParameters request with
  | Err err => Done (r, WrittenError StatusBadRequest err)
  | Ok params =>
      forward s r request (m_namespace params) (m_name params) (λ conn,
        call (GrpcMountDevice conn (timeout_of (m_timeoutSeconds params)) (mount_request params)))
  end.

Definition unmount_request (p : requestUnMountParams) : UnMountDeviceRequest :=
  mkUnMountDeviceRequest (u_name p) (u_namespace p) (container_of (u_container p)) (u_deviceType p)
    (u_force p).

Definition UnMountDevice (s : service) (r : R) (request : Request) : M (R * Response) :=
  match readUnMountRequestParameters request with
  | Err err => Done (r, WrittenError StatusBadRequest err)
  | Ok params =>
      forward s r request (u_namespace params) (u_name params) (λ conn,
        call (GrpcUnMountDevice conn (timeout_of (u_timeoutSeconds params)) (unmount_request params)))
  end.

End Service.
