(* ===== verification/ApiServerFacts.v ===== *)
(** * Theorems about the HTTP service

    What an answer of the handlers says about the mounter that was called, and
    what a request must carry before anything is called. The reader of the
    headers is any implementation of [ReaderLaws]. *)
From Stdlib Require Import ZArith Lia.
From stdpp Require Import base gmap strings list.
From S2P Require Import Prelude GoStrings Api Ebpf World Resources Util MounterUtil AuthConfig ApiServer.

Lemma getWaitTimeoutSecond_range `{BodyLib} request timeout :
  getWaitTimeoutSecond request = Ok timeout → (0 ≤ timeout < 2 ^ 31)%Z.
Proof.
  unfold getWaitTimeoutSecond. destruct (str_empty _); [intros [= <-]; lia|].
  destruct (ParseInt _ 32) as [z [err|]] eqn:Hp; [done|].
  destruct (Z.ltb_spec z 0); [done|]. intros [= <-]. pose proof (ParseInt_range (QueryParameter request "wait_second") 32 ltac:(lia)) as Hr.
  rewrite Hp in Hr. simpl in Hr. lia.
Qed.

(** The deadline of a request is the number of seconds asked for: neither the
    conversion to uint32 nor the multiplication overflows. *)
Lemma timeout_exact z : (0 ≤ z < 2 ^ 31)%Z → timeout_of (wrapU 32 z) = (z * 1000000000)%Z.
Proof. intros Hz. unfold timeout_of. rewrite wrapU_small, wrapS_small by lia. done. Qed.

Lemma mount_seconds `{BodyLib} request params :
  readMountRequestParameters request = Ok params →
  ∃ seconds, getWaitTimeoutSecond request = Ok seconds ∧
    timeout_of (m_timeoutSeconds params) = (seconds * 1000000000)%Z.
Proof.
  unfold readMountRequestParameters, mbind, result_bind.
  destruct (read_target request) as [[[[ns n] c] ty]|]; [|done].
  destruct (getWaitTimeoutSecond request) as [z|] eqn:Hz; [|done].
  destruct (Body request); [|done]. destruct (UnmarshalBody _); [|done]. intros [= <-].
  exists z. split; [done|]. eapply timeout_exact, getWaitTimeoutSecond_range, Hz.
Qed.

Lemma unmount_seconds `{BodyLib} request params :
  readUnMountRequestParameters request = Ok params →
  ∃ seconds, getWaitTimeoutSecond request = Ok seconds ∧
    timeout_of (u_timeoutSeconds params) = (seconds * 1000000000)%Z.
Proof.
  unfold readUnMountRequestParameters, mbind, result_bind.
  destruct (read_target request) as [[[[ns n] c] ty]|]; [|done].
  destruct (getWaitTimeoutSecond request) as [z|] eqn:Hz; [|done]. intros [= <-].
  exists z. split; [done|]. eapply timeout_exact, getWaitTimeoutSecond_range, Hz.
Qed.

Section Service.
Context `{ReaderOps R, RangeLib, BodyLib}.

(** A pod of the list that runs on the node and is ready. *)
Definition serves (nodeName : string) (mPod : Pod) : Prop :=
  spec_NodeName (pod_Spec mPod) = nodeName ∧ status_Phase (pod_Status mPod) = PodRunning ∧
  Forall (λ status, cs_Ready status = true) (status_ContainerStatuses (pod_Status mPod)).

Lemma find_mounter_pod_spec nodeName items mPod :
  find_mounter_pod nodeName items = Ok (Some mPod) → mPod ∈ items ∧ serves nodeName mPod.
Proof.
  induction items as [|p items IH]; simpl; [done|].
  destruct (String.eqb_spec (spec_NodeName (pod_Spec p)) nodeName) as [Hn|]; simpl; [|by intros Hf; destruct (IH Hf); split; [right|]].
  destruct (String.eqb_spec (status_Phase (pod_Status p)) PodRunning) as [Hp|]; simpl;
    [|by intros Hf; destruct (IH Hf); split; [right|]].
  destruct (forallb _ _) eqn:Hr; [|done]. intros [= <-]. split; [left|]. split_and!; try done.
  apply Forall_forall. intros st Hst. by apply (proj1 (forallb_forall _ _) Hr), list_elem_of_In.
Qed.

Lemma GetMounterPodOnNodeName_wp s nodeName e h :
  wp e h (GetMounterPodOnNodeName s nodeName) (λ r t, ∀ mPod, r = Ok mPod →
    ∃ items, t = [Ev (PodList (targetNamespace s) (labelSelector s) "0") (Ok items)] ∧
      mPod ∈ items ∧ serves nodeName mPod).
Proof.
  unfold GetMounterPodOnNodeName. wp_step. wp_step. wp_step. intros mPod.
  destruct r as [items|]; [|done]. destruct (find_mounter_pod _ _) as [[p|]|] eqn:Hf; [|done..].
  destruct (String.eqb _ _); [|done]. intros [= <-]. exists items. split; [done|].
  by apply find_mounter_pod_spec.
Qed.

(** A success is the answer of a mounter on the node of the pod; [answers] is the
    call that was made with its answer. *)
Definition forwarded (s : service) (namespace name msg : string)
    (answers : Z → result DeviceResponse → event reply) (t : trace) : Prop :=
  ∃ pod items mPod conn,
    Ev (PodGet namespace name "0") (Ok pod) ∈ t ∧
    Ev (PodList (targetNamespace s) (labelSelector s) "0") (Ok items) ∈ t ∧
    mPod ∈ items ∧ serves (spec_NodeName (pod_Spec pod)) mPod ∧
    Ev (GrpcDial (status_PodIP (pod_Status mPod) +:+ targetServerPort s)) (Ok conn) ∈ t ∧
    answers conn (Ok (mkDeviceResponse ResultCode_Success msg)) ∈ t.

Lemma forward_wp s r request namespace name invoke answers e h :
  (∀ conn e h, wp e h (invoke conn) (λ res t, t = [answers conn res])) →
  wp e h (forward s r request namespace name invoke) (λ '(_, resp) t, ∀ msg,
    resp = Written msg → forwarded s namespace name msg answers t).
Proof.
  intros Hinv. unfold forward. wp_step. eapply wp_mono; [|apply wp_true].
  intros [r1 [err|]] t1 _; [by wp_step|]. wp_step. wp_step. destruct r0 as [pod|err]; cbn beta iota.
  2:{ wp_step. unfold get_error. by case_match. }
  wp_step. eapply wp_mono; [|apply GetMounterPodOnNodeName_wp]. intros [mPod|err] t2 Hm; [|by wp_step].
  destruct (Hm mPod eq_refl) as (items & -> & Hin & Hserves). wp_step. wp_step.
  destruct r0 as [conn|err]; cbn beta iota; [|by wp_step].
  wp_step. eapply wp_mono; [|apply Hinv]. intros resp t3 ->. wp_step. wp_step. wp_step. intros msg Hresp.
  destruct resp as [[code m]|err]; [|done]. cbn in Hresp. case_decide as Hc; [|done].
  injection Hresp as <-. subst code. exists pod, items, mPod, conn.
  rewrite !elem_of_app, !elem_of_cons. split_and!; auto 10.
Qed.

(** C21. A success is never made up. Whatever the cluster answers, an HTTP success
    of the two handlers carries the message of a mounter that answered success
    to exactly this request, with a deadline of the seconds asked for (no
    overflow on the way from the query to the nanoseconds), over a connection to
    a ready, running mounter pod of the configured selector on the node of the
    pod the request names. *)
Theorem apiserver_forwards s r request e h :
  wp e h (MountDevice s r request) (λ '(_, resp) t, ∀ msg, resp = Written msg →
    ∃ params seconds, readMountRequestParameters request = Ok params ∧
      getWaitTimeoutSecond request = Ok seconds ∧
      forwarded s (m_namespace params) (m_name params) msg
        (λ conn, Ev (GrpcMountDevice conn (seconds * 1000000000) (mount_request params))) t) ∧
  wp e h (UnMountDevice s r request) (λ '(_, resp) t, ∀ msg, resp = Written msg →
    ∃ params seconds, readUnMountRequestParameters request = Ok params ∧
      getWaitTimeoutSecond request = Ok seconds ∧
      forwarded s (u_namespace params) (u_name params) msg
        (λ conn, Ev (GrpcUnMountDevice conn (seconds * 1000000000) (unmount_request params))) t).
Proof.
  split.
  - unfold MountDevice. destruct (readMountRequestParameters request) as [params|err] eqn:Hp; [|by wp_step].
    destruct (mount_seconds request params Hp) as (seconds & Hs & Ht).
    eapply wp_mono; [|apply (forward_wp _ _ _ _ _ _
      (λ conn, Ev (GrpcMountDevice conn (seconds * 1000000000) (mount_request params))))].
    + intros [r' resp] t Hf msg Hmsg. exists params, seconds. auto.
    + intros conn e' h'. rewrite Ht. wp_step. done.
  - unfold UnMountDevice. destruct (readUnMountRequestParameters request) as [params|err] eqn:Hp; [|by wp_step].
    destruct (unmount_seconds request params Hp) as (seconds & Hs & Ht).
    eapply wp_mono; [|apply (forward_wp _ _ _ _ _ _
      (λ conn, Ev (GrpcUnMountDevice conn (seconds * 1000000000) (unmount_request params))))].
    + intros [r' resp] t Hf msg Hmsg. exists params, seconds. auto.
    + intros conn e' h'. rewrite Ht. wp_step. done.
Qed.

(** ** Authentication *)

(** The request has a value under one of the user headers, and one of the group
    headers (maybe without a value). *)
Definition authenticated (requestHeader : gmap string (list string))
    (userHeaders groupHeaders : list string) : Prop :=
  (∃ header username more, header ∈ userHeaders ∧ requestHeader !! header = Some (username :: more)) ∧
  (∃ header vals, header ∈ groupHeaders ∧ requestHeader !! header = Some vals).

Lemma find_username_Ok requestHeader users u :
  find_username requestHeader users = Ok u →
  ∃ header more, header ∈ users ∧ requestHeader !! header = Some (u :: more).
Proof.
  induction users as [|k users IH]; simpl; [done|].
  destruct (requestHeader !! k) as [[|u' more]|] eqn:Hk;
    [intros Hf; destruct (IH Hf) as (k' & m & ? & ?); exists k', m; by split; [right|] | |
     intros Hf; destruct (IH Hf) as (k' & m & ? & ?); exists k', m; by split; [right|]].
  intros [= <-]. exists k, more. by split; [left|].
Qed.

Lemma collect_groups_found requestHeader groups :
  (collect_groups requestHeader groups).2 = true →
  ∃ header vals, header ∈ groups ∧ requestHeader !! header = Some vals.
Proof.
  unfold collect_groups. generalize (@nil string). assert (false = true → False) as Hb by done.
  revert Hb. generalize false. induction groups as [|k groups IH]; intros b Hb l; cbn [foldl].
  { intros Ht. by destruct (Hb Ht). }
  destruct (requestHeader !! k) as [vals|] eqn:Hk.
  - intros _. exists k, vals. by split; [left|].
  - intros Ht. destruct (IH b Hb l Ht) as (k' & vals & ? & ?). exists k', vals. by split; [right|].
Qed.

(** The request carries what the reader [r] answers after [h] when it is asked for
    the user headers and then for the group headers. *)
Definition passed (r : R) (request : Request) (e : env) (h : trace) : Prop :=
  let '((r1, users), t) := run e h (GetUserHeaders r) in
  match users, (run e (h ++ t) (GetGroupHeaders r1)).1.2 with
  | Ok users, Ok groups => authenticated (Header request) users groups
  | _, _ => False
  end.

Context `{!ReaderLaws}.

Lemma check_wp r request e h :
  wp e h (check r request) (λ '(_, err) t,
    Forall (λ ev, reads_config (ev_cmd ev)) t ∧ (err = None → passed r request e h)).
Proof.
  assert (∀ A (p : M A) h, calls reads_config p →
    wp e h p (λ a t, run e h p = (a, t) ∧ Forall (λ ev, reads_config (ev_cmd ev)) t)) as Hrun.
  { intros A p h0 Hp. specialize (Hp e h0). unfold wp in *. by destruct (run e h0 p). }
  unfold check, getAuthUsername, getAuthGroups, getAuthExtraHeaders. do 2 wp_step.
  eapply wp_mono; [|apply Hrun, user_reads]. intros [r1 [users|err]] t1 [Hu Ht1]; wp_step; cbn beta iota;
    rewrite ?app_nil_r; [|wp_step; rewrite ?app_nil_r; by split].
  destruct (find_username (Header request) users) as [u|err] eqn:Hf; cbn beta iota;
    [|wp_step; rewrite ?app_nil_r; by split].
  do 2 wp_step. eapply wp_mono; [|apply Hrun, group_reads].
  intros [r2 [groups|err]] t2 [Hg Ht2]; wp_step; cbn beta iota; rewrite ?app_nil_r;
    [|wp_step; rewrite ?app_nil_r; split; [by apply Forall_app | done]].
  destruct (collect_groups (Header request) groups) as [gs []] eqn:Hc; cbn beta iota;
    [|wp_step; rewrite ?app_nil_r; split; [by apply Forall_app | done]].
  do 2 wp_step. eapply wp_mono; [|apply Hrun, extra_reads].
  intros [r3 extras] t3 [_ Ht3]. wp_step. wp_step. rewrite ?app_nil_r.
  split; [by rewrite !Forall_app|]. intros _. unfold passed. rewrite Hu, Hg. split.
  - destruct (find_username_Ok _ _ _ Hf) as (k & more & ? & ?). eauto.
  - apply collect_groups_found. by rewrite Hc.
Qed.

(** The connection is closed, and nothing but the configuration is read unless the
    check has passed. *)
Definition gated (r : R) (request : Request) (e : env) (h t : trace) : Prop :=
  balanced t ∧ (Forall (λ ev, reads_config (ev_cmd ev)) t ∨ passed r request e h).

Lemma forward_gated s r request namespace name invoke e h :
  (∀ conn, bal (λ _, True) (invoke conn)) →
  wp e h (forward s r request namespace name invoke) (λ _ t, gated r request e h t).
Proof.
  intros Hinv. apply wp_and.
  - apply (bal_balanced (λ _, True)). unfold forward. apply leaves_bind.
    { apply (calls_bal _ reads_config); [by intros []|]. unfold check, getAuthUsername, getAuthGroups,
        getAuthExtraHeaders. calling; first [apply user_reads | apply group_reads | apply extra_reads]. }
    intros [r1 [err|]]; [balance|]. apply leaves_neutral; [done..|]. intros [pod|err]; [|balance].
    apply leaves_bind; [unfold GetMounterPodOnNodeName; balance|]. intros [mPod|err]; [|balance].
    apply leaves_call; [done|]. intros [conn|err]; [|balance].
    apply leaves_bind; [apply Hinv|]. intros rep. balance.
  - unfold forward. wp_step. eapply wp_mono; [|apply check_wp]. intros [r1 [err|]] t [Ht Hp].
    + wp_step. left. by rewrite app_nil_r.
    + eapply wp_mono; [|apply wp_true]. auto.
Qed.

(** The handlers are gated. *)
Lemma handlers_gated s r request e h :
  wp e h (MountDevice s r request) (λ _ t, gated r request e h t) ∧
  wp e h (UnMountDevice s r request) (λ _ t, gated r request e h t).
Proof.
  split.
  - unfold MountDevice. destruct (readMountRequestParameters request); [|by wp_step; split; [|left]].
    apply forward_gated. intros conn. balance.
  - unfold UnMountDevice. destruct (readUnMountRequestParameters request); [|by wp_step; split; [|left]].
    apply forward_gated. intros conn. balance.
Qed.

(** C20. Only authenticated requests get past the service. If a handler makes any
    call beyond reading the authentication configuration - looking up the pod,
    or calling a mounter - then the reader, asked first, answers lists of user and
    group headers, and the request carries a user under one of the first and has
    one of the second. Whatever happens, the connection to the mounter is closed when the
    handler returns. This is proved against the interface of the reader, and
    holds of every implementation of it. *)
Theorem requests_authenticated s r request e h :
  wp e h (MountDevice s r request) (λ _ t, gated r request e h t) ∧
  wp e h (UnMountDevice s r request) (λ _ t, gated r request e h t).
Proof. apply handlers_gated. Qed.

End Service.

(** ** Witnesses *)

#[local] Existing Instance w_auth.
#[local] Instance w_range : RangeLib := {| range V m := map_to_list m |}.
#[local] Instance w_body : BodyLib := {|
  UnmarshalBody _ := Ok (mkRequestMountBody (Some {["nvidia.com/gpu" := "1"]}) None None []);
  Quote s := s |}.

Definition w_service : service := mkService ":1200" "kube-system" "app=mounter".

Definition w_request : Request :=
  mkRequest (<["namespace" := "ml"]> {["name" := "train"]})
    (<["device_type" := "NVIDIA_GPU"]> {["wait_second" := "30"]})
    (<["X-User" := ["admin"]]> {["X-Remote-Group" := ["ops"]]}) (Ok "{}").

Definition on_node (name phase ip : string) (ready : bool) : Pod :=
  mkPod (mkObjectMeta name "" "kube-system" "" "" None None [] false)
    (mkPodSpec "node-1" [] [] None "" "" None "" None)
    (mkPodStatus phase "" [] [mkContainerStatus "main" ready ""] "" ip).

(** A mounter that runs on the node of the pod and answers success. *)
Definition w_cluster : env := λ _ c,
  match c return reply c with
  | GetConfigMap _ => Ok (Some w_configMap)
  | PodGet _ _ _ => Ok (on_node "train" "Running" "10.0.0.1" true)
  | PodList _ _ _ => Ok [on_node "old" "Failed" "10.0.0.2" false; on_node "mounter" "Running" "10.0.0.3" true]
  | GrpcMountDevice _ _ _ => Ok (mkDeviceResponse ResultCode_Success "mounted")
  | c => default_reply c
  end.

Example w_mounted : (run w_cluster [] (MountDevice w_service newReader w_request)).1.2 = Written "mounted".
Proof. vm_compute. reflexivity. Qed.

Example w_anonymous :
  (run w_cluster [] (MountDevice w_service newReader
     (mkRequest (PathParameters w_request) (QueryParameters w_request) ∅ (Body w_request)))).1.2 =
  WrittenError StatusBadRequest (PlainError "a valid user header is required").
Proof. vm_compute. reflexivity. Qed.

Lemma requests_authenticated_witness :
  wp w_cluster [] (MountDevice w_service newReader w_request)
    (λ _ t, gated newReader w_request w_cluster [] t) ∧
  wp w_cluster [] (UnMountDevice w_service newReader w_request)
    (λ _ t, gated newReader w_request w_cluster [] t).
Proof. apply (requests_authenticated w_service newReader w_request w_cluster []). Defined.
