(* ===== verification/ApiRoutes.v ===== *)
(** * The routes of the apiserver ([cmd/apiserver/main.go], [pkg/api/v1alpha1])

    The table of routes that [apiServiceV1alpha1] builds, the discovery documents
    it serves to Kubernetes, and what becomes of an HTTP request: go-restful
    selects the route and binds the path parameters, the handlers of
    [ApiServer] do the rest. *)
From Stdlib Require Import ZArith Lia Ascii.
From stdpp Require Import base gmap strings list.
From S2P Require Import Prelude GoStrings Api Ebpf World Resources Util AuthConfig ApiServer ApiServerFacts.

(** ** Discovery documents *)

Definition Group : string := "device-mounter.io".
Definition Version : string := "v1alpha1".

Record GroupVersionForDiscovery := mkGroupVersion { gv_GroupVersion : string; gv_Version : string }.

Definition GroupVersion : GroupVersionForDiscovery := mkGroupVersion (Group +:+ "/" +:+ Version) Version.

Record TypeMeta := mkTypeMeta { Kind : string; APIVersion : string }.

Record APIGroup := mkAPIGroup {
  group_TypeMeta : TypeMeta;
  group_Name : string;
  Versions : list GroupVersionForDiscovery;
  PreferredVersion : GroupVersionForDiscovery }.

Definition ApiGroup : APIGroup := mkAPIGroup (mkTypeMeta "APIGroup" "v1") Group [GroupVersion] GroupVersion.

Record APIResource := mkAPIResource { res_Name : string; Namespaced : bool }.

(** What the handlers of the GET routes write. *)
Inductive Document :=
  | APIResourceList (meta : TypeMeta) (groupVersion : string) (resources : list APIResource)
  | APIGroupDocument (group : APIGroup)
  | APIGroupList (meta : TypeMeta) (groups : list APIGroup)
  | RootPaths (paths : list string).

Definition ApiGroupList : Document := APIGroupList (mkTypeMeta "APIGroupList" "v1") [ApiGroup].

Definition resource_list : Document :=
  APIResourceList (mkTypeMeta "APIResourceList" "v1") (gv_GroupVersion GroupVersion)
    [mkAPIResource "pods/mount" true; mkAPIResource "pods/unmount" true].

Definition root_paths : Document :=
  RootPaths ["/apis"; "/apis/" +:+ Group; "/apis/" +:+ gv_GroupVersion GroupVersion].

(** ** Routes *)

Inductive ParameterKind := PathParam | QueryParam.

(** Default values and types are documentation: go-restful does not apply them. *)
Record RouteParameter := mkParameter {
  prm_Kind : ParameterKind;
  prm_Name : string;
  Required : bool;
  DataType : string;
  DefaultValue : string }.

Inductive Endpoint :=
  | ToMountDevice
  | ToUnMountDevice
  | ToDocument (d : Document)
  | ToPprof (profile : string).

Record Route := mkRoute {
  Method : string;
  Path : string;
  To : Endpoint;
  Operation : string;
  Consumes : list string;
  Produces : list string;
  Params : list RouteParameter }.

Definition MIME_JSON : string := "application/json".

Definition pod_path (action : string) : string :=
  "/apis/" +:+ gv_GroupVersion GroupVersion +:+
  "/namespaces/{namespace:[a-z0-9][a-z0-9\-]*}/pods/{name:[a-z0-9][a-z0-9\-]*}/" +:+ action.

Definition pod_params : list RouteParameter :=
  [mkParameter PathParam "namespace" true "string" "";
   mkParameter PathParam "name" true "string" "";
   mkParameter QueryParam "device_type" true "string" "";
   mkParameter QueryParam "container" false "string" "";
   mkParameter QueryParam "wait_second" false "integer" "10"].

Definition mount_route : Route :=
  mkRoute "PUT" (pod_path "mount") ToMountDevice (Version +:+ "MountDevices") [MIME_JSON] [] pod_params.

Definition unmount_route : Route :=
  mkRoute "PUT" (pod_path "unmount") ToUnMountDevice (Version +:+ "UnMountDevices") [] []
    (pod_params ++ [mkParameter QueryParam "force" false "string" "false"]).

Definition document_route (path : string) (d : Document) (operation : string) : Route :=
  mkRoute "GET" path (ToDocument d) operation [] [MIME_JSON] [].

Definition apiServiceV1alpha1 : list Route :=
  [mount_route; unmount_route;
   document_route ("/apis/" +:+ gv_GroupVersion GroupVersion) resource_list "GetAPIResources";
   document_route ("/apis/" +:+ Group) (APIGroupDocument ApiGroup) "GetSubAPIGroup";
   document_route "/apis" ApiGroupList "GetAPIGroupList";
   document_route "/" root_paths "GetRootPaths"].

(** The routes that the debug flag adds. *)
Definition pprof_routes : list Route :=
  map (λ profile, mkRoute "GET" ("/pprof/" +:+ profile) (ToPprof profile) "" [] [] [])
    ["profile"; "heap"; "goroutine"].

Definition webServer (debug : bool) : list Route :=
  apiServiceV1alpha1 ++ (if debug then pprof_routes else []).

(** ** Matching a path *)

(** [strings.Trim(path, "/")]. *)
Fixpoint trim_left (path : string) : string :=
  match path with
  | EmptyString => EmptyString
  | String c rest => if Ascii.eqb c "/"%char then trim_left rest else path
  end.
Fixpoint trim_right (path : string) : string :=
  match path with
  | EmptyString => EmptyString
  | String c rest =>
      match trim_right rest with
      | EmptyString => if Ascii.eqb c "/"%char then EmptyString else String c EmptyString
      | rest => String c rest
      end
  end.

(** The segments of a path: slashes at the ends are dropped, empty segments in
    the middle are not. *)
Definition segments (path : string) : list string :=
  if String.eqb path "/" then [] else Split (trim_right (trim_left path)) "/".

(** A segment of a template: a name with an expression in braces, or itself. *)
Definition placeholder (segment : string) : option (string * string) :=
  let n := String.length segment in
  if HasPrefix segment "{" && String.eqb (String.substring (n - 1) 1 segment) "}" then
    match Split (String.substring 1 (n - 2) segment) ":" with
    | name :: expression => Some (name, Join expression ":")
    | [] => None
    end
  else None.

(** go-restful, as far as this program relies on it. [match_expression] is what it
    makes of the expression of a placeholder; an error of [SelectRoute] is the
    status of the answer. *)
Record HttpRequest := mkHttpRequest {
  http_Method : string;
  http_Path : string;
  http_Accept : string;
  http_ContentType : string;
  http_Query : gmap string string;
  http_Header : gmap string (list string);
  http_Body : result string }.

Class RestfulLib := {
  match_expression : string → string → bool;
  acceptable : Route → HttpRequest → bool;
  SelectRoute : list Route → HttpRequest → Route * gmap string string + Z }.

Section Routing.
Context `{RestfulLib}.

Fixpoint match_segments (template path : list string) : option (gmap string string) :=
  match template, path with
  | [], [] => Some ∅
  | t :: template, p :: path =>
      match placeholder t with
      | Some (name, expression) =>
          if str_empty expression || match_expression expression p
          then <[name := p]> <$> match_segments template path else None
      | None => if String.eqb t p then match_segments template path else None
      end
  | _, _ => None
  end.

Definition match_path (route : Route) (path : string) : option (gmap string string) :=
  match_segments (segments (Path route)) (segments path).

(** The expression of the parameters of a pod's path. *)
Definition pod_expression : string := "[a-z0-9][a-z0-9\-]*".

(** The selected route is one of the table, for the method and the path, with the
    parameters of the path; the only candidate that can be negotiated is
    selected. The expression of a pod's parameters matches no empty segment. *)
Class RestfulLaws : Prop := {
  pod_expression_law : match_expression pod_expression "" = false;
  SelectRoute_sound routes req route params :
    SelectRoute routes req = inl (route, params) →
    route ∈ routes ∧ Method route = http_Method req ∧ match_path route (http_Path req) = Some params;
  SelectRoute_complete routes req route params :
    route ∈ routes → Method route = http_Method req → match_path route (http_Path req) = Some params →
    acceptable route req = true →
    (∀ route', route' ∈ routes → Method route' = http_Method req →
       is_Some (match_path route' (http_Path req)) → route' = route) →
    SelectRoute routes req = inl (route, params) }.

(** ** Serving a request *)

Inductive HttpResponse :=
  | FromHandler (r : Response)
  | AsJson (d : Document)
  | Profile (profile : string)
  | Options
  | NoRoute (status : Z).

Context `{AuthLib, RangeLib, BodyLib, R : Type, !ReaderOps R}.

Definition restful_request (req : HttpRequest) (params : gmap string string) : Request :=
  mkRequest params (http_Query req) (http_Header req) (http_Body req).

(** The container with [OPTIONSFilter], which answers OPTIONS itself. *)
Definition serve (debug : bool) (s : service) (r : R) (req : HttpRequest) : M (R * HttpResponse) :=
  if String.eqb (http_Method req) "OPTIONS" then Done (r, Options) else
  match SelectRoute (webServer debug) req with
  | inr status => Done (r, NoRoute status)
  | inl (route, params) =>
      match To route with
      | ToMountDevice =>
          res <-- MountDevice s r (restful_request req params) ;; Done (res.1, FromHandler res.2)
      | ToUnMountDevice =>
          res <-- UnMountDevice s r (restful_request req params) ;; Done (res.1, FromHandler res.2)
      | ToDocument d => Done (r, AsJson d)
      | ToPprof profile => Done (r, Profile profile)
      end
  end.

(** ** Properties *)

Context `{!RestfulLaws, !ReaderLaws}.











Lemma pod_path_inj a b : pod_path a = pod_path b → a = b.
Proof.
  unfold pod_path. intros Hp. by do 3 (apply (inj (String.append _)) in Hp).
Qed.

(** The routes by method. *)
Definition to_pod (route : Route) : Prop :=
  ∃ action, (To route = ToMountDevice ∧ action = "mount" ∨ To route = ToUnMountDevice ∧ action = "unmount") ∧
    Method route = "PUT" ∧ Path route = pod_path action.
Definition to_page (debug : bool) (route : Route) : Prop :=
  Method route = "GET" ∧ ((∃ d, To route = ToDocument d) ∨ (∃ p, To route = ToPprof p ∧ debug = true)).

Lemma document_page debug path d operation : to_page debug (document_route path d operation).
Proof. split; [done|]. left. by exists d. Qed.

Lemma route_cases debug route : route ∈ webServer debug → to_pod route ∨ to_page debug route.
Proof.
  assert (Forall (λ route, to_pod route ∨ to_page debug route) (webServer debug)) as Hall.
  { apply Forall_app. split.
    - repeat (apply Forall_cons; split); try (right; apply document_page); try apply Forall_nil; try done; left.
      + exists "mount". split; [by left|done].
      + exists "unmount". split; [by right|done].
    - destruct debug; [|constructor]. apply Forall_map, Forall_forall. intros p _. right. split; [done|].
      right. by exists p. }
  rewrite Forall_forall in Hall. apply Hall.
Qed.








(** The document at a discovery path. *)
Definition document_at (path : string) : option Document :=
  if String.eqb path "/" then Some root_paths
  else if String.eqb path "/apis" then Some ApiGroupList
  else if String.eqb path ("/apis/" +:+ Group) then Some (APIGroupDocument ApiGroup)
  else if String.eqb path ("/apis/" +:+ gv_GroupVersion GroupVersion) then Some resource_list
  else None.

(** A path without parameters that one GET route serves. *)
Definition served_by (debug : bool) (path : string) (route : Route) : Prop :=
  route ∈ webServer debug ∧ Method route = "GET" ∧ match_path route path = Some ∅ ∧
  Forall (λ route', Method route' = "GET" → is_Some (match_path route' path) → route' = route) (webServer debug).

Lemma served_document debug s r req e h path d operation :
  http_Method req = "GET" → http_Path req = path → (∀ route, acceptable route req = true) →
  served_by debug path (document_route path d operation) →
  run e h (serve debug s r req) = ((r, AsJson d), []).
Proof.
  intros Hm Hp Hacc (Hin & _ & Hmatch & Hall). unfold serve. rewrite Hm. simpl.
  rewrite (SelectRoute_complete (webServer debug) req (document_route path d operation) ∅);
    [done|done|by rewrite Hm|by rewrite Hp|apply Hacc|].
  rewrite Forall_forall in Hall. intros route' Hin' Hm' Hs. rewrite Hm in Hm'. rewrite Hp in Hs. by apply Hall.
Qed.

Ltac only_route :=
  cbv [webServer apiServiceV1alpha1 pprof_routes map app];
  repeat (apply Forall_cons; split); try apply Forall_nil; try exact I;
    let Hget := fresh in let Hx := fresh in intros Hget [? Hx];
    first [reflexivity | discriminate Hget | vm_compute in Hx; discriminate Hx].

Ltac is_served debug :=
  split; [unfold webServer, apiServiceV1alpha1; rewrite elem_of_app, !elem_of_cons; tauto|];
  split; [reflexivity|]; split; [vm_compute; reflexivity|]; destruct debug; only_route.

(** C31. Discovery. Every path that the root document lists, and the root itself, is
    answered with its document, to anybody, with or without the debug flag; and
    the documents agree with the routes: the group has the one version that the
    resource list is for, and the subresources listed there are exactly those
    that the PUT routes serve under that group and version. *)
Theorem discovery_served debug s r req e h paths :
  root_paths = RootPaths paths → http_Path req ∈ "/" :: paths → http_Method req = "GET" →
  (∀ route, acceptable route req = true) →
  (∃ d, document_at (http_Path req) = Some d ∧ run e h (serve debug s r req) = ((r, AsJson d), [])) ∧
  (∀ meta gv resources, resource_list = APIResourceList meta gv resources →
     map gv_GroupVersion (Versions ApiGroup) = [gv] ∧ PreferredVersion ApiGroup ∈ Versions ApiGroup ∧
     ∀ action, (∃ namespaced, mkAPIResource ("pods/" +:+ action) namespaced ∈ resources) ↔
       ∃ route, route ∈ webServer debug ∧ Method route = "PUT" ∧ Path route = pod_path action).
Proof.
  intros [= <-] Hpath Hm Hacc. split.
  - pose proof (λ path d operation Hp, served_document debug s r req e h path d operation Hm Hp Hacc) as Hd.
    rewrite !elem_of_cons in Hpath. destruct Hpath as [Hp|[Hp|[Hp|[Hp|[]%elem_of_nil]]]]; rewrite Hp.
    + exists root_paths. split; [reflexivity|]. apply (Hd "/" root_paths "GetRootPaths" Hp). is_served debug.
    + exists ApiGroupList. split; [reflexivity|]. apply (Hd "/apis" ApiGroupList "GetAPIGroupList" Hp).
      is_served debug.
    + exists (APIGroupDocument ApiGroup). split; [reflexivity|].
      apply (Hd ("/apis/" +:+ Group) (APIGroupDocument ApiGroup) "GetSubAPIGroup" Hp). is_served debug.
    + exists resource_list. split; [reflexivity|].
      apply (Hd ("/apis/" +:+ gv_GroupVersion GroupVersion) resource_list "GetAPIResources" Hp).
      is_served debug.
  - intros meta gv resources [= <- <- <-]. split; [reflexivity|]. split; [by left|]. intros action. split.
    + intros (namespaced & [Hr|[Hr|[]%elem_of_nil]%elem_of_cons]%elem_of_cons);
        injection Hr as -> _; [exists mount_route|exists unmount_route]; (split; [|done]);
        unfold webServer; apply elem_of_app; left; [by left|right; by left].
    + intros (route & [(a & Ha & _ & Hp')|[Hget _]]%route_cases & Hput & Hp); [|congruence].
      rewrite Hp in Hp'. apply pod_path_inj in Hp' as ->. exists true.
      destruct Ha as [[_ ->]|[_ ->]]; [by left|right; by left].
Qed.
End Routing.

(** ** Witnesses *)

(** A router that takes the first candidate and does not negotiate. *)
Section Router.
Let match_expr (expression segment : string) : bool := negb (str_empty segment).
Let accept (route : Route) (req : HttpRequest) : bool := true.

#[local] Instance w_bare : RestfulLib := {|
  match_expression := match_expr; acceptable := accept; SelectRoute _ _ := inr 404%Z |}.

Definition w_candidate (req : HttpRequest) (route : Route) : bool :=
  String.eqb (Method route) (http_Method req) &&
  match match_path route (http_Path req) with Some _ => true | None => false end.

Definition w_select (routes : list Route) (req : HttpRequest) : Route * gmap string string + Z :=
  match List.find (w_candidate req) routes with
  | Some route => inl (route, default ∅ (match_path route (http_Path req)))
  | None => inr 404%Z
  end.

End Router.

#[local] Instance w_restful : RestfulLib := {|
  match_expression expression segment := negb (str_empty segment);
  acceptable route req := true;
  SelectRoute := w_select |}.

#[local] Instance w_restful_laws : RestfulLaws.
Proof.
  split; [reflexivity| |].
  - intros routes req route params. simpl. unfold w_select.
    destruct (List.find _ _) as [route'|] eqn:Hf; [|done]. intros [= <- <-].
    apply find_some in Hf as [Hin Hc]. unfold w_candidate in Hc. apply andb_true_iff in Hc as [Hm Hp].
    split; [by apply list_elem_of_In|]. split; [by apply String.eqb_eq|].
    change (match_path route' (http_Path req) = Some (default ∅ (match_path route' (http_Path req)))).
    change (@match_path w_bare route' (http_Path req)) with (match_path route' (http_Path req)) in Hp.
    by destruct (match_path route' (http_Path req)).
  - intros routes req route params Hin Hm Hp _ Hu. simpl. unfold w_select.
    change (match_path route (http_Path req)) with (@match_path w_bare route (http_Path req)) in Hp.
    destruct (List.find _ _) as [route'|] eqn:Hf.
    + apply find_some in Hf as [Hin' Hc]. unfold w_candidate in Hc. apply andb_true_iff in Hc as [Hm' Hp'].
      rewrite (Hu route'); [by rewrite Hp|by apply list_elem_of_In|by apply String.eqb_eq|].
      change (match_path route' (http_Path req)) with (@match_path w_bare route' (http_Path req)).
      by destruct (@match_path w_bare route' (http_Path req)).
    + eapply find_none in Hf; [|by apply list_elem_of_In]. unfold w_candidate in Hf.
      rewrite Hp in Hf. by rewrite Hm, String.eqb_refl in Hf.
Qed.

#[local] Existing Instance w_auth.
#[local] Instance w_range : RangeLib := {| range V m := map_to_list m |}.
#[local] Instance w_body : BodyLib := {|
  UnmarshalBody _ := Ok (mkRequestMountBody (Some {["nvidia.com/gpu" := "1"]}) None None []);
  Quote s := s |}.

Definition w_http (method path : string) : HttpRequest :=
  mkHttpRequest method path "" "" (QueryParameters w_request) (Header w_request) (Body w_request).



Lemma discovery_served_witness :
  let req := w_http "GET" "/apis" in
  (∃ d, document_at "/apis" = Some d ∧
        run w_cluster [] (serve true w_service newReader req) = ((newReader, AsJson d), [])) ∧
  (∀ meta gv resources, resource_list = APIResourceList meta gv resources →
     map gv_GroupVersion (Versions ApiGroup) = [gv] ∧ PreferredVersion ApiGroup ∈ Versions ApiGroup ∧
     ∀ action, (∃ namespaced, mkAPIResource ("pods/" +:+ action) namespaced ∈ resources) ↔
       ∃ route, route ∈ webServer true ∧ Method route = "PUT" ∧ Path route = pod_path action).
Proof.
  apply (discovery_served true w_service newReader (w_http "GET" "/apis") w_cluster []
    ["/apis"; "/apis/" +:+ Group; "/apis/" +:+ gv_GroupVersion GroupVersion]).
  - reflexivity.
  - right. left.
  - reflexivity.
  - reflexivity.
Defined.
