(* ===== verification/TlsConfig.v ===== *)
(** * The TLS configuration ([pkg/tlsconfig])

    The serving certificate and the TLS profile are reloaded when their files
    change; a connection gets the configuration of the last reloads, or an error
    if one of them failed. Errors of the profile keep the error number of
    [os.Open], which [errors.Is] looks for through the wrapping. *)
From Stdlib Require Import ZArith Lia Ascii.
From stdpp Require Import base gmap strings list.
From S2P Require Import Prelude GoStrings Api Ebpf World Resources Util AuthConfig.

(** crypto/tls: the cipher suites with their numbers, and key pairs. *)
Class TlsLib `{AuthLib} := {
  KeyPair : Type;
  CipherSuites : list (string * Z);
  X509KeyPair : string → string → result KeyPair }.

(** [v1alpha1.TLSProtocolVersion] and the numbers of crypto/tls. *)
Definition VersionTLS10 : string := "VersionTLS10".
Definition VersionTLS11 : string := "VersionTLS11".
Definition VersionTLS12 : string := "VersionTLS12".
Definition VersionTLS13 : string := "VersionTLS13".
Definition tls_VersionTLS10 : Z := 769.
Definition tls_VersionTLS11 : Z := 770.
Definition tls_VersionTLS12 : Z := 771.
Definition tls_VersionTLS13 : Z := 772.

Section TlsConfig.
Context `{TlsLib}.

(** [tls.Certificate] with its leaf. *)
Record Certificate := mkCertificate { pair : KeyPair; Leaf : x509Certificate }.

(** The fields of [tls.Config] that are set; the client's certificate is always
    required and verified. *)
Record tlsConfig := mkTlsConfig {
  tls_CipherSuites : list Z;
  tls_MinVersion : Z;
  tls_Certificate : Certificate;
  tls_ClientCAs : option (list x509Certificate) }.

Record watch := mkWatch {
  configDir : string;
  tlsProfileFileName : string;
  certAndKeyDir : string;
  certsName : string;
  keyName : string;
  tlsProfileError : option goerr;
  ciphers : list Z;
  minTlsVersion : Z;
  certificate : option Certificate;
  certError : option goerr }.

Definition NewWatch (configDir tlsProfileFileName certAndKeyDir certsName keyName : string) : watch :=
  mkWatch configDir tlsProfileFileName certAndKeyDir certsName keyName
    (Some (PlainError "tls profile not loaded")) [] 0 None
    (Some (PlainError "certificate not loaded")).

(** ** Loading *)

Fixpoint cipher_id (cipherName : string) (suites : list (string * Z)) : option Z :=
  match suites with
  | [] => None
  | (n, id) :: rest => if String.eqb cipherName n then Some id else cipher_id cipherName rest
  end.

(** A nil result, for the defaults, is the empty list. *)
Fixpoint getCipherSuites (cipherNames : list string) : result (list Z) :=
  match cipherNames with
  | [] => Ok []
  | cipherName :: rest =>
      match cipher_id cipherName CipherSuites with
      | None => Err (PlainError ("unknown cipher suite: " +:+ cipherName))
      | Some id => ids ← getCipherSuites rest; Ok (id :: ids)
      end
  end.

Definition getMinTlsVersion (version : string) : result Z :=
  if str_empty version then Ok 0%Z
  else if String.eqb version VersionTLS10 then Ok tls_VersionTLS10
  else if String.eqb version VersionTLS11 then Ok tls_VersionTLS11
  else if String.eqb version VersionTLS12 then Ok tls_VersionTLS12
  else if String.eqb version VersionTLS13 then Ok tls_VersionTLS13
  else Err (PlainError ("unsupported TLS version: " +:+ version)).

Definition loadTlsProfile (profilePath : string) : M (sysres TlsProfile) :=
  file <-- call (OsOpen profilePath) ;;
  match file with
  | SysErr k err => Done (SysErr k ("error opening file: " +:+ err))
  | SysOk fd =>
      r <-- call (DecodeTlsProfile fd) ;;
      _ <-- call (CloseFile fd) ;;
      Done match r with
           | Err err => SysErr EOTHER ("error decoding tls config: " +:+ Error err)
           | Ok profile => SysOk profile
           end
  end.

Definition loadCipherSuitesAndMinVersion (configPath : string) : M (sysres (list Z * Z)) :=
  r <-- loadTlsProfile configPath ;;
  Done match r with
       | SysErr k err => SysErr k ("could not load tls config: " +:+ err)
       | SysOk tlsProfile =>
           match getCipherSuites (Ciphers tlsProfile) with
           | Err err => SysErr EOTHER ("could not get cipher suite numbers: " +:+ Error err)
           | Ok ids =>
               match getMinTlsVersion (MinTLSVersion tlsProfile) with
               | Err err => SysErr EOTHER ("could not get minimum TLS version: " +:+ Error err)
               | Ok minVersion => SysOk (ids, minVersion)
               end
           end
       end.

(** The two messages end in a line feed. *)
Definition certificate_error (prefix : string) (err : goerr) : goerr :=
  PlainError (prefix +:+ Error err +:+ String "010" "").

Definition LoadCertificates (certPath keyPath : string) : M (outcome (result Certificate)) :=
  certBytes <-- call (ReadFile certPath) ;;
  match certBytes with
  | SysErr _ err => Done (Returns (Err (PlainError err)))
  | SysOk certBytes =>
  keyBytes <-- call (ReadFile keyPath) ;;
  match keyBytes with
  | SysErr _ err => Done (Returns (Err (PlainError err)))
  | SysOk keyBytes =>
      match X509KeyPair certBytes keyBytes with
      | Err err => Done (Returns (Err (certificate_error "failed to load certificate: " err)))
      | Ok crt =>
          match ParseCertsPEM certBytes with
          | Err err => Done (Returns (Err (certificate_error "failed to load leaf certificate: " err)))
          | Ok leaf => Done (x ← slice_get leaf 0; Returns (Ok (mkCertificate crt x)))
          end
      end
  end end.

(** ** The watch *)

Definition set_profile (w : watch) (err : option goerr) (ids : list Z) (minVersion : Z) : watch :=
  mkWatch (configDir w) (tlsProfileFileName w) (certAndKeyDir w) (certsName w) (keyName w) err ids
    minVersion (certificate w) (certError w).

Definition set_certificate (w : watch) (crt : option Certificate) (err : option goerr) : watch :=
  mkWatch (configDir w) (tlsProfileFileName w) (certAndKeyDir w) (certsName w) (keyName w)
    (tlsProfileError w) (ciphers w) (minTlsVersion w) crt err.

(** The lock makes a reload atomic; a missing profile means the defaults. *)
Definition reloadTlsProfile (w : watch) : M watch :=
  r <-- loadCipherSuitesAndMinVersion (PathJoin [configDir w; tlsProfileFileName w]) ;;
  Done match r with
       | SysErr ENOENT _ => set_profile w None [] 0
       | SysErr _ err =>
           set_profile w (Some (PlainError ("failed to load TLS configuration: " +:+ err)))
             (ciphers w) (minTlsVersion w)
       | SysOk (ids, minVersion) => set_profile w None ids minVersion
       end.

(** A panic in [LoadCertificates] unwinds with [certError] already reset. *)
Definition reloadCertificate (w : watch) : M (watch * outcome unit) :=
  r <-- LoadCertificates (PathJoin [certAndKeyDir w; certsName w]) (PathJoin [certAndKeyDir w; keyName w]) ;;
  Done match r with
       | Returns (Err err) => (set_certificate w (certificate w) (Some err), Returns tt)
       | Returns (Ok crt) => (set_certificate w (Some crt) None, Returns tt)
       | Panics why => (set_certificate w (certificate w) None, Panics why)
       end.

Definition Reload (w : watch) : M (watch * outcome unit) :=
  w <-- reloadTlsProfile w ;; reloadCertificate w.

(** The authentication reader comes first; [*w.certificate] would panic on nil. *)
Definition GetConfig `{!ReaderOps R} (w : watch) (r : R) : M (R * outcome (result tlsConfig)) :=
  ca <-- GetClientCA r ;;
  Done match ca with
       | (r, Err err) => (r, Returns (Err err))
       | (r, Ok clientCa) =>
           (r, match tlsProfileError w, certError w with
               | Some err, _ => Returns (Err err)
               | None, Some err => Returns (Err err)
               | None, None =>
                   match certificate w with
                   | None => Panics "invalid memory address or nil pointer dereference"
                   | Some crt => Returns (Ok (mkTlsConfig (ciphers w) (minTlsVersion w) crt clientCa))
                   end
               end)
       end.

(** ** The last reloads *)

Definition profile_path (w : watch) : string := PathJoin [configDir w; tlsProfileFileName w].

(** What a reload of the profile gives to serve, if anything. *)
Definition served_profile (r : sysres (list Z * Z)) : option (list Z * Z) :=
  match r with
  | SysOk x => Some x
  | SysErr ENOENT _ => Some ([], 0%Z)
  | SysErr _ _ => None
  end.

Definition served_certificate (r : result Certificate) : option Certificate :=
  match r with Ok crt => Some crt | Err _ => None end.

(** The runs of a watch from [w0]: a reload of the one or the other whenever a file
    changes; [p] and [c] are what the last reload of each kind gave to serve, none
    before the first. Other calls may come in between. A reload that panics ends
    the process. *)
Inductive reloaded (w0 : watch) (e : env) :
    trace → watch → option (list Z * Z) → option Certificate → Prop :=
  | reloaded_init h : reloaded w0 e h w0 None None
  | reloaded_profile h w p c r t :
      reloaded w0 e h w p c →
      run e h (loadCipherSuitesAndMinVersion (profile_path w)) = (r, t) →
      reloaded w0 e (h ++ t) (run e h (reloadTlsProfile w)).1 (served_profile r) c
  | reloaded_cert h w p c r t :
      reloaded w0 e h w p c →
      run e h (LoadCertificates (PathJoin [certAndKeyDir w; certsName w])
                 (PathJoin [certAndKeyDir w; keyName w])) = (Returns r, t) →
      reloaded w0 e (h ++ t) (run e h (reloadCertificate w)).1.1 p (served_certificate r)
  | reloaded_other h w p c t :
      reloaded w0 e h w p c → reloaded w0 e (h ++ t) w p c.

(** The fields of the watch hold what the last reloads gave to serve. *)
Definition holds_profile (w : watch) (p : option (list Z * Z)) : Prop :=
  match p with
  | Some (ids, minVersion) => tlsProfileError w = None ∧ ciphers w = ids ∧ minTlsVersion w = minVersion
  | None => is_Some (tlsProfileError w)
  end.
Definition holds_certificate (w : watch) (c : option Certificate) : Prop :=
  match c with
  | Some crt => certError w = None ∧ certificate w = Some crt
  | None => is_Some (certError w)
  end.

Lemma reloaded_holds dir file cdir cert key e h w p c :
  reloaded (NewWatch dir file cdir cert key) e h w p c →
  holds_profile w p ∧ holds_certificate w c.
Proof.
  induction 1 as [h | h w p c r t _ [_ Hc] Hr | h w p c r t _ [Hp _] Hr | h w p c t _ IH];
    [by split; eexists|..|done].
  - unfold reloadTlsProfile. fold (profile_path w). rewrite run_bind, Hr. cbn [run fst].
    destruct r as [[ids mv]|[] err]; simpl; (split; [|exact Hc]); eauto.
  - unfold reloadCertificate. rewrite run_bind, Hr. cbn [run fst].
    destruct r as [crt|err]; simpl; (split; [exact Hp|]); eauto.
Qed.

(** A profile that is served names suites and a version that crypto/tls knows. *)
Definition known_profile (p : list Z * Z) : Prop :=
  Forall (λ id, id ∈ CipherSuites.*2) p.1 ∧
  p.2 ∈ [0; tls_VersionTLS10; tls_VersionTLS11; tls_VersionTLS12; tls_VersionTLS13]%Z.

Lemma cipher_id_known n suites id : cipher_id n suites = Some id → id ∈ suites.*2.
Proof.
  induction suites as [|[m i] suites IH]; simpl; [done|].
  destruct (String.eqb n m); [intros [= <-]; by left | intros; right; auto].
Qed.

Lemma getCipherSuites_known names ids :
  getCipherSuites names = Ok ids → Forall (λ id, id ∈ CipherSuites.*2) ids.
Proof.
  revert ids. induction names as [|n names IH]; intros ids; simpl; [intros [= <-]; constructor|].
  destruct (cipher_id n CipherSuites) as [id|] eqn:Hid; [|done].
  destruct (getCipherSuites names) as [ids'|]; [|done]. intros [= <-].
  constructor; [by eapply cipher_id_known | by apply IH].
Qed.

Lemma getMinTlsVersion_known v mv :
  getMinTlsVersion v = Ok mv →
  mv ∈ [0; tls_VersionTLS10; tls_VersionTLS11; tls_VersionTLS12; tls_VersionTLS13]%Z.
Proof.
  unfold getMinTlsVersion. repeat case_match; intros; simplify_eq;
    rewrite !elem_of_cons; tauto.
Qed.

Lemma load_known path e h :
  wp e h (loadCipherSuitesAndMinVersion path) (λ r _, ∀ p, served_profile r = Some p → known_profile p).
Proof.
  unfold loadCipherSuitesAndMinVersion. wp_step. eapply wp_mono; [|apply wp_true].
  intros [profile|k err] t _; wp_step; intros p.
  - destruct (getCipherSuites _) as [ids|] eqn:Hids; [|done].
    destruct (getMinTlsVersion _) as [mv|] eqn:Hmv; [|done]. simpl. intros [= <-].
    split; [by eapply getCipherSuites_known | by eapply getMinTlsVersion_known].
  - simpl. destruct k; try done. intros [= <-]. split; [constructor | by left].
Qed.

Lemma reloaded_known w0 e h w p c : reloaded w0 e h w p c → ∀ q, p = Some q → known_profile q.
Proof.
  induction 1 as [h | h w p c r t _ _ Hr | h w p c r t _ IH Hr | h w p c t _ IH]; [done| |done..].
  intros q Hq. pose proof (load_known (profile_path w) e h) as Hk. unfold wp in Hk.
  rewrite Hr in Hk. by apply Hk.
Qed.

(** The answer to a connection, in terms of the last reloads. *)
Lemma GetConfig_reloaded `{!ReaderOps R} dir file cdir cert key e h w p c (r : R) e' h' :
  reloaded (NewWatch dir file cdir cert key) e h w p c →
  match (run e' h' (GetClientCA r)).1.2, p, c, (run e' h' (GetConfig w r)).1.2 with
  | Err err, _, _, o => o = Returns (Err err)
  | Ok clientCa, Some (ids, minVersion), Some crt, o =>
      o = Returns (Ok (mkTlsConfig ids minVersion crt clientCa))
  | Ok _, _, _, o => ∃ err, o = Returns (Err err)
  end.
Proof.
  intros Hw. destruct (reloaded_holds _ _ _ _ _ _ _ _ _ _ Hw) as [Hp Hc].
  unfold GetConfig. rewrite run_bind. destruct (run e' h' (GetClientCA r)) as [[r' [ca|err]] t]; [|done].
  simpl. destruct p as [[ids mv]|]; simpl in Hp.
  - destruct Hp as (-> & -> & ->). destruct c as [crt|]; simpl in Hc.
    + by destruct Hc as (-> & ->).
    + destruct Hc as [err ->]. eauto.
  - destruct Hp as [err ->]. eauto.
Qed.

(** C26. The service fails closed and never serves a stale configuration. After any
    sequence of reloads, whatever the files held, a connection gets exactly the
    profile and the certificate of the last reload of each kind; if the last
    reload of either failed, or there was none, it gets an error, also when an
    earlier one had succeeded. A profile that is served has only suites and a
    minimum version that crypto/tls knows; a missing profile file means the
    defaults. The certificate is never dereferenced before one is loaded. *)
Theorem served_config `{!ReaderOps R} dir file cdir cert key e h w p c (r : R) e' h' :
  reloaded (NewWatch dir file cdir cert key) e h w p c →
  (∀ q, p = Some q → known_profile q) ∧
  match (run e' h' (GetClientCA r)).1.2, p, c, (run e' h' (GetConfig w r)).1.2 with
  | Err err, _, _, o => o = Returns (Err err)
  | Ok clientCa, Some (ids, minVersion), Some crt, o =>
      o = Returns (Ok (mkTlsConfig ids minVersion crt clientCa))
  | Ok _, _, _, o => ∃ err, o = Returns (Err err)
  end.
Proof.
  intros Hw. split; [by eapply reloaded_known | by eapply GetConfig_reloaded].
Qed.

End TlsConfig.

(** ** Witnesses *)

#[local] Existing Instance w_auth.
#[local] Instance w_tls : TlsLib := {|
  KeyPair := string * string;
  CipherSuites := [("TLS_AES_128_GCM_SHA256", 4865)]%Z;
  X509KeyPair c k := Ok (c, k) |}.

Definition w_watch : watch := NewWatch "/config" "tls.yaml" "/certs" "tls.crt" "tls.key".

(** No profile; a certificate with its key. *)
Definition w_files : env := λ _ c,
  match c return reply c with
  | ReadFile path => SysOk path
  | GetConfigMap _ => Ok (Some w_configMap)
  | c => default_reply c
  end.

Definition w_profile_step := run w_files [] (reloadTlsProfile w_watch).
Definition w_cert_step := run w_files w_profile_step.2 (reloadCertificate w_profile_step.1).

Lemma served_config_witness :
  let crt := mkCertificate ("/certs/tls.crt", "/certs/tls.key") "/certs/tls.crt" in
  ((∀ q, Some ([], 0%Z) = Some q → known_profile q) ∧
   (run w_files [] (GetConfig w_cert_step.1.1 newReader)).1.2 =
     Returns (Ok (mkTlsConfig [] 0 crt (Some ["ca"])))).
Proof.
  assert (reloaded w_watch w_files (w_profile_step.2 ++ w_cert_step.2) w_cert_step.1.1 (Some ([], 0%Z))
    (Some (mkCertificate ("/certs/tls.crt", "/certs/tls.key") "/certs/tls.crt"))) as Hr.
  { eapply (reloaded_cert w_watch w_files w_profile_step.2 w_profile_step.1 (Some ([], 0%Z)) None (Ok _));
      [|reflexivity].
    eapply (reloaded_profile w_watch w_files [] w_watch None None (SysErr ENOENT _));
      [constructor | reflexivity]. }
  exact (served_config "/config" "tls.yaml" "/certs" "tls.crt" "tls.key" w_files _ _ _ _ newReader
    w_files [] Hr).
Defined.
