(* ===== verification/FileWatch.v ===== *)
(** * The file watch ([pkg/filewatch]) and its client [AddToFilewatch]

    Callbacks are registered for directories before the watch runs, and called
    for the events under their directory. A callback acts on the state [S] of
    its owner and may panic. The loop over the events ends with the process; it
    is unrolled for a number of turns. *)
From Stdlib Require Import ZArith Lia.
From stdpp Require Import base gmap strings list.
From S2P Require Import Prelude GoStrings Api Ebpf World Resources Util AuthConfig TlsConfig.

(** The bits of [fsnotify.Op]. *)
Definition fsnotify_Create : Z := 1.
Definition fsnotify_Write : Z := 2.
Definition fsnotify_Remove : Z := 4.
Definition fsnotify_Rename : Z := 8.
Definition fsnotify_Chmod : Z := 16.

Section FileWatch.
Context `{RangeLib} {S : Type}.

Definition callback : Type := S → M (S * outcome unit).

Record watch := mkFileWatch {
  callbacks : gmap string callback;
  running : bool }.

Definition New : watch := mkFileWatch ∅ false.

(** The mutex makes [Add] atomic with respect to the start of [Run]. *)
Definition Add (w : watch) (path : string) (f : callback) : watch * option goerr :=
  if running w then (w, Some (PlainError "cannot add to a running watch"))
  else (mkFileWatch (<[path := f]> (callbacks w)) (running w), None).

Definition IsRunning (w : watch) : bool := running w.

Fixpoint add_paths (l : list (string * callback)) : M (option goerr) :=
  match l with
  | [] => Done None
  | (path, _) :: rest =>
      err <-- call (WatcherAdd path) ;;
      match err with
      | Some err => Done (Some (wrap_err ("failed watch " +:+ path +:+ ": ") err))
      | None => add_paths rest
      end
  end.

Definition addCallbacks (w : watch) : M (option goerr) := add_paths (range (callbacks w)).

Definition modificationEvents : Z := Z.lor (Z.lor fsnotify_Create fsnotify_Write) fsnotify_Remove.

Fixpoint run_callbacks (l : list (string * callback)) (name : string) (s : S) : M (S * outcome unit) :=
  match l with
  | [] => Done (s, Returns tt)
  | (path, f) :: rest =>
      if HasPrefix name path then
        r <-- f s ;;
        match r with
        | (s, Returns _) => run_callbacks rest name s
        | (s, Panics why) => Done (s, Panics why)
        end
      else run_callbacks rest name s
  end.

Definition handleEvent (w : watch) (name : string) (op : Z) (s : S) : M (S * outcome unit) :=
  if (Z.land op modificationEvents =? 0)%Z then Done (s, Returns tt)
  else run_callbacks (range (callbacks w)) name s.

(** How [processEvents] stands after [n] turns. *)
Inductive Ended := Stopped (err : option goerr) | Panicked (why : string) | Waiting.

Fixpoint processEvents (n : nat) (w : watch) (s : S) : M (S * Ended) :=
  match n with
  | O => Done (s, Waiting)
  | Datatypes.S n' =>
      input <-- call WatcherNext ;;
      match input with
      | WatchDone | WatchEventsClosed | WatchErrorsClosed => Done (s, Stopped None)
      | WatchEvent name op =>
          r <-- handleEvent w name op s ;;
          match r with
          | (s, Returns _) => processEvents n' w s
          | (s, Panics why) => Done (s, Panicked why)
          end
      | WatchError None => processEvents n' w s
      | WatchError (Some err) => Done (s, Stopped (Some (PlainError err)))
      end
  end.

(** [running] is reset and the watcher closed by deferred calls; a watch that is
    still waiting keeps both. *)
Definition Run (n : nat) (w : watch) (s : S) : M (watch * S * Ended) :=
  err <-- call WatcherNew ;;
  match err with
  | Some err => Done (w, s, Stopped (Some (wrap_err "could not create fsnotify.Watcher: " err)))
  | None =>
      err <-- addCallbacks (mkFileWatch (callbacks w) true) ;;
      r <-- match err with
            | Some err => Done (s, Stopped (Some (wrap_err "could not add callbacks: " err)))
            | None => processEvents n (mkFileWatch (callbacks w) true) s
            end ;;
      let '(s, ended) := r in
      match ended with
      | Waiting => Done (mkFileWatch (callbacks w) true, s, Waiting)
      | _ => _ <-- call WatcherClose ;; Done (mkFileWatch (callbacks w) false, s, ended)
      end
  end.

(** ** Callbacks *)

Lemma run_callbacks_app l1 l2 name s e h :
  run e h (run_callbacks (l1 ++ l2) name s) =
  run e h (r <-- run_callbacks l1 name s ;;
           match r with
           | (s, Returns _) => run_callbacks l2 name s
           | (s, Panics why) => Done (s, Panics why)
           end).
Proof.
  revert s h. induction l1 as [|[path f] l1 IH]; intros s h; cbn [run_callbacks app]; [done|].
  destruct (HasPrefix name path); [|apply IH].
  rewrite !run_bind. destruct (run e h (f s)) as [[s' [u|why]] t].
  - rewrite IH, !run_bind. destruct (run e (h ++ t) (run_callbacks l1 name s')) as [[s'' o] t'].
    rewrite (app_assoc h). by destruct (run e ((h ++ t) ++ t') _) as [x t''], o; rewrite app_assoc.
  - cbn. by rewrite ?app_nil_r.
Qed.

Lemma run_callbacks_none l name s e h :
  (∀ path f, (path, f) ∈ l → HasPrefix name path = false) →
  run e h (run_callbacks l name s) = ((s, Returns tt), []).
Proof.
  induction l as [|[path f] l IH]; intros Hl; cbn [run_callbacks]; [done|].
  rewrite (Hl path f) by left. apply IH. intros p g Hp. eapply Hl. by right.
Qed.

(** If one directory only is a prefix of the name, its callback is all that runs. *)
Lemma handleEvent_one `{!RangeLaws} w name op s path f e h :
  callbacks w !! path = Some f → HasPrefix name path = true →
  (∀ p, p ≠ path → is_Some (callbacks w !! p) → HasPrefix name p = false) →
  Z.land op modificationEvents ≠ 0%Z →
  run e h (handleEvent w name op s) = run e h (f s).
Proof.
  intros Hf Hname Hother Hop. unfold handleEvent. rewrite (proj2 (Z.eqb_neq _ _) Hop).
  assert ((path, f) ∈ range (callbacks w)) as Hin by by apply range_elem.
  apply list_elem_of_split in Hin as (l1 & l2 & Hl).
  assert (NoDup (range (callbacks w)).*1) as Hnd.
  { rewrite (range_law (callbacks w)). apply NoDup_fst_map_to_list. }
  assert (∀ p g, (p, g) ∈ l1 ++ l2 → HasPrefix name p = false) as Hrest.
  { intros p g Hpg. apply Hother.
    - intros ->. rewrite Hl in Hnd. rewrite fmap_app, fmap_cons in Hnd.
      apply NoDup_app in Hnd as (_ & Hd & Hnd2). apply NoDup_cons in Hnd2 as [Hn2 _].
      apply elem_of_app in Hpg as [Hpg|Hpg].
      + apply (Hd path); [by apply (list_elem_of_fmap_2 fst _ (path, g)) | by left].
      + apply Hn2. by apply (list_elem_of_fmap_2 fst _ (path, g)).
    - exists g. apply range_elem. rewrite Hl. apply elem_of_app. apply elem_of_app in Hpg.
      destruct Hpg; [by left | right; by right]. }
  rewrite Hl, run_callbacks_app, run_bind, run_callbacks_none.
  2:{ intros p g Hp. eapply Hrest, elem_of_app. by left. }
  rewrite app_nil_r. cbn [run_callbacks]. rewrite Hname, run_bind.
  destruct (run e h (f s)) as [[s' [[]|why]] t]; [|cbn; by rewrite app_nil_r].
  rewrite run_callbacks_none; [by rewrite app_nil_r|].
  intros p g Hp. eapply Hrest, elem_of_app. by right.
Qed.

Lemma handleEvent_none `{!RangeLaws} w name op s e h :
  Z.land op modificationEvents = 0%Z ∨
    (∀ p, is_Some (callbacks w !! p) → HasPrefix name p = false) →
  run e h (handleEvent w name op s) = ((s, Returns tt), []).
Proof.
  intros [Hop|Hname]; unfold handleEvent; [by rewrite Hop|].
  destruct (_ =? 0)%Z; [done|]. apply run_callbacks_none. intros p g Hp. apply Hname.
  exists g. by apply range_elem.
Qed.

End FileWatch.

Arguments watch S : clear implicits.
Arguments callback S : clear implicits.

(** ** Reloading the TLS configuration *)

Section Reload.
Context `{RangeLib, TlsLib}.

Definition reload_profile : callback TlsConfig.watch :=
  λ w, w' <-- reloadTlsProfile w ;; Done (w', Returns tt).

Definition AddToFilewatch (w : TlsConfig.watch) (fw : watch TlsConfig.watch)
    : watch TlsConfig.watch * option goerr :=
  match Add fw (configDir w) reload_profile with
  | (fw, Some err) => (fw, Some err)
  | (fw, None) => Add fw (certAndKeyDir w) reloadCertificate
  end.

(** The watch that [main] runs for [w]. *)
Definition tls_filewatch (w : TlsConfig.watch) : watch TlsConfig.watch := (AddToFilewatch w New).1.

(** Two directories none of which lies under the other. *)
Definition separate (dir1 dir2 : string) : Prop :=
  ∀ name, HasPrefix name dir1 = true → HasPrefix name dir2 = false.

Lemma reload_profile_reloaded w0 e h w p c :
  reloaded w0 e h w p c →
  ∃ p', reloaded w0 e (h ++ (run e h (reload_profile w)).2) (run e h (reload_profile w)).1.1 p' c.
Proof.
  intros Hw. destruct (run e h (loadCipherSuitesAndMinVersion (profile_path w))) as [r t] eqn:Hr.
  exists (served_profile r). pose proof (reloaded_profile _ _ _ _ _ _ _ _ Hw Hr) as Hnew.
  unfold reload_profile. rewrite run_bind. unfold reloadTlsProfile in *. fold (profile_path w) in *.
  rewrite run_bind, Hr in *. cbn in *. by rewrite !app_nil_r.
Qed.

Lemma reloadCertificate_reloaded w0 e h w p c :
  reloaded w0 e h w p c → (run e h (reloadCertificate w)).1.2 = Returns tt →
  ∃ c', reloaded w0 e (h ++ (run e h (reloadCertificate w)).2) (run e h (reloadCertificate w)).1.1 p c'.
Proof.
  intros Hw.
  destruct (run e h (LoadCertificates (PathJoin [certAndKeyDir w; certsName w])
    (PathJoin [certAndKeyDir w; keyName w]))) as [[r|why] t] eqn:Hr.
  - intros _. exists (served_certificate r). pose proof (reloaded_cert _ _ _ _ _ _ _ _ Hw Hr) as Hnew.
    unfold reloadCertificate in *. rewrite run_bind, Hr in *. cbn in *. by rewrite !app_nil_r.
  - unfold reloadCertificate. rewrite run_bind, Hr. done.
Qed.

Definition tls_callback (f : callback TlsConfig.watch) : Prop := f = reload_profile ∨ f = reloadCertificate.

Lemma run_callbacks_reloaded w0 l name w e h p c :
  Forall (λ kf, tls_callback kf.2) l → reloaded w0 e h w p c →
  let '((w', o), t) := run e h (run_callbacks l name w) in
  o = Returns tt → ∃ p' c', reloaded w0 e (h ++ t) w' p' c'.
Proof.
  intros Hl. revert w h p c. induction Hl as [|[path f] l Hf Hl IH]; intros w h p c Hw; cbn [run_callbacks].
  { cbn. intros _. exists p, c. by rewrite app_nil_r. }
  destruct (HasPrefix name path); [|by eapply IH]. rewrite run_bind.
  assert ((run e h (f w)).1.2 = Returns tt →
    ∃ p' c', reloaded w0 e (h ++ (run e h (f w)).2) (run e h (f w)).1.1 p' c') as Hstep.
  { destruct Hf as [Hf|Hf]; simpl in Hf; subst f.
    - intros _. destruct (reload_profile_reloaded _ _ _ _ _ _ Hw) as [p' ?]. eauto.
    - intros Hok. destruct (reloadCertificate_reloaded _ _ _ _ _ _ Hw Hok) as [c' ?]. eauto. }
  destruct (run e h (f w)) as [[w' [[]|why]] t]; cbn [fst snd] in Hstep; [|by cbn].
  destruct (Hstep eq_refl) as (p' & c' & Hw'). specialize (IH w' (h ++ t) p' c' Hw').
  destruct (run e (h ++ t) _) as [[w'' o] t']. by rewrite <- app_assoc in IH.
Qed.

Lemma tls_filewatch_callbacks `{!RangeLaws} w :
  Forall (λ kf, tls_callback kf.2) (range (callbacks (tls_filewatch w))).
Proof.
  apply Forall_forall. intros [path f] Hin%range_elem. unfold tls_filewatch, AddToFilewatch in Hin.
  simpl in Hin. rewrite !lookup_insert in Hin. unfold tls_callback. simpl.
  repeat case_decide; simplify_eq; auto.
Qed.

Lemma processEvents_reloaded `{!RangeLaws} w0 n w e h p c :
  reloaded w0 e h w p c →
  let '((w', ended), t) := run e h (processEvents n (tls_filewatch w0) w) in
  (∀ why, ended ≠ Panicked why) → ∃ p' c', reloaded w0 e (h ++ t) w' p' c'.
Proof.
  revert w h p c. induction n as [|n IH]; intros w h p c Hw; cbn [processEvents].
  { cbn. intros _. exists p, c. by rewrite app_nil_r. }
  rewrite run_bind. unfold call at 1. cbn [run].
  pose proof (reloaded_other _ _ _ _ _ _ [Ev WatcherNext (e h WatcherNext)] Hw) as Hw1.
  destruct (e h WatcherNext) as [|name op| |[err|]|]; cbn [run]; try (intros _; by eauto).
  - unfold handleEvent. destruct (_ =? 0)%Z.
    + rewrite run_bind. cbn [run]. rewrite app_nil_r. specialize (IH w _ p c Hw1).
      destruct (run e (h ++ [_]) _) as [[w' ended] t]. by rewrite <- app_assoc in IH.
    + rewrite run_bind.
      pose proof (run_callbacks_reloaded w0 _ name w e _ p c (tls_filewatch_callbacks w0) Hw1) as Hr.
      destruct (run e (h ++ [_]) (run_callbacks _ _ _)) as [[w' [[]|why]] t]; [|cbn; intros Hp; by destruct (Hp why)].
      destruct (Hr eq_refl) as (p' & c' & Hw'). specialize (IH w' _ p' c' Hw').
      destruct (run e _ (processEvents _ _ _)) as [[w'' ended] t']. cbn.
      by rewrite <- !app_assoc in IH.
  - specialize (IH w _ p c Hw1). destruct (run e (h ++ [_]) _) as [[w' ended] t].
    by rewrite <- app_assoc in IH.
Qed.

(** C27. File changes reach the TLS configuration. When the two directories are
    separate, an event that creates, writes or removes a file under the one
    reloads the profile, under the other the certificate, and nothing else; no
    other event (a rename, a change of mode, another path) does anything. And for
    any number of events, a watch that starts out with the configuration of its
    last reloads is left with that of its last reloads, so that the guarantee of
    the TLS configuration holds in every state of the running service. *)
Theorem changes_are_served `{!RangeLaws} w0 name op w e h :
  separate (configDir w0) (certAndKeyDir w0) → separate (certAndKeyDir w0) (configDir w0) →
  run e h (handleEvent (tls_filewatch w0) name op w) =
    (if (Z.land op modificationEvents =? 0)%Z then ((w, Returns tt), [])
     else if HasPrefix name (configDir w0) then run e h (reload_profile w)
     else if HasPrefix name (certAndKeyDir w0) then run e h (reloadCertificate w)
     else ((w, Returns tt), [])) ∧
  ∀ n p c, reloaded w0 e h w p c →
    let '((w', ended), t) := run e h (processEvents n (tls_filewatch w0) w) in
    (∀ why, ended ≠ Panicked why) → ∃ p' c', reloaded w0 e (h ++ t) w' p' c'.
Proof.
  intros Hsep Hsep'. split; [|intros n p c; apply processEvents_reloaded].
  assert (configDir w0 ≠ certAndKeyDir w0) as Hne.
  { intros Heq. specialize (Hsep (configDir w0)). rewrite <- Heq in Hsep.
    pose proof (HasPrefix_app (configDir w0) "") as Hp. rewrite string_app_nil_r in Hp. rewrite Hp in Hsep.
    by discriminate Hsep. }
  assert (callbacks (tls_filewatch w0) =
    <[certAndKeyDir w0 := reloadCertificate]> {[configDir w0 := reload_profile]}) as Hcb by done.
  destruct (Z.eqb_spec (Z.land op modificationEvents) 0) as [Hop|Hop]; [apply handleEvent_none; by left|].
  destruct (HasPrefix name (configDir w0)) eqn:Hc; [|destruct (HasPrefix name (certAndKeyDir w0)) eqn:Hk].
  - apply handleEvent_one with (path := configDir w0); [|done| |done].
    + rewrite Hcb, lookup_insert_ne by done. apply lookup_singleton_eq.
    + intros q Hq. rewrite Hcb, lookup_insert. case_decide; [subst; auto|].
      intros [f Hf]. apply lookup_singleton_Some in Hf as [? _]. congruence.
  - apply handleEvent_one with (path := certAndKeyDir w0); [|done| |done].
    + rewrite Hcb. apply lookup_insert_eq.
    + intros q Hq. rewrite Hcb, lookup_insert_ne by done.
      intros [f Hf]. apply lookup_singleton_Some in Hf as [<- _]. done.
  - apply handleEvent_none. right. intros q. rewrite Hcb, lookup_insert. case_decide; [by subst|].
    intros [f Hf]. apply lookup_singleton_Some in Hf as [<- _]. done.
Qed.

End Reload.

(** ** Witnesses *)

#[local] Existing Instance w_auth.
#[local] Existing Instance w_tls.

(** The directories of [cmd/apiserver/main.go]. *)
Definition w_main : TlsConfig.watch :=
  NewWatch "/config" "tls-profile-v1alpha1.yaml" "/tmp/device-mounter/serving-certs" "tls.crt" "tls.key".

#[local] Instance w_range : RangeLib := {| range V m := map_to_list m |}.
#[local] Instance w_range_laws : RangeLaws.
Proof. split. intros V m. unfold range_of. reflexivity. Qed.

Lemma changes_are_served_witness :
  let name := "/tmp/device-mounter/serving-certs/tls.crt" in
  run w_files [] (handleEvent (tls_filewatch w_main) name fsnotify_Write w_main) =
    run w_files [] (reloadCertificate w_main) ∧
  ∀ n p c, reloaded w_main w_files [] w_main p c →
    let '((w', ended), t) := run w_files [] (processEvents n (tls_filewatch w_main) w_main) in
    (∀ why, ended ≠ Panicked why) → ∃ p' c', reloaded w_main w_files ([] ++ t) w' p' c'.
Proof.
  apply (changes_are_served w_main "/tmp/device-mounter/serving-certs/tls.crt" fsnotify_Write w_main
    w_files []).
  - intros name [t ->]%HasPrefix_spec. reflexivity.
  - intros name [t ->]%HasPrefix_spec. reflexivity.
Defined.
