(* ===== verification/PodResources.v ===== *)
(** * The connection to the kubelet ([pkg/client/pod_resources.go])

    The proxy holds a gRPC connection to the kubelet's socket and a client bound
    to it; a goroutine watches the state of the connection and dials again when
    it is lost. The lock of the proxy makes each of its methods atomic. *)
From Stdlib Require Import ZArith Lia.
From stdpp Require Import base gmap strings list.
From S2P Require Import Prelude GoStrings Api Ebpf World Resources.

Definition SocketDir : string := "/var/lib/kubelet/pod-resources".
Definition SocketPath : string := SocketDir +:+ "/kubelet.sock".

(** [podResources] is the connection the client is bound to. *)
Record PodResourcesClientPorxy := mkProxy {
  conn : Z;
  podResources : Z;
  socketPath : string }.

(** Any other error of [os.Stat] than absence goes on to the dialling. *)
Definition initClientConn (socketPath : string) : M (result Z) :=
  st <-- call (Stat socketPath) ;;
  match st with
  | SysErr ENOENT err => Done (Err (PlainError err))
  | _ => call (GrpcDial socketPath)
  end.

Definition newPodResourcesClientPorxy (socketPath : string) : M (result PodResourcesClientPorxy) :=
  c <-! initClientConn socketPath ;;
  Done (Ok (mkProxy c c socketPath)).

Definition GetClient (p : PodResourcesClientPorxy) : Z := podResources p.

(** The monitor is told to stop, then the connection is closed. *)
Definition Close (p : PodResourcesClientPorxy) : M (option goerr) := call (GrpcClose (conn p)).

(** The old connection is closed before a new one is dialled. *)
Definition recoverGRPCConnection (p : PodResourcesClientPorxy)
    : M (PodResourcesClientPorxy * option goerr) :=
  err <-- call (GrpcClose (conn p)) ;;
  match err with
  | Some err => Done (p, Some (wrap_err "failed to close old connection: " err))
  | None =>
      newConn <-- initClientConn (socketPath p) ;;
      Done match newConn with
           | Err err => (p, Some (wrap_err "failed to redial: " err))
           | Ok newConn => (mkProxy newConn newConn (socketPath p), None)
           end
  end.

(** One turn of [monitorConnection]; it sleeps only while the connection is up or
    coming up. The error of a recovery is logged. *)
Definition monitor_step (p : PodResourcesClientPorxy) : M (PodResourcesClientPorxy * bool) :=
  stop <-- call StopRequested ;;
  if stop : bool then Done (p, true) else
  state <-- call (GrpcGetState (conn p)) ;;
  match state with
  | Ready | Idle | Connecting => Done (p, false)
  | TransientFailure | Shutdown =>
      r <-- recoverGRPCConnection p ;; Done (r.1, false)
  end.

(** [n] turns, or fewer if the monitor is stopped. *)
Fixpoint monitorConnection (n : nat) (p : PodResourcesClientPorxy)
    : M (PodResourcesClientPorxy * bool) :=
  match n with
  | O => Done (p, false)
  | S n' =>
      r <-- monitor_step p ;;
      match r with
      | (p, true) => Done (p, true)
      | (p, false) => monitorConnection n' p
      end
  end.

(** The client of the process, dialled by the first call; [None] exits. *)
Definition GetPodResourcesClinet (podResourcesClient : option PodResourcesClientPorxy)
    : M (option PodResourcesClientPorxy) :=
  match podResourcesClient with
  | Some p => Done (Some p)
  | None =>
      r <-- newPodResourcesClientPorxy SocketPath ;;
      Done match r with Ok p => Some p | Err _ => None end
  end.

(** ** Recovery *)

Definition closed_in (t : trace) (c : Z) : Prop := ∃ rep, Ev (GrpcClose c) rep ∈ t.

(** gRPC: closing a connection that has been closed is an error
    ([ErrClientConnClosing]). *)
Definition grpc_closing (e : env) : Prop :=
  ∀ h c, closed_in h c → e h (GrpcClose c) ≠ None.

Definition no_dial (ev : event reply) : Prop := match ev_cmd ev with GrpcDial _ => False | _ => True end.

Lemma closed_in_app h t c : closed_in h c → closed_in (h ++ t) c.
Proof. intros [rep Hr]. exists rep. apply elem_of_app. by left. Qed.

Lemma recover_closed e h p :
  grpc_closing e → closed_in h (conn p) →
  wp e h (recoverGRPCConnection p) (λ '(p', err) t, p' = p ∧ is_Some err ∧ Forall no_dial t).
Proof.
  intros He Hc. unfold recoverGRPCConnection. wp_step. apply wp_vis_at, wp_done.
  destruct (e h (GrpcClose (conn p))) as [err|] eqn:Herr; [|by destruct (He _ _ Hc)].
  wp_step. split; [done|]. split; [by eexists|]. by repeat constructor.
Qed.

Lemma monitor_closed e h p n :
  grpc_closing e → closed_in h (conn p) →
  wp e h (monitorConnection n p) (λ '(p', _) t, p' = p ∧ Forall no_dial t).
Proof.
  intros He. revert h. induction n as [|n IH]; intros h Hc; cbn [monitorConnection]; [by wp_step|].
  wp_step. eapply (wp_mono _ _ _ (λ '(p', _) t, p' = p ∧ Forall no_dial t)).
  - intros [p' []] t [-> Ht]; [wp_step; by rewrite app_nil_r|].
    eapply wp_mono; [|apply IH; by apply closed_in_app]. intros [p'' b] t' [-> Ht'].
    split; [done|]. by apply Forall_app.
  - unfold monitor_step. wp_step. wp_step. destruct r; [wp_step; by repeat constructor|].
    wp_step. wp_step. destruct r; cbn beta iota; try (wp_step; by repeat constructor).
    all: wp_step; eapply wp_mono; [|apply recover_closed; [done | by do 2 apply closed_in_app]].
    all: intros [p' err] t (-> & _ & Ht); wp_step; rewrite app_nil_r; by repeat constructor.
Qed.

(** One failed redial loses the kubelet for good. If the recovery succeeds, the
    proxy hands out the new connection. If it fails - the kubelet is restarting
    and its socket is gone for a moment is enough - the proxy keeps the
    connection it has closed, and from then on closing it again fails before
    anything is dialled: however long the monitor runs, no turn of it changes the
    proxy or dials again. *)
Theorem failed_redial_is_final e h p n :
  grpc_closing e →
  wp e h (recoverGRPCConnection p) (λ '(p', err) t,
    match err with
    | None => Ev (GrpcDial (socketPath p)) (Ok (conn p')) ∈ t ∧ GetClient p' = conn p'
    | Some _ =>
        p' = p ∧
        wp e (h ++ t) (monitorConnection n p) (λ '(p'', _) t', p'' = p ∧ Forall no_dial t')
    end).
Proof.
  intros He. unfold recoverGRPCConnection. wp_step. wp_step.
  assert (closed_in [Ev (GrpcClose (conn p)) r] (conn p)) as Hc by (exists r; by left).
  assert (∀ t, wp e (h ++ [Ev (GrpcClose (conn p)) r] ++ t) (monitorConnection n p)
    (λ '(p'', _) t', p'' = p ∧ Forall no_dial t')) as Hlost.
  { intros t. apply monitor_closed; [done|]. destruct Hc as [rep Hc]. exists rep. set_solver. }
  destruct r as [err|]; [wp_step; split; [done|]; apply (Hlost [])|].
  wp_step. unfold initClientConn. wp_step. wp_step.
  assert (∀ st, wp e ((h ++ [Ev (GrpcClose (conn p)) None]) ++ [Ev (Stat (socketPath p)) st])
    (call (GrpcDial (socketPath p))) (λ r t, t = [Ev (GrpcDial (socketPath p)) r])) as Hdial.
  { intros st. by wp_step. }
  destruct r as [fi|[] err].
  2:{ wp_step. wp_step. split; [done|]. apply Hlost. }
  all: eapply wp_mono; [|apply Hdial]; intros [c|err'] t ->; wp_step; cbn [app];
    [split; [set_solver | done] | split; [done | apply Hlost]].
Qed.

(** ** Witnesses *)

(** The socket is gone, and closing twice is an error. *)
Definition w_env : env := λ h c,
  match c return reply c with
  | GrpcClose c =>
      if decide (existsb (λ ev, match ev_cmd ev with GrpcClose c' => (c' =? c)%Z | _ => false end) h)
      then Some (PlainError "grpc: the client connection is closing") else None
  | GrpcGetState _ => Shutdown
  | StopRequested => false
  | c => default_reply c
  end.

Lemma w_env_closing : grpc_closing w_env.
Proof.
  intros h c [rep Hin]. unfold w_env. rewrite decide_True; [done|].
  apply Is_true_true, existsb_exists. exists (Ev (GrpcClose c) rep).
  split; [by apply list_elem_of_In | simpl; lia].
Qed.

Definition w_proxy : PodResourcesClientPorxy := mkProxy 5 5 SocketPath.

Lemma failed_redial_is_final_witness :
  (run w_env [] (recoverGRPCConnection w_proxy)).1 =
    (w_proxy, Some (PlainError "failed to redial: no such file or directory")) ∧
  wp w_env [] (recoverGRPCConnection w_proxy) (λ '(p', err) t,
    match err with
    | None => Ev (GrpcDial (socketPath w_proxy)) (Ok (conn p')) ∈ t ∧ GetClient p' = conn p'
    | Some _ =>
        p' = w_proxy ∧
        wp w_env ([] ++ t) (monitorConnection 1000 w_proxy)
          (λ '(p'', _) t', p'' = w_proxy ∧ Forall no_dial t')
    end).
Proof.
  split; [reflexivity|].
  apply (failed_redial_is_final w_env [] w_proxy 1000). exact w_env_closing.
Defined.
