(* ===== verification/Versions.v ===== *)
(** * Version strings ([pkg/versions])

    The parts of the user agent: the program's name, the version up to its first
    hyphen and the short commit. *)
From Stdlib Require Import ZArith Lia Ascii.
From stdpp Require Import base strings list.
From S2P Require Import Prelude GoStrings.

(** [filepath.Base] on Unix: the last element, trailing slashes removed. *)
Fixpoint drop_slashes (s : string) : string :=
  match s with
  | EmptyString => EmptyString
  | String c s' =>
      match drop_slashes s' with
      | EmptyString => if Ascii.eqb c "/" then EmptyString else String c EmptyString
      | rest => String c rest
      end
  end.

Definition Base (p : string) : string :=
  if str_empty p then "." else
  let p := drop_slashes p in
  if str_empty p then "/" else List.last (Split p "/") "".

Definition AdjustCommand (p : string) : string :=
  if str_empty p then "unknown" else Base p.

(** [strings.SplitN(v, "-", 2)[0]]. *)
Definition AdjustVersion (v : string) : string :=
  if str_empty v then "unknown" else List.hd "" (Split v "-").

Definition AdjustCommit (c : string) : string :=
  if str_empty c then "unknown"
  else if (7 <? String.length c)%nat then String.substring 0 7 c else c.

(** ** Properties *)

Example base_plain : map Base [""; "/"; "a"; "/usr/bin/x"; "/usr/bin/"; "a//"] = ["."; "/"; "a"; "x"; "bin"; "a"].
Proof. reflexivity. Qed.

Lemma split_from_hd c cur s t :
  char_free c s = true → List.hd "" (split_from (String c "") 0 cur (s +:+ String c t)) = cur +:+ s.
Proof. intros Hs. rewrite split_from_free by done. rewrite split_from_char. done. Qed.

(** The version is what is before the first hyphen. *)
Lemma AdjustVersion_release v rest :
  v ≠ "" → char_free "-" v = true → AdjustVersion (v +:+ String "-" rest) = v ∧ AdjustVersion v = v.
Proof.
  intros Hv Hfree. unfold AdjustVersion, str_empty, Split.
  rewrite !bool_decide_eq_false_2; [|done|by destruct v].
  split; [by apply (split_from_hd "-" "")|].
  change (List.hd "" (Split v (String "-" "")) = v). by rewrite Split_free.
Qed.

(** A commit is cut to its first seven characters. *)
Lemma AdjustCommit_short c : c ≠ "" → String.length (AdjustCommit c) ≤ 7 ∧ HasPrefix c (AdjustCommit c) = true.
Proof.
  intros Hc. unfold AdjustCommit, str_empty. rewrite bool_decide_eq_false_2 by done.
  destruct (Nat.ltb_spec 7 (String.length c)) as [Hl|Hl].
  - do 7 (destruct c as [|? c]; [simpl in Hl; lia|]). split; [destruct c; simpl; lia|].
    assert (∀ s, String.substring 0 0 s = "") as H0 by by intros [].
    cbn [String.substring]. rewrite ?H0. unfold HasPrefix. cbn [String.prefix].
    repeat (destruct (ascii_dec _ _); [|done]). by destruct c.
  - split; [lia|]. pose proof (HasPrefix_app c "") as Hp. by rewrite string_app_nil_r in Hp.
Qed.
