(* ===== verification/KubeClient.v ===== *)
(** * The Kubernetes client ([pkg/client])

    The configuration that the process shares ([kube_client.go]) and the commands
    in containers that need it ([kube_exec.go]). The configuration is a Go pointer
    to a struct that callers get copies of; the model keeps the structs in a
    store, so that aliasing would show. *)
From Stdlib Require Import ZArith Lia.
From stdpp Require Import base gmap strings list.
From S2P Require Import Prelude GoStrings Api Versions.

(** ** Configurations *)

(** [rest.Config]: the fields that the sources write, and the others together. *)
Record Config := mkConfig {
  Host : string;
  QPS : Z;
  Burst : Z;
  UserAgent : string;
  AcceptContentTypes : string;
  ContentType : string;
  APIPath : string;
  GroupVersion : option string;
  NegotiatedSerializer : option string }.

#[export] Instance Config_eq_dec : EqDecision Config.
Proof. solve_decision. Defined.

Definition Option : Type := Config → Config.

(** A float32 is given by its bits. *)
Definition WithQPS (qps burst : Z) : Option := λ config,
  mkConfig (Host config) qps burst (UserAgent config) (AcceptContentTypes config) (ContentType config)
    (APIPath config) (GroupVersion config) (NegotiatedSerializer config).

Definition WithUserAgent (userAgent : string) : Option := λ config,
  mkConfig (Host config) (QPS config) (Burst config) userAgent (AcceptContentTypes config)
    (ContentType config) (APIPath config) (GroupVersion config) (NegotiatedSerializer config).

Definition WithContentType (acceptContentTypes contentType : string) : Option := λ config,
  mkConfig (Host config) (QPS config) (Burst config) (UserAgent config) acceptContentTypes contentType
    (APIPath config) (GroupVersion config) (NegotiatedSerializer config).

Definition WithDefaultContentType : Option :=
  WithContentType "application/vnd.kubernetes.protobuf,application/json" "application/json".

(** What the build and the operating system say of the process. *)
Record Build := mkBuild {
  Args0 : string;
  BuildVersion : string;
  BuildCommit : string;
  GOOS : string;
  GOARCH : string }.

Definition userAgent (b : Build) : string :=
  AdjustCommand (Args0 b) +:+ "/" +:+ AdjustVersion (BuildVersion b) +:+ " (" +:+ GOOS b +:+ "/" +:+
  GOARCH b +:+ ") kubernetes/" +:+ AdjustCommit (BuildCommit b).

Definition WithDefaultUserAgent (b : Build) : Option := WithUserAgent (userAgent b).

(** ** Calls *)

(** [v1.PodExecOptions], and the request that [RESTClient().Post()] builds. *)
Record PodExecOptions := mkPodExecOptions {
  Command : list string;
  exec_Container : string;
  Stdin : bool;
  Stdout : bool;
  Stderr : bool;
  TTY : bool }.

Record ExecRequest := mkExecRequest {
  req_Resource : string;
  req_Name : string;
  req_Namespace : string;
  req_SubResource : string;
  req_Params : list (string * string);
  req_Options : PodExecOptions }.

(** [cp.CopyOptions], the fields that [CopyToPod] sets after [Complete]. *)
Record CopyOptions := mkCopyOptions {
  copy_Args : list string;
  copy_ClientConfig : Config;
  copy_Namespace : string;
  copy_Container : string }.

(** Third-party code is called: clientcmd, client-go's clientset and SPDY executor,
    kubectl's [cp]; and klog. *)
Inductive kcmd :=
  | BuildConfigFromFlags (masterUrl kubeconfig : string)
  | NewForConfig (config : Config)
  | NewSPDYExecutor (config : Config) (method : string) (req : ExecRequest)
  | StreamWithContext (executor : Z) (stdin : option string)
  | CompleteCopy (args : list string)
  | RunCopy (opts : CopyOptions)
  | Infoln (line : string)
  | Errorln (line : string).

Definition kreply (c : kcmd) : Type :=
  match c with
  | BuildConfigFromFlags _ _ => result Config
  | NewForConfig _ => result Z
  | NewSPDYExecutor _ _ _ => result Z
  | StreamWithContext _ _ => string * string * option goerr
  | CompleteCopy _ => option goerr
  | RunCopy _ => string * string * option goerr
  | Infoln _ => unit
  | Errorln _ => unit
  end.

Abbreviation K := (prog kreply).

Abbreviation ask := (@call kcmd kreply).

(** ** The shared configuration *)

(** [initKubeConfig] has run; [kubeConfig], a pointer that may be nil; the store. *)
Record ClientState := mkClientState {
  initKubeConfig : bool;
  kubeConfig : option nat;
  store : list Config }.

Definition newClientState : ClientState := mkClientState false None [].

Definition alloc (c : Config) (s : ClientState) : nat * ClientState :=
  (length (store s), mkClientState (initKubeConfig s) (kubeConfig s) (store s ++ [c])).
Definition update (p : nat) (f : Config → Config) (s : ClientState) : ClientState :=
  mkClientState (initKubeConfig s) (kubeConfig s) (alter f p (store s)).

(** [sync.Once]: only the first call runs the function, and only it sees the error. *)
Definition InitKubeConfig (masterUrl kubeconfig : string) (s : ClientState)
    : K (ClientState * option goerr) :=
  if initKubeConfig s then Done (s, None) else
  r <-- ask (BuildConfigFromFlags masterUrl kubeconfig) ;;
  Done match r with
       | Err err => (mkClientState true None (store s), Some err)
       | Ok config =>
           let '(p, s) := alloc config s in (mkClientState true (Some p) (store s), None)
       end.

(** [rest.CopyConfig]: a new struct with the fields of the old one, which must not
    be nil. *)
Definition CopyConfig (p : option nat) (s : ClientState) : outcome (nat * ClientState) :=
  match p ≫= λ p, store s !! p with
  | Some config => Returns (alloc config s)
  | None => Panics "invalid memory address or nil pointer dereference"
  end.

Definition GetKubeConfig (opts : list Option) (s : ClientState)
    : K (ClientState * outcome (result nat)) :=
  r <-- InitKubeConfig "" "" s ;;
  Done match r with
       | (s, Some err) => (s, Returns (Err err))
       | (s, None) =>
           match CopyConfig (kubeConfig s) s with
           | Panics why => (s, Panics why)
           | Returns (config, s) => (foldl (λ s opt, update config opt s) s opts, Returns (Ok config))
           end
       end.

Definition deref (p : nat) (s : ClientState) : Config :=
  default (mkConfig "" 0 0 "" "" "" "" None None) (store s !! p).

Definition GetClientSet (opts : list Option) (s : ClientState)
    : K (ClientState * outcome (result Z)) :=
  r <-- GetKubeConfig opts s ;;
  match r with
  | (s, Returns (Ok config)) =>
      clientset <-- ask (NewForConfig (deref config s)) ;;
      Done (s, Returns (clientset : result Z))
  | (s, Returns (Err err)) => Done (s, Returns (Err err))
  | (s, Panics why) => Done (s, Panics why)
  end.

(** ** Commands in containers *)

(** [printOutput]. *)
Definition printOutput (stdout stderr : string) : K unit :=
  _ <-- (if str_empty stdout then Done tt else ask (Infoln ("STDOUT: " +:+ stdout))) ;;
  if str_empty stderr then Done tt else ask (Errorln ("STDERR: " +:+ stderr)).

Definition exec_request (namespace name container : string) (stdin : bool) (cmd : list string) : ExecRequest :=
  mkExecRequest "pods" name namespace "exec" [("container", container)]
    (mkPodExecOptions cmd container stdin true true false).

(** The part that [WriteToPod] and [ExecCmdToPod] share: [content] is what the
    command reads. *)
Definition stream (req : ExecRequest) (content : option string) (s : ClientState)
    : K (ClientState * outcome (result (string * string))) :=
  r <-- GetKubeConfig [] s ;;
  match r with
  | (s, Panics why) => Done (s, Panics why)
  | (s, Returns (Err err)) => Done (s, Returns (Err err))
  | (s, Returns (Ok config)) =>
      executor <-- ask (NewSPDYExecutor (deref config s) "POST" req) ;;
      match executor with
      | Err err => Done (s, Returns (Err err))
      | Ok executor =>
          out <-- ask (StreamWithContext executor content) ;;
          let '(stdout, stderr, err) := out in
          match err with
          | Some err => Done (s, Returns (Err err))
          | None => _ <-- printOutput stdout stderr ;; Done (s, Returns (Ok (stdout, stderr)))
          end
      end
  end.

Definition WriteToPod (namespace name container content : string) (cmd : list string)
    : ClientState → K (ClientState * outcome (result (string * string))) :=
  stream (exec_request namespace name container true cmd) (Some content).

Definition ExecCmdToPod (namespace name container : string) (cmd : list string)
    : ClientState → K (ClientState * outcome (result (string * string))) :=
  stream (exec_request namespace name container false cmd) None.

(** The assignments to [kubeconfig]. *)
Definition copy_config (config : Config) : Config :=
  mkConfig (Host config) (QPS config) (Burst config) (UserAgent config) (AcceptContentTypes config)
    (ContentType config) "/api" (Some "v1") (Some "scheme.Codecs").

Definition CopyToPod (namespace name container src dst : string) (s : ClientState)
    : K (ClientState * outcome (result (string * string))) :=
  r <-- GetKubeConfig [] s ;;
  match r with
  | (s, Panics why) => Done (s, Panics why)
  | (s, Returns (Err err)) => Done (s, Returns (Err err))
  | (s, Returns (Ok kubeconfig)) =>
      let s := update kubeconfig copy_config s in
      let args := [src; namespace +:+ "/" +:+ name +:+ ":" +:+ dst] in
      err <-- ask (CompleteCopy args) ;;
      match err with
      | Some err => Done (s, Returns (Err err))
      | None =>
          out <-- ask (RunCopy (mkCopyOptions args (deref kubeconfig s) namespace container)) ;;
          let '(stdout, stderr, err) := out in
          match err with
          | Some err => Done (s, Returns (Err err))
          | None => _ <-- printOutput stdout stderr ;; Done (s, Returns (Ok (stdout, stderr)))
          end
      end
  end.

(** ** Properties *)

Abbreviation kevent := (event kreply).

(** The shared configuration is the one that was built, or there is none if that
    failed. *)
Definition holds_config (s : ClientState) (built : option Config) : Prop :=
  initKubeConfig s = true ∧
  match built with
  | Some config => ∃ p, kubeConfig s = Some p ∧ store s !! p = Some config
  | None => kubeConfig s = None
  end.

Definition fresh_pointer (s s' : ClientState) (p : nat) : Prop :=
  store s !! p = None ∧ p < length (store s').

Lemma update_other p f s q : q ≠ p → store (update p f s) !! q = store s !! q.
Proof. intros Hq. simpl. by rewrite list_lookup_alter_ne. Qed.

(** The options reach the copy only, in their order. *)
Lemma options_applied opts p s config :
  store s !! p = Some config →
  let s' := foldl (λ s opt, update p opt s) s opts in
  initKubeConfig s' = initKubeConfig s ∧ kubeConfig s' = kubeConfig s ∧
  length (store s') = length (store s) ∧
  store s' !! p = Some (foldl (λ config opt, opt config) config opts) ∧
  ∀ q, q ≠ p → store s' !! q = store s !! q.
Proof.
  revert s config. induction opts as [|opt opts IH]; intros s config Hp; simpl; [done|].
  destruct (IH (update p opt s) (opt config)) as (H1 & H2 & H3 & H4 & H5).
  { simpl. rewrite list_lookup_alter_eq, Hp. done. }
  split_and!; try done.
  - rewrite H3. simpl. apply length_alter.
  - intros q Hq. rewrite H5 by done. by apply update_other.
Qed.

Lemma GetKubeConfig_built opts s config e h :
  holds_config s (Some config) →
  ∃ s' p, run e h (GetKubeConfig opts s) = ((s', Returns (Ok p)), []) ∧
    holds_config s' (Some config) ∧ fresh_pointer s s' p ∧
    deref p s' = foldl (λ config opt, opt config) config opts ∧ kubeConfig s' = kubeConfig s ∧
    ∀ q, q < length (store s) → store s' !! q = store s !! q.
Proof.
  intros (Hi & p & Hp & Hc). unfold GetKubeConfig, InitKubeConfig. rewrite Hi. cbn.
  unfold CopyConfig. rewrite Hp. cbn. rewrite Hc. cbn.
  destruct (options_applied opts (length (store s))
    (mkClientState (initKubeConfig s) (kubeConfig s) (store s ++ [config])) config) as (H1 & H2 & H3 & H4 & H5).
  { simpl. rewrite lookup_app_r, Nat.sub_diag by done. done. }
  pose proof (lookup_lt_Some _ _ _ Hc) as Hlt.
  do 2 eexists. split; [rewrite Hp; done|]. rewrite Hp in *. split; [split; [by rewrite H1|]|split; [split|split; [|split]]].
  - exists p. rewrite H2. split; [done|]. rewrite H5 by lia. simpl. rewrite lookup_app_l by done. done.
  - apply lookup_ge_None_2. done.
  - rewrite H3. simpl. rewrite length_app. simpl. lia.
  - unfold deref. by rewrite H4.
  - by rewrite H2.
  - intros q Hq. rewrite H5 by lia. simpl. by rewrite lookup_app_l.
Qed.

(** What the process does with the client, in any order. *)
Inductive client_op :=
  | OpInit (masterUrl kubeconfig : string)
  | OpConfig (opts : list Option)
  | OpClientSet (opts : list Option)
  | OpExec (namespace name container : string) (cmd : list string)
  | OpWrite (namespace name container content : string) (cmd : list string)
  | OpCopy (namespace name container src dst : string).

Definition forget {A} (r : ClientState * outcome A) : ClientState * outcome unit :=
  (r.1, match r.2 with Returns _ => Returns tt | Panics why => Panics why end).

Definition run_op (op : client_op) (s : ClientState) : K (ClientState * outcome unit) :=
  match op with
  | OpInit masterUrl kubeconfig => r <-- InitKubeConfig masterUrl kubeconfig s ;; Done (r.1, Returns tt)
  | OpConfig opts => r <-- GetKubeConfig opts s ;; Done (forget r)
  | OpClientSet opts => r <-- GetClientSet opts s ;; Done (forget r)
  | OpExec ns name ctr cmd => r <-- ExecCmdToPod ns name ctr cmd s ;; Done (forget r)
  | OpWrite ns name ctr content cmd => r <-- WriteToPod ns name ctr content cmd s ;; Done (forget r)
  | OpCopy ns name ctr src dst => r <-- CopyToPod ns name ctr src dst s ;; Done (forget r)
  end.

(** A panic ends the process. *)
Fixpoint run_ops (ops : list client_op) (s : ClientState) : K (ClientState * outcome unit) :=
  match ops with
  | [] => Done (s, Returns tt)
  | op :: ops =>
      r <-- run_op op s ;;
      match r with
      | (s, Returns _) => run_ops ops s
      | (s, Panics why) => Done (s, Panics why)
      end
  end.

(** What the calls of an operation are, when the shared configuration is [config]. *)
Definition with_options (config : Config) (opts : list Option) : Config :=
  foldl (λ config opt, opt config) config opts.

Definition logged (ev : kevent) : Prop :=
  match ev_cmd ev with Infoln _ | Errorln _ => True | _ => False end.

Definition streamed (config : Config) (req : ExecRequest) (content : option string) (t : list kevent) : Prop :=
  (∃ err, t = [Ev (NewSPDYExecutor config "POST" req) (Err err)]) ∨
  ∃ executor out t', t = Ev (NewSPDYExecutor config "POST" req) (Ok executor) ::
    Ev (StreamWithContext executor content) out :: t' ∧ Forall logged t'.

Definition copied (config : Config) (namespace name container src dst : string) (t : list kevent) : Prop :=
  let args := [src; namespace +:+ "/" +:+ name +:+ ":" +:+ dst] in
  (∃ err, t = [Ev (CompleteCopy args) (Some err)]) ∨
  ∃ out t', t = Ev (CompleteCopy args) None ::
    Ev (RunCopy (mkCopyOptions args (copy_config config) namespace container)) out :: t' ∧ Forall logged t'.

Definition op_calls (config : Config) (op : client_op) (t : list kevent) : Prop :=
  match op with
  | OpInit _ _ | OpConfig _ => t = []
  | OpClientSet opts => ∃ clientset, t = [Ev (NewForConfig (with_options config opts)) clientset]
  | OpExec ns name ctr cmd => streamed config (exec_request ns name ctr false cmd) None t
  | OpWrite ns name ctr content cmd => streamed config (exec_request ns name ctr true cmd) (Some content) t
  | OpCopy ns name ctr src dst => copied config ns name ctr src dst t
  end.

Lemma GetKubeConfig_wp opts s config e h :
  holds_config s (Some config) →
  wp e h (GetKubeConfig opts s) (λ '(s', o) t, t = [] ∧ ∃ p, o = Returns (Ok p) ∧
    holds_config s' (Some config) ∧ store s' !! p = Some (foldl (λ config opt, opt config) config opts) ∧
    kubeConfig s' ≠ Some p).
Proof.
  intros Hs. destruct (GetKubeConfig_built opts s config e h Hs)
    as (s' & p & Hr & Hs' & [Hfresh Hlt] & Hd & Hk & _).
  unfold wp. rewrite Hr. split; [done|]. exists p. split; [done|]. split; [done|].
  apply lookup_lt_is_Some_2 in Hlt as [c Hc]. unfold deref in Hd. rewrite Hc in *. simpl in Hd. subst c.
  split; [done|]. intros Hp. destruct Hs as (_ & q & Hq & Hqc). congruence.
Qed.

Lemma holds_update s config p f :
  kubeConfig s ≠ Some p → holds_config s (Some config) → holds_config (update p f s) (Some config).
Proof.
  intros Hp (Hi & q & Hq & Hc). split; [done|]. exists q. split; [done|].
  rewrite update_other; [done|congruence].
Qed.

Lemma printOutput_wp stdout stderr e h :
  wp e h (printOutput stdout stderr) (λ _ t, Forall logged t).
Proof.
  unfold printOutput. wp_step. destruct (str_empty stdout); wp_step; destruct (str_empty stderr);
    repeat wp_step; cbn; repeat constructor.
Qed.

(** A command runs with a copy of the shared configuration. *)
Lemma stream_wp req content s config e h :
  holds_config s (Some config) →
  wp e h (stream req content s) (λ '(s', o) t, holds_config s' (Some config) ∧ (∃ r, o = Returns r) ∧
    streamed config req content t).
Proof.
  intros Hs. unfold stream. wp_step. eapply wp_mono; [|by apply (GetKubeConfig_wp [])].
  intros [s' o] t (-> & p & -> & Hs' & Hp & _). cbn [app]. simpl in Hp.
  wp_step. wp_step. unfold deref. rewrite Hp. cbn [default].
  destruct r as [executor|err]; wp_step;
    [|split; [done|]; split; [by eexists|left; by eexists]].
  wp_step. destruct r as [[stdout stderr] [err|]]; wp_step.
  - split; [done|]. split; [by eexists|]. right. do 3 eexists. split; [reflexivity|constructor].
  - eapply wp_mono; [|apply printOutput_wp]. intros x t Ht. wp_step. rewrite app_nil_r.
    split; [done|]. split; [by eexists|]. right. do 3 eexists. split; [reflexivity|done].
Qed.

(** The same for a copy to a container. *)
Lemma CopyToPod_wp ns name ctr src dst s config e h :
  holds_config s (Some config) →
  wp e h (CopyToPod ns name ctr src dst s) (λ '(s', o) t, holds_config s' (Some config) ∧
    (∃ r, o = Returns r) ∧ copied config ns name ctr src dst t).
Proof.
  intros Hs. unfold CopyToPod. wp_step. eapply wp_mono; [|by apply (GetKubeConfig_wp [])].
  intros [s' o] t (-> & p & -> & Hs' & Hp & Hne). cbn [app]. simpl in Hp.
  pose proof (holds_update s' config p copy_config Hne Hs') as Hs''. cbn zeta.
  wp_step. wp_step. destruct r as [err|]; wp_step; [split; [done|]; split; [by eexists|left; by eexists]|].
  wp_step. assert (deref p (update p copy_config s') = copy_config config) as Hd.
  { unfold deref. simpl. by rewrite list_lookup_alter_eq, Hp. }
  rewrite Hd in *.
  destruct r as [[stdout stderr] [err|]]; wp_step.
  - split; [done|]. split; [by eexists|]. right. do 2 eexists. split; [reflexivity|constructor].
  - eapply wp_mono; [|apply printOutput_wp]. intros x t Ht. wp_step. rewrite app_nil_r.
    split; [done|]. split; [by eexists|]. right. do 2 eexists. split; [reflexivity|done].
Qed.

Lemma run_op_wp op s config e h :
  holds_config s (Some config) →
  wp e h (run_op op s) (λ '(s', o) t, holds_config s' (Some config) ∧ o = Returns tt ∧ op_calls config op t).
Proof.
  intros Hs. destruct op as [m k|opts|opts|ns n c cmd|ns n c ct cmd|ns n c src dst]; cbn [run_op op_calls].
  - unfold InitKubeConfig. rewrite (proj1 Hs). repeat wp_step.
    split; [done|]. split; done.
  - wp_step. eapply wp_mono; [|by apply GetKubeConfig_wp].
    intros [s' o] t (-> & p & -> & Hs' & _). wp_step.
    split; [done|]. split; done.
  - wp_step. unfold GetClientSet. wp_step. eapply wp_mono; [|by apply GetKubeConfig_wp].
    intros [s' o] t (-> & p & -> & Hs' & Hp & _). repeat wp_step. unfold deref. rewrite Hp.
    split; [exact Hs'|]. split; [done|]. by eexists.
  - wp_step. eapply wp_mono; [|by apply stream_wp]. intros [s' o] t (? & (r & ->) & ?). wp_step.
    rewrite app_nil_r. done.
  - wp_step. eapply wp_mono; [|by apply stream_wp]. intros [s' o] t (? & (r & ->) & ?). wp_step.
    rewrite app_nil_r. done.
  - wp_step. eapply wp_mono; [|by apply CopyToPod_wp]. intros [s' o] t (? & (r & ->) & ?). wp_step.
    rewrite app_nil_r. done.
Qed.

(** C29. The configuration of the process, once it has been built. Whatever the
    process then does with the client, in any order and with any answers, no
    operation panics, and the configuration stays as it was built, although
    options and commands assign to the copies they get. The calls are those of
    the operations, one after the other: none builds a configuration again,
    whatever flags a later caller passes; a client is made of the shared
    configuration with that operation's own options applied, in their order, and
    no others; a command is sent with the shared configuration as it is, and a
    copy to a container with its three fields set. *)
Theorem shared_config_stable ops s config e h :
  holds_config s (Some config) →
  wp e h (run_ops ops s) (λ '(s', o) t, holds_config s' (Some config) ∧ o = Returns tt ∧
    ∃ ts, t = concat ts ∧ Forall2 (op_calls config) ops ts).
Proof.
  revert s h. induction ops as [|op ops IH]; intros s h Hs; cbn [run_ops]; wp_step;
    [split; [done|]; split; [done|]; exists []; by repeat constructor|].
  eapply wp_mono; [|by apply run_op_wp]. intros [s' o] t (Hs' & -> & Ht).
  eapply wp_mono; [|by apply IH]. intros [s'' o] t' (? & ? & ts & -> & Hts). split; [done|]. split; [done|].
  exists (t :: ts). split; [done|]. by constructor.
Qed.

(** The operations that need the configuration. *)
Definition needs_config (op : client_op) : Prop := match op with OpInit _ _ => False | _ => True end.

(** C30. A configuration that could not be built. The first caller of
    [InitKubeConfig] gets the error; every later one is told that all is well
    without another attempt, and everything that needs the configuration then
    panics on the nil pointer, before any call is made. Only the exit of [main]
    on that first error keeps the process from it. *)
Theorem failed_init_is_final masterUrl kubeconfig err (e : environment kreply) h :
  e h (BuildConfigFromFlags masterUrl kubeconfig) = Err err →
  ∃ s, (run e h (InitKubeConfig masterUrl kubeconfig newClientState)).1 = (s, Some err) ∧
    (∀ h' masterUrl' kubeconfig', run e h' (InitKubeConfig masterUrl' kubeconfig' s) = ((s, None), [])) ∧
    ∀ h' op, needs_config op →
      run e h' (run_op op s) = ((s, Panics "invalid memory address or nil pointer dereference"), []).
Proof.
  intros Herr. exists (mkClientState true None []). split; [|split].
  - unfold InitKubeConfig. cbn. by rewrite Herr.
  - done.
  - intros h' [] Hop; done.
Qed.


(** ** Witnesses *)

Definition w_config : Config := mkConfig "https://10.0.0.1" 0 0 "" "" "" "" None None.
Definition w_state : ClientState := mkClientState true (Some 0) [w_config].
Definition w_kube : environment kreply := λ _ c,
  match c return kreply c with
  | BuildConfigFromFlags _ _ => Err (PlainError "unable to load in-cluster configuration")
  | NewForConfig _ => Ok 1%Z
  | NewSPDYExecutor _ _ _ => Ok 2%Z
  | StreamWithContext _ _ => ("ok", "", None)
  | CompleteCopy _ => None
  | RunCopy _ => ("", "", None)
  | Infoln _ => tt
  | Errorln _ => tt
  end.

Lemma w_state_holds : holds_config w_state (Some w_config).
Proof. split; [done|]. by exists 0. Qed.

Definition w_ops : list client_op :=
  [OpInit "other" ""; OpClientSet [WithQPS 20 30]; OpCopy "default" "pod" "main" "a" "/b";
   OpExec "default" "pod" "main" ["ls"]].

Lemma shared_config_stable_witness :
  wp w_kube [] (run_ops w_ops w_state) (λ '(s', o) t, holds_config s' (Some w_config) ∧ o = Returns tt ∧
    ∃ ts, t = concat ts ∧ Forall2 (op_calls w_config) w_ops ts).
Proof. apply (shared_config_stable w_ops w_state w_config w_kube []). apply w_state_holds. Defined.

Lemma failed_init_is_final_witness :
  ∃ s, (run w_kube [] (InitKubeConfig "" "" newClientState)).1 =
         (s, Some (PlainError "unable to load in-cluster configuration")) ∧
    (∀ h' masterUrl' kubeconfig', run w_kube h' (InitKubeConfig masterUrl' kubeconfig' s) = ((s, None), [])) ∧
    ∀ h' op, needs_config op →
      run w_kube h' (run_op op s) = ((s, Panics "invalid memory address or nil pointer dereference"), []).
Proof.
  apply (failed_init_is_final "" "" (PlainError "unable to load in-cluster configuration") w_kube []).
  reflexivity.
Defined.

