(* ===== verification/ApiMain.v ===== *)
(** * The apiserver process ([cmd/apiserver/main.go])

    What [main] sets up from the flags - the TLS watch, the file watch and the
    service - and the configuration that a connection gets from it. [ApiRoutes]
    has the routes and documents, [Startup] the calls that [main] makes. *)
From Stdlib Require Import ZArith Lia.
From stdpp Require Import base gmap strings list.
From S2P Require Import Prelude GoStrings Api Ebpf World Resources Util AuthConfig ApiServer TlsConfig FileWatch.

Definition serviceCertDir : string := "/tmp/device-mounter/serving-certs".
Definition certName : string := "tls.crt".
Definition main_keyName : string := "tls.key".
Definition main_configDir : string := "/config".
Definition TlsProfileFile : string := "tls-profile-v1alpha1.yaml".

(** [labels.SelectorFromSet(set).String()] of apimachinery: a requirement per pair,
    none for the empty set. *)
Class LabelsLib := { SelectorFromSet : gmap string string → string }.
Class LabelsLaws `{LabelsLib} : Prop := {
  selector_empty m : SelectorFromSet m = "" ↔ m = ∅ }.

(** [tls.ClientAuthType], the two values used. *)
Inductive ClientAuthType := RequireAndVerifyClientCert | RequestClientCert.

Section Main.
Context `{LabelsLib, RangeLib, TlsLib}.

(** The labels of the mounter's pods. *)
Definition main_selector (MounterSelector : string) : gmap string string :=
  if negb (str_empty MounterSelector) then ParseLabelSelector MounterSelector
  else <[AppComponentLabelKey := "daemonset"]>
         (<[AppCreatedByLabelKey := "device-mounter-daemonset"]>
            {[AppInstanceLabelKey := "device-mounter-daemonset"]}).

Definition main_watch : TlsConfig.watch :=
  NewWatch main_configDir TlsProfileFile serviceCertDir certName main_keyName.

Record Process := mkProcess {
  handlers : service;
  tlsConfigWatch : TlsConfig.watch;
  filewatch : FileWatch.watch TlsConfig.watch }.

(** From [filewatch.New] to [NewService]; an error exits the process. *)
Definition start (MounterBindPort MounterNamespace MounterSelector : string)
    : M (outcome (result Process)) :=
  r <-- Reload main_watch ;;
  Done match r with
       | (_, Panics why) => Panics why
       | (tlsConfigWatch, Returns _) =>
           match AddToFilewatch tlsConfigWatch New with
           | (_, Some err) => Returns (Err err)
           | (watch, None) =>
               match NewService MounterBindPort MounterNamespace
                       (Some (SelectorFromSet (main_selector MounterSelector))) with
               | Err err => Returns (Err err)
               | Ok handlers => Returns (Ok (mkProcess handlers tlsConfigWatch watch))
               end
           end
       end.

(** With [debug], client certificates are requested but not verified. *)
Definition GetConfigForClient `{!ReaderOps R} (debug : bool) (w : TlsConfig.watch) (r : R)
    : M (R * outcome (result (tlsConfig * ClientAuthType))) :=
  c <-- GetConfig w r ;;
  Done (c.1, match c.2 with
             | Returns (Ok config) =>
                 Returns (Ok (config, if debug then RequestClientCert else RequireAndVerifyClientCert))
             | Returns (Err err) => Returns (Err err)
             | Panics why => Panics why
             end).

(** ** Properties *)

Lemma NewService_spec port ns selector :
  NewService port ns (Some selector) =
    if str_empty selector then Err (PlainError "The label selector of the device mounter cannot be empty")
    else Ok (ApiServer.mkService port ns selector).
Proof. done. Qed.

(** Loading does not change where the files are. *)
Lemma reload_dirs w e h :
  wp e h (Reload w) (λ '(w', _) _, configDir w' = configDir w ∧ certAndKeyDir w' = certAndKeyDir w).
Proof.
  unfold Reload, reloadTlsProfile, reloadCertificate. do 2 wp_step. eapply wp_mono; [|apply wp_true].
  intros r t _. wp_step. wp_step. eapply wp_mono; [|apply wp_true]. intros r' t' _. wp_step.
  destruct r as [[]|[]], r' as [[]|]; done.
Qed.

Lemma Reload_reloaded w0 e h w p c :
  reloaded w0 e h w p c →
  wp e h (Reload w) (λ '(w', o) t, o = Returns tt → ∃ p' c', reloaded w0 e (h ++ t) w' p' c').
Proof.
  intros Hw. destruct (reload_profile_reloaded w0 e h w p c Hw) as (p' & Hw').
  unfold wp, Reload. rewrite run_bind. unfold reload_profile in Hw'. rewrite run_bind in Hw'.
  destruct (run e h (reloadTlsProfile w)) as [w1 t1]. cbn in Hw'. rewrite app_nil_r in Hw'.
  pose proof (reloadCertificate_reloaded w0 e (h ++ t1) w1 p' c Hw') as Hc.
  destruct (run e (h ++ t1) (reloadCertificate w1)) as [[w2 o] t2]. cbn in *.
  intros ->. destruct (Hc eq_refl) as [c' Hc']. exists p', c'. by rewrite app_assoc.
Qed.

Lemma tls_filewatch_dirs w w' :
  configDir w' = configDir w → certAndKeyDir w' = certAndKeyDir w → tls_filewatch w' = tls_filewatch w.
Proof. intros Hc Hk. unfold tls_filewatch, AddToFilewatch, Add. cbn. by rewrite Hc, Hk. Qed.

(** What a run of [start] leaves behind. *)
Lemma start_wp port ns sel e h :
  wp e h (start port ns sel) (λ o t,
    match o with
    | Panics _ => True
    | Returns (Err _) => SelectorFromSet (main_selector sel) = ""
    | Returns (Ok p) =>
        SelectorFromSet (main_selector sel) ≠ "" ∧
        handlers p = ApiServer.mkService port ns (SelectorFromSet (main_selector sel)) ∧
        filewatch p = tls_filewatch main_watch ∧
        ∃ pr c, reloaded main_watch e (h ++ t) (tlsConfigWatch p) pr c
    end).
Proof.
  unfold start. wp_step. eapply wp_mono; [|apply wp_and; [apply (reload_dirs main_watch) |
    eapply (Reload_reloaded main_watch), reloaded_init]].
  intros [w [[]|why]] t [[Hc Hk] Hr]; wp_step; [|done].
  destruct (AddToFilewatch w New) as [fw [err|]] eqn:Hadd; [done|].
  rewrite NewService_spec. unfold str_empty. case_bool_decide as Hsel; [done|].
  split; [done|]. split; [done|]. split; [|rewrite app_nil_r; by apply Hr].
  change (fw = tls_filewatch main_watch). rewrite <- (tls_filewatch_dirs main_watch w Hc Hk). unfold tls_filewatch. by rewrite Hadd.
Qed.

Context `{!LabelsLaws, !RangeLaws}.

(** C25. What the apiserver serves, from its start on. The process gives up exactly
    on a selector flag without a single pair; else its handlers look for mounters
    by the pairs of the flag, or by the default ones. After any number of file
    events that did not crash it, whatever the files held, asking for the
    configuration of a connection does not panic, and a configuration has the
    certificate authorities of the authentication reader, only suites and a
    minimum version known to crypto/tls, and requires a verified client
    certificate - unless the debug flag is set, which drops the verification
    that the authentication by headers rests on. *)
Theorem connections_verified port ns sel e h :
  wp e h (start port ns sel) (λ o t,
    match o with
    | Panics _ => True
    | Returns (Err _) => main_selector sel = ∅
    | Returns (Ok p) =>
        main_selector sel ≠ ∅ ∧
        handlers p = ApiServer.mkService port ns (SelectorFromSet (main_selector sel)) ∧
        ∀ n, let '((w, ended), _) := run e (h ++ t) (processEvents n (filewatch p) (tlsConfigWatch p)) in
          (∀ why, ended ≠ Panicked why) →
          ∀ R (ops : ReaderOps R) (r : R) debug e' h',
            match (run e' h' (GetConfigForClient debug w r)).1.2 with
            | Panics _ => False
            | Returns (Err _) => True
            | Returns (Ok (config, auth)) =>
                known_profile (tls_CipherSuites config, tls_MinVersion config) ∧
                (run e' h' (GetClientCA r)).1.2 = Ok (tls_ClientCAs config) ∧
                (auth = RequireAndVerifyClientCert ↔ debug = false)
            end
    end).
Proof.
  eapply wp_mono; [|apply start_wp]. intros [[p|err]|why] t; [|by rewrite selector_empty|done].
  rewrite selector_empty. intros (Hsel & Hh & Hf & pr & c & Hr). split; [done|]. split; [done|].
  intros n. rewrite Hf. pose proof (processEvents_reloaded main_watch n (tlsConfigWatch p) e (h ++ t) pr c Hr) as Hp.
  destruct (run e (h ++ t) _) as [[w ended] t']. intros Hended. destruct (Hp Hended) as (pr' & c' & Hw).
  intros R ops r debug e' h'. pose proof (reloaded_known _ _ _ _ _ _ Hw) as Hknown.
  pose proof (GetConfig_reloaded _ _ _ _ _ e _ w pr' c' r e' h' Hw) as Hcfg.
  unfold GetConfigForClient. rewrite run_bind.
  destruct (run e' h' (GetConfig w r)) as [[r' o] t''] eqn:Hrun. cbn in Hcfg |- *.
  destruct (run e' h' (GetClientCA r)).1.2 as [ca|err]; [|by subst o].
  destruct pr' as [[ids mv]|], c' as [crt|]; [subst o|by destruct Hcfg as [err ->]..].
  split; [by apply (Hknown (ids, mv))|]. split; [done|]. by destruct debug.
Qed.

End Main.

(** ** Witnesses *)

#[local] Existing Instance w_auth.
#[local] Existing Instance w_tls.
#[local] Instance w_labels : LabelsLib := {|
  SelectorFromSet m := Join (map (λ kv : string * string, kv.1 +:+ "=" +:+ kv.2) (map_to_list m)) "," |}.
#[local] Instance w_range : RangeLib := {| range V m := map_to_list m |}.

#[local] Instance w_labels_laws : LabelsLaws.
Proof.
  split. intros m. cbn. split; [|by intros ->].
  destruct (map_to_list m) as [|[k v] rest] eqn:Hm; [by apply map_to_list_empty_iff in Hm|].
  unfold Join. cbn. destruct (map _ rest), k; cbn; by try discriminate.
Qed.
#[local] Instance w_range_laws : RangeLaws.
Proof. split. intros V m. unfold range_of. reflexivity. Qed.

Example w_started :
  match (run w_files [] (start ":1200" "kube-system" " app = mounter,x")).1 with
  | Returns (Ok p) => labelSelector (handlers p) = "app=mounter"
  | _ => False
  end ∧
  (run w_files [] (start ":1200" "kube-system" "mounter")).1 =
    Returns (Err (PlainError "The label selector of the device mounter cannot be empty")).
Proof. vm_compute. done. Qed.

Lemma connections_verified_witness :
  wp w_files [] (start ":1200" "kube-system" "") (λ o t,
    match o with
    | Panics _ => True
    | Returns (Err _) => main_selector "" = ∅
    | Returns (Ok p) =>
        main_selector "" ≠ ∅ ∧
        handlers p = ApiServer.mkService ":1200" "kube-system" (SelectorFromSet (main_selector "")) ∧
        ∀ n, let '((w, ended), _) :=
               run w_files ([] ++ t) (processEvents n (filewatch p) (tlsConfigWatch p)) in
          (∀ why, ended ≠ Panicked why) →
          ∀ R (ops : ReaderOps R) (r : R) debug e' h',
            match (run e' h' (GetConfigForClient debug w r)).1.2 with
            | Panics _ => False
            | Returns (Err _) => True
            | Returns (Ok (config, auth)) =>
                known_profile (tls_CipherSuites config, tls_MinVersion config) ∧
                (run e' h' (GetClientCA r)).1.2 = Ok (tls_ClientCAs config) ∧
                (auth = RequireAndVerifyClientCert ↔ debug = false)
            end
    end).
Proof. apply (connections_verified ":1200" "kube-system" "" w_files []). Defined.
