(* ===== verification/Process.v ===== *)
(** * The mounter process ([cmd/mounter/main.go])

    The goroutines of the process and how they interleave: [main], that starts the
    components and shuts them down, the labeller ([nodeLabeller.Start]) and the
    two gRPC servers. Label updates and clean-ups are atomic here, and a request only
    begins and ends, or panics and takes the process with it; the other files say what
    they do. A panic of the pod controller's worker is recovered ([Controller]). Signals are those that arrive after
    [signal.Notify]. [Startup] has the calls of [main] before that. *)
From Stdlib Require Import ZArith Lia.
From stdpp Require Import base list sets relations.
From S2P Require Import Prelude Api.

(** ** State *)

(** A server with the number of its requests in flight: before it listens, while
    [Serve] runs, after [Serve] has returned an error (its connections live on),
    and from the call of [GracefulStop] on. *)
Inductive Server :=
  | NotListening
  | Serving (n : nat)
  | Failed (n : nat)
  | Draining (n : nat).

(** [stopCh] is the server's buffered channel. *)
Record Service := mkService { server : Server; stopCh : bool }.

Inductive Which := Tcp | Unix.

(** The labeller: at the [select], in [updateLabels], in [cleanupLabels], before and
    after the send to [stopped]. *)
Inductive Labeller := NotStarted | Selecting | Updating | CleaningUp | Sending | Returned.

(** [stopped] is its buffered channel; [labels] tells whether the node carries the
    labels of the mounters. *)
Record Labelling := mkLabelling { labeller : Labeller; stopped : bool; labels : bool }.

(** Where [main] is. [Stopping] has the servers that are still to be stopped and the
    exit code. *)
Inductive Main :=
  | CheckNodeName
  | InitClients
  | InitInformers
  | Registering
  | ListenTcp
  | ListenUnix
  | Running
  | Stopping (todo : list Which) (exitCode : Z)
  | WaitForStop (exitCode : Z)
  | Exited (code : Z).

Record State := mkState {
  main : Main;
  registered : bool;
  tcp : Service;
  unix : Service;
  labelling : Labelling;
  signalled : bool;
  cancelled : bool }.

Definition init : State :=
  mkState CheckNodeName false (mkService NotListening false) (mkService NotListening false)
    (mkLabelling NotStarted false false) false false.

Definition service (w : Which) (s : State) : Service := match w with Tcp => tcp s | Unix => unix s end.

Definition set_main (m : Main) (s : State) : State :=
  mkState m (registered s) (tcp s) (unix s) (labelling s) (signalled s) (cancelled s).
Definition set_service (w : Which) (x : Service) (s : State) : State :=
  match w with
  | Tcp => mkState (main s) (registered s) x (unix s) (labelling s) (signalled s) (cancelled s)
  | Unix => mkState (main s) (registered s) (tcp s) x (labelling s) (signalled s) (cancelled s)
  end.
Definition set_labelling (l : Labelling) (s : State) : State :=
  mkState (main s) (registered s) (tcp s) (unix s) l (signalled s) (cancelled s).

(** ** Steps *)

Definition set_inflight (n : nat) (x : Server) : Server :=
  match x with
  | NotListening => NotListening
  | Serving _ => Serving n
  | Failed _ => Failed n
  | Draining _ => Draining n
  end.
Definition inflight (x : Server) : nat :=
  match x with NotListening => 0 | Serving n | Failed n | Draining n => n end.

(** A request begins, on the connections of a failed server as well; a request
    ends; [Serve] fails and the goroutine sends to [stopCh], which is empty. *)
Inductive accept_step : Service → Service → Prop :=
  | serve_begin n c : accept_step (mkService (Serving n) c) (mkService (Serving (S n)) c)
  | failed_begin n c : accept_step (mkService (Failed n) c) (mkService (Failed (S n)) c).

Inductive serve_step : Service → Service → Prop :=
  | serve_end x n c : inflight x = S n → serve_step (mkService x c) (mkService (set_inflight n x) c)
  | serve_fails n : serve_step (mkService (Serving n) false) (mkService (Failed n) true).

(** [select] takes its default case only if the context is not cancelled. *)
Inductive label_step (cancelled : bool) : Labelling → Labelling → Prop :=
  | label_turn c l : cancelled = false →
      label_step cancelled (mkLabelling Selecting c l) (mkLabelling Updating c l)
  | label_updated c l : label_step cancelled (mkLabelling Updating c l) (mkLabelling Selecting c true)
  | label_failed c l : label_step cancelled (mkLabelling Updating c l) (mkLabelling Selecting c l)
  | label_stop c l : cancelled = true →
      label_step cancelled (mkLabelling Selecting c l) (mkLabelling CleaningUp c l)
  | label_cleaned c l : label_step cancelled (mkLabelling CleaningUp c l) (mkLabelling Sending c false)
  | label_kept c l : label_step cancelled (mkLabelling CleaningUp c l) (mkLabelling Sending c l)
  | label_sent l : label_step cancelled (mkLabelling Sending false l) (mkLabelling Returned true l).

(** [klog.Exit] exits with 1 and [klog.Fatalf] with 255. *)
Inductive main_step (s : State) : State → Prop :=
  | main_no_node : main s = CheckNodeName → main_step s (set_main (Exited 1) s)
  | main_node : main s = CheckNodeName → main_step s (set_main InitClients s)
  | main_no_kubelet : main s = InitClients → main_step s (set_main (Exited 1) s)
  | main_no_config : main s = InitClients → main_step s (set_main (Exited 255) s)
  | main_clients : main s = InitClients → main_step s (set_main InitInformers s)
  | main_no_handler : main s = InitInformers → main_step s (set_main (Exited 1) s)
  | main_synced : main s = InitInformers → main_step s (set_main Registering s)
  | main_unregistered : main s = Registering → main_step s (set_main (Exited 1) s)
  | main_registered : main s = Registering →
      main_step s (mkState ListenTcp true (tcp s) (unix s)
                     (mkLabelling Selecting (stopped (labelling s)) (labels (labelling s)))
                     (signalled s) (cancelled s))
  | main_tcp_refused : main s = ListenTcp → main_step s (set_main (Exited 1) s)
  | main_tcp : main s = ListenTcp →
      main_step s (set_main ListenUnix (set_service Tcp (mkService (Serving 0) false) s))
  | main_unix_refused : main s = ListenUnix → main_step s (set_main (Exited 1) s)
  | main_unix : main s = ListenUnix →
      main_step s (set_main Running (set_service Unix (mkService (Serving 0) false) s))
  | main_tcp_down : main s = Running → stopCh (tcp s) = true →
      main_step s (set_main (Stopping [Unix] 1) (set_service Tcp (mkService (server (tcp s)) false) s))
  | main_unix_down : main s = Running → stopCh (unix s) = true →
      main_step s (set_main (Stopping [Tcp] 1) (set_service Unix (mkService (server (unix s)) false) s))
  | main_signal : main s = Running → signalled s = true →
      main_step s (set_main (Stopping [Tcp; Unix] 0) s)
  | main_stop w todo code : main s = Stopping (w :: todo) code →
      (∀ n, server (service w s) ≠ Draining n) →
      main_step s (set_service w (mkService (Draining (inflight (server (service w s))))
                                    (stopCh (service w s))) s)
  | main_stopped w todo code : main s = Stopping (w :: todo) code →
      server (service w s) = Draining 0 → main_step s (set_main (Stopping todo code) s)
  | main_cancel code : main s = Stopping [] code →
      main_step s (mkState (WaitForStop code) (registered s) (tcp s) (unix s) (labelling s)
                     (signalled s) true)
  | main_exit code : main s = WaitForStop code → stopped (labelling s) = true →
      main_step s (set_main (Exited code)
        (set_labelling (mkLabelling (labeller (labelling s)) false (labels (labelling s))) s)).

Definition exited (s : State) : Prop := ∃ code, main s = Exited code.

(** [notified]: after [signal.Notify]. *)
Definition notified (s : State) : Prop :=
  match main s with Running | Stopping _ _ | WaitForStop _ => True | _ => False end.

(** What goes on without anything new from outside. *)
Inductive quiet_step (s : State) : State → Prop :=
  | step_main s' : main_step s s' → quiet_step s s'
  | step_serve w x : ¬ exited s → serve_step (service w s) x → quiet_step s (set_service w x s)
  | step_label l : ¬ exited s → label_step (cancelled s) (labelling s) l →
      quiet_step s (set_labelling l s).

(** Nothing recovers the panic of a handler ([grpc.NewServer()] has no interceptor):
    it ends the process, with 2, wherever [main] and the others are. *)
Inductive step (s : State) : State → Prop :=
  | step_quiet s' : quiet_step s s' → step s s'
  | step_panic w : ¬ exited s → inflight (server (service w s)) ≠ 0 → step s (set_main (Exited 2) s)
  | step_accept w x : ¬ exited s → accept_step (service w s) x → step s (set_service w x s)
  | step_signal : notified s →
      step s (mkState (main s) (registered s) (tcp s) (unix s) (labelling s) true (cancelled s)).

(** ** The invariant *)

Definition other (w : Which) : Which := match w with Tcp => Unix | Unix => Tcp end.

Definition drained (x : Service) : Prop := server x = Draining 0.
Definition failed (x : Service) : Prop := ∃ n, server x = Failed n.

(** What is known of the servers once [main] is through with all but [todo]: all are
    stopped for a signal, or the one for the failure of the other. *)
Definition stopped_but (todo : list Which) (code : Z) (s : State) : Prop :=
  (code = 0%Z ∧ signalled s = true ∧ ∀ w, w ∈ todo ∨ drained (service w s)) ∨
  (code = 1%Z ∧ ∃ w, failed (service (other w) s) ∧ (todo = [w] ∨ (todo = [] ∧ drained (service w s)))).

(** The three ways to end. [main] never got to its [select]: a server never listened. *)
Definition start_failed (code : Z) (s : State) : Prop :=
  cancelled s = false ∧ server (unix s) = NotListening ∧
  (code = 1%Z ∨ (code = 255%Z ∧ registered s = false)).
Definition shut_down (code : Z) (s : State) : Prop :=
  cancelled s = true ∧ labeller (labelling s) = Returned ∧ stopped_but [] code s.
Definition panicked (code : Z) (s : State) : Prop :=
  code = 2%Z ∧ ∃ w, inflight (server (service w s)) ≠ 0.

Definition undrained (s : State) : Prop := ∀ w n, server (service w s) ≠ Draining n.

Definition main_inv (s : State) : Prop :=
  match main s with
  | CheckNodeName | InitClients | InitInformers | Registering =>
      registered s = false ∧ labeller (labelling s) = NotStarted ∧ cancelled s = false
  | ListenTcp | ListenUnix =>
      registered s = true ∧ cancelled s = false ∧ undrained s ∧ server (unix s) = NotListening
  | Running => registered s = true ∧ cancelled s = false ∧ undrained s
  | Stopping todo code => registered s = true ∧ cancelled s = false ∧ stopped_but todo code s
  | WaitForStop code => registered s = true ∧ cancelled s = true ∧ stopped_but [] code s
  | Exited code => start_failed code s ∨ shut_down code s ∨ panicked code s
  end.

(** A server that has reported has failed, whether or not it is being stopped by now. *)
Definition reported (x : Service) : Prop :=
  stopCh x = true → match server x with Failed _ | Draining _ => True | _ => False end.

Definition label_inv (s : State) : Prop :=
  match labeller (labelling s) with
  | NotStarted => registered s = false ∧ stopped (labelling s) = false
  | Selecting | Updating => registered s = true ∧ stopped (labelling s) = false
  | CleaningUp | Sending => registered s = true ∧ cancelled s = true ∧ stopped (labelling s) = false
  | Returned => registered s = true ∧ cancelled s = true ∧ (stopped (labelling s) = true ∨ exited s)
  end.

Record Inv (s : State) : Prop := {
  inv_main : main_inv s;
  inv_label : label_inv s;
  inv_serve w : server (service w s) ≠ NotListening → registered s = true;
  inv_report w : reported (service w s) }.

Lemma Inv_init : Inv init.
Proof. by repeat split; intros []. Qed.

Lemma service_set w x s : service w (set_service w x s) = x.
Proof. by destruct w. Qed.
Lemma service_set_ne w w' x s : w ≠ w' → service w' (set_service w x s) = service w' s.
Proof. by destruct w, w'. Qed.
Lemma main_set_service w x s : main (set_service w x s) = main s.
Proof. by destruct w. Qed.
Lemma registered_set_service w x s : registered (set_service w x s) = registered s.
Proof. by destruct w. Qed.
Lemma labelling_set_service w x s : labelling (set_service w x s) = labelling s.
Proof. by destruct w. Qed.
Lemma cancelled_set_service w x s : cancelled (set_service w x s) = cancelled s.
Proof. by destruct w. Qed.
#[local] Instance Which_eq_dec : EqDecision Which.
Proof. solve_decision. Defined.
Lemma other_ne w : w ≠ other w.
Proof. by destruct w. Qed.

Lemma stopped_but_mono todo code s s' :
  (signalled s = true → signalled s' = true) →
  (∀ w, drained (service w s) → drained (service w s')) →
  (∀ w, w ∉ todo → failed (service w s) → failed (service w s')) →
  stopped_but todo code s → stopped_but todo code s'.
Proof.
  intros Hs Hw Hf [(-> & Hsig & Hd)|(-> & w & Hfail & Hd)]; [left|right]; split_and!; auto.
  - intros w. destruct (Hd w); auto.
  - exists w. split; [|destruct Hd as [|[? ?]]; auto].
    apply Hf; [|done]. destruct Hd as [->|[-> _]]; [|by intros ?%elem_of_nil].
    rewrite list_elem_of_singleton. intros Heq. by destruct (other_ne w).
Qed.

(** What the steps of a server's own keep. *)
Definition kept (x y : Service) : Prop :=
  (drained x → drained y) ∧ (failed x → failed y) ∧ (reported x → reported y) ∧
  (server y = NotListening ↔ server x = NotListening) ∧
  ∀ n, server y = Draining n → ∃ n, server x = Draining n.

Lemma serve_kept x y : serve_step x y → kept x y.
Proof.
  unfold kept, drained, failed, reported.
  intros [z n c Hz|n]; [destruct z|]; simpl in *; split_and!; naive_solver congruence.
Qed.
Lemma accept_kept x y : accept_step x y → kept x y.
Proof. unfold kept, drained, failed, reported. intros []; simpl; split_and!; naive_solver congruence. Qed.

Lemma stopped_but_set todo code w x s :
  kept (service w s) x → stopped_but todo code s → stopped_but todo code (set_service w x s).
Proof.
  intros (Hd & Hf & _). apply stopped_but_mono; [by destruct w|intros w'|intros w' _];
    destruct w, w'; simpl; auto.
Qed.

Lemma undrained_set w x s : kept (service w s) x → undrained s → undrained (set_service w x s).
Proof.
  intros (_ & _ & _ & _ & Hd) Hu w' n Hn. destruct (decide (w = w')) as [<-|Hne].
  - rewrite service_set in Hn. destruct (Hd n Hn) as [m Hm]. by apply (Hu w m).
  - rewrite service_set_ne in Hn by done. by apply (Hu w' n).
Qed.

Lemma Inv_serve w x s : ¬ exited s → Inv s → kept (service w s) x → Inv (set_service w x s).
Proof.
  intros He [Hm Hl Hs Hr] Hx. split.
  - revert Hm. unfold main_inv. rewrite main_set_service.
    pose proof (λ todo code, stopped_but_set todo code w x s Hx) as Hset.
    pose proof (undrained_set w x s Hx) as Hu. destruct Hx as (_ & _ & _ & Hn & _).
    assert (server (unix s) = NotListening → server (unix (set_service w x s)) = NotListening) as Hun
      by (destruct w; cbn in *; tauto).
    unfold exited in He. rewrite registered_set_service, labelling_set_service, cancelled_set_service.
    destruct (main s); try done; try (intros; destruct_and?; split_and!; by auto). by destruct He; eexists.
  - by destruct w, s.
  - intros w'. rewrite registered_set_service.
    destruct Hx as (_ & _ & _ & Hn & _).
    destruct (decide (w = w')) as [<-|]; [rewrite service_set | rewrite service_set_ne by done]; [|apply Hs].
    intros Hl'. apply (Hs w). by rewrite <- Hn.
  - intros w'. destruct (decide (w = w')) as [<-|]; [rewrite service_set | by rewrite service_set_ne].
    by apply Hx.
Qed.

Lemma main_not_exited s s' : main_step s s' → ¬ exited s.
Proof. intros Hs [code Hc]. destruct Hs; congruence. Qed.

Lemma label_set_main m s : ¬ exited s → label_inv s → label_inv (set_main m s).
Proof. unfold label_inv. cbn. intros He. destruct (labeller _); tauto. Qed.

Lemma label_set_service w x s : label_inv (set_service w x s) = label_inv s.
Proof. by destruct w. Qed.

Lemma label_main s s' : main_inv s → label_inv s → main_step s s' → label_inv s'.
Proof.
  intros Hm Hl Hs. pose proof (main_not_exited _ _ Hs) as He.
  destruct Hs as [| | | | | | | | Hr | | | | | | | | | | code Hc | code Hc Hst];
    try (apply label_set_main; done);
    try (apply label_set_main; [intros [code Hc]; cbn in Hc | rewrite label_set_service]; by eauto);
    try (by rewrite label_set_service).
  - unfold main_inv in Hm. rewrite Hr in Hm. destruct Hm as (? & Hlab & ?).
    unfold label_inv in *. rewrite Hlab in Hl. cbn. by destruct Hl.
  - unfold label_inv, exited in *. cbn. destruct (labeller _); destruct_and?; auto.
    destruct_or?; [auto|]. by destruct He.
  - unfold label_inv in *. rewrite Hst in Hl. cbn. destruct (labeller _); destruct_and?; try congruence.
    split_and!; [done..|]. right. by eexists.
Qed.

(** A server that has reported while [main] is at its [select] has failed. *)
Lemma reported_failed s w : Inv s → undrained s → stopCh (service w s) = true → failed (service w s).
Proof.
  intros HI Hu Hst. pose proof (inv_report _ HI w Hst) as Hr. specialize (Hu w).
  unfold failed. destruct (server (service w s)); try done; [by eexists|]. by destruct (Hu n).
Qed.

Lemma down_inv s w :
  Inv s → registered s = true → cancelled s = false → undrained s → stopCh (service w s) = true →
  main_inv (set_main (Stopping [other w] 1) (set_service w (mkService (server (service w s)) false) s)).
Proof.
  intros HI Hreg Hcan Hu Hst. pose proof (reported_failed s w HI Hu Hst) as Hf. unfold main_inv. cbn.
  split; [by destruct w|]. split; [by destruct w|]. right. split; [done|]. exists (other w).
  split; [by destruct w | by left].
Qed.

(** [GracefulStop] of the first server that is still to be stopped. *)
Lemma stop_inv s w todo code :
  main_inv s → main s = Stopping (w :: todo) code → (∀ n, server (service w s) ≠ Draining n) →
  main_inv (set_service w (mkService (Draining (inflight (server (service w s)))) (stopCh (service w s))) s).
Proof.
  unfold main_inv. intros Hm Hc Hn. rewrite main_set_service, Hc in *. destruct Hm as (? & ? & Hbut).
  split_and!; [by destruct w..|]. apply (stopped_but_mono _ _ s); [by destruct w|..|done].
  - intros w' Hd. destruct (decide (w = w')) as [<-|]; [by destruct (Hn 0) | by rewrite service_set_ne].
  - intros w' Hw' Hf. destruct (decide (w = w')) as [<-|]; [destruct Hw'; by left | by rewrite service_set_ne].
Qed.

Lemma stopped_inv s w todo code :
  main_inv s → main s = Stopping (w :: todo) code → server (service w s) = Draining 0 →
  main_inv (set_main (Stopping todo code) s).
Proof.
  unfold main_inv. intros Hm Hc Hd. rewrite Hc in Hm. cbn. destruct Hm as (? & ? & Hbut).
  split_and!; [done..|]. destruct Hbut as [(-> & Hsig & Hall)|(-> & w' & Hf & [[= -> ->]|[? ?]])]; [left|right..].
  - split_and!; [done..|]. intros w'. destruct (Hall w') as [Hin|]; [|by right].
    apply elem_of_cons in Hin as [->|]; [right; apply Hd | by left].
  - split; [done|]. exists w'. split; [done|]. right. split; [done|]. apply Hd.
  - done.
Qed.

Lemma unlistened s : Inv s → registered s = false → ∀ w, server (service w s) = NotListening.
Proof. intros HI Hr w. pose proof (inv_serve _ HI w). destruct (server _); intuition congruence. Qed.

Lemma main_main s s' : Inv s → main_step s s' → main_inv s'.
Proof.
  intros HI Hs. pose proof (inv_main _ HI) as Hm. pose proof (inv_label _ HI) as Hl.
  pose proof (unlistened _ HI) as Hun. unfold main_inv in Hm.
  destruct Hs as [Hc|Hc|Hc|Hc|Hc|Hc|Hc|Hc|Hc|Hc|Hc|Hc|Hc|Hc Hst|Hc Hst|Hc Hst|w todo code Hc Hn
    |w todo code Hc Hd|code Hc|code Hc Hst].
  17: by eapply stop_inv; [apply HI| |].
  17: by eapply stopped_inv; [apply HI| |].
  14: rewrite Hc in Hm; destruct_and?; by apply (down_inv s Tcp).
  14: rewrite Hc in Hm; destruct_and?; by apply (down_inv s Unix).
  all: rewrite Hc in Hm; unfold main_inv; cbn.
  1-9: destruct Hm as (Hreg & ? & ?); pose proof (Hun Hreg Unix); try done; try (left; split_and!; by auto).
  - split_and!; [done..| |done]. intros w n. specialize (Hun Hreg w). destruct w; cbn in *; congruence.
  - destruct Hm as (? & ? & ? & ?). left. split_and!; by auto.
  - destruct Hm as (? & ? & Hu & ?). split_and!; [done..| |done]. intros [] n; [done|apply (Hu Unix)].
  - destruct Hm as (? & ? & ? & ?). left. split_and!; by auto.
  - destruct Hm as (? & ? & Hu & ?). split_and!; [done..|]. intros [] n; [apply (Hu Tcp)|done].
  - destruct Hm as (? & ? & Hu). split_and!; [done..|]. left. split_and!; [done..|]. intros []; left; set_solver.
  - by destruct Hm as (? & ? & Hbut).
  - destruct Hm as (? & ? & Hbut). right. left. split; [done|]. split; [|done]. cbn.
    unfold label_inv in Hl. rewrite Hst in Hl. destruct (labeller _); destruct_and?; congruence.
Qed.

Lemma main_reports s s' : (∀ w, reported (service w s)) → main_step s s' → ∀ w, reported (service w s').
Proof.
  intros Hr Hs w. specialize (Hr w). unfold reported in *.
  destruct Hs as [| | | | | | | | | | | | | | | |w' ? ? ? ?| | |]; try done; destruct w; try done; by destruct w'.
Qed.

Lemma Inv_main s s' : Inv s → main_step s s' → Inv s'.
Proof.
  intros HI Hstep. pose proof HI as [Hm Hl Hs Hr].
  split; [by eapply main_main | by eapply label_main| |by eapply main_reports].
  assert (registered s = true → registered s' = true) as Hmono.
  { destruct Hstep; try done. all: destruct w; done. }
  unfold main_inv in Hm. intros w Hw.
  destruct Hstep as [| | | | | | | | | |Hc| |Hc|Hc|Hc| |w' todo code Hc| | |];
    try (by apply Hmono, (Hs w)).
  all: rewrite Hc in Hm; destruct_and?; try done. by destruct w'.
Qed.

Lemma Inv_label s l : ¬ exited s → Inv s → label_step (cancelled s) (labelling s) l → Inv (set_labelling l s).
Proof.
  intros He [Hm Hl Hs Hr] Hstep. unfold main_inv, label_inv, exited in *.
  destruct s as [m r t u l0 sg c]. cbn in *. split; [| |exact Hs|exact Hr]; unfold main_inv, label_inv; cbn.
  - destruct m; try done. 1-4: destruct Hm as (? & Hn & ?); destruct Hstep; done. by destruct He; eexists.
  - destruct Hstep; cbn in *; destruct_and?; auto.
Qed.

Lemma Inv_signal s : notified s → Inv s →
  Inv (mkState (main s) (registered s) (tcp s) (unix s) (labelling s) true (cancelled s)).
Proof.
  intros Hn [Hm Hl Hs Hr]. split; [|exact Hl|exact Hs|exact Hr].
  assert (∀ todo code, stopped_but todo code s → stopped_but todo code (mkState (main s) (registered s)
    (tcp s) (unix s) (labelling s) true (cancelled s))) as Hbut.
  { intros todo code. by apply stopped_but_mono; [|intros []..]. }
  unfold main_inv, notified in *. cbn. destruct (main s); try done; destruct_and?; split_and!; auto.
Qed.

Lemma Inv_panic s w : ¬ exited s → Inv s → inflight (server (service w s)) ≠ 0 → Inv (set_main (Exited 2) s).
Proof.
  intros He [Hm Hl Hs Hr] Hw. split; [|by apply label_set_main|exact Hs|exact Hr].
  right. right. split; [done|]. exists w. exact Hw.
Qed.

Lemma Inv_step s s' : Inv s → step s s' → Inv s'.
Proof.
  intros HI [s1 [s2 Hm|w x He Hx|l He Hl]|w He Hw|w x He Hx|Hn].
  - by eapply Inv_main.
  - by apply Inv_serve, serve_kept.
  - by apply Inv_label.
  - by eapply Inv_panic.
  - by apply Inv_serve, accept_kept.
  - by apply Inv_signal.
Qed.

Lemma reachable_Inv s : rtc step init s → Inv s.
Proof.
  generalize Inv_init. generalize init. intros s0 HI Hr. induction Hr; eauto using Inv_step.
Qed.

(** C23. An orderly shutdown. In every state that the interleaving of the goroutines
    can reach: a server listens only after the mounters are registered; and when
    the process has exited, then in one of three ways. Its start failed: the unix
    server never listened, so [main] never got to its [select], and the code is 1, or 255
    if nothing was registered either. Or [main] ran to its end: the labeller
    has returned, after it tried to remove its labels; with code 0 a signal was
    received and both servers are stopped with no request in flight, with code 1 the one
    is stopped so because the other has failed. Or, with code 2, a handler
    panicked: a request was in flight. *)
Theorem shutdown_orderly s :
  rtc step init s →
  (∀ w, server (service w s) ≠ NotListening → registered s = true) ∧
  ∀ code, main s = Exited code →
    (cancelled s = false ∧ server (unix s) = NotListening ∧
       (code = 1%Z ∨ (code = 255%Z ∧ registered s = false))) ∨
    (cancelled s = true ∧ labeller (labelling s) = Returned ∧
       ((code = 0%Z ∧ signalled s = true ∧ ∀ w, drained (service w s)) ∨
        (code = 1%Z ∧ ∃ w, drained (service w s) ∧ failed (service (other w) s)))) ∨
    (code = 2%Z ∧ ∃ w, inflight (server (service w s)) ≠ 0).
Proof.
  intros [Hm _ Hs _]%reachable_Inv. split; [done|]. intros code Hc. unfold main_inv in Hm. rewrite Hc in Hm.
  destruct Hm as [Hm|[(Hcan & Hl & Hbut)|Hm]]; [by left| |by right; right].
  right. left. split_and!; [done..|]. destruct Hbut as [(-> & Hsig & Hd)|(-> & w & Hf & Hd)]; [left|right].
  - split_and!; [done..|]. intros w. destruct (Hd w); [set_solver | done].
  - split; [done|]. exists w. destruct Hd as [|[_ Hd]]; done.
Qed.


(** ** Progress *)

Lemma quiet_rtc_Inv s s' : Inv s → rtc quiet_step s s' → Inv s'.
Proof. intros HI Hr. induction Hr; eauto using Inv_step, step_quiet. Qed.

(** A server that is being stopped answers its requests. *)
Lemma drain w n s :
  ¬ exited s → server (service w s) = Draining n →
  ∃ s', rtc quiet_step s s' ∧ main s' = main s ∧ drained (service w s').
Proof.
  revert s. induction n as [|n IH]; intros s He Hn; [by exists s|].
  destruct (service w s) as [x c] eqn:Hx. cbn in Hn. subst x.
  set (s1 := set_service w (mkService (Draining n) c) s).
  assert (quiet_step s s1) as Hstep.
  { apply step_serve; [done|]. rewrite Hx. by apply (serve_end (Draining (S n)) n c). }
  destruct (IH s1) as (s' & Hr & Hm & Hd).
  - unfold exited, s1. by rewrite main_set_service.
  - unfold s1. by rewrite service_set.
  - exists s'. split; [by eapply rtc_l|]. split; [|done]. rewrite Hm. apply main_set_service.
Qed.

Lemma stop_one w todo code s :
  main s = Stopping (w :: todo) code → ∃ s', rtc quiet_step s s' ∧ main s' = Stopping todo code.
Proof.
  intros Hc.
  assert (∀ n s, main s = Stopping (w :: todo) code → server (service w s) = Draining n →
    ∃ s', rtc quiet_step s s' ∧ main s' = Stopping todo code) as Hdrain.
  { intros n s0 Hc0 Hn. destruct (drain w n s0) as (s1 & Hr & Hm & Hd); [by intros [? ?]; congruence|done|].
    exists (set_main (Stopping todo code) s1). split; [|done]. eapply rtc_r; [exact Hr|].
    apply step_main. eapply main_stopped; [by rewrite Hm|exact Hd]. }
  assert ((∀ n, server (service w s) ≠ Draining n) →
    ∃ s', rtc quiet_step s s' ∧ main s' = Stopping todo code) as Hstop.
  { intros Hn. edestruct Hdrain as (s' & Hr & Hm); [| |exists s'; split; [|exact Hm]; eapply rtc_l;
      [by eapply step_main, main_stop | exact Hr]]; [by rewrite main_set_service | by rewrite service_set]. }
  destruct (server (service w s)) eqn:Hx; try (apply Hstop; congruence). by eapply Hdrain.
Qed.

Lemma stop_all todo code s :
  main s = Stopping todo code → ∃ s', rtc quiet_step s s' ∧ main s' = Stopping [] code.
Proof.
  revert s. induction todo as [|w todo IH]; intros s Hc; [by exists s|].
  destruct (stop_one w todo code s Hc) as (s1 & Hr & Hc1). destruct (IH s1 Hc1) as (s2 & Hr2 & Hc2).
  exists s2. split; [by etrans | done].
Qed.

(** Once the context is cancelled the labeller reports back. *)
Lemma label_returns s code :
  Inv s → main s = WaitForStop code →
  ∃ s', rtc quiet_step s s' ∧ main s' = WaitForStop code ∧ stopped (labelling s') = true.
Proof.
  intros [Hm Hl _ _] Hc. unfold main_inv in Hm. rewrite Hc in Hm. destruct Hm as (Hreg & Hcan & _).
  assert (¬ exited s) as He by (intros [? ?]; congruence).
  destruct s as [m r t u [lb sp la] sg c]. unfold label_inv in Hl. cbn in *. subst.
  assert (∀ l l', label_step true l l' → rtc quiet_step
    (mkState (WaitForStop code) true t u l sg true) (mkState (WaitForStop code) true t u l' sg true)) as Hone.
  { intros l l' Hs. apply rtc_once. apply (step_label (mkState (WaitForStop code) true t u l sg true));
      [by intros [? ?] | exact Hs]. }
  assert (∀ la, rtc quiet_step
    (mkState (WaitForStop code) true t u (mkLabelling CleaningUp false la) sg true)
    (mkState (WaitForStop code) true t u (mkLabelling Returned true la) sg true)) as Hclean.
  { intros la'. etrans; [apply Hone, label_kept | apply Hone, label_sent]. }
  destruct lb; destruct_and?; subst; try done.
  - eexists. split; [etrans; [by apply Hone, label_stop | apply Hclean]|]. done.
  - eexists. split; [etrans; [apply Hone, label_failed | etrans; [by apply Hone, label_stop | apply Hclean]]|].
    done.
  - eexists. split; [apply Hclean|]. done.
  - eexists. split; [apply Hone, label_sent|]. done.
  - eexists. split; [reflexivity|]. split; [done|]. cbn. by destruct_or?.
Qed.

Definition shutting_down (s : State) : Prop :=
  (∃ todo code, main s = Stopping todo code) ∨ ∃ code, main s = WaitForStop code.

(** C24. A shutdown never gets stuck. Whatever state the goroutines have got into
    after [main] has left its [select] - requests in flight on both servers, a
    server that has failed, the labeller in the middle of an update or not yet
    told to stop - the process can run to its orderly end from there with no new
    request or signal: [main] waits for nothing that cannot happen. *)
Theorem shutdown_completes s :
  rtc step init s → shutting_down s →
  ∃ s' code, rtc quiet_step s s' ∧ main s' = Exited code ∧ cancelled s' = true.
Proof.
  intros HI%reachable_Inv Hs.
  assert (∀ s code, Inv s → main s = WaitForStop code →
    ∃ s' code, rtc quiet_step s s' ∧ main s' = Exited code ∧ cancelled s' = true) as Hwait.
  { clear. intros s code HI Hc. destruct (label_returns s code HI Hc) as (s1 & Hr & Hc1 & Hst).
    eexists _, code. split; [eapply rtc_r; [exact Hr|]; by eapply step_main, main_exit|]. split; [done|].
    pose proof (inv_main _ (quiet_rtc_Inv _ _ HI Hr)) as Hm. unfold main_inv in Hm. rewrite Hc1 in Hm.
    by destruct Hm as (_ & Hcan & _). }
  destruct Hs as [(todo & code & Hc)|(code & Hc)]; [|by eapply Hwait].
  destruct (stop_all todo code s Hc) as (s1 & Hr1 & Hc1).
  pose proof (main_cancel s1 code Hc1) as Hstep.
  destruct (Hwait _ code (Inv_step _ _ (quiet_rtc_Inv _ _ HI Hr1) (step_quiet _ _ (step_main _ _ Hstep)))
    eq_refl) as (s' & code' & Hr & He).
  exists s', code'. split; [|done]. etrans; [exact Hr1|]. eapply rtc_l; [apply step_main, Hstep | exact Hr].
Qed.

(** ** Exits that are not clean *)

(** The rules as a script: [main_step]s unless said otherwise. *)
Ltac by_main rule := eapply rtc_l; [apply step_quiet, step_main; by eapply rule|]; cbn.
Ltac by_serve w rule :=
  eapply rtc_l; [apply step_quiet, (step_serve _ w); [by intros [? ?]|]; by apply rule|]; cbn.
Ltac by_label rule :=
  eapply rtc_l; [apply step_quiet, step_label; [by intros [? ?]|]; by apply rule|]; cbn.
Ltac by_accept w rule :=
  eapply rtc_l; [apply (step_accept _ w); [by intros [? ?]|]; by apply rule|]; cbn.
Ltac by_panic w := eapply rtc_l; [apply (step_panic _ w); [by intros [? ?]|done]|]; cbn.
Ltac by_signal := eapply rtc_l; [by apply step_signal|]; cbn.

Ltac finish := by_main main_cancel; by_label label_stop; by_label label_cleaned; by_label label_sent;
  by_main main_exit; reflexivity.

Ltac to_labeller := by_main main_node; by_main main_clients; by_main main_synced; by_main main_registered.

(** The labeller starts before the servers listen: when the port is taken the
    process exits and leaves its labels on the node. *)
Lemma labels_survive_failed_start :
  ∃ s, rtc step init s ∧ main s = Exited 1 ∧ labels (labelling s) = true ∧ cancelled s = false.
Proof.
  eexists. split; [|split; [|split]]; [unfold init; to_labeller; by_label label_turn;
    by_label label_updated; by_main main_tcp_refused; reflexivity|done..].
Qed.

(** When a server fails only the other one is stopped: the process exits while a
    request of the failed server is in flight. *)
Lemma failed_server_interrupts :
  ∃ s, rtc step init s ∧ main s = Exited 1 ∧ cancelled s = true ∧ server (tcp s) = Failed 1.
Proof.
  eexists. split; [|split; [|split]]; [unfold init; to_labeller; by_main main_tcp; by_main main_unix;
    by_accept Tcp serve_begin; by_serve Tcp serve_fails; by_main main_tcp_down; by_main main_stop;
    by_main main_stopped; finish|done..].
Qed.

(** A handler that panics takes the process with it: the node keeps its labels, and
    the requests of the others are cut off. *)
Lemma panic_interrupts :
  ∃ s, rtc step init s ∧ main s = Exited 2 ∧ cancelled s = false ∧ labels (labelling s) = true ∧
    server (tcp s) = Serving 2.
Proof.
  eexists. split; [|split_and!]; [unfold init; to_labeller; by_main main_tcp; by_main main_unix;
    by_label label_turn; by_label label_updated; by_accept Tcp serve_begin; by_accept Tcp serve_begin;
    by_panic Tcp; reflexivity|done..].
Qed.

(** ** Witnesses *)

(** A signal while a request is in flight on the one server. *)
Definition w_stopping (n : nat) : State :=
  mkState (Stopping [Tcp; Unix] 0) true (mkService (Serving n) false) (mkService (Serving 0) false)
    (mkLabelling Updating false true) true false.

Lemma w_stopping_reachable : rtc step init (w_stopping 1).
Proof.
  unfold init. to_labeller. by_main main_tcp. by_main main_unix. by_label label_turn.
  by_label label_updated. by_label label_turn. by_accept Tcp serve_begin. by_signal.
  by_main main_signal. reflexivity.
Qed.

Definition w_exited : State :=
  mkState (Exited 0) true (mkService (Draining 0) false) (mkService (Draining 0) false)
    (mkLabelling Returned false false) true true.

Lemma w_exited_reachable : rtc step init w_exited.
Proof.
  etrans; [exact w_stopping_reachable|]. unfold w_stopping. by_main main_stop.
  by_serve Tcp (serve_end (Draining 1) 0). by_main main_stopped. by_main main_stop. by_main main_stopped.
  by_main main_cancel. by_label label_updated. by_label label_stop. by_label label_cleaned.
  by_label label_sent. by_main main_exit. reflexivity.
Qed.

Lemma shutdown_orderly_witness :
  (∀ w, server (service w w_exited) ≠ NotListening → registered w_exited = true) ∧
  ∀ code, main w_exited = Exited code →
    (cancelled w_exited = false ∧ server (unix w_exited) = NotListening ∧
       (code = 1%Z ∨ (code = 255%Z ∧ registered w_exited = false))) ∨
    (cancelled w_exited = true ∧ labeller (labelling w_exited) = Returned ∧
       ((code = 0%Z ∧ signalled w_exited = true ∧ ∀ w, drained (service w w_exited)) ∨
        (code = 1%Z ∧ ∃ w, drained (service w w_exited) ∧ failed (service (other w) w_exited)))) ∨
    (code = 2%Z ∧ ∃ w, inflight (server (service w w_exited)) ≠ 0).
Proof. apply (shutdown_orderly w_exited). exact w_exited_reachable. Defined.

Lemma shutdown_completes_witness :
  ∃ s' code, rtc quiet_step (w_stopping 1) s' ∧ main s' = Exited code ∧ cancelled s' = true.
Proof.
  apply (shutdown_completes (w_stopping 1)); [exact w_stopping_reachable|].
  left. by exists [Tcp; Unix], 0%Z.
Defined.
