(* ===== verification/Startup.v ===== *)
(** * How the two processes start ([cmd/apiserver/main.go], [cmd/mounter/main.go])

    [main] of both commands from the parsed flags on, over the calls of [World],
    those of [KubeClient], and the few that only [main] makes. The mounter's
    start is followed up to its [select], where [Process] goes on: [performs] says
    which calls belong to which step of [main], [boots] are the steps with their calls. *)
From Stdlib Require Import ZArith Lia.
From stdpp Require Import base gmap strings list relations.
From S2P Require Import Prelude GoStrings Api Ebpf World Resources Util Framework Versions KubeClient AuthConfig ApiServer TlsConfig FileWatch PodResources ApiMain Process.

(** ** Calls *)

(** A goroutine that is started, by what it runs. *)
Inductive Routine := WatchRun | PodControllerStart | NodeLabellerStart | ServeTcp | ServeUnix.

Inductive mcmd :=
  | OfWorld (c : cmd)
  | OfKube (c : kcmd)
  | Printf (line : string)
  | ReadKubeletConfig
  | AddEventHandler
  | StartInformers
  | WaitForInformers
  | Go (r : Routine)
  | ListenAndServeTLS (addr : string)
  | NetListen (addr : string)
  | OsRemove (path : string)
  | ResolveUnixAddr (path : string)
  | ListenUnix (path : string)
  | SignalNotify.

Definition mreply (c : mcmd) : Type :=
  match c with
  | OfWorld c => reply c
  | OfKube c => kreply c
  | Printf _ => unit
  | ReadKubeletConfig => result string
  | AddEventHandler => option goerr
  | StartInformers => unit
  | WaitForInformers => unit
  | Go _ => unit
  | ListenAndServeTLS _ => option goerr
  | NetListen _ => result Z
  | OsRemove _ => option goerr
  | ResolveUnixAddr _ => result string
  | ListenUnix _ => result Z
  | SignalNotify => unit
  end.

Abbreviation P := (prog mreply).
Abbreviation act_ := (@call mcmd mreply).

(** Programs over the other calls, run by [main]. *)
Fixpoint world {A} (p : M A) : P A :=
  match p with
  | Done a => Done a
  | Vis c k => Vis (OfWorld c : mcmd) (λ r : mreply (OfWorld c), world (k r))
  end.
Fixpoint kube {A} (p : K A) : P A :=
  match p with
  | Done a => Done a
  | Vis c k => Vis (OfKube c : mcmd) (λ r : mreply (OfKube c), kube (k r))
  end.

(** How [main] ends, as far as it is followed. [klog.Exit] exits with 1 and
    [klog.Fatalf] with 255, without the deferred calls. *)
Inductive ending (A : Type) :=
  | Exit (code : Z)
  | Crash (why : string)
  | Goes (a : A).
Arguments Exit {A} code.
Arguments Crash {A} why.
Arguments Goes {A} a.

Definition or_end {A B} (m : P (ending A)) (f : A → P (ending B)) : P (ending B) :=
  prog_bind_fix (λ r, match r with
    | Exit code => Done (Exit code)
    | Crash why => Done (Crash why)
    | Goes a => f a
    end) m.
Notation "x <-- m 'or_exit' ;; k" := (or_end m (λ x, k))
  (at level 100, m at next level, k at level 200, right associativity) : go_scope.

(** ** What both processes begin with *)

(** The flags both commands have, after parsing. [QPS] is the float32. *)
Record Flags := mkFlags {
  version : bool;
  flag_MasterURL : string;
  flag_KubeConfig : string;
  flag_KubeQPS : Z;
  flag_KubeBurst : Z;
  TCPBindPort : string }.

Definition version_line (name : string) (b : Build) : string :=
  name +:+ " version: " +:+ AdjustVersion (BuildVersion b) +:+ " " +:+ String (Ascii.ascii_of_nat 10) "".

Definition printVersionInfo (name : string) (b : Build) (f : Flags) : P (ending unit) :=
  if version f then _ <-- act_ (Printf (version_line name b)) ;; Done (Exit 0)
  else Done (Goes tt).

Definition client_options (b : Build) (f : Flags) : list Option :=
  [WithQPS (flag_KubeQPS f) (flag_KubeBurst f); WithDefaultUserAgent b; WithDefaultContentType].

Definition kube_client (b : Build) (f : Flags) : P (ending (ClientState * Z)) :=
  r <-- kube (InitKubeConfig (flag_MasterURL f) (flag_KubeConfig f) newClientState) ;;
  match r with
  | (_, Some _) => Done (Exit 255)
  | (s, None) =>
      r <-- kube (GetClientSet (client_options b f) s) ;;
      Done match r with
           | (s, Returns (Ok clientset)) => Goes (s, clientset)
           | (_, Returns (Err _)) => Exit 255
           | (_, Panics why) => Crash why
           end
  end.

(** ** The apiserver *)

Section Apiserver.
Context `{LabelsLib, RangeLib, TlsLib}.

Record ApiFlags := mkApiFlags {
  api_flags : Flags;
  MounterBindPort : string;
  MounterNamespace : string;
  MounterSelector : string;
  debug : bool }.

(** The values of the variables before [initFlags]. *)
Definition api_defaults (qps : Z) : ApiFlags :=
  mkApiFlags (mkFlags false "" "" qps 30 ":8768") ":1200" "kube-system" "" false.

(** The server ends with an error, or [main] returns; [Flush], [close] and [Stop]
    are deferred to the latter. *)
Definition apiserver_main (b : Build) (f : ApiFlags) : P (ending unit) :=
  _ <-- printVersionInfo "DeviceAPIServer" b (api_flags f) or_exit ;;
  _ <-- kube_client b (api_flags f) or_exit ;;
  authConfigReader <-- world CreateReader ;;
  match authConfigReader with
  | Err _ => Done (Exit 1)
  | Ok r =>
      w <-- world (Reload main_watch) ;;
      match w with
      | (_, Panics why) => Done (Crash why)
      | (w, Returns _) =>
          match AddToFilewatch w FileWatch.New with
          | (_, Some _) => Done (Exit 1)
          | (watch, None) =>
              _ <-- act_ (Go WatchRun) ;;
              match NewService (MounterBindPort f) (MounterNamespace f)
                      (Some (SelectorFromSet (main_selector (MounterSelector f)))) with
              | Err _ => Done (Exit 1)
              | Ok handlers =>
                  err <-- act_ (ListenAndServeTLS ("0.0.0.0" +:+ TCPBindPort (api_flags f))) ;;
                  match err : option goerr with
                  | Some _ => Done (Exit 1)
                  | None => _ <-- world (AuthConfig.Stop r) ;; Done (Goes tt)
                  end
              end
          end
      end
  end.

End Apiserver.

(** ** The mounter *)

Record MounterFlags := mkMounterFlags {
  mounter_flags : Flags;
  NodeName : string;
  CGroupDriver : string;
  flag_SocketPath : string }.

(** [node] and [driver] are the environment variables NODE_NAME and CGROUP_DRIVER. *)
Definition mounter_defaults (qps : Z) (node driver : string) : MounterFlags :=
  mkMounterFlags (mkFlags false "" "" qps 30 ":1200") node driver "/var/run/device-mounter".

(** The kubelet's configuration is read only if the flag names no driver. *)
Definition cgroup_driver (cgroupDriver : string) : P (ending string) :=
  kubelet <--
    (if decide (ToLower cgroupDriver = SYSTEMD ∨ ToLower cgroupDriver = CGROUPFS)
     then Done (Err (PlainError "")) else act_ ReadKubeletConfig) ;;
  Done match InitializeCGroupDriver kubelet cgroupDriver with
       | Panics _ => Exit 1
       | Returns driver => Goes driver
       end.

Definition StartTcpService (tcpBindPort : string) : P (result Z) :=
  listen <-- act_ (NetListen tcpBindPort) ;;
  match (listen : result Z) with
  | Err err => Done (Err err)
  | Ok l => _ <-- act_ (Go ServeTcp) ;; Done (Ok l)
  end.

(** A stale socket is removed first; an error of that is ignored. *)
Definition StartUnixService (socketPath : string) : P (result Z) :=
  let socketFile := PathJoin [socketPath; "device-mounter.sock"] in
  _ <-- act_ (OsRemove socketFile) ;;
  addr <-- act_ (ResolveUnixAddr socketFile) ;;
  match (addr : result string) with
  | Err err => Done (Err err)
  | Ok addr =>
      listen <-- act_ (ListenUnix addr) ;;
      match (listen : result Z) with
      | Err err => Done (Err err)
      | Ok l => _ <-- act_ (Go ServeUnix) ;; Done (Ok l)
      end
  end.

(** What the [select] has at hand. *)
Record Running := mkRunning {
  kubelet_proxy : PodResourcesClientPorxy;
  registry : Registry;
  tcp_listener : Z;
  unix_listener : Z }.

Definition mounter_main (b : Build) (s : Registry) (f : MounterFlags) : P (ending Running) :=
  _ <-- printVersionInfo "DeviceMounter" b (mounter_flags f) or_exit ;;
  if str_empty (TrimSpace (NodeName f)) then Done (Exit 1) else
  _ <-- cgroup_driver (CGroupDriver f) or_exit ;;
  proxyClient <-- world (GetPodResourcesClinet None) ;;
  match proxyClient with
  | None => Done (Exit 1)
  | Some proxyClient =>
      _ <-- kube_client b (mounter_flags f) or_exit ;;
      err <-- act_ AddEventHandler ;;
      match (err : option goerr) with
      | Some _ => Done (Exit 1)
      | None =>
          _ <-- act_ StartInformers ;;
          _ <-- act_ WaitForInformers ;;
          _ <-- act_ (Go PodControllerStart) ;;
          reg <-- world (RegisrtyDeviceMounter s) ;;
          match reg with
          | (_, Some _) => Done (Exit 1)
          | (s, None) =>
              _ <-- act_ (Go NodeLabellerStart) ;;
              s1 <-- StartTcpService (TCPBindPort (mounter_flags f)) ;;
              match s1 with
              | Err _ => Done (Exit 1)
              | Ok s1 =>
                  s2 <-- StartUnixService (flag_SocketPath f) ;;
                  match s2 with
                  | Err _ => Done (Exit 1)
                  | Ok s2 =>
                      _ <-- act_ SignalNotify ;;
                      Done (Goes (mkRunning proxyClient s s1 s2))
                  end
              end
          end
      end
  end.

(** ** Lifted programs *)

Definition of_world (ev : event reply) : event mreply :=
  Ev (OfWorld (ev_cmd ev) : mcmd) (ev_reply ev : mreply (OfWorld (ev_cmd ev))).
Definition of_kube (ev : kevent) : event mreply :=
  Ev (OfKube (ev_cmd ev) : mcmd) (ev_reply ev : mreply (OfKube (ev_cmd ev))).

(** What the programs see of the environment of [main]. *)
Definition world_env (e : environment mreply) (h0 : list (event mreply)) : env :=
  λ h c, e (h0 ++ map of_world h) (OfWorld c).
Definition kube_env (e : environment mreply) (h0 : list (event mreply)) : environment kreply :=
  λ h c, e (h0 ++ map of_kube h) (OfKube c).

Lemma run_world {A} e h0 h (p : M A) :
  run e (h0 ++ map of_world h) (world p) =
    (let '(a, t) := run (world_env e h0) h p in (a, map of_world t)).
Proof.
  revert h. induction p as [a|c k IH]; intros h; simpl; [done|].
  specialize (IH (world_env e h0 h c) (h ++ [Ev c (world_env e h0 h c)])). rewrite map_app, app_assoc in IH.
  change (e (h0 ++ map of_world h) (OfWorld c)) with (world_env e h0 h c).
  change (Ev (OfWorld c : mcmd) (world_env e h0 h c : mreply (OfWorld c)))
    with (of_world (Ev c (world_env e h0 h c))). simpl in IH. rewrite IH.
  by destruct (run (world_env e h0) _ _).
Qed.

Lemma run_kube {A} e h0 h (p : K A) :
  run e (h0 ++ map of_kube h) (kube p) =
    (let '(a, t) := run (kube_env e h0) h p in (a, map of_kube t)).
Proof.
  revert h. induction p as [a|c k IH]; intros h; simpl; [done|].
  specialize (IH (kube_env e h0 h c) (h ++ [Ev c (kube_env e h0 h c)])). rewrite map_app, app_assoc in IH.
  change (e (h0 ++ map of_kube h) (OfKube c)) with (kube_env e h0 h c).
  change (Ev (OfKube c : mcmd) (kube_env e h0 h c : mreply (OfKube c)))
    with (of_kube (Ev c (kube_env e h0 h c))). simpl in IH. rewrite IH.
  by destruct (run (kube_env e h0) _ _).
Qed.

Lemma wp_world {A} e h (p : M A) Q :
  wp (world_env e h) [] p (λ a t, Q a (map of_world t)) → wp e h (world p) Q.
Proof.
  unfold wp. pose proof (run_world e h [] p) as Hr. simpl in Hr. rewrite app_nil_r in Hr. rewrite Hr.
  by destruct (run (world_env e h) [] p).
Qed.

Lemma wp_kube {A} e h (p : K A) Q :
  wp (kube_env e h) [] p (λ a t, Q a (map of_kube t)) → wp e h (kube p) Q.
Proof.
  unfold wp. pose proof (run_kube e h [] p) as Hr. simpl in Hr. rewrite app_nil_r in Hr. rewrite Hr.
  by destruct (run (kube_env e h) [] p).
Qed.

Lemma wp_or_end {A B} e h (m : P (ending A)) (f : A → P (ending B)) Q :
  wp e h m (λ r t, match r with
    | Exit code => Q (Exit code) t
    | Crash why => Q (Crash why) t
    | Goes a => wp e (h ++ t) (f a) (λ r t', Q r (t ++ t'))
    end) → wp e h (or_end m f) Q.
Proof.
  intros Hm. unfold or_end. apply wp_bind. eapply wp_mono; [|exact Hm].
  intros [code|why|a] t Ht; [apply wp_done; by rewrite app_nil_r..|done].
Qed.

(** ** The client of the process *)

Definition spawned (r : Routine) (t : list (event mreply)) : Prop := Exists (λ ev, ev_cmd ev = Go r) t.

Lemma spawned_world r t : spawned r (map of_world t) ↔ False.
Proof. split; [|done]. unfold spawned. rewrite Exists_exists. by intros (ev & (x & -> & _)%list_elem_of_fmap & ?). Qed.
Lemma spawned_kube r t : spawned r (map of_kube t) ↔ False.
Proof. split; [|done]. unfold spawned. rewrite Exists_exists. by intros (ev & (x & -> & _)%list_elem_of_fmap & ?). Qed.
Lemma spawned_app r t1 t2 : spawned r (t1 ++ t2) ↔ spawned r t1 ∨ spawned r t2.
Proof. apply Exists_app. Qed.
Lemma spawned_cons r c rep t : spawned r (Ev c rep :: t) ↔ c = Go r ∨ spawned r t.
Proof. apply Exists_cons. Qed.
Lemma spawned_nil r : spawned r [] ↔ False.
Proof. apply Exists_nil. Qed.

Ltac no_spawn :=
  intros ? Hsp; repeat match type of Hsp with
  | spawned _ (map of_world _) => by apply spawned_world in Hsp
  | spawned _ (map of_kube _) => by apply spawned_kube in Hsp
  | spawned _ [] => by apply spawned_nil in Hsp
  | spawned _ (_ ++ _) => apply spawned_app in Hsp as [Hsp|Hsp]
  end.

(** The client is made of a configuration that was built once, from the flags. *)
Definition client_made (b : Build) (f : Flags) (t : list (event mreply)) : Prop :=
  ∃ config clientset, t = map of_kube
    [Ev (BuildConfigFromFlags (flag_MasterURL f) (flag_KubeConfig f)) (Ok config);
     Ev (NewForConfig (with_options config (client_options b f))) (Ok clientset)].

Lemma kube_client_wp b f e h :
  wp e h (kube_client b f) (λ o t,
    (∀ r, ¬ spawned r t) ∧
    match o with
    | Crash _ => False
    | Exit code => code = 255%Z
    | Goes (s, _) => client_made b f t ∧ ∃ config, holds_config s (Some config)
    end).
Proof.
  unfold kube_client. wp_step. apply wp_kube. unfold InitKubeConfig. cbn [newClientState KubeClient.initKubeConfig].
  wp_step. wp_step. wp_step.
  destruct r as [config|err]; cbn beta iota.
  2:{ wp_step. split; [no_spawn | done]. }
  cbn [alloc]. set (s := mkClientState _ _ _).
  assert (holds_config s (Some config)) as Hs by (split; [done|]; by exists 0).
  clearbody s. wp_step. apply wp_kube. unfold GetClientSet. wp_step.
  eapply wp_mono; [|by apply (GetKubeConfig_wp (client_options b f))].
  intros [s' o] t (-> & p & -> & Hs' & Hp & _). cbn beta iota. wp_step. wp_step. wp_step.
  unfold deref. rewrite Hp. cbn [default].
  destruct r as [clientset|err]; wp_step.
  - split; [|split; [|by exists config]].
    + no_spawn.
    + exists config, clientset. by rewrite app_nil_r.
  - split; [no_spawn|done].
Qed.

(** ** The start of the mounter, as steps of the process *)

(** The goroutines of the state are those that were started. *)
Definition tracked (t : list (event mreply)) (st : State) : Prop :=
  (labeller (labelling st) ≠ NotStarted ↔ spawned NodeLabellerStart t) ∧
  (server (tcp st) ≠ NotListening ↔ spawned ServeTcp t) ∧
  (server (unix st) ≠ NotListening ↔ spawned ServeUnix t).

(** [t] is what the program does when it ends with [a]. *)
Definition did {A} (p : P A) (a : A) (t : list (event mreply)) : Prop := ∃ e h, run e h p = (a, t).

Lemma wp_did {A} e h (p : P A) : wp e h p (did p).
Proof. unfold wp. destruct (run e h p) eqn:Hr. by exists e, h. Qed.

Lemma did_wp {A} (p : P A) a t Q : did p a t → (∀ e h, wp e h p Q) → Q a t.
Proof. intros (e & h & Hr) Hp. specialize (Hp e h). unfold wp in Hp. by rewrite Hr in Hp. Qed.

Ltac units := repeat match goal with u : mreply ?c |- _ => let T := eval cbn in (mreply c) in
  unify T unit; destruct u end.
Ltac on_answer := match goal with |- wp _ _ (match ?r with _ => _ end) _ => destruct r as [?|?] end.

Section Boot.
Variables (b : Build) (s : Registry) (f : MounterFlags).

Let socketFile : string := PathJoin [flag_SocketPath f; "device-mounter.sock"].
Let port : string := TCPBindPort (mounter_flags f).

(** What the calls are when [main] goes from one place to another. *)
Inductive performs : Main → Main → list (event mreply) → Prop :=
  | performs_no_node : TrimSpace (NodeName f) = "" → performs CheckNodeName (Exited 1) []
  | performs_no_driver t : did (cgroup_driver (CGroupDriver f)) (Exit 1) t →
      performs CheckNodeName (Exited 1) t
  | performs_node driver t : TrimSpace (NodeName f) ≠ "" →
      did (cgroup_driver (CGroupDriver f)) (Goes driver) t → performs CheckNodeName InitClients t
  | performs_no_kubelet t : did (world (GetPodResourcesClinet None)) None t →
      performs InitClients (Exited 1) t
  | performs_no_config proxy t1 t2 : did (world (GetPodResourcesClinet None)) (Some proxy) t1 →
      did (kube_client b (mounter_flags f)) (Exit 255) t2 → performs InitClients (Exited 255) (t1 ++ t2)
  | performs_clients proxy c t1 t2 : did (world (GetPodResourcesClinet None)) (Some proxy) t1 →
      did (kube_client b (mounter_flags f)) (Goes c) t2 → client_made b (mounter_flags f) t2 →
      performs InitClients InitInformers (t1 ++ t2)
  | performs_no_handler err :
      performs InitInformers (Exited 1) [Ev AddEventHandler (Some err : mreply AddEventHandler)]
  | performs_synced :
      performs InitInformers Registering
        [Ev AddEventHandler (None : mreply AddEventHandler); Ev StartInformers tt; Ev WaitForInformers tt;
         Ev (Go PodControllerStart) tt]
  | performs_registered s' t : did (world (RegisrtyDeviceMounter s)) (s', None) t →
      performs Registering ListenTcp (t ++ [Ev (Go NodeLabellerStart) tt])
  | performs_tcp_refused err :
      performs ListenTcp (Exited 1) [Ev (NetListen port) (Err err : mreply (NetListen port))]
  | performs_tcp l :
      performs ListenTcp Process.ListenUnix
        [Ev (NetListen port) (Ok l : mreply (NetListen port)); Ev (Go ServeTcp) tt]
  | performs_unresolved rm err :
      performs Process.ListenUnix (Exited 1)
        [Ev (OsRemove socketFile) rm; Ev (ResolveUnixAddr socketFile) (Err err : mreply (ResolveUnixAddr socketFile))]
  | performs_unix_refused rm addr err :
      performs Process.ListenUnix (Exited 1)
        [Ev (OsRemove socketFile) rm; Ev (ResolveUnixAddr socketFile) (Ok addr : mreply (ResolveUnixAddr socketFile));
         Ev (ListenUnix addr) (Err err : mreply (ListenUnix addr))]
  | performs_unix rm addr l :
      performs Process.ListenUnix Process.Running
        [Ev (OsRemove socketFile) rm; Ev (ResolveUnixAddr socketFile) (Ok addr : mreply (ResolveUnixAddr socketFile));
         Ev (ListenUnix addr) (Ok l : mreply (ListenUnix addr)); Ev (Go ServeUnix) tt; Ev SignalNotify tt].

(** The steps of [main] with the calls that each of them makes. *)
Inductive boots : State → list (event mreply) → State → Prop :=
  | boots_nil st : boots st [] st
  | boots_step st st' st'' t t' : main_step st st' → performs (Process.main st) (Process.main st') t →
      boots st' t' st'' → boots st (t ++ t') st''.

Lemma boots_reachable st t st' : boots st t st' → rtc step st st'.
Proof. induction 1; [done|]. eapply rtc_l; [|done]. by apply step_quiet, step_main. Qed.

(** Only these goroutines. *)
Definition spawns (rs : list Routine) (t : list (event mreply)) : Prop := ∀ r, spawned r t ↔ r ∈ rs.

Lemma spawns_app rs1 rs2 t1 t2 : spawns rs1 t1 → spawns rs2 t2 → spawns (rs1 ++ rs2) (t1 ++ t2).
Proof. intros H1 H2 r. by rewrite spawned_app, elem_of_app, (H1 r), (H2 r). Qed.
Lemma spawns_none t : (∀ r, ¬ spawned r t) → spawns [] t.
Proof. intros Ht r. split; [intros Hs; by destruct (Ht r)|by intros ?%elem_of_nil]. Qed.
Lemma spawns_nil : spawns [] [].
Proof. apply spawns_none. no_spawn. Qed.
Lemma spawns_go r rep t rs : spawns rs t → spawns (r :: rs) (Ev (Go r) rep :: t).
Proof. intros Ht r'. rewrite spawned_cons, elem_of_cons, (Ht r'). naive_solver congruence. Qed.
Lemma spawns_other c rep t rs : (∀ r, c ≠ Go r) → spawns rs t → spawns rs (Ev c rep :: t).
Proof. intros Hc Ht r. rewrite spawned_cons, (Ht r). naive_solver. Qed.

Lemma did_world_spawns {A} (p : M A) a t : did (world p) a t → spawns [] t.
Proof.
  intros Hd. apply (did_wp _ _ _ (λ _ t, spawns [] t) Hd). intros e h. apply wp_world.
  eapply wp_mono; [|apply wp_true]. intros a' t' _. apply spawns_none. no_spawn.
Qed.

Lemma did_client_spawns a t : did (kube_client b (mounter_flags f)) a t → spawns [] t.
Proof.
  intros Hd. apply (did_wp _ _ _ (λ _ t, spawns [] t) Hd). intros e h.
  eapply wp_mono; [|apply kube_client_wp]. intros a' t' [Ht _]. by apply spawns_none.
Qed.

Lemma driver_ends e h :
  wp e h (cgroup_driver (CGroupDriver f))
    (λ o _, match o with Exit code => code = 1%Z | Crash _ => False | Goes _ => True end).
Proof.
  unfold cgroup_driver. wp_step. eapply wp_mono; [|apply wp_true]. intros r t _. wp_step.
  by destruct (InitializeCGroupDriver _ _).
Qed.

Lemma driver_spawns a t : did (cgroup_driver (CGroupDriver f)) a t → spawns [] t.
Proof.
  intros Hd. apply (did_wp _ _ _ (λ _ t, spawns [] t) Hd). intros e h. unfold cgroup_driver. wp_step.
  apply (wp_mono _ _ _ (λ _ t, spawns [] t)).
  - intros a' t' Ht. wp_step. by rewrite app_nil_r.
  - case_decide; [wp_step; apply spawns_nil|]. wp_step. apply spawns_other; [done|apply spawns_nil].
Qed.

(** The goroutines that a step starts. *)
Definition started (m m' : Main) : list Routine :=
  match m, m' with
  | InitInformers, Registering => [PodControllerStart]
  | Registering, ListenTcp => [NodeLabellerStart]
  | ListenTcp, Process.ListenUnix => [ServeTcp]
  | Process.ListenUnix, Process.Running => [ServeUnix]
  | _, _ => []
  end.

Lemma performs_spawns m m' t : performs m m' t → spawns (started m m') t.
Proof.
  assert (∀ t1 t2, spawns [] t1 → spawns [] t2 → spawns [] (t1 ++ t2)) as Happ
    by (intros; by apply (spawns_app [] [])).
  destruct 1; cbn [started];
    eauto 6 using spawns_nil, did_world_spawns, did_client_spawns, driver_spawns;
    repeat first [apply spawns_nil | apply spawns_go | apply spawns_other; [by intros ?|]].
  apply (spawns_app [] [_]); [by eapply did_world_spawns|]. apply spawns_go, spawns_nil.
Qed.

Lemma performs_early m m' t : performs m m' t → ∀ todo code, m ≠ Stopping todo code.
Proof. by destruct 1. Qed.

Lemma step_tracked st st' t t0 :
  main_step st st' → performs (Process.main st) (Process.main st') t → tracked t0 st → tracked (t0 ++ t) st'.
Proof.
  intros Hs Hp (H1 & H2 & H3). pose proof (performs_early _ _ _ Hp) as Hearly.
  apply performs_spawns in Hp. unfold tracked. rewrite !spawned_app, !(Hp _), <- H1, <- H2, <- H3.
  destruct Hs as [Hc|Hc|Hc|Hc|Hc|Hc|Hc|Hc|Hc|Hc|Hc|Hc|Hc|Hc|Hc|Hc|w todo code Hc|w todo code Hc|code Hc|code Hc];
    rewrite Hc; cbn [started Process.main set_main]; rewrite ?elem_of_cons, ?elem_of_nil.
  17: by destruct (Hearly (w :: todo) code).
  all: cbn; intuition congruence.
Qed.

Lemma boots_tracked st t st' t0 : boots st t st' → tracked t0 st → tracked (t0 ++ t) st'.
Proof.
  intros Hb. revert t0. induction Hb as [|st st1 st2 t t' Hs Hp _ IH]; intros t0 Ht; [by rewrite app_nil_r|].
  rewrite app_assoc. by eapply IH, step_tracked.
Qed.

(** How [main] is followed: what is left of it, from a state on, is a continuation of
    the run that leads there. *)
Definition place (o : ending Running) : option Main :=
  match o with Exit code => Some (Exited code) | Goes _ => Some Process.Running | Crash _ => None end.
Definition boots_to (st : State) (o : ending Running) (t : list (event mreply)) : Prop :=
  ∃ st', boots st t st' ∧ place o = Some (Process.main st').

Lemma boots_on st st' t t' o :
  main_step st st' → performs (Process.main st) (Process.main st') t → boots_to st' o t' → boots_to st o (t ++ t').
Proof. intros Hs Hp (st2 & Hb & Hm). exists st2. split; [|done]. by eapply boots_step. Qed.

Lemma boots_end st st' t o :
  main_step st st' → performs (Process.main st) (Process.main st') t → place o = Some (Process.main st') →
  boots_to st o t.
Proof.
  intros Hs Hp Hm. rewrite <- (app_nil_r t). eapply boots_on; [done..|]. exists st'. split; [constructor|done].
Qed.

Lemma wp_boots_on e h p st st' t :
  main_step st st' → performs (Process.main st) (Process.main st') t → wp e h p (boots_to st') →
  wp e h p (λ o t', boots_to st o (t ++ t')).
Proof. intros Hs Hp. apply wp_mono. intros o t'. by apply boots_on. Qed.

(** The calls of a trace, as one list. *)
Ltac calls_end := repeat wp_step; cbn [app]; units; rewrite ?app_nil_r.

Lemma registers e h : wp e h (world (RegisrtyDeviceMounter s)) (λ r _, snd r = None).
Proof.
  apply wp_world. unfold RegisrtyDeviceMounter. wp_step. eapply wp_mono; [|apply wp_true].
  intros m t _. by wp_step.
Qed.

Lemma wp_boots_on2 e h p st st' t1 t2 :
  main_step st st' → performs (Process.main st) (Process.main st') (t1 ++ t2) → wp e h p (boots_to st') →
  wp e h p (λ o t', boots_to st o (t1 ++ t2 ++ t')).
Proof. intros Hs Hp. apply wp_mono. intros o t'. rewrite app_assoc. by apply boots_on. Qed.

(** [main] stops at, or goes through, a place. *)
Ltac stops rule how := calls_end; eapply boots_end; [by apply rule|by eapply how|done].
Ltac passes rule how := eapply wp_boots_on; [by apply rule|units; by eapply how|].
Ltac passes2 rule how := eapply wp_boots_on2; [by apply rule|units; by eapply how|].

(** From the registration on. *)
Lemma listen_boots e h st (k : Z → Z → Running) :
  Process.main st = ListenTcp →
  wp e h (s1 <-- StartTcpService (TCPBindPort (mounter_flags f)) ;;
          match s1 with
          | Err _ => Done (Exit 1)
          | Ok s1 =>
              s2 <-- StartUnixService (flag_SocketPath f) ;;
              match s2 with
              | Err _ => Done (Exit 1)
              | Ok s2 => _ <-- act_ SignalNotify ;; Done (Goes (k s1 s2))
              end
          end) (boots_to st).
Proof.
  intros Hc. unfold StartTcpService. do 3 wp_step. on_answer.
  2:{ calls_end. eapply boots_end; [by apply main_tcp_refused|rewrite Hc; constructor|done]. }
  do 3 wp_step. units. eapply (wp_boots_on _ _ _ _ _ [_; _]); [by apply main_tcp|rewrite Hc; by eapply performs_tcp|].
  wp_step. unfold StartUnixService. cbn zeta. repeat wp_step. on_answer.
  2:{ stops main_unix_refused performs_unresolved. }
  repeat wp_step. on_answer; [stops main_unix performs_unix|stops main_unix_refused performs_unix_refused].
Qed.

Lemma mounter_boots e h :
  version (mounter_flags f) = false → wp e h (mounter_main b s f) (boots_to init).
Proof.
  intros Hv. unfold mounter_main. apply wp_or_end. unfold printVersionInfo. rewrite Hv. wp_step.
  unfold str_empty. case_bool_decide as Hn; [stops main_no_node performs_no_node|].
  apply wp_or_end. eapply wp_mono; [|apply wp_and; [apply wp_did|apply driver_ends]].
  intros o t [Hdid Ho]. destruct o as [code|why|driver]; cbn in Ho; [subst code|done|].
  { stops main_no_node performs_no_driver. }
  passes main_node performs_node. wp_step. eapply wp_mono; [|apply wp_did].
  intros [proxy|] t1 Hproxy; cbn beta iota; [|stops main_no_kubelet performs_no_kubelet].
  apply wp_or_end. eapply wp_mono; [|apply wp_and; [apply wp_did|apply kube_client_wp]].
  intros o t2 [Hclient [_ Hc]]. destruct o as [code|why|c]; [subst code|done|destruct c as [cs clientset], Hc as [Hmade _]].
  { stops main_no_config performs_no_config. }
  passes2 main_clients performs_clients. wp_step. wp_step.
  destruct r as [err|]; [stops main_no_handler performs_no_handler|].
  do 6 wp_step. units. eapply (wp_boots_on _ _ _ _ _ [_; _; _; _]); [by apply main_synced|by eapply performs_synced|].
  wp_step. eapply wp_mono; [|apply wp_and; [apply wp_did|apply registers]].
  intros [s' o] t3 [Hreg Ho']. cbn in Ho'. subst o. cbn beta iota. do 2 wp_step.
  passes2 main_registered performs_registered. by apply listen_boots.
Qed.

End Boot.

(** C22. The start of the mounter refines the transition system of [Process]. The
    version flag prints one line and exits with 0. Otherwise, whatever the calls
    answer, they are those of a run of [main]'s steps from the initial state, step by step and in
    that order ([performs] says which calls belong to which step): the node name
    and the cgroup driver, the clients, the informers, the registration of the
    mounters and then the labeller, the TCP server, the unix server. [main] ends
    where the run does: it exits with the code of the step that failed, or
    gets to its [select], and never crashes. The goroutines it leaves are those of that state. *)
Theorem mounter_start_refines b s f e h :
  wp e h (mounter_main b s f) (λ o t,
    if version (mounter_flags f)
    then o = Exit 0 ∧ t = [Ev (Printf (version_line "DeviceMounter" b)) tt]
    else ∃ st, boots b s f init t st ∧ rtc step init st ∧ tracked t st ∧ place o = Some (Process.main st)).
Proof.
  destruct (version (mounter_flags f)) eqn:Hv.
  - unfold mounter_main. apply wp_or_end. unfold printVersionInfo. rewrite Hv.
    wp_step. wp_step. wp_step. units. by rewrite app_nil_r.
  - eapply wp_mono; [|by apply mounter_boots]. intros o t (st & Hb & Hm). exists st.
    split_and!; [done|by eapply boots_reachable| |done].
    apply (boots_tracked b s f init t st [] Hb). unfold tracked. rewrite !spawned_nil. cbn. tauto.
Qed.

(** ** The start of the apiserver *)

Section ApiserverFacts.
Context `{LabelsLib, RangeLib, TlsLib}.

(** No call of the trace listens. *)
Definition silent (t : list (event mreply)) : Prop :=
  Forall (λ ev, ∀ addr, ev_cmd ev ≠ ListenAndServeTLS addr) t.

Lemma silent_world t : silent (map of_world t).
Proof. apply Forall_map, Forall_forall. by intros ev _ addr. Qed.
Lemma silent_kube t : silent (map of_kube t).
Proof. apply Forall_map, Forall_forall. by intros ev _ addr. Qed.

(** The informer of the authentication configuration is in step. *)
Lemma CreateReader_synced (e : env) h :
  wp e h CreateReader (λ o t, ∀ r, o = Ok r → Ev WaitForCacheSync true ∈ t).
Proof.
  unfold CreateReader. wp_step. wp_step. destruct r; [wp_step; done|]. repeat wp_step.
  match goal with |- wp _ _ (if ?b then _ else _) _ => destruct b end; repeat wp_step; [|done].
  intros ? _. set_solver.
Qed.

Lemma kube_client_silent b f e h : wp e h (kube_client b f) (λ _ t, silent t).
Proof.
  unfold kube_client. wp_step. apply wp_kube. eapply wp_mono; [|apply wp_true]. intros [s [err|]] t _.
  { wp_step. rewrite app_nil_r. apply silent_kube. }
  wp_step. apply wp_kube. eapply wp_mono; [|apply wp_true]. intros r t' _. wp_step.
  rewrite app_nil_r. apply Forall_app. split; apply silent_kube.
Qed.

Ltac silence :=
  repeat first [apply Forall_app; split | eassumption | apply silent_world | apply silent_kube];
  by repeat constructor.

(** C32. The start of the apiserver. The version flag exits with 0 after one line;
    any other exit has code 255 (the client) or 1, and the process never crashes on the client
    configuration. If it listens, then on the flag's port of all addresses,
    with a client made of a configuration that was built once from the flags,
    after the authentication configuration has been synchronised, and with a
    selector of mounters that is not empty. *)
Theorem apiserver_starts b f e h :
  wp e h (apiserver_main b f) (λ o t,
    match o with
    | Exit code =>
        (code = 0%Z ∧ version (api_flags f) = true ∧ length t = 1) ∨
        (version (api_flags f) = false ∧ (code = 255%Z ∨ code = 1%Z))
    | Crash _ => version (api_flags f) = false ∧ silent t
    | Goes _ => version (api_flags f) = false
    end ∧
    (¬ silent t →
       SelectorFromSet (main_selector (MounterSelector f)) ≠ "" ∧
       ∃ t1 t2 rep t3, t = t1 ++ t2 ++ Ev (ListenAndServeTLS ("0.0.0.0" +:+ TCPBindPort (api_flags f))) rep :: t3 ∧
         client_made b (api_flags f) t1 ∧
         Ev (OfWorld WaitForCacheSync : mcmd) (true : mreply (OfWorld WaitForCacheSync)) ∈ t2 ∧
         silent (t1 ++ t2) ∧ silent t3)).
Proof.
  unfold apiserver_main. apply wp_or_end. unfold printVersionInfo.
  destruct (version (api_flags f)).
  { wp_step. wp_step. wp_step. split; [by left|]. intros []. silence. }
  wp_step. apply wp_or_end. eapply wp_mono; [|apply wp_and; [apply kube_client_wp|apply kube_client_silent]].
  intros o t1 [[_ Ho] Hs1]. destruct o as [code|why|[cs clientset]]; [subst code; split; [by right; split; [|left]|done]|done|].
  destruct Ho as [Hmade _]. wp_step. apply wp_world. eapply wp_mono; [|apply CreateReader_synced].
  intros [r|err] t2 Hsync.
  2:{ wp_step. split; [by right; split; [|right]|]. intros []. silence. }
  specialize (Hsync r eq_refl). wp_step. apply wp_world. eapply wp_mono; [|apply wp_true].
  intros [w [[]|why]] t3 _; cbn beta iota.
  2:{ wp_step. split; [split; [done|silence]|]. intros []. silence. }
  destruct (AddToFilewatch w FileWatch.New) as [watch [err|]].
  { wp_step. split; [by right; split; [|right]|]. intros []. silence. }
  wp_step. wp_step. rewrite NewService_spec. unfold str_empty. case_bool_decide as Hsel.
  { wp_step. split; [by right; split; [|right]|]. intros []. silence. }
  repeat wp_step. cbn [app]. rename r1 into rep.
  assert (∀ t', silent t' →
    SelectorFromSet (main_selector (MounterSelector f)) ≠ "" ∧
    ∃ t4 t5 rep' t6, t1 ++ map of_world t2 ++ map of_world t3 ++ Ev (Go WatchRun : mcmd) r0 ::
        Ev (ListenAndServeTLS ("0.0.0.0" +:+ TCPBindPort (api_flags f)) : mcmd) rep :: t' =
      t4 ++ t5 ++ Ev (ListenAndServeTLS ("0.0.0.0" +:+ TCPBindPort (api_flags f))) rep' :: t6 ∧
      client_made b (api_flags f) t4 ∧
      Ev (OfWorld WaitForCacheSync : mcmd) (true : mreply (OfWorld WaitForCacheSync)) ∈ t5 ∧
      silent (t4 ++ t5) ∧ silent t6) as Hserving.
  { intros t' Ht'. split; [done|].
    exists t1, (map of_world t2 ++ map of_world t3 ++ [Ev (Go WatchRun : mcmd) r0]), rep, t'.
    split; [by rewrite <- !app_assoc|]. split; [done|]. split; [|split; [silence|done]].
    apply elem_of_app. left. exact (list_elem_of_fmap_2 of_world _ _ Hsync). }
  destruct rep as [err|].
  - wp_step. split; [right; auto|]. intros _. apply (Hserving []). constructor.
  - wp_step. apply wp_world. eapply wp_mono; [|apply wp_true]. intros [] t' _. wp_step. split; [done|].
    intros _. apply Hserving. rewrite app_nil_r. apply silent_world.
Qed.

End ApiserverFacts.
